(* ===== verification/_CoqProject ===== *)
-Q . S2P
Prelude.v
Messages.v
ChangeSet.v
CopyChannel.v
ChannelThreads.v
HexCodec.v
Metrics.v
SessionPool.v
PendingStore.v
DataBoard.v
Events.v
EventBus.v
LocalEngine.v
WsFrameCodec.v
Observability.v
Subscriptions.v
Backpressure.v
Evolution.v
World.v
MessageProcessor.v
Heartbeat.v
Demo.v
TickAtomic.v
TickChange.v
TickWorkers.v
HeartbeatSteps.v
HeartbeatFacts.v
RequestFacts.v
Server.v
Proto.v
RequestParser.v
ResponseWriter.v
Jwt.v
TtsService.v
ServiceFacts.v
Handlers.v
HandlersFacts.v
HandlersRun.v
System.v
PriorityTimer.v
Config.v
Ieee.v
MockEngine.v
Mediator.v
Startup.v
OpenSslCalls.v
Upstream.v
ThreadPool.v
PoolStop.v
EndToEnd.v
FullServer.v
Trip.v
Rounding.v
Resampler.v
ResamplerFacts.v
Sherpa.v
Started.v
Served.v
LwsTransport.v
LwsFacts.v
LwsClose.v
Reactor.v
ReactorFacts.v
BusWorkers.v
BusStop.v
Shutdown.v
