(* ===== verification/Prelude.v ===== *)
(** * tts_server: a verification development

    The program is a text-to-speech server in C++ (src/src, paths below are relative
    to it).  Clients call a gRPC service (entry/); requests travel through a channel
    to a heartbeat thread (heartbeat/) that owns all scheduling state, the data board
    (databoard/); a request is synthesised by a local engine (local/) or by a remote
    service over WebSocket (upstream/); responses go back through the service's
    tables to the client's stream.  framework/ holds the building blocks (messages,
    change sets, channels, event bus, clock, timers, thread pool), observability/
    listeners on the event bus, main.cpp puts everything together.

    ** How the program is modelled

    Pure functions are functions.  A class is a [Record] of its members, a method a
    function from and to that record; assignment to a member is [r <| m := v |>]
    (below).  A function that may throw returns [result].  Objects shared by several
    classes ([std::shared_ptr]) are members of one state that is passed along: [World]
    (World.v) for what the heartbeat touches, [Service] for the gRPC service with the
    heap of its shared queues.  Threads are interleavings: each access under a mutex,
    or to one atomic, is one step of an inductive relation, and theorems hold for all
    executions, by rule induction.  Integers are [Z] reduced to their width where they
    wrap ([u64], [i64], [i32]); [double] and [float] are [SpecFloat]'s binary64 and
    binary32; an [std::unordered_map] is a [gmap] whose iteration order is a parameter
    ([UMapOrder]), so theorems hold for every order.

    Code that is not in the repository, and the outside world, are parameters: the
    readings of the clocks and the random draws ([Env] in World.v), nlohmann::json
    ([NlohmannJson] in WsFrameCodec.v), OpenSSL ([OpenSsl] in Jwt.v as two functions,
    [OpenSslApi] in OpenSslCalls.v call by call), success of writes
    to a client's stream ([Net] in TtsService.v), exp, sin and the outcome of
    conversions that C++ leaves undefined ([Libm] in MockEngine.v), the sherpa-onnx
    library ([SherpaApi] with [SherpaLaws] in Sherpa.v), libwebsockets (whether a
    context is created and a connection made, and the callbacks of each service call,
    in LwsTransport.v), the process environment and the file system (Config.v,
    Startup.v), WebSocket transports ([IWsTransport] in Upstream.v).  The local engine
    is an interface ([ILocalTtsEngine]) against which the heartbeat is verified; what an
    engine promises is the class [EngineLaws], which the factory's engines satisfy
    ([factory_laws] in Sherpa.v, [started_engine] in Started.v) and Trip.v relies on.

    Threads that wait on condition variables, join each other or are cancelled
    (ChannelThreads.v, Handlers.v, ThreadPool.v, BusWorkers.v, LwsTransport.v, Reactor.v,
    Shutdown.v) have a program point each; a step runs one thread to the next point another thread can observe,
    and a blocked thread has no step.  These steps are executable functions, and a
    schedule given as a list of moves can be evaluated.

    ** Files, in dependency order

    - Prelude.v (this file): results, member assignment, machine integers, lists,
      iteration over hash maps.
    - Messages.v: framework/messages.h.  ChangeSet.v: framework/change_set.h and
      heartbeat/changeset_builder.h.  CopyChannel.v: framework/copy_channel.h, its
      operations as atomic steps; ChannelThreads.v: the mutex and condition variable
      behind them.
      HexCodec.v: upstream/hex_codec.h.
    - Metrics.v, SessionPool.v, PendingStore.v, DataBoard.v: databoard/.
    - Events.v, EventBus.v: framework/event_bus.h and .cpp and the event structs.
    - LocalEngine.v: local/local_tts_engine.h, and samples as bytes.
    - WsFrameCodec.v: upstream/ws_frame_codec.h and .cpp and
      upstream/minimax_protocol_adapter.h.
    - Observability.v: observability/.  Subscriptions.v: the objects that own
      subscriptions, dispatch beside resets, the observers' destructors.  Backpressure.v, Evolution.v: the
      controller and the evolution engine of heartbeat/.
    - World.v: the shared state, clock and event delivery.  MessageProcessor.v:
      heartbeat/message_processor.h.  Heartbeat.v: heartbeat/heartbeat.h, every handler
      and [tick].  Demo.v: concrete inputs.  TickAtomic.v: a tick in small steps, with
      requests arriving in between.  TickChange.v: each part of a tick commutes with what
      listeners do.  TickWorkers.v: the tick beside bus workers as well.
    - HeartbeatSteps.v, HeartbeatFacts.v, RequestFacts.v: what handlers and ticks do.
      HeartbeatSteps.v decomposes every handler into few kinds of state changes, and
      invariants of the board are proved once per kind.
    - Server.v: executions of the heartbeat with everything around it arbitrary.
    - Proto.v: the protobuf messages (src/proto).  RequestParser.v, ResponseWriter.v,
      Jwt.v, TtsService.v: entry/.  ServiceFacts.v: routing and delivery, a round of a
      handler's loop being one step.  Handlers.v: the handlers of any number of calls and
      the dispatching thread, every access to shared state a step of its own;
      HandlersFacts.v: their invariant; HandlersRun.v: undisturbed runs, which are those
      of TtsService.v, and schedules.
    - System.v: the heartbeat thread of main.cpp with service and engine.  EndToEnd.v:
      requests followed to their responses.  Trip.v: one client's handler beside the
      whole server, from its request to the samples it reads; Started.v: the same for
      every server that starts, with the engine its factory makes.
    - FullServer.v: everything at once, the calls of Handlers.v with the heartbeat thread
      and its jobs, and the two projections that reuse System.v and HandlersFacts.v.
      Served.v: what the clients of a server that starts are sent.
    - PriorityTimer.v, ThreadPool.v, PoolStop.v: framework/.  Config.v: config.h and
      .cpp.
    - Ieee.v, MockEngine.v: double arithmetic, the mock engine and the engine factory.
      Mediator.v: the gateway service.  Startup.v: main.cpp up to serving.
      OpenSslCalls.v: the handles of the JWT verifier, call by call.
      Upstream.v: upstream/upstream_client.h and ws_task_scheduler.h.
    - Rounding.v: bounds on IEEE rounding, multiplication and division, for every
      precision.  Resampler.v, ResamplerFacts.v: local/audio_resampler.cpp.  Sherpa.v:
      local/sherpa_local_tts.h and .cpp.
    - LwsTransport.v: upstream/lws_transport.cpp, the three threads of a WebSocket
      client.  LwsFacts.v: lines, messages and lost connections.  LwsClose.v: closing.
    - Reactor.v, ReactorFacts.v: framework/task.h, task.cpp and reactor.h.
      BusWorkers.v, BusStop.v: the inbox and workers of framework/event_bus.cpp, and the
      end of their stop.  Shutdown.v:
      main.cpp from serving to its return.

    ** What the theorems show

    - The whole server with all its clients (Served.v, FullServer.v, HandlersFacts.v):
      everyone is sent the engine's answers to their own requests and nothing else
      ([own_answer_only]); an answer looked up for a registered call is written by its
      handler as soon as that is let run ([answer_reaches_client]); clients are kept
      apart whatever the heartbeat dispatches ([clients_kept_apart]); and two races of
      the service ([service_races]).
    - The assembled server (EndToEnd.v, Started.v, System.v): with room below the
      watermarks every waiting request for the local engine becomes a job and is
      answered in order by the tick after ([local_requests_served]); under any
      interleaving the client of a server that starts reads exactly one response, with
      the samples the engine made ([client_hears_engine]); every job is answered exactly once, by the next tick,
      in order, with the engine's result ([local_jobs_answered]); a tick taken as one
      step is a tick in small steps beside arriving requests and bus workers
      ([tick_atomic_beside]); the in-flight gauge is exact and bounded by the
      watermark ([gauge_exact]); the heartbeat thread never dies ([round_completes]).
    - The heartbeat against an arbitrary environment (Server.v, RequestFacts.v): the
      board keeps its invariant in every execution ([board_invariant]), responses and
      gauge balance ([inflight_conservation]), the responses of a tick
      ([tick_client_writes]), what a request does on each path ([request_local],
      [request_upstream], [request_refused]); and two consequences the code does not
      intend: upstream requests are never answered ([upstream_never_answered]) and
      sessions expire in the tick that creates them ([sessions_expire_at_once]).
    - The service (ServiceFacts.v): responses are routed to their request
      ([dispatch_routes]) and delivered to the client in order up to the final one
      ([stream_delivers_in_order]); request ids are distinct
      ([request_ids_distinct]); requests are validated ([parse_unary_spec]).
    - Access (Jwt.v, Startup.v): verification accepts exactly the acceptable tokens
      ([jwt_accepts]) and a server started with authentication lets nothing pass
      without one ([auth_enforced]); the calls to OpenSSL implement that verification
      and release every handle ([verifier_implements]).
    - Data structures: the session pool refines a recency list ([pool_refines_lru],
      [pool_queries], [pool_capacity]); the pending store accumulates chunks
      ([store_accumulates]); evolution closes and drops exactly what it must
      ([evolve_correct], [evolve_single_layer]); channels are lossless FIFO queues
      under all interleavings ([channel_fifo], [channel_closed_drains]), their threads
      implement them ([channel_threads_refine]) and lose no wake-up
      ([channel_no_lost_wakeup]); the event bus calls the live subscribers and loses
      nothing ([dispatch_live_subscribers], [async_no_loss]), subscription objects own
      their listeners ([subscriptions_owned]) and a reset silences them, unless a
      dispatch is under way ([reset_silences], [late_call]); timers fire once and in order ([timer_exactly_once],
      [pop_expired_spec]); the thread pool runs tasks in order, and what its shutdown
      does ([pool_fifo], [shutdown_abandons], [shutdown_lost_wakeup],
      [pool_shutdown_ends]); the scheduler
      delivers frames per session ([scheduler_delivers]).
    - Codecs and settings: hexadecimal ([hex_decode_encode], [hex_decode_total]), PCM
      bytes ([synth_roundtrip]), names ([enum_names_roundtrip]), the percentile
      ([heartbeat_p99_rank], [latency_window]), the environment
      ([config_reads_numbers], [from_env_throws], [validate_spec], [startup_routing],
      [startup_exits]), the mock engine ([mock_synthesize_spec]).
    - Audio (ResamplerFacts.v, Sherpa.v): conversion to 16 bits never overflows
      ([float_to_int16_bounds]); resampling reads inside its input for every rate whose
      ratio is not rounded up ([resample_in_bounds]), and outside it for another one
      ([resample_reads_outside]); mixing ([mix_groups_terminates],
      [stereo_to_mono_spec]); the sherpa engine on every path
      ([sherpa_synthesize_safe]) and whatever engine the factory returns
      ([factory_engine_answers]).
    - The WebSocket transport: lines are delivered as splitting the stream would
      ([lws_lines_equiv]), messages are written in order and none is forgotten
      ([lws_writes_in_order]), closing returns ([lws_close_returns]), losing the
      connection ends the process ([lws_lost_terminates]); and schedules in which the
      threads get in each other's way (end of LwsClose.v).
    - Threads: timer tasks fire once and not early ([reactor_timer_once]), stopping the
      reactor ends its loop ([reactor_stop_ends]) and its pools for good
      ([reactor_stopped_dead]); the bus workers run events in order
      ([bus_workers_fifo]), can miss a stop ([bus_stop_lost_wakeup]) and otherwise end
      ([bus_stop_ends]); main returns
      only when nothing is left running ([main_exits_clean]), without draining the
      calls in progress ([shutdown_does_not_drain]).

    ** Fuel

    Loops that are not structural have fuel that provably suffices: 20 digits for a
    64-bit number ([decimal_loop]), 16 for a hexadecimal one ([hex_digits_of]), 3
    padding characters ([pad_loop]), the size of the heap for [pop_loop], the number of
    samples for [mix_groups].

    ** Not modelled

    Accessors that return one member, constructors that only store their arguments and
    the unused [slurp] of local/sherpa_local_tts.cpp; log output other than the event logger's and the values of the slow-task warning,
    and set-up of the logger in main.cpp; gRPC and protobuf themselves; the interleaving
    of several owner threads calling one WebSocket transport (its owner is one thread,
    the scheduler's); memory safety of libwebsockets calls made from the wrong thread. *)

From Stdlib Require Export ZArith Lia.
From stdpp Require Export base tactics option list gmap sets strings sorting.

#[global] Arguments String.append !s1 s2 / : simpl nomatch.

(** ** Results of operations that may throw *)

(** A C++ function that may throw an exception of class [E]. *)
Inductive result (E A : Type) : Type :=
| Ok (a : A)
| Throw (e : E).
Arguments Ok {E A} a.
Arguments Throw {E A} e.

#[global] Instance result_ret E : MRet (result E) := λ A a, Ok a.
#[global] Instance result_bind E : MBind (result E) := λ A B f r,
  match r with Ok a => f a | Throw e => Throw e end.

Definition is_ok {E A} (r : result E A) : bool :=
  match r with Ok _ => true | Throw _ => false end.

(** ** Assignment to a member

    [r <| f := v |>] is [r] after [r.f = v], and [r <| f ::= g |>] after
    [r.f = g(r.f)].  A record says once, with an [Eta] instance, how it is
    rebuilt from its members; the setter of a member is obtained from it by
    abstracting the projection. *)
Class Eta (R : Type) := { eta_expand : R → R }.
Class Setter {R T : Type} (proj : R → T) := { set_member : (T → T) → R → R }.
#[global] Hint Mode Setter + + + : typeclass_instances.

Ltac solve_setter :=
  match goal with
  | |- @Setter ?R ?T ?proj =>
      let i := constr:(_ : Eta R) in
      let i := eval hnf in i in
      match i with
      | {| eta_expand := ?e |} =>
          let p := eval pattern proj in e in
          match p with
          | ?F _ => exact {| set_member := λ g : T → T, F (λ r : R, g (proj r)) |}
          end
      end
  end.
#[global] Hint Extern 1 (@Setter _ _ _) => solve_setter : typeclass_instances.

Declare Scope member_scope.
Notation "r <| f := v |>" := (set_member (proj:=f) (λ _, v) r)
  (at level 1, f constr at level 1, left associativity) : member_scope.
Notation "r <| f ::= g |>" := (set_member (proj:=f) g r)
  (at level 1, f constr at level 1, left associativity) : member_scope.
#[global] Open Scope member_scope.

(** ** Machine integers *)

(** [std::uint64_t], [std::int64_t] and [int] as integers reduced to their
    width.  Unsigned arithmetic wraps; signed arithmetic is reduced the same
    way (two's complement), and the theorems that depend on the absence of
    signed overflow say so. *)
Definition u64 (z : Z) : Z := (z mod 2 ^ 64)%Z.
Definition i64 (z : Z) : Z := ((z + 2 ^ 63) mod 2 ^ 64 - 2 ^ 63)%Z.
Definition i32 (z : Z) : Z := ((z + 2 ^ 31) mod 2 ^ 32 - 2 ^ 31)%Z.

Lemma u64_range z : (0 ≤ u64 z < 2 ^ 64)%Z.
Proof. apply Z.mod_pos_bound; lia. Qed.

Lemma u64_small z : (0 ≤ z < 2 ^ 64)%Z → u64 z = z.
Proof. apply Z.mod_small. Qed.

Lemma u64_add_l a b : u64 (u64 a + b) = u64 (a + b).
Proof. apply Zplus_mod_idemp_l. Qed.

Lemma u64_sub_l a b : u64 (u64 a - b) = u64 (a - b).
Proof. apply Zminus_mod_idemp_l. Qed.

Lemma i64_range z : (- 2 ^ 63 ≤ i64 z < 2 ^ 63)%Z.
Proof. unfold i64. pose proof (Z.mod_pos_bound (z + 2 ^ 63) (2 ^ 64)). lia. Qed.

Lemma i64_small z : (- 2 ^ 63 ≤ z < 2 ^ 63)%Z → i64 z = z.
Proof. intros. unfold i64. rewrite Z.mod_small; lia. Qed.

Lemma i64_add_l a b : i64 (i64 a + b) = i64 (a + b).
Proof.
  unfold i64.
  replace ((a + 2 ^ 63) mod 2 ^ 64 - 2 ^ 63 + b + 2 ^ 63)%Z
    with ((a + 2 ^ 63) mod 2 ^ 64 + b)%Z by lia.
  rewrite Zplus_mod_idemp_l. f_equal. f_equal. lia.
Qed.

Lemma i32_range z : (- 2 ^ 31 ≤ i32 z < 2 ^ 31)%Z.
Proof. unfold i32. pose proof (Z.mod_pos_bound (z + 2 ^ 31) (2 ^ 32)). lia. Qed.

Lemma i32_small z : (- 2 ^ 31 ≤ z < 2 ^ 31)%Z → i32 z = z.
Proof. intros. unfold i32. rewrite Z.mod_small; lia. Qed.

(** ** Time *)

(** [steady_clock::time_point] and [nanoseconds]: a count of nanoseconds. *)
Abbreviation TimePoint := Z.

(** [std::chrono::seconds(n)] in nanoseconds. *)
Definition seconds (n : Z) : Z := (n * 1000000000)%Z.

(** ** Lists *)

Lemma omap_cons_eq {A B} (f : A → option B) x (l : list A) :
  omap f (x :: l) = match f x with Some y => y :: omap f l | None => omap f l end.
Proof. done. Qed.

Lemma filter_fmap {A B} (f : A → B) (P : B → Prop) `{∀ x, Decision (P x)} (l : list A) :
  filter P (f <$> l) = f <$> filter (λ x, P (f x)) l.
Proof.
  induction l as [|x l IH]; [done|]. rewrite fmap_cons. destruct (decide (P (f x))).
  - rewrite filter_cons_True, (filter_cons_True (λ x, P (f x))), fmap_cons by done.
    by rewrite IH.
  - by rewrite filter_cons_False, (filter_cons_False (λ x, P (f x))) by done.
Qed.

(** Filters by predicates that agree on the elements. *)
Lemma list_filter_iff' {A} (P Q : A → Prop) `{∀ x, Decision (P x), ∀ x, Decision (Q x)}
    (l : list A) :
  (∀ x, x ∈ l → P x ↔ Q x) → filter P l = filter Q l.
Proof.
  intros HPQ. induction l as [|x l IH]; [done|].
  assert (P x ↔ Q x) as Hx by (apply HPQ; left).
  rewrite !filter_cons, IH by (intros; apply HPQ; by right).
  destruct (decide (P x)), (decide (Q x)); tauto || done.
Qed.

Lemma list_filter_all {A} (P : A → Prop) `{∀ x, Decision (P x)} (l : list A) :
  (∀ x, x ∈ l → P x) → filter P l = l.
Proof.
  intros HP. induction l as [|x l IH]; [done|].
  rewrite filter_cons_True by (apply HP; left). by rewrite IH by (intros; apply HP; by right).
Qed.

Lemma list_filter_none {A} (P : A → Prop) `{∀ x, Decision (P x)} (l : list A) :
  (∀ x, x ∈ l → ¬ P x) → filter P l = [].
Proof.
  intros HP. induction l as [|x l IH]; [done|].
  rewrite filter_cons_False by (apply HP; left). by rewrite IH by (intros; apply HP; by right).
Qed.

Lemma filter_sublist {A} (P : A → Prop) `{∀ x, Decision (P x)} (l k : list A) :
  l `sublist_of` k → filter P l `sublist_of` filter P k.
Proof.
  induction 1 as [|x l k _ IH|x l k _ IH]; [done|..]; rewrite !filter_cons; case_decide;
    by repeat constructor.
Qed.

Lemma sublist_singleton {A} (l : list A) (x : A) : l `sublist_of` [x] → l = [] ∨ l = [x].
Proof.
  intros Hs. inversion Hs as [|? ? ? H|? ? ? H]; subst; apply sublist_nil_r in H; subst; auto.
Qed.

Lemma sublist_fmap_inv {A B} (f : A → B) (l : list B) (k : list A) :
  l `sublist_of` f <$> k → ∃ k', l = f <$> k' ∧ k' `sublist_of` k.
Proof.
  revert l. induction k as [|x k IH]; intros l Hs; cbn in Hs.
  { apply sublist_nil_r in Hs as ->. by exists []. }
  inversion Hs as [|? ? ? H|? ? ? H]; subst; destruct (IH _ H) as (k' & -> & Hk).
  - exists (x :: k'). split; [done|by constructor].
  - exists k'. split; [done|by constructor].
Qed.

(** A predicate and its complement split a list. *)
Lemma length_filter_complement {A} (P : A → Prop) `{∀ x, Decision (P x)} (l : list A) :
  length (filter P l) + length (filter (λ x, ¬ P x) l) = length l.
Proof.
  induction l as [|x l IH]; [done|]. destruct (decide (P x)).
  - rewrite filter_cons_True, (filter_cons_False (λ x, ¬ P x)) by tauto. simpl. lia.
  - rewrite filter_cons_False, (filter_cons_True (λ x, ¬ P x)) by tauto. simpl. lia.
Qed.

(** Replacing an element: around it nothing changes. *)
Lemma insert_split {A} (l : list A) i x :
  l !! i = Some x → ∃ l1 l2, l = l1 ++ x :: l2 ∧ ∀ y, <[i := y]> l = l1 ++ y :: l2.
Proof.
  intros Hi. destruct (list_elem_of_split_length _ _ _ Hi) as (l1 & l2 & -> & Hl).
  exists l1, l2. split; [done|]. intros y. rewrite insert_app_r_alt by lia.
  by replace (i - length l1) with 0 by lia.
Qed.

Lemma alter_insert {A} (f : A → A) (l : list A) i x : l !! i = Some x → alter f i l = <[i := f x]> l.
Proof.
  revert i. induction l as [|y l IH]; intros [|i] Hi; [done..|cbn in *; by simplify_eq|].
  change (y :: alter f i l = y :: <[i := f x]> l). f_equal. by apply IH.
Qed.

(** What replacing an element does to a concatenation, a sum and a count. *)
Lemma bind_insert {A B} (f : A → list B) (l : list A) i x y :
  l !! i = Some x → f x ++ (<[i := y]> l ≫= f) ≡ₚ f y ++ (l ≫= f).
Proof.
  intros Hi. destruct (insert_split l i x Hi) as (l1 & l2 & -> & E). rewrite E, !bind_app. cbn.
  solve_Permutation.
Qed.

Lemma sum_insert {A} (f : A → nat) (l : list A) i x y :
  l !! i = Some x → sum_list_with f (<[i := y]> l) + f x = sum_list_with f l + f y.
Proof.
  intros Hi. destruct (insert_split l i x Hi) as (l1 & l2 & -> & E).
  rewrite E, !sum_list_with_app. cbn. lia.
Qed.

Lemma count_insert {A} (f : A → bool) (l : list A) i x y :
  l !! i = Some x →
  length (filter (λ x, f x = true) (<[i := y]> l)) + Nat.b2n (f x) =
  length (filter (λ x, f x = true) l) + Nat.b2n (f y).
Proof.
  intros Hi. destruct (insert_split l i x Hi) as (l1 & l2 & -> & E).
  rewrite E, !filter_app, !length_app, !filter_cons.
  destruct (f x), (f y); repeat case_decide; cbn; done || lia.
Qed.

(** ** Iteration over [std::unordered_map<std::string, _>]

    The iteration order of a hash map is unspecified: it is a parameter, any
    enumeration of the bindings. *)
Class UMapOrder := {
  um_items : ∀ {A : Type}, gmap string A → list (string * A);
  um_items_perm : ∀ {A : Type} (m : gmap string A), um_items m ≡ₚ map_to_list m;
}.

(** The order of stdpp's own enumeration, one concrete order. *)
Definition um_default : UMapOrder := {|
  um_items := λ A m, map_to_list m;
  um_items_perm := λ A m, reflexivity _;
|}.

Section umap.
Context {Ord : UMapOrder} {A : Type}.
Implicit Types (m : gmap string A) (f : A → bool).

(** The loop [for (auto& [id, a] : m) if (f(a)) out.push_back(id);]. *)
Definition um_collect f m : list string :=
  fst <$> filter (λ ia, f ia.2 = true) (um_items m).

Lemma elem_of_um_items m ia : ia ∈ um_items m ↔ m !! ia.1 = Some ia.2.
Proof. rewrite um_items_perm. destruct ia. apply elem_of_map_to_list. Qed.

Lemma elem_of_um_collect f m id :
  id ∈ um_collect f m ↔ ∃ a, m !! id = Some a ∧ f a = true.
Proof.
  unfold um_collect. rewrite list_elem_of_fmap. split.
  - intros ([i a] & -> & [Hf Hin]%list_elem_of_filter).
    apply elem_of_um_items in Hin. eauto.
  - intros (a & Hm & Hf). exists (id, a). split; [done|].
    apply list_elem_of_filter. split; [done|]. by apply elem_of_um_items.
Qed.

Lemma NoDup_um_collect f m : NoDup (um_collect f m).
Proof.
  unfold um_collect. eapply (sublist_NoDup _ (um_items m).*1).
  - rewrite um_items_perm. apply NoDup_fst_map_to_list.
  - apply fmap_sublist, sublist_filter.
Qed.

Lemma um_collect_nil f m :
  (∀ id a, m !! id = Some a → f a = false) → um_collect f m = [].
Proof.
  intros H. destruct (um_collect f m) as [|id l] eqn:E; [done|].
  destruct (elem_of_um_collect f m id) as [Hc _].
  rewrite E in Hc. destruct (Hc (list_elem_of_here _ _)) as (a & Ha & Hf).
  apply H in Ha. congruence.
Qed.
End umap.
