(* ===== verification/Messages.v ===== *)
(** * Messages (src/framework/messages.h)

    The enumerations and plain-value structs that travel between the gRPC
    threads, the heartbeat thread and the upstream connection, with the
    defaults of their C++ member initialisers.  C++ scoped enumerations become
    inductive types inside a module of their own, so that [Model::Unspecified]
    and [AudioFormat::Unspecified] stay apart.  [float] is IEEE binary32, as
    [SpecFloat.spec_float]. *)

From Stdlib Require Import SpecFloat.
From S2P Require Import Prelude.

Local Open Scope string_scope.

(** ** Single-precision values used by the sources *)

(** [0.0f] and [1.0f]. *)
Definition f32_zero : spec_float := S754_zero false.
Definition f32_one : spec_float := S754_finite false 8388608 (-23).

(** ** Model *)

Module MD.
Inductive Model : Type :=
| Unspecified | Speech28Hd | Speech28Turbo | Speech26Hd | Speech26Turbo
| Speech02Hd | Speech02Turbo | Speech01Hd | Speech01Turbo.
End MD.
#[global] Instance Model_eq_dec : EqDecision MD.Model.
Proof. solve_decision. Defined.

(** [to_string(Model)]. *)
Definition model_to_string (m : MD.Model) : string :=
  match m with
  | MD.Speech28Hd => "speech-2.8-hd"
  | MD.Speech28Turbo => "speech-2.8-turbo"
  | MD.Speech26Hd => "speech-2.6-hd"
  | MD.Speech26Turbo => "speech-2.6-turbo"
  | MD.Speech02Hd => "speech-02-hd"
  | MD.Speech02Turbo => "speech-02-turbo"
  | MD.Speech01Hd => "speech-01-hd"
  | MD.Speech01Turbo => "speech-01-turbo"
  | MD.Unspecified => ""
  end.

Definition model_from_string (s : string) : MD.Model :=
  if String.eqb s "speech-2.8-hd" then MD.Speech28Hd else
  if String.eqb s "speech-2.8-turbo" then MD.Speech28Turbo else
  if String.eqb s "speech-2.6-hd" then MD.Speech26Hd else
  if String.eqb s "speech-2.6-turbo" then MD.Speech26Turbo else
  if String.eqb s "speech-02-hd" then MD.Speech02Hd else
  if String.eqb s "speech-02-turbo" then MD.Speech02Turbo else
  if String.eqb s "speech-01-hd" then MD.Speech01Hd else
  if String.eqb s "speech-01-turbo" then MD.Speech01Turbo else
  MD.Unspecified.

(** ** AudioFormat *)

Module AF.
Inductive AudioFormat : Type := Unspecified | Mp3 | Pcm | Flac | Wav.
End AF.
#[global] Instance AudioFormat_eq_dec : EqDecision AF.AudioFormat.
Proof. solve_decision. Defined.

(** [to_string(AudioFormat)]. *)
Definition format_to_string (f : AF.AudioFormat) : string :=
  match f with
  | AF.Mp3 => "mp3"
  | AF.Pcm => "pcm"
  | AF.Flac => "flac"
  | AF.Wav => "wav"
  | AF.Unspecified => ""
  end.

Definition format_from_string (s : string) : AF.AudioFormat :=
  if String.eqb s "mp3" then AF.Mp3 else
  if String.eqb s "pcm" then AF.Pcm else
  if String.eqb s "flac" then AF.Flac else
  if String.eqb s "wav" then AF.Wav else
  AF.Unspecified.

(** ** Requests *)

Module RK.
Inductive RequestKind : Type := OpenStream | StreamChunk | FinishStream.
End RK.
#[global] Instance RequestKind_eq_dec : EqDecision RK.RequestKind.
Proof. solve_decision. Defined.

Module BK.
Inductive Backend : Type := Auto | Local | Upstream.
End BK.
#[global] Instance Backend_eq_dec : EqDecision BK.Backend.
Proof. solve_decision. Defined.

Record VoiceSettings := {
  voice_id : string;
  speed : spec_float;
  vol : spec_float;
  pitch : Z;
  emotion : option string;
  english_normalization : bool;
}.

(** A default-constructed [VoiceSettings]. *)
Definition VoiceSettings_default : VoiceSettings := {|
  voice_id := "male-qn-qingse";
  speed := f32_one;
  vol := f32_one;
  pitch := 0;
  emotion := None;
  english_normalization := false;
|}.

Record AudioSettings := {
  sample_rate : Z;
  bitrate : Z;
  format : AF.AudioFormat;
  channel : Z;
}.

(** A default-constructed [AudioSettings]. *)
Definition AudioSettings_default : AudioSettings := {|
  sample_rate := 16000;
  bitrate := 128000;
  format := AF.Mp3;
  channel := 1;
|}.

(** [deadline] is never assigned or read by the sources. *)
Record TtsRequestMsg := {
  rq_request_id : string;
  rq_kind : RK.RequestKind;
  rq_text : string;
  rq_model : MD.Model;
  rq_voice : VoiceSettings;
  rq_audio : AudioSettings;
  rq_backend : BK.Backend;
  rq_deadline : TimePoint;
}.

(** A default-constructed [TtsRequestMsg]. *)
Definition TtsRequestMsg_default : TtsRequestMsg := {|
  rq_request_id := "";
  rq_kind := RK.StreamChunk;
  rq_text := "";
  rq_model := MD.Speech28Turbo;
  rq_voice := VoiceSettings_default;
  rq_audio := AudioSettings_default;
  rq_backend := BK.Auto;
  rq_deadline := 0%Z;
|}.

(** ** Upstream events *)

Module WE.
Inductive WsEventKind : Type :=
| Connected | TaskStarted | AudioChunk | TaskFinished | TaskFailed | Disconnected.
End WE.
#[global] Instance WsEventKind_eq_dec : EqDecision WE.WsEventKind.
Proof. solve_decision. Defined.

Record TtsResponseMsg := {
  rs_session_id : string;
  rs_request_id : string;
  rs_kind : WE.WsEventKind;
  rs_audio_hex : string;
  rs_is_final : bool;
  rs_sample_rate : Z;
  rs_channels : Z;
  rs_usage_characters : Z;
  rs_status_code : Z;
  rs_status_msg : string;
  rs_trace_id : string;
}.

(** A default-constructed [TtsResponseMsg]. *)
Definition TtsResponseMsg_default : TtsResponseMsg := {|
  rs_session_id := "";
  rs_request_id := "";
  rs_kind := WE.AudioChunk;
  rs_audio_hex := "";
  rs_is_final := false;
  rs_sample_rate := 0;
  rs_channels := 0;
  rs_usage_characters := 0;
  rs_status_code := 0;
  rs_status_msg := "";
  rs_trace_id := "";
|}.

Record CancelRequestMsg := {
  cn_request_id : string;
  cn_reason : string;
}.

(** ** Local synthesis results *)

(** [std::vector<std::uint8_t>] is a list of bytes. *)
Record LocalSynthCompleteMsg := {
  lc_request_id : string;
  lc_session_id : string;
  lc_audio : list Byte.byte;
  lc_sample_rate : Z;
  lc_channels : Z;
  lc_format : AF.AudioFormat;
  lc_usage_ms : Z;
  lc_status_code : Z;
  lc_status_msg : string;
}.

(** A default-constructed [LocalSynthCompleteMsg]. *)
Definition LocalSynthCompleteMsg_default : LocalSynthCompleteMsg := {|
  lc_request_id := "";
  lc_session_id := "";
  lc_audio := [];
  lc_sample_rate := 16000;
  lc_channels := 1;
  lc_format := AF.Pcm;
  lc_usage_ms := 0;
  lc_status_code := 0;
  lc_status_msg := "";
|}.

Record LocalSynthFailedMsg := {
  lf_request_id : string;
  lf_session_id : string;
  lf_status_code : Z;
  lf_status_msg : string;
}.

(** [std::variant<TtsRequestMsg, TtsResponseMsg, CancelRequestMsg,
    LocalSynthCompleteMsg, LocalSynthFailedMsg>]. *)
Inductive Message : Type :=
| MsgRequest (m : TtsRequestMsg)
| MsgResponse (m : TtsResponseMsg)
| MsgCancel (m : CancelRequestMsg)
| MsgLocalComplete (m : LocalSynthCompleteMsg)
| MsgLocalFailed (m : LocalSynthFailedMsg).

(** ** Names of models and formats *)

(** The wire name of every model and of every audio format parses back to
    the same enumerator (the empty name of [Unspecified] included), and a
    string that parses to a specified enumerator is exactly that enumerator's
    wire name. *)
Theorem enum_names_roundtrip :
  (∀ m, model_from_string (model_to_string m) = m) ∧
  (∀ f, format_from_string (format_to_string f) = f) ∧
  (∀ s, model_from_string s ≠ MD.Unspecified →
        model_to_string (model_from_string s) = s) ∧
  (∀ s, format_from_string s ≠ AF.Unspecified →
        format_to_string (format_from_string s) = s).
Proof.
  split_and!; [by intros []|by intros []| |]; intros s;
    [unfold model_from_string|unfold format_from_string];
    repeat (match goal with
            | |- context [String.eqb s ?x] => destruct (String.eqb_spec s x) as [->|]
            end; [done|]); done.
Qed.
