(* ===== verification/ChangeSet.v ===== *)
(** * Change sets (src/framework/change_set.h, src/heartbeat/changeset_builder.h)

    What one heartbeat tick asks the rest of the server to do: upstream frames
    to send, responses to write to clients, sessions to close, messages to emit
    and local synthesis jobs to run.  The builder accumulates them during the
    tick and [collect] hands them over and starts afresh. *)

From Stdlib Require Import SpecFloat.
From S2P Require Import Prelude Messages.

Local Open Scope string_scope.

(** ** Entries *)

Inductive OutWsOp : Type := TaskStart | TaskContinue | TaskFinish.
#[global] Instance OutWsOp_eq_dec : EqDecision OutWsOp.
Proof. solve_decision. Defined.

Record OutWsFrame := {
  of_session_id : string;
  of_op : OutWsOp;
  of_payload_json : string;
}.

Record WriteToClient := {
  wc_request_id : string;
  wc_audio : list Byte.byte;
  wc_sample_rate : Z;
  wc_channels : Z;
  wc_format : AF.AudioFormat;
  wc_is_final : bool;
  wc_cumulative_bytes : Z;
  wc_audio_length_ms : Z;
  wc_status_code : Z;
  wc_status_msg : string;
  wc_trace_id : string;
}.

Record CloseSession := {
  cl_session_id : string;
  cl_reason : string;
}.

Record EmitMessage := { em_msg : Message }.

Record LocalSynthJob := {
  lj_request_id : string;
  lj_text : string;
  lj_voice_id : string;
  lj_speed : spec_float;
  lj_session_dummy : Z;
}.

(** ** The change set *)

Record ChangeSet := {
  ws_frames : list OutWsFrame;
  client_writes : list WriteToClient;
  close_sessions : list CloseSession;
  emit_messages : list EmitMessage;
  local_jobs : list LocalSynthJob;
}.

(** A default-constructed [ChangeSet]. *)
Definition cs_empty : ChangeSet := {|
  ws_frames := []; client_writes := []; close_sessions := [];
  emit_messages := []; local_jobs := [] |}.

(** [ChangeSet::empty()]. *)
Definition changeset_is_empty (c : ChangeSet) : bool :=
  match ws_frames c, client_writes c, close_sessions c, emit_messages c, local_jobs c with
  | [], [], [], [], [] => true
  | _, _, _, _, _ => false
  end.

(** [ChangeSet::total()]. *)
Definition changeset_total (c : ChangeSet) : nat :=
  length (ws_frames c) + length (client_writes c) + length (close_sessions c)
  + length (emit_messages c) + length (local_jobs c).

(** ** ChangeSetBuilder *)

Definition add_ws_frame (f : OutWsFrame) (c : ChangeSet) : ChangeSet := {|
  ws_frames := ws_frames c ++ [f]; client_writes := client_writes c;
  close_sessions := close_sessions c; emit_messages := emit_messages c;
  local_jobs := local_jobs c |}.

Definition add_client_write (w : WriteToClient) (c : ChangeSet) : ChangeSet := {|
  ws_frames := ws_frames c; client_writes := client_writes c ++ [w];
  close_sessions := close_sessions c; emit_messages := emit_messages c;
  local_jobs := local_jobs c |}.

Definition add_close (x : CloseSession) (c : ChangeSet) : ChangeSet := {|
  ws_frames := ws_frames c; client_writes := client_writes c;
  close_sessions := close_sessions c ++ [x]; emit_messages := emit_messages c;
  local_jobs := local_jobs c |}.

Definition add_emit (m : EmitMessage) (c : ChangeSet) : ChangeSet := {|
  ws_frames := ws_frames c; client_writes := client_writes c;
  close_sessions := close_sessions c; emit_messages := emit_messages c ++ [m];
  local_jobs := local_jobs c |}.

Definition add_local_job (j : LocalSynthJob) (c : ChangeSet) : ChangeSet := {|
  ws_frames := ws_frames c; client_writes := client_writes c;
  close_sessions := close_sessions c; emit_messages := emit_messages c;
  local_jobs := local_jobs c ++ [j] |}.

(** [collect()] moves the accumulated set out and leaves an empty one. *)
Definition collect (c : ChangeSet) : ChangeSet * ChangeSet := (c, cs_empty).

(** The loop [for (auto& c : closes) changeset_->add_close(c);]. *)
Definition add_closes (l : list CloseSession) (c : ChangeSet) : ChangeSet :=
  foldl (λ c x, add_close x c) c l.

Lemma add_closes_spec l c :
  add_closes l c = {|
    ws_frames := ws_frames c; client_writes := client_writes c;
    close_sessions := close_sessions c ++ l; emit_messages := emit_messages c;
    local_jobs := local_jobs c |}.
Proof.
  revert c. induction l as [|x l IH]; intros c; simpl.
  - rewrite app_nil_r. by destruct c.
  - rewrite IH. simpl. by rewrite <- app_assoc.
Qed.

Lemma changeset_is_empty_total c :
  changeset_is_empty c = bool_decide (changeset_total c = 0).
Proof.
  destruct c as [w cw cl em lj]. unfold changeset_is_empty, changeset_total. simpl.
  destruct w, cw, cl, em, lj; simpl; try case_bool_decide; (done || lia).
Qed.
