(* ===== verification/CopyChannel.v ===== *)
(** * CopyChannel (src/framework/copy_channel.h)

    The multi-producer queue between threads.  Every operation takes the
    channel's mutex for its whole body, so an operation is one atomic step on
    the state [(buffer_, closed_)]; an execution with any number of threads is
    an interleaving of such steps.  A blocking [recv] is a step that is enabled
    only once its wait predicate holds. *)

From S2P Require Import Prelude.

(** The exception class thrown by [send] on a closed channel. *)
Inductive ChannelClosed : Type := channel_closed.

Record CopyChannel (T : Type) := mkChannel {
  buffer_ : list T;
  closed_ : bool;
}.
Arguments mkChannel {T} _ _.
Arguments buffer_ {T} _.
Arguments closed_ {T} _.

Section channel.
Context {T : Type}.
Implicit Types (ch : CopyChannel T) (v : T).

Definition channel_new : CopyChannel T := mkChannel [] false.

(** [buffer_.push(std::move(value))]. *)
Definition push (v : T) ch : CopyChannel T := mkChannel (buffer_ ch ++ [v]) (closed_ ch).

Definition send (v : T) ch : result ChannelClosed (CopyChannel T) :=
  if closed_ ch then Throw channel_closed else Ok (push v ch).

Definition try_send (v : T) ch : bool * CopyChannel T :=
  if closed_ ch then (false, ch) else (true, push v ch).

(** The predicate the condition variable waits for. *)
Definition recv_ready ch : bool :=
  match buffer_ ch with [] => closed_ ch | _ :: _ => true end.

(** [recv()], once woken: [None] while the wait predicate is false (the
    caller stays blocked), otherwise the returned optional and the state. *)
Definition recv ch : option (option T * CopyChannel T) :=
  if recv_ready ch then
    match buffer_ ch with
    | [] => Some (None, ch)
    | v :: b => Some (Some v, mkChannel b (closed_ ch))
    end
  else None.

(** [recv(timeout)] and [recv_for(timeout)], on the state the wait ends in:
    [wait_for] returns the predicate's last value. *)
Definition recv_timeout ch : option T * CopyChannel T :=
  if negb (recv_ready ch) then (None, ch)
  else match buffer_ ch with
       | [] => (None, ch)
       | v :: b => (Some v, mkChannel b (closed_ ch))
       end.

(** The loop of [swap_out_all]: move the front of the buffer to the end of
    [out] until the buffer is empty. *)
Fixpoint swap_loop (b out : list T) : list T :=
  match b with
  | [] => out
  | v :: b => swap_loop b (out ++ [v])
  end.

Definition swap_out_all (out : list T) ch : list T * CopyChannel T :=
  (swap_loop (buffer_ ch) out, mkChannel [] (closed_ ch)).

(** [size()]. *)
Definition channel_size ch : nat := length (buffer_ ch).

(** [close()]. *)
Definition close ch : CopyChannel T := mkChannel (buffer_ ch) true.

(** [is_closed()]. *)
Definition is_closed ch : bool := closed_ ch.

Lemma swap_loop_spec b out : swap_loop b out = out ++ b.
Proof.
  revert out. induction b as [|v b IH]; intros out; simpl.
  - by rewrite app_nil_r.
  - by rewrite IH, <- app_assoc.
Qed.

Lemma swap_out_all_spec out ch :
  swap_out_all out ch = (out ++ buffer_ ch, mkChannel [] (closed_ ch)).
Proof. unfold swap_out_all. by rewrite swap_loop_spec. Qed.

(** ** Executions

    One step of one thread, labelled with the values it put into the channel
    and the values it took out. *)
Inductive chan_step : CopyChannel T → list T → list T → CopyChannel T → Prop :=
| step_send v ch ch' : send v ch = Ok ch' → chan_step ch [v] [] ch'
| step_send_throws v ch : send v ch = Throw channel_closed → chan_step ch [] [] ch
| step_try_send v ch ch' : try_send v ch = (true, ch') → chan_step ch [v] [] ch'
| step_try_send_fails v ch ch' : try_send v ch = (false, ch') → chan_step ch [] [] ch'
| step_recv v ch ch' : recv ch = Some (Some v, ch') → chan_step ch [] [v] ch'
| step_recv_closed ch ch' : recv ch = Some (None, ch') → chan_step ch [] [] ch'
| step_recv_for v ch ch' : recv_timeout ch = (Some v, ch') → chan_step ch [] [v] ch'
| step_recv_for_none ch ch' : recv_timeout ch = (None, ch') → chan_step ch [] [] ch'
| step_swap out ch ch' : swap_out_all [] ch = (out, ch') → chan_step ch [] out ch'
| step_close ch : chan_step ch [] [] (close ch).

(** An interleaving of steps: all values put in, all values taken out. *)
Inductive chan_exec : CopyChannel T → list T → list T → CopyChannel T → Prop :=
| exec_nil ch : chan_exec ch [] [] ch
| exec_step ch ins outs ch' ins' outs' ch'' :
    chan_step ch ins outs ch' →
    chan_exec ch' ins' outs' ch'' →
    chan_exec ch (ins ++ ins') (outs ++ outs') ch''.

(** One step keeps the queue law and never reopens the channel. *)
Lemma chan_step_fifo ch ins outs ch' :
  chan_step ch ins outs ch' →
  outs ++ buffer_ ch' = buffer_ ch ++ ins ∧
  (closed_ ch = true → closed_ ch' = true ∧ ins = []).
Proof.
  intros Hs. destruct Hs as
    [v ch ch' H|v ch H|v ch ch' H|v ch ch' H|v ch ch' H|ch ch' H
    |v ch ch' H|ch ch' H|out ch ch' H|ch];
    try rewrite swap_out_all_spec in H;
    unfold send, try_send, recv, recv_timeout, recv_ready, push, close in *;
    destruct ch as [[|x b] []]; simplify_eq/=;
    rewrite ?app_nil_r; split; auto; congruence.
Qed.

(** Under every interleaving of senders, receivers and [swap_out_all]
    callers, a [CopyChannel] is a lossless queue: what was taken out,
    followed by what is still buffered, is what was put in, in order. *)
Theorem channel_fifo ch ins outs ch' :
  chan_exec ch ins outs ch' →
  outs ++ buffer_ ch' = buffer_ ch ++ ins.
Proof.
  induction 1 as [ch|ch ins outs ch' ins' outs' ch'' Hs _ IH].
  - by rewrite app_nil_r.
  - apply chan_step_fifo in Hs as [Hs _].
    by rewrite <- app_assoc, IH, app_assoc, Hs, <- app_assoc.
Qed.

(** Once a channel is closed no execution puts a value into it any more,
    it stays closed, and every value buffered at the time of the close can
    still be received: whatever is taken out is a prefix of that buffer. *)
Theorem channel_closed_drains ch ins outs ch' :
  chan_exec ch ins outs ch' → closed_ ch = true →
  closed_ ch' = true ∧ ins = [] ∧ buffer_ ch = outs ++ buffer_ ch' ∧
  recv_ready ch' = true.
Proof.
  induction 1 as [ch|ch ins outs ch' ins' outs' ch'' Hs _ IH]; intros Hc.
  - split_and!; auto. unfold recv_ready. by destruct (buffer_ ch).
  - apply chan_step_fifo in Hs as [Hf Hcl].
    destruct (Hcl Hc) as [Hc' ->]. destruct (IH Hc') as (H1 & -> & H3 & H4).
    split_and!; auto. rewrite app_nil_r in Hf.
    by rewrite <- Hf, H3, <- app_assoc.
Qed.
End channel.
Arguments CopyChannel T : clear implicits.

(** A concrete execution: two sends, a drain, a close, a refused send. *)
Lemma channel_fifo_witness :
  [1; 2] ++ buffer_ (mkChannel [] true) = buffer_ channel_new ++ [1; 2].
Proof.
  apply (channel_fifo channel_new [1; 2] [1; 2] (mkChannel [] true)).
  apply (exec_step _ [1] [] (mkChannel [1] false) [2] [1; 2]).
  { by apply (step_send 1). }
  apply (exec_step _ [2] [] (mkChannel [1; 2] false) [] [1; 2]).
  { by apply (step_try_send 2). }
  apply (exec_step _ [] [1; 2] (mkChannel [] false) [] []).
  { by apply step_swap. }
  apply (exec_step _ [] [] (mkChannel [] true) [] []).
  { apply (step_close (mkChannel [] false)). }
  apply (exec_step _ [] [] (mkChannel [] true) [] []).
  { by apply (step_send_throws 3). }
  apply exec_nil.
Defined.

(** A closed channel with one value left. *)
Lemma channel_closed_drains_witness :
  closed_ (mkChannel [] true : CopyChannel nat) = true ∧ ([] : list nat) = [] ∧
  buffer_ (mkChannel [7] true) = [7] ++ buffer_ (mkChannel [] true) ∧
  recv_ready (mkChannel [] true : CopyChannel nat) = true.
Proof.
  apply (channel_closed_drains (mkChannel [7] true) [] [7] (mkChannel [] true)).
  - apply (exec_step _ [] [7] (mkChannel [] true) [] []).
    + by apply step_recv.
    + apply exec_nil.
  - reflexivity.
Defined.
