(* ===== verification/ChannelThreads.v ===== *)
(** * CopyChannel at the level of its condition variable (src/framework/copy_channel.h)

    [CopyChannel] treats an operation as one atomic step.  Here the threads are
    visible: a sender pushes under the mutex and notifies after releasing it, [close]
    likewise, a receiver evaluates the predicate of its wait under the mutex, goes to
    sleep (which releases the mutex), and is woken by a notification, by its timeout
    or spuriously, to lock and test again.  The theorems show that these threads
    implement the atomic channel and that no wake-up is ever lost: unlike
    [ThreadPool::shutdown] and [Inbox::close], [CopyChannel::close] sets its flag under
    the mutex. *)

From S2P Require Import Prelude CopyChannel.

(** The points of one call that takes values out: [recv()] ([timed = false]),
    [recv(timeout)] and [recv_for] ([timed = true]), or [swap_out_all]. *)
Inductive CallPc (T : Type) : Type :=
| CWait (timed : bool)         (* about to lock and test the predicate *)
| CSleepy (timed : bool)       (* predicate false, mutex held *)
| CAsleep (timed : bool)       (* blocked on the condition variable *)
| CExpired                     (* timed out, about to lock and test a last time *)
| CReturned (r : option T)
| CSwapped (out : list T).
Arguments CWait {T} timed.
Arguments CSleepy {T} timed.
Arguments CAsleep {T} timed.
Arguments CExpired {T}.
Arguments CReturned {T} r.
Arguments CSwapped {T} out.

Section threads.
Context {T : Type}.

Record Threads := mkThreads {
  ct_chan : CopyChannel T;
  ct_calls : list (CallPc T);        (* every call made so far *)
  ct_one : nat;                      (* [notify_one]s still to be made by senders *)
  ct_all : nat;                      (* [notify_all]s still to be made by closers *)
}.
#[global] Instance Threads_eta : Eta Threads := {|
  eta_expand s := mkThreads (ct_chan s) (ct_calls s) (ct_one s) (ct_all s) |}.
Implicit Types (s : Threads) (pc : CallPc T).

Definition threads_new : Threads := mkThreads channel_new [] 0 0.

Definition is_sleepy pc : bool := match pc with CSleepy _ => true | _ => false end.
Definition is_asleep pc : bool := match pc with CAsleep _ => true | _ => false end.
(** Calls that will lock the mutex and look at the buffer. *)
Definition is_waiter pc : bool := match pc with CWait _ | CExpired => true | _ => false end.

Definition mutex_free s : bool := negb (existsb is_sleepy (ct_calls s)).

(** The locked part of [send] and [try_send]: the value the caller gets (a [false] is
    the exception of [send]), and a notification to make if the value was pushed. *)
Definition locked_send (v : T) s : bool * Threads :=
  let '(ok, ch) := try_send v (ct_chan s) in
  (ok, s <| ct_chan := ch |> <| ct_one := if ok then S (ct_one s) else ct_one s |>).

(** The locked part of [close] (and of the destructor, which calls it). *)
Definition locked_close s : Threads :=
  s <| ct_chan := close (ct_chan s) |> <| ct_all := S (ct_all s) |>.

(** The locked part of [recv]: the predicate false leads to sleep, or ends the call
    when its timeout is over; otherwise the front of the buffer is taken. *)
Definition locked_recv pc (ch : CopyChannel T) : CallPc T * CopyChannel T :=
  match recv ch, pc with
  | Some (r, ch), _ => (CReturned r, ch)
  | None, CWait timed => (CSleepy timed, ch)
  | None, _ => (CReturned None, ch)
  end.

Definition wake pc : CallPc T := match pc with CAsleep timed => CWait timed | _ => pc end.

Definition set_pc (i : nat) pc s : Threads := s <| ct_calls := <[i := pc]> (ct_calls s) |>.

Definition taken_by pc : list T :=
  match pc with CReturned (Some v) => [v] | CSwapped out => out | _ => [] end.

(** ** Steps

    [work]: steps the threads make by themselves once the calls are made. *)
Inductive work : Threads → list T → Threads → Prop :=
| w_notify_none s n :
    ct_one s = S n → existsb is_asleep (ct_calls s) = false →
    work s [] (s <| ct_one := n |>)
| w_notify_one i pc s n :
    ct_one s = S n → ct_calls s !! i = Some pc → is_asleep pc = true →
    work s [] (set_pc i (wake pc) (s <| ct_one := n |>))
| w_notify_all s n :
    ct_all s = S n →
    work s [] (s <| ct_all := n |> <| ct_calls := wake <$> ct_calls s |>)
| w_lock i pc pc' ch s :
    ct_calls s !! i = Some pc → is_waiter pc = true → mutex_free s = true →
    locked_recv pc (ct_chan s) = (pc', ch) →
    work s (taken_by pc') (set_pc i pc' (s <| ct_chan := ch |>))
| w_sleep i timed s :
    ct_calls s !! i = Some (CSleepy timed) → work s [] (set_pc i (CAsleep timed) s).

(** All steps: the calls, timeouts and spurious wake-ups besides, labelled with the
    values put in and taken out. *)
Inductive threads_step : Threads → list T → list T → Threads → Prop :=
| t_send v s s' :
    mutex_free s = true → locked_send v s = (true, s') → threads_step s [v] [] s'
| t_send_refused v s s' :
    mutex_free s = true → locked_send v s = (false, s') → threads_step s [] [] s'
| t_close s : mutex_free s = true → threads_step s [] [] (locked_close s)
| t_recv timed s :
    threads_step s [] [] (s <| ct_calls := ct_calls s ++ [CWait timed] |>)
| t_swap out ch s :
    mutex_free s = true → swap_out_all [] (ct_chan s) = (out, ch) →
    threads_step s [] out
      (s <| ct_chan := ch |> <| ct_calls := ct_calls s ++ [CSwapped out] |>)
| t_timeout i s :
    ct_calls s !! i = Some (CAsleep true) → threads_step s [] [] (set_pc i CExpired s)
| t_spurious i pc s :
    ct_calls s !! i = Some pc → is_asleep pc = true →
    threads_step s [] [] (set_pc i (wake pc) s)
| t_work outs s s' : work s outs s' → threads_step s [] outs s'.

Inductive threads_exec : Threads → list T → list T → Threads → Prop :=
| t_nil s : threads_exec s [] [] s
| t_snoc s ins outs s' ins' outs' s'' :
    threads_exec s ins outs s' → threads_step s' ins' outs' s'' →
    threads_exec s (ins ++ ins') (outs ++ outs') s''.

(** ** The threads implement the atomic channel *)

Definition taken s : list T := ct_calls s ≫= taken_by.

Lemma bind_set_pc {B} (f : CallPc T → list B) i pc pc' (calls : list (CallPc T)) :
  calls !! i = Some pc → f pc = [] →
  <[i := pc']> calls ≫= f ≡ₚ (calls ≫= f) ++ f pc'.
Proof.
  intros Hi Hf. pose proof (bind_insert f calls i pc pc' Hi) as Hp. rewrite Hf in Hp.
  by rewrite (Permutation_app_comm (calls ≫= f)).
Qed.

Lemma taken_wake (calls : list (CallPc T)) : (wake <$> calls) ≫= taken_by = calls ≫= taken_by.
Proof. induction calls as [|[] calls IH]; cbn; by rewrite ?IH. Qed.

Lemma not_taken pc : is_asleep pc = true ∨ is_waiter pc = true ∨ is_sleepy pc = true →
  taken_by pc = [].
Proof. destruct pc; naive_solver. Qed.

(** A step takes out what its label says, and is a step of the channel or leaves it. *)
Lemma work_refines s outs s' :
  work s outs s' →
  taken s' ≡ₚ taken s ++ outs ∧
  (chan_step (ct_chan s) [] outs (ct_chan s') ∨ (ct_chan s' = ct_chan s ∧ outs = [])).
Proof.
  unfold taken. destruct 1 as [s n Hn Ha|i pc s n Hn Hi Hp|s n Hn|i pc pc' ch s Hi Hp Hm Hl|i timed s Hi]; cbn.
  - rewrite app_nil_r. auto.
  - split; [|auto]. rewrite (bind_set_pc taken_by i pc); [|done|apply not_taken; auto].
    by destruct pc.
  - rewrite taken_wake, app_nil_r. auto.
  - split; [by apply (bind_set_pc taken_by i pc); [|apply not_taken; auto]|].
    unfold locked_recv in Hl. destruct (recv (ct_chan s)) as [[[v|] ch']|] eqn:E.
    + simplify_eq. left. by apply step_recv.
    + simplify_eq. left. by apply step_recv_closed.
    + right. by destruct pc; simplify_eq.
  - split; [|auto]. rewrite (bind_set_pc taken_by i (CSleepy timed)); done.
Qed.

Lemma threads_refines s ins outs s' :
  threads_step s ins outs s' →
  taken s' ≡ₚ taken s ++ outs ∧
  (chan_step (ct_chan s) ins outs (ct_chan s') ∨
   (ct_chan s' = ct_chan s ∧ ins = [] ∧ outs = [])).
Proof.
  destruct 1 as [v s s' Hm Hs|v s s' Hm Hs|s Hm|timed s|out ch s Hm Hs|i s Hi|i pc s Hi Hp|outs s s' Hw].
  1,2: unfold locked_send in Hs; destruct (try_send v (ct_chan s)) as [[] ch] eqn:E; simplify_eq;
    (split; [unfold taken; cbn; by rewrite app_nil_r|left; cbn]).
  - by apply step_try_send.
  - by eapply step_try_send_fails.
  - split; [unfold taken; cbn; by rewrite app_nil_r|left]. apply step_close.
  - split; [|auto]. unfold taken. cbn. rewrite bind_app. by cbn.
  - split; [|left; by apply step_swap]. unfold taken. cbn. rewrite bind_app. cbn.
    by rewrite app_nil_r.
  - split; [|auto]. unfold taken. cbn. rewrite (bind_set_pc taken_by i (CAsleep true)); done.
  - split; [|auto]. unfold taken. cbn.
    rewrite (bind_set_pc taken_by i pc); [|done|apply not_taken; auto]. by destruct pc.
  - apply work_refines in Hw as [H1 [H2|[H2 ->]]]; auto.
Qed.

Lemma chan_exec_snoc (ch ch' ch'' : CopyChannel T) ins outs ins' outs' :
  chan_exec ch ins outs ch' → chan_step ch' ins' outs' ch'' →
  chan_exec ch (ins ++ ins') (outs ++ outs') ch''.
Proof.
  induction 1 as [ch|ch i o ch1 i' o' ch2 Hs He IH]; intros Hn.
  - cbn. rewrite <- (app_nil_r ins'), <- (app_nil_r outs'). eapply exec_step; [done|constructor].
  - rewrite <- !app_assoc. eapply exec_step; [done|]. by apply IH.
Qed.

(** C25: The threads of a channel implement the atomic channel: every interleaving of
    senders, receivers with and without a timeout, [swap_out_all] callers and closers,
    with their notifications, sleeps, timeouts and spurious wake-ups, is an execution of
    atomic operations that puts in and takes out the same values in the same order and
    ends in the same buffer.  So the channel is a lossless queue: what was taken out,
    followed by what is buffered, is what was put in, in order; and the calls together
    returned exactly what was taken out, so no two calls returned the same element. *)
Theorem channel_threads_refine s ins outs s' :
  threads_exec s ins outs s' →
  chan_exec (ct_chan s) ins outs (ct_chan s') ∧
  outs ++ buffer_ (ct_chan s') = buffer_ (ct_chan s) ++ ins ∧
  taken s' ≡ₚ taken s ++ outs.
Proof.
  intros He. enough (chan_exec (ct_chan s) ins outs (ct_chan s') ∧ taken s' ≡ₚ taken s ++ outs)
    as [H1 H2] by (split_and!; [done|by apply channel_fifo|done]).
  induction He as [s|s ins outs s' ins' outs' s'' _ [IH1 IH2] Hs].
  - split; [constructor|by rewrite app_nil_r].
  - apply threads_refines in Hs as [Ht Hc]. split.
    + destruct Hc as [Hc|(E & -> & ->)]; [by eapply chan_exec_snoc|].
      by rewrite E, !app_nil_r.
    + by rewrite Ht, IH2, app_assoc.
Qed.
(** ** No wake-up is lost *)

Definition number (f : CallPc T → bool) (calls : list (CallPc T)) : nat :=
  length (filter (λ pc, f pc = true) calls).
#[local] Arguments number : simpl never.

Lemma number_pos f (calls : list (CallPc T)) : number f calls ≠ 0 → ∃ i pc, calls !! i = Some pc ∧ f pc = true.
Proof.
  unfold number. intros Hn. destruct (filter _ calls) as [|pc l] eqn:E; [done|].
  assert (pc ∈ filter (λ pc, f pc = true) calls) as [Hf Hin]%list_elem_of_filter
    by (rewrite E; left).
  apply list_elem_of_lookup in Hin as [i Hi]. eauto.
Qed.

Lemma number_app f (l1 l2 : list (CallPc T)) : number f (l1 ++ l2) = number f l1 + number f l2.
Proof. unfold number. by rewrite filter_app, length_app. Qed.

Lemma number_one f pc : number f [pc] = Nat.b2n (f pc).
Proof. unfold number. rewrite filter_cons. by destruct (f pc). Qed.

Lemma number_set_pc f i pc pc' (calls : list (CallPc T)) :
  calls !! i = Some pc →
  number f (<[i := pc']> calls) + Nat.b2n (f pc) = number f calls + Nat.b2n (f pc').
Proof. apply count_insert. Qed.

Lemma number_wake f (calls : list (CallPc T)) :
  (∀ timed, f (CAsleep timed) = f (CWait timed)) → number f (wake <$> calls) = number f calls.
Proof.
  intros Hf. unfold number. induction calls as [|pc calls IH]; [done|].
  rewrite fmap_cons, !filter_cons.
  destruct pc; cbn [wake]; rewrite ?Hf; case_decide; cbn [length]; by rewrite IH.
Qed.

Lemma number_asleep_wake (calls : list (CallPc T)) : number is_asleep (wake <$> calls) = 0.
Proof. induction calls as [|[] calls IH]; done. Qed.

Lemma number_existsb f (calls : list (CallPc T)) :
  existsb f calls = negb (bool_decide (number f calls = 0)).
Proof.
  unfold number. induction calls as [|pc calls IH]; [done|]. rewrite filter_cons.
  cbn [existsb]. rewrite IH. by destruct (f pc).
Qed.

Lemma mutex_free_number s : mutex_free s = true ↔ number is_sleepy (ct_calls s) = 0.
Proof. unfold mutex_free. rewrite number_existsb, negb_involutive. apply bool_decide_eq_true. Qed.

(** A call about to sleep saw the buffer empty and the channel open; while a call
    sleeps, every buffered element has a notification under way or a call that will
    look at the buffer, and a closed channel has its [notify_all] under way. *)
Definition wake_inv s : Prop :=
  (number is_sleepy (ct_calls s) ≠ 0 → recv_ready (ct_chan s) = false) ∧
  (number is_asleep (ct_calls s) ≠ 0 →
     length (buffer_ (ct_chan s)) ≤ ct_one s + number is_waiter (ct_calls s) ∧
     (closed_ (ct_chan s) = true → ct_all s ≠ 0)).

Lemma recv_ready_false (ch : CopyChannel T) :
  recv_ready ch = false ↔ buffer_ ch = [] ∧ closed_ ch = false.
Proof. destruct ch as [[] []]; cbn; naive_solver. Qed.

(** How the counts of calls change with one of them. *)
Ltac counts Hi pc' :=
  pose proof (number_set_pc is_sleepy _ _ pc' _ Hi);
  pose proof (number_set_pc is_asleep _ _ pc' _ Hi);
  pose proof (number_set_pc is_waiter _ _ pc' _ Hi).

Lemma wake_inv_lock i pc pc' ch s :
  ct_calls s !! i = Some pc → is_waiter pc = true → mutex_free s = true →
  locked_recv pc (ct_chan s) = (pc', ch) →
  wake_inv s → wake_inv (set_pc i pc' (s <| ct_chan := ch |>)).
Proof.
  intros Hi Hp Hm%mutex_free_number Hl [_ H2]. counts Hi pc'.
  assert (is_sleepy pc = false ∧ is_asleep pc = false) as [E1 E2] by by destruct pc.
  unfold wake_inv. cbn. rewrite Hp, E1, E2 in *. unfold locked_recv, recv in Hl.
  destruct (recv_ready (ct_chan s)) eqn:Er.
  - destruct (ct_chan s) as [[|v b] c] eqn:Ec; cbn in *; simplify_eq; cbn in *;
      (split; [lia|]; intros; destruct H2 as [H2a H2b]; [lia|]; split; [lia|done]).
  - apply recv_ready_false in Er as Er'. destruct Er' as [Eb Ec].
    assert (ch = ct_chan s) as -> by by destruct pc; simplify_eq.
    split; [done|]. rewrite Eb, Ec. cbn. intros. split; [lia|done].
Qed.

Lemma wake_inv_work s outs s' : work s outs s' → wake_inv s → wake_inv s'.
Proof.
  destruct 1 as [s n Hn Ha|i pc s n Hn Hi Hp|s n Hn|i pc pc' ch s Hi Hp Hm Hl|i timed s Hi]; intros Hinv.
  - rewrite number_existsb in Ha. apply negb_false_iff, bool_decide_eq_true in Ha.
    destruct Hinv as [H1 _]. split; [done|]. cbn. lia.
  - destruct Hinv as [H1 H2]. counts Hi (wake pc). unfold wake_inv. cbn.
    destruct pc; cbn in *; try done. split; [intros; apply H1; lia|].
    intros. destruct H2 as [H2a H2b]; [lia|]. split; [lia|done].
  - destruct Hinv as [H1 _]. unfold wake_inv. cbn.
    rewrite (number_wake is_sleepy), number_asleep_wake by done. split; [done|lia].
  - by eapply wake_inv_lock.
  - destruct Hinv as [H1 H2]. counts Hi (CAsleep (T:=T) timed). cbn in *.
    assert (recv_ready (ct_chan s) = false) as Hr by (apply H1; lia).
    unfold wake_inv. cbn. apply recv_ready_false in Hr as Hr'. destruct Hr' as [-> ->].
    split; [done|]. intros. cbn. split; [lia|done].
Qed.

Lemma wake_inv_step s ins outs s' : threads_step s ins outs s' → wake_inv s → wake_inv s'.
Proof.
  destruct 1 as [v s s' Hm Hs|v s s' Hm Hs|s Hm|timed s|out ch s Hm Hs|i s Hi|i pc s Hi Hp|outs s s' Hw];
    intros [H1 H2].
  1,2: apply mutex_free_number in Hm; unfold locked_send, try_send in Hs;
    destruct (closed_ (ct_chan s)) eqn:Ec; simplify_eq; unfold wake_inv; cbn;
    rewrite ?length_app, ?Ec; cbn; (split; [lia|]); intros; destruct H2 as [H2a H2b]; try done;
    (split; [lia|done]).
  - apply mutex_free_number in Hm. split; cbn; [lia|]. intros. destruct H2 as [H2a _]; [done|].
    split; [done|lia].
  - unfold wake_inv. cbn. rewrite !number_app, !number_one. cbn. split; [intros; apply H1; lia|].
    intros. destruct H2 as [H2a H2b]; [lia|]. split; [lia|done].
  - apply mutex_free_number in Hm. rewrite swap_out_all_spec in Hs. simplify_eq.
    unfold wake_inv. cbn. rewrite !number_app, !number_one. cbn. split; [lia|].
    intros. destruct H2 as [H2a H2b]; [lia|]. split; [lia|done].
  - counts Hi (CExpired (T:=T)). cbn in *. unfold wake_inv. cbn. split; [intros; apply H1; lia|].
    intros. destruct H2 as [H2a H2b]; [lia|]. split; [lia|done].
  - counts Hi (wake pc). unfold wake_inv. cbn. destruct pc; cbn in *; try done.
    split; [intros; apply H1; lia|]. intros. destruct H2 as [H2a H2b]; [lia|]. split; [lia|done].
  - by eapply wake_inv_work.
Qed.

Lemma threads_exec_inv s ins outs s' : threads_exec s ins outs s' → wake_inv s → wake_inv s'.
Proof. induction 1; eauto using wake_inv_step. Qed.

(** ** The threads come to rest *)

Definition works s s' : Prop := ∃ outs, work s outs s'.

Definition rank pc : nat :=
  match pc with CWait _ => 2 | CSleepy _ | CExpired => 1 | _ => 0 end.

(** The steps left once no further call is made. *)
Definition work_left s : nat :=
  3 * ct_one s + (2 * length (ct_calls s) + 1) * ct_all s + sum_list_with rank (ct_calls s).

Lemma rank_set_pc i pc pc' (calls : list (CallPc T)) :
  calls !! i = Some pc →
  sum_list_with rank (<[i := pc']> calls) + rank pc = sum_list_with rank calls + rank pc'.
Proof. apply sum_insert. Qed.

Lemma rank_wake (calls : list (CallPc T)) :
  sum_list_with rank (wake <$> calls) ≤ sum_list_with rank calls + 2 * length calls.
Proof. induction calls as [|[] calls IH]; cbn; lia. Qed.

Lemma works_decreases s s' : works s s' → work_left s' < work_left s.
Proof.
  intros [outs Hw]. unfold work_left.
  destruct Hw as [s n Hn Ha|i pc s n Hn Hi Hp|s n Hn|i pc pc' ch s Hi Hp Hm Hl|i timed s Hi];
    cbn; rewrite ?length_insert, ?length_fmap.
  - rewrite Hn. lia.
  - pose proof (rank_set_pc i pc (wake pc) _ Hi) as Hr. rewrite Hn. destruct pc; cbn in *; done || lia.
  - pose proof (rank_wake (ct_calls s)). rewrite Hn. lia.
  - pose proof (rank_set_pc i pc pc' _ Hi) as Hr.
    assert (rank pc' < rank pc) by
      (unfold locked_recv in Hl; destruct pc, (recv (ct_chan s)) as [[]|]; simplify_eq; cbn; done || lia).
    lia.
  - pose proof (rank_set_pc i _ (CAsleep timed) _ Hi) as Hr. cbn in *. lia.
Qed.

Lemma works_bounded n s s' : nsteps works n s s' → n + work_left s' ≤ work_left s.
Proof.
  induction 1 as [|n s s1 s' Hw _ IH]; [lia|]. apply works_decreases in Hw. lia.
Qed.

(** A call that returned, or sleeps. *)
Definition at_rest pc : Prop := is_sleepy pc = false ∧ is_waiter pc = false.

Lemma works_or_rests s :
  (∃ s', works s s') ∨
  (Forall at_rest (ct_calls s) ∧ number is_waiter (ct_calls s) = 0 ∧ ct_one s = 0 ∧ ct_all s = 0).
Proof.
  destruct (ct_one s) as [|n] eqn:E1.
  2:{ left. destruct (existsb is_asleep (ct_calls s)) eqn:Ea.
      - rewrite number_existsb in Ea. apply negb_true_iff, bool_decide_eq_false in Ea.
        apply number_pos in Ea as (i & pc & Hi & Hp). eexists _, _. by eapply (w_notify_one i).
      - eexists _, _. by apply (w_notify_none _ n). }
  destruct (ct_all s) as [|n] eqn:E2.
  2:{ left. eexists _, _. by apply (w_notify_all _ n). }
  destruct (decide (number is_sleepy (ct_calls s) = 0)) as [Hs|Hs].
  2:{ left. apply number_pos in Hs as (i & pc & Hi & Hp). destruct pc; try done.
      eexists _, _. by apply (w_sleep i timed). }
  destruct (decide (number is_waiter (ct_calls s) = 0)) as [Hw|Hw].
  2:{ left. apply number_pos in Hw as (i & pc & Hi & Hp).
      destruct (locked_recv pc (ct_chan s)) as [pc' ch] eqn:El.
      eexists _, _. eapply (w_lock i pc pc' ch); [done..| |done]. by apply mutex_free_number. }
  right. split_and!; [|done..]. apply Forall_lookup. intros i pc Hi.
  pose proof (number_set_pc is_sleepy i pc (CReturned None) _ Hi).
  pose proof (number_set_pc is_waiter i pc (CReturned None) _ Hi). cbn in *.
  split; [destruct (is_sleepy pc)|destruct (is_waiter pc)]; cbn in *; done || lia.
Qed.

Lemma works_inv s s' : rtc works s s' → wake_inv s → wake_inv s'.
Proof. induction 1 as [|s s1 s' [outs Hw] _ IH]; eauto using wake_inv_work. Qed.

(** C24: No wake-up of a channel is lost.  Whatever calls were made and however the
    threads were interleaved, once no further call is made the threads make at most
    [work_left] more steps (notifications, locked tests of the predicate, sleeps); and
    wherever no such step is left, every call has returned or sleeps, and a call sleeps
    only on a channel that is empty and open.  No receiver is left asleep beside a
    buffered element, or after a close. *)
Theorem channel_no_lost_wakeup ins outs s :
  threads_exec threads_new ins outs s →
  (∀ n s', nsteps works n s s' → n ≤ work_left s) ∧
  (∀ s', rtc works s s' →
     (∃ s'', works s' s'') ∨
     (Forall at_rest (ct_calls s') ∧
      (number is_asleep (ct_calls s') ≠ 0 → recv_ready (ct_chan s') = false))).
Proof.
  intros He. split; [intros n s' Hn%works_bounded; lia|].
  intros s' Hr. destruct (works_or_rests s') as [|(Hf & Hw & H1 & H2)]; [by left|right].
  split; [done|]. intros Ha.
  assert (wake_inv s') as [_ Hi].
  { eapply works_inv, threads_exec_inv; [done..|]. by split. }
  destruct (Hi Ha) as [Hb Hc]. apply recv_ready_false.
  split; [apply length_zero_iff_nil; lia|]. destruct (closed_ (ct_chan s')); [|done].
  by destruct Hc.
Qed.
End threads.
Arguments Threads T : clear implicits.

(** ** Instances *)

(** A receiver sleeps, a value is sent; its sender has not notified yet. *)
Definition demo_sent : Threads nat := mkThreads (mkChannel [7] false) [CAsleep false] 1 0.

Lemma demo_sent_reached : threads_exec threads_new [7] [] demo_sent.
Proof.
  apply (t_snoc _ [] [] (mkThreads channel_new [CAsleep false] 0 0) [7] []).
  2:{ by apply (t_send 7 (mkThreads channel_new [CAsleep false] 0 0)). }
  apply (t_snoc _ [] [] (mkThreads channel_new [CSleepy false] 0 0) [] []).
  2:{ apply t_work. by apply (w_sleep 0 false (mkThreads channel_new [CSleepy false] 0 0)). }
  apply (t_snoc _ [] [] (mkThreads channel_new [CWait false] 0 0) [] []).
  2:{ apply t_work.
      by apply (w_lock 0 (CWait false) (CSleepy false) channel_new
                 (mkThreads channel_new [CWait false] 0 0)). }
  apply (t_snoc _ [] [] threads_new [] []); [constructor|]. apply (t_recv false threads_new).
Qed.

Example channel_threads_refine_witness :
  chan_exec channel_new [7] [] (mkChannel [7] false) ∧ [] ++ [7] = [] ++ [7] ∧
  taken demo_sent ≡ₚ [].
Proof. apply (channel_threads_refine threads_new [7] [] demo_sent demo_sent_reached). Defined.

Example channel_no_lost_wakeup_witness :
  (∀ n s', nsteps works n demo_sent s' → n ≤ 3) ∧
  (∀ s', rtc works demo_sent s' →
     (∃ s'', works s' s'') ∨
     (Forall at_rest (ct_calls s') ∧
      (number is_asleep (ct_calls s') ≠ 0 → recv_ready (ct_chan s') = false))).
Proof. apply (channel_no_lost_wakeup [7] [] demo_sent demo_sent_reached). Defined.
