(* ===== verification/HexCodec.v ===== *)
(** * Hexadecimal audio payloads (src/upstream/hex_codec.h)

    The upstream service sends audio as hexadecimal text; [hex_decode] turns it
    into bytes (the empty string on any malformed input) and [hex_encode] is its
    inverse.  A [std::string] is a [string]; a [char] is an [ascii]. *)

From S2P Require Import Prelude.

Local Open Scope string_scope.

(** ** The code *)

(** The value of a [char] compared against character literals. *)
Definition char_code (c : Ascii.ascii) : Z := Z.of_N (Ascii.N_of_ascii c).

(** [static_cast<char>(z)]. *)
Definition to_char (z : Z) : Ascii.ascii := Ascii.ascii_of_N (Z.to_N (z mod 256)).

Definition nibble (ch : Ascii.ascii) : Z :=
  let c := char_code ch in
  if ((48 <=? c) && (c <=? 57))%Z then (c - 48)%Z else
  if ((97 <=? c) && (c <=? 102))%Z then (10 + (c - 97))%Z else
  if ((65 <=? c) && (c <=? 70))%Z then (10 + (c - 65))%Z else
  (-1)%Z.

(** The loop of [hex_decode], two characters at a time; a bad digit returns the
    empty string and drops what was decoded so far. *)
Fixpoint hex_decode_loop (hex out : string) : string :=
  match hex with
  | String h (String l rest) =>
      let hi := nibble h in
      let lo := nibble l in
      if ((hi <? 0) || (lo <? 0))%Z then ""
      else hex_decode_loop rest
             (out ++ String (to_char (Z.lor (Z.shiftl hi 4) lo)) "")
  | _ => out
  end.

Definition hex_decode (hex : string) : string :=
  if negb (Nat.eqb (String.length hex mod 2) 0) then "" else hex_decode_loop hex "".

Definition hex_digits : string := "0123456789abcdef".

(** [digits[i]] for an index below 16. *)
Definition hex_digit (i : Z) : Ascii.ascii :=
  default Ascii.zero (String.get (Z.to_nat i) hex_digits).

(** The loop of [hex_encode]. *)
Fixpoint hex_encode_loop (bytes out : string) : string :=
  match bytes with
  | "" => out
  | String c rest =>
      let v := char_code c in
      hex_encode_loop rest
        ((out ++ String (hex_digit (Z.land (Z.shiftr v 4) 15)) "")
           ++ String (hex_digit (Z.land v 15)) "")
  end.

Definition hex_encode (bytes : string) : string := hex_encode_loop bytes "".

(** ** Reference definitions *)

(** Hexadecimal text: an even number of digits, upper or lower case. *)
Fixpoint hex_text (h : string) : bool :=
  match h with
  | "" => true
  | String a (String b rest) =>
      (0 <=? nibble a)%Z && (0 <=? nibble b)%Z && hex_text rest
  | String _ "" => false
  end.

(** Lower-casing of the digits [A-F]. *)
Definition lower_digit (c : Ascii.ascii) : Ascii.ascii :=
  if ((65 <=? char_code c) && (char_code c <=? 70))%Z
  then to_char (char_code c + 32) else c.

Fixpoint lower_hex (h : string) : string :=
  match h with "" => "" | String c h => String (lower_digit c) (lower_hex h) end.

(** ** Lemmas *)

(** Induction on strings two characters at a time. *)
Lemma string_ind2 (P : string → Prop) :
  P "" → (∀ a, P (String a "")) → (∀ a b s, P s → P (String a (String b s))) →
  ∀ s, P s.
Proof.
  intros H0 H1 H2 s.
  enough (P s ∧ ∀ a, P (String a s)) by tauto.
  induction s as [|c s [IH1 IH2]]; split; auto.
Qed.

Lemma string_app_assoc (a b c : string) : (a ++ b) ++ c = a ++ (b ++ c).
Proof. induction a as [|x a IH]; simpl; [done|]. by rewrite IH. Qed.

Lemma string_app_nil (a : string) : a ++ "" = a.
Proof. induction a as [|x a IH]; simpl; [done|]. by rewrite IH. Qed.

(** The two digits of a byte. *)
Lemma byte_digits (c : Ascii.ascii) :
  let hi := nibble (hex_digit (Z.land (Z.shiftr (char_code c) 4) 15)) in
  let lo := nibble (hex_digit (Z.land (char_code c) 15)) in
  (hi <? 0)%Z = false ∧ (lo <? 0)%Z = false ∧ to_char (Z.lor (Z.shiftl hi 4) lo) = c.
Proof. by destruct c as [[] [] [] [] [] [] [] []]; vm_compute. Qed.

(** The nibble of a hexadecimal digit determines it up to case. *)
Lemma nibble_digit (c : Ascii.ascii) :
  (0 <=? nibble c)%Z = true →
  (nibble c < 16)%Z ∧ hex_digit (nibble c) = lower_digit c.
Proof. by destruct c as [[] [] [] [] [] [] [] []]; vm_compute. Qed.

Lemma nibble_range (c : Ascii.ascii) : (-1 ≤ nibble c < 16)%Z.
Proof.
  unfold nibble. pose proof (N2Z.is_nonneg (Ascii.N_of_ascii c)).
  repeat case_match; lia.
Qed.

(** The byte made of two nibbles has these nibbles. *)
Lemma nibbles_of_byte (hi lo : Z) :
  (0 ≤ hi < 16)%Z → (0 ≤ lo < 16)%Z →
  let v := char_code (to_char (Z.lor (Z.shiftl hi 4) lo)) in
  Z.land (Z.shiftr v 4) 15 = hi ∧ Z.land v 15 = lo.
Proof.
  intros Hh Hl.
  assert (∃ h, hi = Z.of_nat h ∧ h < 16) as (h & -> & Hh') by (exists (Z.to_nat hi); lia).
  assert (∃ l, lo = Z.of_nat l ∧ l < 16) as (l & -> & Hl') by (exists (Z.to_nat lo); lia).
  clear Hh Hl.
  do 16 (destruct h as [|h]; [do 16 (destruct l as [|l]; [by vm_compute|]); lia|]); lia.
Qed.

Lemma hex_decode_loop_spec h out :
  hex_decode_loop h out =
  if hex_text h then out ++ hex_decode_loop h "" else
  if Nat.even (String.length h) then "" else hex_decode_loop h out.
Proof.
  revert out. induction h as [|a|a b s IH] using string_ind2; intros out; simpl.
  - by rewrite string_app_nil.
  - done.
  - pose proof (nibble_range a). pose proof (nibble_range b).
    destruct (Z.leb_spec 0 (nibble a)), (Z.leb_spec 0 (nibble b));
      destruct (Z.ltb_spec (nibble a) 0), (Z.ltb_spec (nibble b) 0); simpl; try lia;
      try (by destruct (Nat.even _)).
    destruct (hex_text s) eqn:Hs.
    + rewrite IH, (IH (String _ "")). by rewrite string_app_assoc.
    + destruct (Nat.even (String.length s)); [by rewrite IH|done].
Qed.

Lemma hex_text_even h : hex_text h = true → Nat.even (String.length h) = true.
Proof.
  induction h as [|a|a b s IH] using string_ind2; simpl; [done|done|].
  rewrite !andb_true_iff. tauto.
Qed.

Lemma hex_decode_cases h :
  hex_decode h = if hex_text h then hex_decode_loop h "" else "".
Proof.
  unfold hex_decode.
  assert (Nat.eqb (String.length h mod 2) 0 = Nat.even (String.length h)) as ->.
  { destruct (Nat.even (String.length h)) eqn:E.
    - apply Nat.even_spec in E as [k ->]. rewrite Nat.mul_comm, Nat.Div0.mod_mul. done.
    - apply Nat.eqb_neq. intros Hm. apply Nat.Div0.mod_divides in Hm as [k Hk].
      rewrite Hk, Nat.even_mul in E. done. }
  destruct (hex_text h) eqn:Ht.
  - by rewrite (hex_text_even h Ht).
  - destruct (Nat.even (String.length h)) eqn:E; simpl; [|done].
    by rewrite hex_decode_loop_spec, Ht, E.
Qed.

Lemma hex_encode_loop_spec s out :
  hex_encode_loop s out = out ++ hex_encode_loop s "".
Proof.
  revert out. induction s as [|c s IH]; intros out; simpl.
  - by rewrite string_app_nil.
  - rewrite IH, (IH (String _ (String _ ""))).
    by rewrite !string_app_assoc.
Qed.

Lemma hex_encode_cons c s :
  hex_encode (String c s) =
  String (hex_digit (Z.land (Z.shiftr (char_code c) 4) 15))
    (String (hex_digit (Z.land (char_code c) 15)) (hex_encode s)).
Proof. unfold hex_encode. simpl. by rewrite hex_encode_loop_spec. Qed.

Lemma hex_text_encode s : hex_text (hex_encode s) = true.
Proof.
  induction s as [|c s IH]; [done|].
  rewrite hex_encode_cons. simpl. rewrite IH.
  pose proof (byte_digits c) as (H1 & H2 & _). cbv zeta in *.
  apply Z.ltb_ge in H1, H2. apply Z.leb_le in H1, H2. by rewrite H1, H2.
Qed.

Lemma hex_decode_cons a b s :
  hex_text (String a (String b s)) = true →
  hex_decode (String a (String b s)) =
  String (to_char (Z.lor (Z.shiftl (nibble a) 4) (nibble b))) (hex_decode s).
Proof.
  intros Ht. rewrite !hex_decode_cases. rewrite Ht.
  simpl in Ht. apply andb_true_iff in Ht as [[Ha Hb]%andb_true_iff Hs].
  rewrite Hs. simpl.
  apply Z.leb_le in Ha, Hb. apply Z.ltb_ge in Ha, Hb. rewrite Ha, Hb. simpl.
  by rewrite hex_decode_loop_spec, Hs.
Qed.

(** ** Properties *)

(** Decoding inverts encoding: for every byte string, the hexadecimal text
    [hex_encode] produces decodes to exactly that byte string. *)
Theorem hex_decode_encode (s : string) : hex_decode (hex_encode s) = s.
Proof.
  induction s as [|c s IH]; [done|].
  pose proof (hex_text_encode (String c s)) as Ht.
  rewrite hex_encode_cons in *. rewrite hex_decode_cons, IH by done.
  pose proof (byte_digits c) as (_ & _ & ->). done.
Qed.

(** [hex_decode] accepts exactly hexadecimal text: on an even number of
    upper- or lower-case digits it yields half as many bytes, whose encoding is
    the lower-cased input, and on anything else (odd length or a bad digit
    anywhere) it yields the empty string and no partial result. *)
Theorem hex_decode_total (h : string) :
  (hex_text h = true →
     hex_encode (hex_decode h) = lower_hex h ∧
     2 * String.length (hex_decode h) = String.length h) ∧
  (hex_text h = false → hex_decode h = "").
Proof.
  split.
  - induction h as [|a|a b s IH] using string_ind2; [done|done|].
    intros Ht. rewrite hex_decode_cons, hex_encode_cons by done.
    simpl in Ht. apply andb_true_iff in Ht as [[Ha Hb]%andb_true_iff Hs].
    destruct (IH Hs) as [-> Hlen].
    pose proof (nibble_digit a Ha) as [Ha1 Ha2]. pose proof (nibble_digit b Hb) as [Hb1 Hb2].
    apply Z.leb_le in Ha, Hb.
    pose proof (nibbles_of_byte (nibble a) (nibble b)) as [-> ->]; [lia|lia|].
    rewrite Ha2, Hb2. simpl. split; [done|]. lia.
  - intros Ht. by rewrite hex_decode_cases, Ht.
Qed.
