(* ===== verification/Metrics.v ===== *)
(** * MetricsSnapshot (src/databoard/metrics_snapshot.h)

    The counters of the server, [std::atomic<std::uint64_t>] each, and the last
    256 heartbeat durations.  Every operation is one atomic step.  Counter
    arithmetic is modulo 2^64. *)

From Stdlib Require Import SpecFloat.
From S2P Require Import Prelude.

Local Open Scope Z_scope.

(** ** Double-precision arithmetic used by the percentile *)

Definition f64_mul : spec_float → spec_float → spec_float := SFmul 53 1024.

(** Conversion of a [size_t] to [double], rounded to nearest. *)
Definition f64_of_Z (z : Z) : spec_float := binary_normalize 53 1024 z 0 false.

(** [static_cast<std::size_t>(x)] for a finite [x >= 0]: truncation. *)
Definition f64_trunc (x : spec_float) : Z :=
  match x with
  | S754_finite false m e => if 0 <=? e then Zpos m * 2 ^ e else Zpos m / 2 ^ (- e)
  | _ => 0
  end.

(** The literal [0.99]. *)
Definition f64_099 : spec_float := S754_finite false 8917127262193582 (-53).

(** ** The snapshot *)

Record MetricsSnapshot := mkMetrics {
  inflight_ : Z;
  queued_ : Z;
  upstream_connected_ : Z;
  upstream_disconnected_ : Z;
  audio_bytes_ : Z;
  failed_requests_ : Z;
  pool_idle_ : Z;
  pool_active_ : Z;
  backpressure_ : Z;
  heartbeat_count_ : Z;
  bus_pending_ : Z;
  hb_samples_ : list Z;
}.
#[global] Instance MetricsSnapshot_eta : Eta MetricsSnapshot := {|
  eta_expand m := mkMetrics (inflight_ m) (queued_ m) (upstream_connected_ m)
    (upstream_disconnected_ m) (audio_bytes_ m) (failed_requests_ m) (pool_idle_ m)
    (pool_active_ m) (backpressure_ m) (heartbeat_count_ m) (bus_pending_ m)
    (hb_samples_ m) |}.

Definition metrics_new : MetricsSnapshot := mkMetrics 0 0 0 0 0 0 0 0 0 0 0 [].

Implicit Types (m : MetricsSnapshot) (v : Z).

(** Mutators. *)
Definition inc_inflight v m := m <| inflight_ := u64 (inflight_ m + v) |>.
Definition dec_inflight v m := m <| inflight_ := u64 (inflight_ m - v) |>.
Definition set_queued v m := m <| queued_ := v |>.
Definition inc_upstream_connected m :=
  m <| upstream_connected_ := u64 (upstream_connected_ m + 1) |>.
Definition inc_upstream_disconnected m :=
  m <| upstream_disconnected_ := u64 (upstream_disconnected_ m + 1) |>.
Definition add_audio_bytes v m := m <| audio_bytes_ := u64 (audio_bytes_ m + v) |>.
Definition inc_failed_requests m :=
  m <| failed_requests_ := u64 (failed_requests_ m + 1) |>.
Definition set_pool_idle v m := m <| pool_idle_ := v |>.
Definition set_pool_active v m := m <| pool_active_ := v |>.
Definition set_backpressure_level v m := m <| backpressure_ := v |>.
Definition inc_heartbeat m := m <| heartbeat_count_ := u64 (heartbeat_count_ m + 1) |>.
Definition set_bus_pending v m := m <| bus_pending_ := v |>.

(** [push_back], then erase the oldest sample when there are more than 256. *)
Definition record_heartbeat_latency_us (us : Z) m : MetricsSnapshot :=
  let l := hb_samples_ m ++ [us] in
  m <| hb_samples_ := if Nat.ltb 256 (length l) then tail l else l |>.

Definition heartbeat_p99_us m : Z :=
  match hb_samples_ m with
  | [] => 0
  | _ =>
      let v := merge_sort Z.le (hb_samples_ m) in
      let n := Z.of_nat (length v) in
      let idx := f64_trunc (f64_mul (f64_of_Z n) f64_099) in
      let idx := if n <=? idx then n - 1 else idx in
      default 0 (v !! Z.to_nat idx)
  end.

#[global] Arguments record_heartbeat_latency_us : simpl never.

(** ** Operations as data *)

(** Everything another component can do to the snapshot. *)
Inductive metrics_op :=
| MIncInflight (v : Z) | MDecInflight (v : Z) | MSetQueued (v : Z)
| MIncConnected | MIncDisconnected | MAddAudioBytes (v : Z) | MIncFailed
| MSetPoolIdle (v : Z) | MSetPoolActive (v : Z) | MSetBackpressure (v : Z)
| MIncHeartbeat | MRecordLatency (us : Z) | MSetBusPending (v : Z).

Definition metrics_apply m (o : metrics_op) : MetricsSnapshot :=
  match o with
  | MIncInflight v => inc_inflight v m
  | MDecInflight v => dec_inflight v m
  | MSetQueued v => set_queued v m
  | MIncConnected => inc_upstream_connected m
  | MIncDisconnected => inc_upstream_disconnected m
  | MAddAudioBytes v => add_audio_bytes v m
  | MIncFailed => inc_failed_requests m
  | MSetPoolIdle v => set_pool_idle v m
  | MSetPoolActive v => set_pool_active v m
  | MSetBackpressure v => set_backpressure_level v m
  | MIncHeartbeat => inc_heartbeat m
  | MRecordLatency us => record_heartbeat_latency_us us m
  | MSetBusPending v => set_bus_pending v m
  end.

Definition metrics_run (l : list metrics_op) m : MetricsSnapshot :=
  foldl metrics_apply m l.

(** The durations recorded by a sequence of operations. *)
Definition latencies (l : list metrics_op) : list Z :=
  omap (λ o, match o with MRecordLatency us => Some us | _ => None end) l.

(** The last [n] elements of a list. *)
Definition last_n {A} (n : nat) (l : list A) : list A := drop (length l - n) l.

Lemma last_n_snoc {A} n (l : list A) x :
  last_n (S n) (last_n (S n) l ++ [x]) = last_n (S n) (l ++ [x]).
Proof.
  unfold last_n. rewrite !length_app, length_drop. simpl.
  destruct (decide (length l ≤ S n)%nat).
  - replace (length l - S n)%nat with 0%nat by lia. rewrite drop_0.
    f_equal. lia.
  - rewrite !drop_app_le by (rewrite ?length_drop; lia). rewrite drop_drop.
    f_equal. f_equal. lia.
Qed.

Lemma last_n_app {A} n (l k : list A) :
  last_n (S n) (last_n (S n) l ++ k) = last_n (S n) (l ++ k).
Proof.
  revert l. induction k as [|x k IH]; intros l.
  - rewrite !app_nil_r. unfold last_n. rewrite length_drop, drop_drop. f_equal. lia.
  - change (x :: k) with ([x] ++ k).
    rewrite !(app_assoc _ [x]), <- (IH (_ ++ [x])), last_n_snoc. apply IH.
Qed.

Lemma record_last_n us m :
  (length (hb_samples_ m) ≤ 256)%nat →
  hb_samples_ (record_heartbeat_latency_us us m) = last_n 256 (hb_samples_ m ++ [us]).
Proof.
  intros Hl. unfold record_heartbeat_latency_us, last_n. simpl.
  rewrite length_app. simpl. destruct (Nat.ltb_spec 256 (length (hb_samples_ m) + 1)).
  - replace (length (hb_samples_ m) + 1 - 256)%nat with 1%nat by lia.
    by destruct (hb_samples_ m).
  - by replace (length (hb_samples_ m) + 1 - 256)%nat with 0%nat by lia.
Qed.

(** The latency window is exactly the last 256 recorded heartbeat
    durations, oldest first, whatever other operations are interleaved; in
    particular it never holds more than 256 samples. *)
Theorem latency_window (l : list metrics_op) :
  hb_samples_ (metrics_run l metrics_new) = last_n 256 (latencies l) ∧
  (length (hb_samples_ (metrics_run l metrics_new)) ≤ 256)%nat.
Proof.
  enough (hb_samples_ (metrics_run l metrics_new) = last_n 256 (latencies l)) as E.
  { split; [done|]. rewrite E. unfold last_n. rewrite length_drop. lia. }
  induction l as [|o l IH] using rev_ind; [done|].
  unfold metrics_run in *. rewrite foldl_app. cbn [foldl].
  unfold latencies in *. rewrite omap_app. cbn [omap list_omap].
  destruct o; cbn [metrics_apply]; rewrite ?app_nil_r; try exact IH.
  rewrite record_last_n; rewrite IH.
  - apply last_n_snoc.
  - unfold last_n. rewrite length_drop. lia.
Qed.

(** ** The percentile *)

(** The index computed in double precision is the integer one. *)
Lemma p99_index (n : nat) :
  (n ≤ 256)%nat →
  f64_trunc (f64_mul (f64_of_Z (Z.of_nat n)) f64_099) = Z.of_nat n * 99 / 100.
Proof.
  intros Hn.
  assert (forallb (λ k, f64_trunc (f64_mul (f64_of_Z (Z.of_nat k)) f64_099)
                        =? Z.of_nat k * 99 / 100) (seq 0 257) = true) as H
    by (vm_compute; reflexivity).
  rewrite forallb_forall in H. specialize (H n). apply Z.eqb_eq, H.
  apply in_seq. lia.
Qed.

(** In a sorted list, the element at [i] has [i] elements before and the rest
    after it. *)
Lemma sorted_rank (l : list Z) i x :
  StronglySorted Z.le l → l !! i = Some x →
  Forall (λ y, y ≤ x) (take (S i) l) ∧ Forall (λ y, x ≤ y) (drop i l).
Proof.
  intros Hs Hi. rewrite <- (take_drop_middle l i x Hi) in Hs.
  rewrite (take_S_r _ _ _ Hi), (drop_S _ _ _ Hi).
  apply StronglySorted_app in Hs as (H12 & _ & H2).
  apply StronglySorted_cons in H2 as [H2 _]. split.
  - apply Forall_app. split; [|by repeat constructor].
    apply Forall_forall. intros y Hy. apply (H12 y x); [done|]. left.
  - constructor; [lia|done].
Qed.

Lemma Forall_filter_length {A} (P : A → Prop) `{∀ x, Decision (P x)} (l : list A) :
  Forall P l → length (filter P l) = length l.
Proof. induction 1; simpl; [done|]. rewrite filter_cons_True by done. simpl. by f_equal. Qed.

(** A part of [v] that satisfies [P] bounds the count of [P] in any
    rearrangement of [v]. *)
Lemma filter_part_ge {A} (P : A → Prop) `{∀ x, Decision (P x)} (v s v1 v2 v3 : list A) :
  v ≡ₚ s → v = v1 ++ v2 ++ v3 → Forall P v2 → (length v2 ≤ length (filter P s))%nat.
Proof.
  intros Hp -> Hf. rewrite <- Hp, !filter_app, !length_app.
  rewrite (Forall_filter_length P v2 Hf). lia.
Qed.

(** [heartbeat_p99_us] of a non-empty window of [n <= 256] samples is one of
    the samples; at least [floor(0.99 n) + 1] samples (all of them when that
    exceeds [n]) are not above it and at least [n - floor(0.99 n)] are not below
    it, although the rank is computed in floating point. *)
Theorem heartbeat_p99_rank m :
  let s := hb_samples_ m in
  let r := (length s * 99 / 100)%nat in
  s ≠ [] → (length s ≤ 256)%nat →
  heartbeat_p99_us m ∈ s ∧
  (Nat.min (length s) (r + 1) ≤ length (filter (λ y, (y ≤ heartbeat_p99_us m)%Z) s))%nat ∧
  (length s - r ≤ length (filter (λ y, (heartbeat_p99_us m ≤ y)%Z) s))%nat.
Proof.
  intros s r Hne Hlen.
  assert (heartbeat_p99_us m = default 0 (merge_sort Z.le s !!
    Z.to_nat (let n := Z.of_nat (length (merge_sort Z.le s)) in
              let idx := f64_trunc (f64_mul (f64_of_Z n) f64_099) in
              if n <=? idx then n - 1 else idx))) as ->.
  { unfold heartbeat_p99_us. fold s. by destruct s. }
  cbv zeta. clearbody s.
  pose proof (merge_sort_Permutation Z.le s) as Hp.
  set (v := merge_sort Z.le s) in *.
  assert (length v = length s) as Hlv by (apply Permutation_length, Hp).
  rewrite p99_index by lia. rewrite Hlv.
  assert (0 < length s)%nat as Hpos by (destruct s; simpl; [done|lia]).
  assert (Z.of_nat (length s) * 99 / 100 = Z.of_nat r) as Hr.
  { unfold r. rewrite Nat2Z.inj_div, Nat2Z.inj_mul. done. }
  rewrite Hr.
  assert (r < length s)%nat as Hlt by (unfold r; apply Nat.Div0.div_lt_upper_bound; lia).
  destruct (Z.leb_spec (Z.of_nat (length s)) (Z.of_nat r)); [lia|].
  rewrite Nat2Z.id.
  destruct (lookup_lt_is_Some_2 v r) as [x Hx]; [lia|]. rewrite Hx. simpl.
  assert (StronglySorted Z.le v) as Hs.
  { apply (StronglySorted_merge_sort Z.le). }
  destruct (sorted_rank v r x Hs Hx) as [Ha Hb].
  split_and!.
  - rewrite <- Hp. by apply list_elem_of_lookup_2 in Hx.
  - etransitivity; [|apply (filter_part_ge _ v s [] (take (S r) v) (drop (S r) v) Hp)].
    + rewrite length_take. lia.
    + by rewrite <- (take_drop (S r) v) at 1.
    + done.
  - etransitivity; [|apply (filter_part_ge _ v s (take r v) (drop r v) [] Hp)].
    + rewrite length_drop. lia.
    + by rewrite app_nil_r, take_drop.
    + done.
Qed.

(** Three recorded samples: the percentile is the largest but by one rank. *)
Lemma heartbeat_p99_rank_witness :
  let m := metrics_run [MRecordLatency 30; MRecordLatency 10; MRecordLatency 20] metrics_new in
  let s := hb_samples_ m in
  let r := (length s * 99 / 100)%nat in
  heartbeat_p99_us m ∈ s ∧
  (Nat.min (length s) (r + 1) ≤ length (filter (λ y, (y ≤ heartbeat_p99_us m)%Z) s))%nat ∧
  (length s - r ≤ length (filter (λ y, (heartbeat_p99_us m ≤ y)%Z) s))%nat.
Proof.
  apply (heartbeat_p99_rank
           (metrics_run [MRecordLatency 30; MRecordLatency 10; MRecordLatency 20] metrics_new));
    [discriminate|vm_compute; lia].
Defined.
