(* ===== verification/SessionPool.v ===== *)
(** * SessionPool (src/databoard/session_pool.h)

    The pool of upstream sessions: a hash map from session id to record and a
    list of ids in recency order (front = most recently used).  Each public
    method holds the pool's mutex, so it is one step on the state.  Methods that
    read [steady_clock::now()] take the reading as an argument.  The pool is
    specified by a list of (id, record) pairs in recency order, [LruSpec], which
    the pair of hash map and list is proved to implement. *)

From S2P Require Import Prelude.

(** ** Data *)

Module SS.
Inductive SessionState : Type :=
| Cold | Connecting | Ready | Streaming | Draining | Closed | Errored.
End SS.
#[global] Instance SessionState_eq_dec : EqDecision SS.SessionState.
Proof. solve_decision. Defined.

(** [to_string(SessionState)]. *)
Definition session_state_to_string (s : SS.SessionState) : string :=
  match s with
  | SS.Cold => "Cold"
  | SS.Connecting => "Connecting"
  | SS.Ready => "Ready"
  | SS.Streaming => "Streaming"
  | SS.Draining => "Draining"
  | SS.Closed => "Closed"
  | SS.Errored => "Errored"
  end.
#[global] Instance session_state_to_string_inj : Inj (=) (=) session_state_to_string.
Proof. by intros [] []. Qed.

Record SessionRecord := mkSession {
  sr_session_id : string;
  sr_state : SS.SessionState;
  sr_created_at : TimePoint;
  sr_last_active_at : TimePoint;
  sr_current_request_id : string;
  sr_last_error : string;
}.
#[global] Instance SessionRecord_eta : Eta SessionRecord := {|
  eta_expand s := mkSession (sr_session_id s) (sr_state s) (sr_created_at s)
    (sr_last_active_at s) (sr_current_request_id s) (sr_last_error s) |}.

(** A default-constructed [SessionRecord]: both time points are the epoch. *)
Definition SessionRecord_default : SessionRecord := mkSession "" SS.Cold 0%Z 0%Z "" "".

(** [idle_timeout_] and [max_lifetime_] are in seconds. *)
Record SessionPool := mkPool {
  max_size_ : nat;
  idle_timeout_ : Z;
  max_lifetime_ : Z;
  sessions_ : gmap string SessionRecord;
  lru_ : list string;
}.
#[global] Instance SessionPool_eta : Eta SessionPool := {|
  eta_expand p := mkPool (max_size_ p) (idle_timeout_ p) (max_lifetime_ p)
    (sessions_ p) (lru_ p) |}.

(** The constructor. *)
Definition pool_new (max_size : nat) (idle_timeout max_lifetime : Z) : SessionPool :=
  mkPool max_size idle_timeout max_lifetime ∅ [].

Implicit Types (p : SessionPool) (s : SessionRecord) (id : string) (now : TimePoint).

(** ** Private helpers *)

(** [std::list::remove]: drop every occurrence. *)
Definition list_remove_all id (l : list string) : list string := filter (λ x, x ≠ id) l.

Definition move_to_front_locked id p : SessionPool :=
  p <| lru_ := id :: list_remove_all id (lru_ p) |>.

Definition remove_locked id p : SessionPool :=
  p <| sessions_ := delete id (sessions_ p) |> <| lru_ := list_remove_all id (lru_ p) |>.

Definition is_ready s : bool := bool_decide (sr_state s = SS.Ready).

(** [it->second = ...] for a session found at [id]. *)
Definition put_session id s p : SessionPool := p <| sessions_ := <[id := s]> (sessions_ p) |>.

(** ** Public methods *)

(** [size()]. *)
Definition pool_size p : nat := size (sessions_ p).

(** [add]: refuse when full; otherwise put the id in front and store the record. *)
Definition pool_add s p : bool * SessionPool :=
  if Nat.leb (max_size_ p) (size (sessions_ p)) then (false, p)
  else
    let id := sr_session_id s in
    let p := p <| lru_ := id :: lru_ p |> in
    (true, put_session id s p).

Definition touch_active id now p : SessionPool :=
  match sessions_ p !! id with
  | None => p
  | Some s => move_to_front_locked id (put_session id (s <| sr_last_active_at := now |>) p)
  end.

(** [get]: the record the returned pointer refers to. *)
Definition pool_get id p : option SessionRecord := sessions_ p !! id.

(** Assignment through the pointer returned by [get]:
    [get(id)->current_request_id = rid]. *)
Definition set_current_request id (rid : string) p : SessionPool :=
  match sessions_ p !! id with
  | None => p
  | Some s => put_session id (s <| sr_current_request_id := rid |>) p
  end.

(** The loop of [find_idle_least_recently_used], over [lru_] from its back. *)
Fixpoint find_idle_loop (ids : list string) (m : gmap string SessionRecord)
    : option SessionRecord :=
  match ids with
  | [] => None
  | id :: ids =>
      match m !! id with
      | None => find_idle_loop ids m
      | Some s => if is_ready s then Some s else find_idle_loop ids m
      end
  end.

Definition find_idle_least_recently_used p : option SessionRecord :=
  find_idle_loop (reverse (lru_ p)) (sessions_ p).

Definition mark_active id now p : SessionPool :=
  match sessions_ p !! id with
  | None => p
  | Some s =>
      move_to_front_locked id
        (put_session id (s <| sr_state := SS.Streaming |> <| sr_last_active_at := now |>) p)
  end.

Definition mark_ready id now p : SessionPool :=
  match sessions_ p !! id with
  | None => p
  | Some s =>
      move_to_front_locked id
        (put_session id (s <| sr_state := SS.Ready |> <| sr_last_active_at := now |>) p)
  end.

Definition mark_draining id p : SessionPool :=
  match sessions_ p !! id with
  | None => p
  | Some s => put_session id (s <| sr_state := SS.Draining |>) p
  end.

Definition mark_idle id now p : SessionPool :=
  match sessions_ p !! id with
  | None => p
  | Some s =>
      move_to_front_locked id
        (put_session id
           (s <| sr_state := SS.Ready |> <| sr_current_request_id := "" |>
              <| sr_last_active_at := now |>) p)
  end.

Definition mark_errored id (reason : string) p : SessionPool :=
  match sessions_ p !! id with
  | None => p
  | Some s => put_session id (s <| sr_state := SS.Errored |> <| sr_last_error := reason |>) p
  end.

Definition mark_closed id p : SessionPool := remove_locked id p.

(** A [Ready] session idle for at least [idle_timeout_]. *)
Definition idle_expired now p s : bool :=
  is_ready s && (seconds (idle_timeout_ p) <=? now - sr_last_active_at s)%Z.

(** A session alive for at least [max_lifetime_]. *)
Definition lifetime_expired now p s : bool :=
  (seconds (max_lifetime_ p) <=? now - sr_created_at s)%Z.

(** The loop of [collect_idle_expired], over [lru_] from its back. *)
Fixpoint collect_idle_loop now p (ids out : list string) : list string :=
  match ids with
  | [] => out
  | id :: ids =>
      match sessions_ p !! id with
      | None => collect_idle_loop now p ids out
      | Some s =>
          collect_idle_loop now p ids (if idle_expired now p s then out ++ [id] else out)
      end
  end.

Definition collect_idle_expired now p : list string :=
  collect_idle_loop now p (reverse (lru_ p)) [].

Section iteration.
Context {Ord : UMapOrder}.

Definition collect_lifetime_expired now p : list string :=
  um_collect (lifetime_expired now p) (sessions_ p).

(** [SessionPool::snapshot_ids]. *)
Definition pool_snapshot_ids p : list string := fst <$> um_items (sessions_ p).

Definition idle_count_unsafe p : nat :=
  length (filter (λ ia, is_ready ia.2 = true) (um_items (sessions_ p))).

Definition idle_count p : nat := idle_count_unsafe p.

Definition active_count p : nat := size (sessions_ p) - idle_count_unsafe p.
End iteration.

(** ** Well-formed pools *)

(** The list enumerates the keys of the map without repetition, every record is
    stored under its own id, and the capacity is respected. *)
Record pool_wf p : Prop := {
  wf_nodup : NoDup (lru_ p);
  wf_dom id : id ∈ lru_ p ↔ is_Some (sessions_ p !! id);
  wf_key id s : sessions_ p !! id = Some s → sr_session_id s = id;
  wf_size : size (sessions_ p) ≤ max_size_ p;
}.

Lemma pool_new_wf n i l : pool_wf (pool_new n i l).
Proof.
  split; simpl; [constructor| | |].
  - intros id. rewrite lookup_empty. split; [by intros ?%elem_of_nil|by intros []].
  - done.
  - rewrite map_size_empty. lia.
Qed.

(** ** The specification: a list in recency order *)

Module LruSpec.
Abbreviation view := (list (string * SessionRecord)).
Implicit Types v : view.

Fixpoint get id v : option SessionRecord :=
  match v with
  | [] => None
  | (k, s) :: v => if decide (k = id) then Some s else get id v
  end.

Definition remove id v : view := filter (λ e, e.1 ≠ id) v.

(** Use a session: change its record and make it the most recent. *)
Definition touch id (f : SessionRecord → SessionRecord) v : view :=
  match get id v with
  | None => v
  | Some s => (id, f s) :: remove id v
  end.

(** Change a record without using the session. *)
Definition update id (f : SessionRecord → SessionRecord) v : view :=
  (λ e, if decide (e.1 = id) then (e.1, f e.2) else e) <$> v.

Definition insert (max : nat) s v : view :=
  if decide (max ≤ length v) then v else (sr_session_id s, s) :: v.

(** The [Ready] session used longest ago. *)
Definition oldest_ready v : option SessionRecord :=
  snd <$> last (filter (λ e, is_ready e.2 = true) v).
End LruSpec.

(** ** Operations as data *)

Inductive pool_op :=
| OpAdd (s : SessionRecord)
| OpTouchActive (id : string) (now : TimePoint)
| OpSetRequest (id rid : string)
| OpMarkActive (id : string) (now : TimePoint)
| OpMarkReady (id : string) (now : TimePoint)
| OpMarkDraining (id : string)
| OpMarkIdle (id : string) (now : TimePoint)
| OpMarkErrored (id reason : string)
| OpMarkClosed (id : string).

Definition pool_apply p (o : pool_op) : SessionPool :=
  match o with
  | OpAdd s => (pool_add s p).2
  | OpTouchActive id now => touch_active id now p
  | OpSetRequest id rid => set_current_request id rid p
  | OpMarkActive id now => mark_active id now p
  | OpMarkReady id now => mark_ready id now p
  | OpMarkDraining id => mark_draining id p
  | OpMarkIdle id now => mark_idle id now p
  | OpMarkErrored id reason => mark_errored id reason p
  | OpMarkClosed id => mark_closed id p
  end.

Definition spec_apply (max : nat) (v : LruSpec.view) (o : pool_op) : LruSpec.view :=
  match o with
  | OpAdd s => LruSpec.insert max s v
  | OpTouchActive id now => LruSpec.touch id (λ s, s <| sr_last_active_at := now |>) v
  | OpSetRequest id rid => LruSpec.update id (λ s, s <| sr_current_request_id := rid |>) v
  | OpMarkActive id now =>
      LruSpec.touch id (λ s, s <| sr_state := SS.Streaming |> <| sr_last_active_at := now |>) v
  | OpMarkReady id now =>
      LruSpec.touch id (λ s, s <| sr_state := SS.Ready |> <| sr_last_active_at := now |>) v
  | OpMarkDraining id => LruSpec.update id (λ s, s <| sr_state := SS.Draining |>) v
  | OpMarkIdle id now =>
      LruSpec.touch id (λ s, s <| sr_state := SS.Ready |> <| sr_current_request_id := "" |>
                               <| sr_last_active_at := now |>) v
  | OpMarkErrored id reason =>
      LruSpec.update id (λ s, s <| sr_state := SS.Errored |> <| sr_last_error := reason |>) v
  | OpMarkClosed id => LruSpec.remove id v
  end.

(** Session ids are not reused while in the pool. *)
Definition op_fresh (v : LruSpec.view) (o : pool_op) : Prop :=
  match o with OpAdd s => LruSpec.get (sr_session_id s) v = None | _ => True end.

(** ** The abstraction function *)

Definition look (m : gmap string SessionRecord) id : option (string * SessionRecord) :=
  (id,.) <$> m !! id.

Definition pool_view p : LruSpec.view := omap (look (sessions_ p)) (lru_ p).

Lemma look_Some m id e : look m id = Some e ↔ e.1 = id ∧ m !! id = Some e.2.
Proof.
  unfold look. destruct e as [k s]. rewrite fmap_Some. simpl. split.
  - by intros (y & -> & [= -> ->]).
  - intros [-> ->]. eauto.
Qed.

Lemma omap_look_ext m m' (l : list string) :
  (∀ id, id ∈ l → m !! id = m' !! id) → omap (look m) l = omap (look m') l.
Proof.
  intros H. induction l as [|x l IH]; [done|]. rewrite !omap_cons_eq.
  assert (look m x = look m' x) as -> by (unfold look; by rewrite (H x) by left).
  rewrite IH by (intros; apply H; by right). done.
Qed.

Lemma omap_look_remove m id (l : list string) :
  omap (look m) (list_remove_all id l) = LruSpec.remove id (omap (look m) l).
Proof.
  unfold list_remove_all, LruSpec.remove.
  induction l as [|x l IH]; [done|]. rewrite omap_cons_eq.
  destruct (decide (x = id)) as [->|Hx].
  - rewrite filter_cons_False by naive_solver. rewrite IH.
    destruct (look m id) as [e|] eqn:E; [|done].
    apply look_Some in E as [<- _]. rewrite (filter_cons_False _ e) by naive_solver. done.
  - rewrite filter_cons_True by done. rewrite omap_cons_eq, IH.
    destruct (look m x) as [e|] eqn:E; [|done].
    apply look_Some in E as [<- _]. rewrite (filter_cons_True _ e) by done. done.
Qed.

Lemma omap_look_update m id s f (l : list string) :
  m !! id = Some s →
  omap (look (<[id := f s]> m)) l = LruSpec.update id f (omap (look m) l).
Proof.
  intros Hm. unfold LruSpec.update. induction l as [|x l IH]; [done|].
  rewrite !omap_cons_eq, IH. unfold look. destruct (decide (x = id)) as [->|Hx].
  - rewrite lookup_insert_eq, Hm. simpl. by rewrite decide_True.
  - rewrite lookup_insert_ne by done. destruct (m !! x); simpl; [|done].
    by rewrite decide_False.
Qed.

Lemma elem_of_list_remove_all id x (l : list string) :
  x ∈ list_remove_all id l ↔ x ≠ id ∧ x ∈ l.
Proof. unfold list_remove_all. by rewrite list_elem_of_filter. Qed.

Section wf.
Context p (Hwf : pool_wf p).

Lemma view_get id : LruSpec.get id (pool_view p) = sessions_ p !! id.
Proof.
  unfold pool_view. pose proof (wf_dom p Hwf id) as Hd.
  induction (lru_ p) as [|x l IH] in Hd |- *; rewrite ?omap_cons_eq.
  - simpl. destruct (sessions_ p !! id); [|done]. exfalso. by apply (elem_of_nil id), Hd.
  - assert ((sessions_ p !! x = None ∨ x ≠ id) →
            LruSpec.get id (omap (look (sessions_ p)) l) = sessions_ p !! id) as IH'.
    { intros Hx. apply IH. rewrite <- Hd, elem_of_cons. split; [tauto|].
      intros [->|?]; [|done]. destruct Hx as [Hx|?]; [|done].
      destruct (proj1 Hd) as [? Hs]; [by left|]. congruence. }
    unfold look at 1. destruct (sessions_ p !! x) as [s|] eqn:E; simpl; [|auto].
    case_decide; subst; auto.
Qed.

Lemma view_nodup : NoDup (pool_view p).*1 ∧ (pool_view p).*1 = lru_ p.
Proof.
  enough ((pool_view p).*1 = lru_ p) as E by (rewrite E; split; [apply Hwf|done]).
  unfold pool_view. pose proof (λ id, proj1 (wf_dom p Hwf id)) as Hd.
  induction (lru_ p) as [|x l IH] in Hd |- *; [done|]. rewrite omap_cons_eq.
  destruct (Hd x) as [s Hs]; [by left|]. unfold look at 1. rewrite Hs. simpl.
  f_equal. apply IH. intros y Hy. apply Hd. by right.
Qed.

Lemma view_perm : pool_view p ≡ₚ map_to_list (sessions_ p).
Proof.
  apply NoDup_Permutation.
  - eapply NoDup_fmap_1, view_nodup.
  - apply NoDup_map_to_list.
  - intros [id s]. rewrite elem_of_map_to_list. unfold pool_view.
    rewrite list_elem_of_omap. split.
    + intros (x & _ & [<- ?]%look_Some). done.
    + intros Hs. exists id. split; [apply (wf_dom p Hwf); eauto|by apply look_Some].
Qed.

Lemma view_length : length (pool_view p) = size (sessions_ p).
Proof. by rewrite view_perm, length_map_to_list. Qed.
End wf.

(** ** Each kind of operation implements its specification *)

Section refine.
Context p (Hwf : pool_wf p).

(** A found session is changed and moved to the front. *)
Lemma touch_refines id f :
  (∀ s, sr_session_id (f s) = sr_session_id s) →
  let p' := match sessions_ p !! id with
            | None => p
            | Some s => move_to_front_locked id (put_session id (f s) p)
            end in
  pool_view p' = LruSpec.touch id f (pool_view p) ∧ pool_wf p' ∧
  max_size_ p' = max_size_ p.
Proof.
  intros Hf. unfold LruSpec.touch. rewrite view_get by done.
  destruct (sessions_ p !! id) as [s|] eqn:E; [|done]. split_and!; [| |done].
  - unfold pool_view. cbn [lru_ sessions_ move_to_front_locked put_session set_member].
    rewrite omap_cons_eq. unfold look at 1. rewrite lookup_insert_eq. cbn [fmap option_fmap option_map]. f_equal.
    rewrite <- omap_look_remove. apply omap_look_ext.
    intros x [Hx _]%elem_of_list_remove_all. by rewrite lookup_insert_ne.
  - destruct Hwf as [H1 H2 H3 H4]. split; simpl.
    + constructor; [rewrite elem_of_list_remove_all; naive_solver|by apply NoDup_filter].
    + intros x. rewrite elem_of_cons, elem_of_list_remove_all, H2.
      destruct (decide (x = id)) as [->|Hx].
      * rewrite lookup_insert_eq. naive_solver.
      * rewrite lookup_insert_ne by done. naive_solver.
    + intros x y. destruct (decide (x = id)) as [->|Hx].
      * rewrite lookup_insert_eq. intros [= <-]. rewrite Hf. by apply H3.
      * rewrite lookup_insert_ne by done. apply H3.
    + rewrite map_size_insert_Some by eauto. done.
Qed.

(** A found session is changed in place. *)
Lemma update_refines id f :
  (∀ s, sr_session_id (f s) = sr_session_id s) →
  let p' := match sessions_ p !! id with
            | None => p
            | Some s => put_session id (f s) p
            end in
  pool_view p' = LruSpec.update id f (pool_view p) ∧ pool_wf p' ∧
  max_size_ p' = max_size_ p.
Proof.
  intros Hf. destruct (sessions_ p !! id) as [s|] eqn:E; simpl.
  - split_and!; [by apply omap_look_update| |done].
    destruct Hwf as [H1 H2 H3 H4]. split; simpl; [done| | |].
    + intros x. rewrite H2. destruct (decide (x = id)) as [->|Hx].
      * rewrite lookup_insert_eq, E. naive_solver.
      * by rewrite lookup_insert_ne.
    + intros x y. destruct (decide (x = id)) as [->|Hx].
      * rewrite lookup_insert_eq. intros [= <-]. rewrite Hf. by apply H3.
      * rewrite lookup_insert_ne by done. apply H3.
    + rewrite map_size_insert_Some by eauto. done.
  - split_and!; [|done|done]. unfold LruSpec.update.
    rewrite <- (list_fmap_id (pool_view p)) at 1. apply list_fmap_ext.
    intros i [k s] Hi%list_elem_of_lookup_2. simpl. case_decide; [subst|done].
    unfold pool_view in Hi. apply list_elem_of_omap in Hi as (x & _ & [Hx Hs]%look_Some).
    simpl in *. congruence.
Qed.

Lemma remove_refines id :
  pool_view (remove_locked id p) = LruSpec.remove id (pool_view p) ∧
  pool_wf (remove_locked id p).
Proof.
  split.
  - unfold pool_view. simpl. rewrite <- omap_look_remove. apply omap_look_ext.
    intros x [Hx _]%elem_of_list_remove_all. by rewrite lookup_delete_ne.
  - destruct Hwf as [H1 H2 H3 H4]. split; simpl.
    + by apply NoDup_filter.
    + intros x. rewrite elem_of_list_remove_all, H2, lookup_delete_is_Some. naive_solver.
    + intros x y [_ ?]%lookup_delete_Some. by apply H3.
    + rewrite map_size_delete. destruct (sessions_ p !! id); simpl; lia.
Qed.

Lemma add_refines s :
  LruSpec.get (sr_session_id s) (pool_view p) = None →
  pool_view (pool_add s p).2 = LruSpec.insert (max_size_ p) s (pool_view p) ∧
  pool_wf (pool_add s p).2 ∧ max_size_ (pool_add s p).2 = max_size_ p ∧
  ((pool_add s p).1 = true ↔ length (pool_view p) < max_size_ p).
Proof.
  rewrite view_get by done. intros Hn. unfold pool_add, LruSpec.insert.
  rewrite view_length by done.
  destruct (Nat.leb_spec (max_size_ p) (size (sessions_ p))) as [Hle|Hlt]; simpl.
  - rewrite decide_True by done. split_and!; [done|done|done|]. split; [done|lia].
  - rewrite decide_False by lia. split_and!; [| |done|done].
    + unfold pool_view. cbn [lru_ sessions_ put_session set_member].
      rewrite omap_cons_eq. unfold look at 1. rewrite lookup_insert_eq. cbn [fmap option_fmap option_map]. f_equal.
      apply omap_look_ext. intros x Hx. rewrite lookup_insert_ne; [done|].
      intros <-. apply (wf_dom p Hwf) in Hx as [? ?]. congruence.
    + destruct Hwf as [H1 H2 H3 H4]. split; simpl.
      * constructor; [|done]. rewrite H2, Hn. by intros [].
      * intros x. rewrite elem_of_cons, H2, lookup_insert_is_Some'. naive_solver.
      * intros x y [[<- <-]|[_ ?]]%lookup_insert_Some; auto.
      * rewrite map_size_insert_None by done. lia.
Qed.
End refine.

(** One operation of the pool is one operation of the specification. *)
Lemma pool_apply_refines p o :
  pool_wf p → op_fresh (pool_view p) o →
  pool_view (pool_apply p o) = spec_apply (max_size_ p) (pool_view p) o ∧
  pool_wf (pool_apply p o) ∧ max_size_ (pool_apply p o) = max_size_ p.
Proof.
  intros Hwf Hfr.
  destruct o as [s|id now|id rid|id now|id now|id|id now|id reason|id]; simpl in *;
    try (by apply touch_refines); try (by apply update_refines).
  - destruct (add_refines p Hwf s Hfr) as (H1 & H2 & H3 & _). done.
  - destruct (remove_refines p Hwf id) as (H1 & H2). done.
Qed.

(** ** Properties *)

(** Runs of operations in which added ids are fresh. *)
Definition pool_run (ops : list pool_op) p : SessionPool := foldl pool_apply p ops.
Definition spec_run (max : nat) (ops : list pool_op) (v : LruSpec.view) : LruSpec.view :=
  foldl (spec_apply max) v ops.
Fixpoint run_fresh (max : nat) (ops : list pool_op) (v : LruSpec.view) : Prop :=
  match ops with
  | [] => True
  | o :: ops => op_fresh v o ∧ run_fresh max ops (spec_apply max v o)
  end.

Lemma pool_run_refines ops p :
  pool_wf p → run_fresh (max_size_ p) ops (pool_view p) →
  pool_view (pool_run ops p) = spec_run (max_size_ p) ops (pool_view p) ∧
  pool_wf (pool_run ops p).
Proof.
  unfold pool_run, spec_run.
  revert p. induction ops as [|o ops IH]; intros p Hwf Hfr; simpl in *; [done|].
  destruct Hfr as [Ho Hfr].
  destruct (pool_apply_refines p o Hwf Ho) as (Hv & Hw & Hm).
  rewrite <- Hv, <- Hm in *. by apply IH.
Qed.

(** C8: The session pool implements the LRU specification: after any sequence of
    pool operations in which added session ids are not already pooled, the hash
    map read in [lru_] order is exactly the recency list the specification
    computes, and the pool is well formed (no duplicate in [lru_], map and list
    agree, records filed under their own id, never more than [max_size_]). *)
Theorem pool_refines_lru (max : nat) (idle life : Z) (ops : list pool_op) :
  run_fresh max ops [] →
  pool_view (pool_run ops (pool_new max idle life)) = spec_run max ops [] ∧
  pool_wf (pool_run ops (pool_new max idle life)).
Proof. intros H. apply (pool_run_refines ops (pool_new max idle life)); [apply pool_new_wf|done]. Qed.

(** Two sessions are added and used in turn, the second is closed. *)
Definition pool_demo_ops : list pool_op :=
  [ OpAdd (SessionRecord_default <| sr_session_id := "a" |>);
    OpAdd (SessionRecord_default <| sr_session_id := "b" |>);
    OpMarkReady "a" 5%Z; OpMarkReady "b" 6%Z; OpMarkActive "a" 7%Z; OpMarkClosed "b" ].

Lemma pool_refines_lru_witness :
  pool_view (pool_run pool_demo_ops (pool_new 2 60 3600)) = spec_run 2 pool_demo_ops [] ∧
  pool_wf (pool_run pool_demo_ops (pool_new 2 60 3600)).
Proof. apply pool_refines_lru. by vm_compute; split_and!. Defined.

Lemma find_idle_loop_spec (l : list string) (m : gmap string SessionRecord) :
  find_idle_loop (reverse l) m = LruSpec.oldest_ready (omap (look m) l).
Proof.
  unfold LruSpec.oldest_ready.
  induction l as [|x l IH] using rev_ind; [done|].
  rewrite reverse_snoc, omap_app, filter_app. simpl.
  unfold look at 2. destruct (m !! x) as [s|] eqn:E; simpl.
  - destruct (is_ready s) eqn:R.
    + rewrite filter_cons_True, filter_nil by done. by rewrite last_snoc.
    + rewrite filter_cons_False, filter_nil, app_nil_r by (simpl; congruence). done.
  - by rewrite filter_nil, app_nil_r.
Qed.

Lemma collect_idle_loop_spec now p (l out : list string) :
  collect_idle_loop now p (reverse l) out =
  out ++ reverse (filter (λ e, idle_expired now p e.2 = true)
                    (omap (look (sessions_ p)) l)).*1.
Proof.
  revert out. induction l as [|x l IH] using rev_ind; intros out; [by rewrite app_nil_r|].
  rewrite reverse_snoc, omap_app, filter_app, fmap_app, reverse_app. simpl.
  unfold look at 1. destruct (sessions_ p !! x) as [s|] eqn:E; simpl.
  - rewrite IH. destruct (idle_expired now p s) eqn:R.
    + rewrite filter_cons_True by done. simpl. by rewrite <- app_assoc.
    + rewrite filter_cons_False by (simpl; congruence). done.
  - apply IH.
Qed.

Section queries.
Context {Ord : UMapOrder} p (Hwf : pool_wf p).

Lemma idle_count_view :
  idle_count p = length (filter (λ e, is_ready e.2 = true) (pool_view p)).
Proof.
  unfold idle_count, idle_count_unsafe. rewrite um_items_perm.
  by rewrite (view_perm p Hwf).
Qed.
End queries.

Section idle.
Context p (Hwf : pool_wf p).

Lemma elem_of_view id s : (id, s) ∈ pool_view p ↔ sessions_ p !! id = Some s.
Proof. by rewrite (view_perm p Hwf), elem_of_map_to_list. Qed.

Lemma elem_of_collect_idle now id :
  id ∈ collect_idle_expired now p ↔
  ∃ s, sessions_ p !! id = Some s ∧ idle_expired now p s = true.
Proof.
  unfold collect_idle_expired. rewrite collect_idle_loop_spec. simpl.
  fold (pool_view p). rewrite elem_of_reverse, list_elem_of_fmap. split.
  - intros ([k s] & -> & [Hi Hv]%list_elem_of_filter). exists s.
    split; [by apply elem_of_view|done].
  - intros (s & Hs & Hi). exists (id, s). split; [done|].
    apply list_elem_of_filter. split; [done|by apply elem_of_view].
Qed.

Lemma NoDup_collect_idle now : NoDup (collect_idle_expired now p).
Proof.
  unfold collect_idle_expired. rewrite collect_idle_loop_spec. simpl.
  fold (pool_view p). rewrite reverse_Permutation.
  eapply sublist_NoDup; [apply (view_nodup p Hwf)|].
  apply fmap_sublist, sublist_filter.
Qed.
End idle.

(** *** Laws of the specification *)

Lemma spec_update_absent id f v : LruSpec.get id v = None → LruSpec.update id f v = v.
Proof.
  induction v as [|[k s] v IH]; [done|]. cbn [LruSpec.get]. case_decide; [done|].
  intros Hg. unfold LruSpec.update in *. rewrite fmap_cons, IH by done. simpl.
  by rewrite decide_False.
Qed.

Lemma spec_get_remove id v : LruSpec.get id (LruSpec.remove id v) = None.
Proof.
  unfold LruSpec.remove. induction v as [|[k s] v IH]; [done|].
  rewrite filter_cons. case_decide as H; [|done]. simpl in *. by rewrite decide_False.
Qed.

(** Changing the record of the session just used is part of the use. *)
Lemma spec_update_touch id f g v :
  LruSpec.update id g (LruSpec.touch id f v) = LruSpec.touch id (λ s, g (f s)) v.
Proof.
  unfold LruSpec.touch. destruct (LruSpec.get id v) eqn:E; [|by apply spec_update_absent].
  unfold LruSpec.update at 1. rewrite fmap_cons. simpl. rewrite decide_True by done. f_equal.
  apply (spec_update_absent id g), spec_get_remove.
Qed.

Lemma oldest_ready_pooled p s :
  pool_wf p → LruSpec.oldest_ready (pool_view p) = Some s →
  sessions_ p !! sr_session_id s = Some s.
Proof.
  intros Hwf. unfold LruSpec.oldest_ready. rewrite fmap_Some. intros ([id s'] & Hl & ->).
  apply last_Some_elem_of, list_elem_of_filter in Hl as [_ Hin].
  apply elem_of_view in Hin; [|done]. simpl. by rewrite (wf_key p Hwf id s').
Qed.

Lemma find_idle_spec p :
  find_idle_least_recently_used p = LruSpec.oldest_ready (pool_view p).
Proof. apply find_idle_loop_spec. Qed.

(** On every well-formed pool the queries answer from the recency list,
    whatever the iteration order of the hash map: [get] finds exactly the pooled
    sessions; [find_idle_least_recently_used] returns the [Ready] session that
    was used longest ago (and null only when none is [Ready]);
    [collect_idle_expired] lists the ids of the [Ready] sessions idle for at
    least the timeout, least recently used first; [size], [idle_count] and
    [active_count] count the entries, the [Ready] ones and the others. *)
Theorem pool_queries {Ord : UMapOrder} p now :
  pool_wf p →
  (∀ id, pool_get id p = LruSpec.get id (pool_view p)) ∧
  find_idle_least_recently_used p = LruSpec.oldest_ready (pool_view p) ∧
  collect_idle_expired now p =
    reverse (filter (λ e, idle_expired now p e.2 = true) (pool_view p)).*1 ∧
  pool_size p = length (pool_view p) ∧
  idle_count p = length (filter (λ e, is_ready e.2 = true) (pool_view p)) ∧
  active_count p = length (filter (λ e, ¬ is_ready e.2 = true) (pool_view p)).
Proof.
  intros Hwf. split_and!.
  - intros id. unfold pool_get. by rewrite view_get.
  - apply find_idle_spec.
  - unfold collect_idle_expired. by rewrite collect_idle_loop_spec.
  - by rewrite view_length.
  - by apply idle_count_view.
  - unfold active_count. change (idle_count_unsafe p) with (idle_count p).
    rewrite idle_count_view, <- view_length by done.
    rewrite <- (length_filter_complement (λ e, is_ready e.2 = true) (pool_view p)) at 1. lia.
Qed.

Lemma pool_demo_wf : pool_wf (pool_run pool_demo_ops (pool_new 2 60 3600)).
Proof.
  apply (pool_run_refines pool_demo_ops (pool_new 2 60 3600)); [apply pool_new_wf|].
  by vm_compute; split_and!.
Qed.

Lemma pool_queries_witness :
  let p := pool_run pool_demo_ops (pool_new 2 60 3600) in
  find_idle_least_recently_used p = LruSpec.oldest_ready (pool_view p).
Proof. exact (proj1 (proj2 (pool_queries (Ord:=um_default) _ 0%Z pool_demo_wf))). Defined.

(** Every operation, also with colliding ids, keeps the capacity bound and the
    agreement between the list and the map. *)
Lemma pool_apply_capacity p o :
  size (sessions_ p) ≤ max_size_ p →
  (∀ id, id ∈ lru_ p ↔ is_Some (sessions_ p !! id)) →
  max_size_ (pool_apply p o) = max_size_ p ∧
  size (sessions_ (pool_apply p o)) ≤ max_size_ p ∧
  (∀ id, id ∈ lru_ (pool_apply p o) ↔ is_Some (sessions_ (pool_apply p o) !! id)).
Proof.
  intros Hs Hd.
  assert (∀ k s', is_Some (sessions_ p !! k) →
    size (<[k := s']> (sessions_ p)) ≤ max_size_ p ∧
    (∀ x, x ∈ lru_ p ↔ is_Some (<[k := s']> (sessions_ p) !! x)) ∧
    (∀ x, x ∈ k :: list_remove_all k (lru_ p) ↔
          is_Some (<[k := s']> (sessions_ p) !! x))) as Hput.
  { intros k s' [s0 Hk]. rewrite map_size_insert_Some by eauto. split_and!; [done| |];
      intros x; rewrite ?elem_of_cons, ?elem_of_list_remove_all, Hd, lookup_insert_is_Some';
      destruct (decide (k = x)) as [->|]; naive_solver. }
  destruct o as [s|k now|k rid|k now|k now|k|k now|k reason|k]; simpl;
    unfold pool_add, touch_active, set_current_request, mark_active, mark_ready,
      mark_draining, mark_idle, mark_errored, mark_closed, remove_locked;
    try (destruct (sessions_ p !! k) as [s0|] eqn:E;
         [simpl; split_and!; [done|apply Hput; eauto|apply Hput; eauto]|done]).
  - destruct (Nat.leb_spec (max_size_ p) (size (sessions_ p))); simpl; [done|].
    split_and!; [done| |].
    + rewrite map_size_insert. destruct (sessions_ p !! _); simpl; lia.
    + intros x. rewrite elem_of_cons, Hd, lookup_insert_is_Some'. naive_solver.
  - split_and!; [done| |].
    + rewrite map_size_delete. destruct (sessions_ p !! k); simpl; lia.
    + intros x. rewrite elem_of_list_remove_all, Hd, lookup_delete_is_Some. naive_solver.
Qed.

(** No sequence of pool operations whatsoever, colliding session ids
    included, makes the pool exceed its capacity or lets the recency list and
    the hash map disagree on which sessions are pooled. *)
Theorem pool_capacity (max : nat) (idle life : Z) (ops : list pool_op) :
  let p := pool_run ops (pool_new max idle life) in
  pool_size p ≤ max ∧ (∀ id, id ∈ lru_ p ↔ is_Some (pool_get id p)).
Proof.
  assert (∀ p, size (sessions_ p) ≤ max_size_ p →
    (∀ id, id ∈ lru_ p ↔ is_Some (sessions_ p !! id)) →
    size (sessions_ (pool_run ops p)) ≤ max_size_ p ∧
    (∀ id, id ∈ lru_ (pool_run ops p) ↔ is_Some (sessions_ (pool_run ops p) !! id))) as H.
  { unfold pool_run. induction ops as [|o ops IH]; intros p Hs Hd; [done|]. simpl.
    destruct (pool_apply_capacity p o Hs Hd) as (Hm & Hs' & Hd').
    rewrite <- Hm in *. by apply IH. }
  apply H; apply (pool_new_wf max idle life).
Qed.
