(* ===== verification/PendingStore.v ===== *)
(** * PendingRequestStore (src/databoard/pending_request_store.h)

    The requests in progress, by request id, with the audio received so far.
    Each method holds the store's mutex, so it is one step on the map; methods
    that read [steady_clock::now()] take the reading as an argument.  A pointer
    returned by [get] is dereferenced by the caller in the same thread, so a
    write through it is an update of the entry ([modify]). *)

From S2P Require Import Prelude Messages.

(** ** Data *)

Module PS.
Inductive PendingState : Type := AwaitingSession | Streaming | Complete | Failed | Cancelled.
End PS.
#[global] Instance PendingState_eq_dec : EqDecision PS.PendingState.
Proof. solve_decision. Defined.

(** [to_string(PendingState)]. *)
Definition pending_state_to_string (s : PS.PendingState) : string :=
  match s with
  | PS.AwaitingSession => "AwaitingSession"
  | PS.Streaming => "Streaming"
  | PS.Complete => "Complete"
  | PS.Failed => "Failed"
  | PS.Cancelled => "Cancelled"
  end.
#[global] Instance pending_state_to_string_inj : Inj (=) (=) pending_state_to_string.
Proof. by intros [] []. Qed.

Record PendingRequest := mkPending {
  pr_request_id : string;
  pr_session_id : string;
  pr_state : PS.PendingState;
  pr_accumulated_audio : list Byte.byte;
  pr_cumulative_bytes : Z;
  pr_sample_rate : Z;
  pr_channels : Z;
  pr_format : AF.AudioFormat;
  pr_usage_characters : Z;
  pr_created_at : TimePoint;
  pr_last_chunk_at : TimePoint;
  pr_status_code : Z;
  pr_status_msg : string;
  pr_final_received : bool;
}.
#[global] Instance PendingRequest_eta : Eta PendingRequest := {|
  eta_expand p := mkPending (pr_request_id p) (pr_session_id p) (pr_state p)
    (pr_accumulated_audio p) (pr_cumulative_bytes p) (pr_sample_rate p) (pr_channels p)
    (pr_format p) (pr_usage_characters p) (pr_created_at p) (pr_last_chunk_at p)
    (pr_status_code p) (pr_status_msg p) (pr_final_received p) |}.

(** A default-constructed [PendingRequest]. *)
Definition PendingRequest_default : PendingRequest :=
  mkPending "" "" PS.AwaitingSession [] 0 16000 1 AF.Mp3 0 0 0 0 "" false.

Abbreviation PendingRequestStore := (gmap string PendingRequest).

Implicit Types (st : PendingRequestStore) (p : PendingRequest) (id : string).

(** ** Methods *)

(** [add]: stamp the request and file it under its id, replacing any other. *)
Definition store_add p (now : TimePoint) st : PendingRequestStore :=
  let p := p <| pr_created_at := now |> in
  let p := p <| pr_last_chunk_at := pr_created_at p |> in
  <[pr_request_id p := p]> st.

Definition store_get id st : option PendingRequest := st !! id.

Definition store_remove id st : PendingRequestStore := delete id st.

(** A write through the pointer returned by [get], or an update of [it->second]. *)
Definition modify id (f : PendingRequest → PendingRequest) st : PendingRequestStore :=
  match st !! id with
  | None => st
  | Some p => <[id := f p]> st
  end.

Definition set_state id (s : PS.PendingState) st : PendingRequestStore :=
  modify id (λ p, p <| pr_state := s |>) st.

Definition bind_session id (session_id : string) st : PendingRequestStore :=
  modify id (λ p, p <| pr_session_id := session_id |> <| pr_state := PS.Streaming |>) st.

Definition append_chunk id (data : list Byte.byte) (is_final : bool) (usage : Z)
    (now : TimePoint) st : bool * PendingRequestStore :=
  match st !! id with
  | None => (false, st)
  | Some p =>
      let p := p <| pr_accumulated_audio := pr_accumulated_audio p ++ data |> in
      let p := p <| pr_cumulative_bytes :=
                   i64 (pr_cumulative_bytes p + i64 (Z.of_nat (length data))) |> in
      let p := p <| pr_usage_characters := usage |> in
      let p := p <| pr_last_chunk_at := now |> in
      let p := if is_final then p <| pr_final_received := true |> else p in
      (true, <[id := p]> st)
  end.

(** The conditions of the collecting loops. *)
Definition ready_to_emit p : bool :=
  bool_decide (pr_state p = PS.Streaming) && pr_final_received p.
Definition terminal p : bool :=
  bool_decide (pr_state p = PS.Failed) || bool_decide (pr_state p = PS.Cancelled).
Definition on_session (session_id : string) p : bool := String.eqb (pr_session_id p) session_id.

Section iteration.
Context {Ord : UMapOrder}.

Definition find_ready_to_emit st : list string := um_collect ready_to_emit st.

(** [PendingRequestStore::snapshot_ids]. *)
Definition store_snapshot_ids st : list string := fst <$> um_items st.

Definition collect_by_session (session_id : string) st : list string :=
  um_collect (on_session session_id) st.

Definition collect_terminal st : list string := um_collect terminal st.
End iteration.

(** [PendingRequestStore::size]. *)
Definition store_size st : nat := size st.

(** ** Lemmas on [modify] *)

Lemma lookup_modify id f st x :
  modify id f st !! x = if decide (x = id) then f <$> st !! x else st !! x.
Proof.
  unfold modify. destruct (st !! id) as [p|] eqn:E; case_decide; subst.
  - by rewrite lookup_insert_eq, E.
  - by rewrite lookup_insert_ne.
  - by rewrite E.
  - done.
Qed.

Lemma dom_modify id f st : dom (modify id f st) = dom st.
Proof.
  apply set_eq. intros x. rewrite !elem_of_dom, lookup_modify.
  case_decide; [|done]. by rewrite fmap_is_Some.
Qed.

(** The update [append_chunk] makes to the entry it finds. *)
Definition chunked (data : list Byte.byte) (fin : bool) (usage : Z) (now : TimePoint) p
    : PendingRequest :=
  let p := p <| pr_accumulated_audio := pr_accumulated_audio p ++ data |> in
  let p := p <| pr_cumulative_bytes :=
               i64 (pr_cumulative_bytes p + i64 (Z.of_nat (length data))) |> in
  let p := p <| pr_usage_characters := usage |> in
  let p := p <| pr_last_chunk_at := now |> in
  if fin then p <| pr_final_received := true |> else p.

Lemma append_chunk_modify id data fin usage now st :
  (append_chunk id data fin usage now st).2 = modify id (chunked data fin usage now) st.
Proof. unfold append_chunk, modify. by destruct (st !! id). Qed.

(** Appending a chunk keeps "the byte count is the length of the audio". *)
Definition bytes_counted p : Prop :=
  pr_cumulative_bytes p = i64 (Z.of_nat (length (pr_accumulated_audio p))).

Lemma chunked_counted data fin usage now p :
  bytes_counted p → bytes_counted (chunked data fin usage now p).
Proof.
  unfold bytes_counted, chunked. intros H.
  destruct fin; simpl; rewrite H, i64_add_l, length_app, Nat2Z.inj_add, Z.add_comm, i64_add_l;
    f_equal; lia.
Qed.

(** ** Operations as data *)

Inductive store_op :=
| SAdd (p : PendingRequest) (now : TimePoint)
| SRemove (id : string)
| SSetState (id : string) (s : PS.PendingState)
| SBind (id session_id : string)
| SAppend (id : string) (data : list Byte.byte) (is_final : bool) (usage : Z) (now : TimePoint)
| SSetStatus (id : string) (code : Z) (msg : string)
| SSetFormat (id : string) (rate channels : Z) (fmt : AF.AudioFormat).

(** [SSetStatus] and [SSetFormat] are the writes through [get] of the heartbeat. *)
Definition store_apply st (o : store_op) : PendingRequestStore :=
  match o with
  | SAdd p now => store_add p now st
  | SRemove id => store_remove id st
  | SSetState id s => set_state id s st
  | SBind id sid => bind_session id sid st
  | SAppend id data fin usage now => (append_chunk id data fin usage now st).2
  | SSetStatus id code msg =>
      modify id (λ p, p <| pr_status_code := code |> <| pr_status_msg := msg |>) st
  | SSetFormat id rate ch fmt =>
      modify id (λ p, p <| pr_sample_rate := rate |> <| pr_channels := ch |>
                        <| pr_format := fmt |>) st
  end.

Definition store_run (ops : list store_op) st : PendingRequestStore := foldl store_apply st ops.

(** A request as the sources create it: nothing received yet. *)
Definition blank p : Prop :=
  pr_accumulated_audio p = [] ∧ pr_cumulative_bytes p = 0%Z ∧ pr_final_received p = false.

Definition op_blank (o : store_op) : Prop :=
  match o with SAdd p _ => blank p | _ => True end.

(** The specification of accumulation: the chunks appended for [id] since it was
    last added, and whether one of them was final. *)
Definition chunk_step id (acc : list Byte.byte * bool) (o : store_op) : list Byte.byte * bool :=
  match o with
  | SAdd p _ => if decide (pr_request_id p = id) then ([], false) else acc
  | SAppend id' data fin _ _ =>
      if decide (id' = id) then (acc.1 ++ data, acc.2 || fin) else acc
  | _ => acc
  end.
Definition chunks_of id (ops : list store_op) : list Byte.byte * bool :=
  foldl (chunk_step id) ([], false) ops.

(** What is stored about one request. *)
Definition entry_ok id p (acc : list Byte.byte * bool) : Prop :=
  pr_request_id p = id ∧ pr_accumulated_audio p = acc.1 ∧
  pr_cumulative_bytes p = i64 (Z.of_nat (length acc.1)) ∧ pr_final_received p = acc.2.

Lemma store_apply_entry st o id acc :
  op_blank o →
  (∀ p, st !! id = Some p → entry_ok id p acc) →
  ∀ p, store_apply st o !! id = Some p → entry_ok id p (chunk_step id acc o).
Proof.
  intros Hb IH p.
  assert (∀ k (f : PendingRequest → PendingRequest),
    (∀ q, entry_ok id q acc → entry_ok id (f q) acc) →
    modify k f st !! id = Some p → entry_ok id p acc) as Hmod.
  { intros k f Hf. rewrite lookup_modify. case_decide; [|by auto].
    rewrite fmap_Some. intros (q & Hq & ->). auto. }
  unfold entry_ok in Hmod.
  destruct o as [q now|k|k s|k sid|k data fin usage now|k c m|k r c f]; simpl.
  - unfold store_add. simpl. destruct Hb as (Ha & Hc & Hf).
    destruct (decide (pr_request_id q = id)) as [<-|Hne].
    + rewrite lookup_insert_eq. intros [= <-]. unfold entry_ok. simpl.
      rewrite Ha, Hc, Hf. by rewrite i64_small by (simpl; lia).
    + rewrite lookup_insert_ne by done. apply IH.
  - unfold store_remove. intros [_ ?]%lookup_delete_Some. auto.
  - by apply Hmod.
  - by apply Hmod.
  - rewrite append_chunk_modify, lookup_modify.
    destruct (decide (id = k)) as [->|Hne].
    + rewrite decide_True by done. rewrite fmap_Some. intros (q & Hq & ->).
      destruct (IH q Hq) as (H1 & H2 & H3 & H4). unfold entry_ok, chunked.
      destruct fin; simpl; rewrite H1, H2, H3, ?H4, ?orb_true_r, ?orb_false_r; split_and!; auto;
        rewrite i64_add_l, length_app, Nat2Z.inj_add, Z.add_comm, i64_add_l;
        f_equal; lia.
    + rewrite decide_False by congruence. auto.
  - by apply Hmod.
  - by apply Hmod.
Qed.

(** Audio accumulation is exact: after any sequence of store operations in
    which requests are added empty, a stored request is filed under its own id,
    its accumulated audio is the concatenation, in order, of the chunks appended
    for that id since it was added, [cumulative_bytes] is the number of these
    bytes (as an [int64]), and [final_received] holds iff one of these chunks was
    final; operations on other ids have no influence. *)
Theorem store_accumulates (ops : list store_op) id p :
  Forall op_blank ops →
  store_run ops ∅ !! id = Some p →
  entry_ok id p (chunks_of id ops).
Proof.
  intros Hops. unfold store_run, chunks_of.
  assert (∀ st acc, (∀ p, st !! id = Some p → entry_ok id p acc) →
    ∀ p, foldl store_apply st ops !! id = Some p →
         entry_ok id p (foldl (chunk_step id) acc ops)) as H.
  { induction Hops as [|o ops Ho _ IH]; intros st acc Hst; [done|]. simpl.
    apply IH. by apply store_apply_entry. }
  apply H. intros q. by rewrite lookup_empty.
Qed.

(** Two chunks for one request, one for another. *)
Definition store_demo_ops : list store_op :=
  [ SAdd (PendingRequest_default <| pr_request_id := "r" |>) 1%Z;
    SAppend "r" [Byte.x41] false 1%Z 2%Z; SAppend "q" [Byte.x00] true 1%Z 3%Z;
    SAppend "r" [Byte.x42] true 2%Z 4%Z ].

Lemma store_accumulates_witness :
  ∃ p, store_run store_demo_ops ∅ !! "r" = Some p ∧
       entry_ok "r" p ([Byte.x41; Byte.x42], true).
Proof.
  eexists. split; [vm_compute; reflexivity|].
  apply (store_accumulates store_demo_ops "r").
  - unfold store_demo_ops. repeat constructor.
  - vm_compute. reflexivity.
Defined.
