(* ===== verification/DataBoard.v ===== *)
(** * DataBoard (src/databoard/data_board.h, src/databoard/voice_catalog.h)

    The blackboard: the session pool, the pending requests, the voice catalogue
    and the metrics.  The heartbeat thread is the only writer of the first two. *)

From S2P Require Import Prelude Metrics SessionPool PendingStore.

(** ** VoiceCatalog *)

Record VoiceInfo := mkVoice {
  vi_id : string;
  vi_display_name : string;
  vi_language : string;
}.

(** The id index is a cache, rebuilt on demand ([mutable] members). *)
Record VoiceCatalog := mkCatalog {
  voices_ : list VoiceInfo;
  index_ : gset string;
  indexed_ : bool;
}.
#[global] Instance VoiceCatalog_eta : Eta VoiceCatalog := {|
  eta_expand c := mkCatalog (voices_ c) (index_ c) (indexed_ c) |}.

Definition catalog_new : VoiceCatalog := mkCatalog [] ∅ false.

(** [index()]: clear, insert every id, mark as indexed. *)
Definition catalog_index (c : VoiceCatalog) : VoiceCatalog :=
  c <| index_ := foldl (λ i v, {[vi_id v]} ∪ i) ∅ (voices_ c) |> <| indexed_ := true |>.

Definition ensure_indexed (c : VoiceCatalog) : VoiceCatalog :=
  if negb (indexed_ c) then catalog_index c else c.

Definition set_voices (voices : list VoiceInfo) (c : VoiceCatalog) : VoiceCatalog :=
  let c := c <| voices_ := voices |> <| indexed_ := false |> in
  if negb (indexed_ c) then catalog_index c else c.

Definition catalog_has (id : string) (c : VoiceCatalog) : bool * VoiceCatalog :=
  let c := ensure_indexed c in
  (bool_decide (id ∈ index_ c), c).

(** The index, once built, is the set of the voices' ids. *)
Definition catalog_ok (c : VoiceCatalog) : Prop :=
  indexed_ c = true → ∀ id, id ∈ index_ c ↔ id ∈ vi_id <$> voices_ c.

Lemma catalog_index_ok c : catalog_ok (catalog_index c).
Proof.
  intros _ id. simpl.
  enough (∀ i : gset string, id ∈ foldl (λ i v, {[vi_id v]} ∪ i) i (voices_ c) ↔
                             id ∈ i ∨ id ∈ vi_id <$> voices_ c) as H by (rewrite H; set_solver).
  induction (voices_ c) as [|v l IH]; intros i; simpl; [set_solver|].
  rewrite IH. set_solver.
Qed.

Lemma ensure_indexed_ok c :
  catalog_ok c → catalog_ok (ensure_indexed c) ∧ indexed_ (ensure_indexed c) = true ∧
  voices_ (ensure_indexed c) = voices_ c.
Proof.
  unfold ensure_indexed. intros Hc. destruct (indexed_ c) eqn:E; simpl; [done|].
  split; [apply catalog_index_ok|done].
Qed.

(** The catalogue answers membership correctly however it was filled. *)
Lemma catalog_has_correct (loads : list (list VoiceInfo)) id :
  let c := foldl (λ c vs, set_voices vs c) catalog_new loads in
  (catalog_has id c).1 = bool_decide (id ∈ vi_id <$> default [] (last loads)).
Proof.
  cbv zeta.
  assert (catalog_ok (foldl (λ c vs, set_voices vs c) catalog_new loads) ∧
          voices_ (foldl (λ c vs, set_voices vs c) catalog_new loads) = default [] (last loads))
    as [Hok Hv].
  { destruct loads as [|vs loads] using rev_ind; [done|].
    rewrite foldl_app, last_snoc. simpl. split; [apply catalog_index_ok|done]. }
  destruct (ensure_indexed_ok _ Hok) as (H1 & H2 & H3).
  unfold catalog_has. simpl. apply bool_decide_ext. rewrite (H1 H2), H3, Hv. done.
Qed.

(** ** DataBoard *)

Record DataBoard := mkBoard {
  session_pool_ : SessionPool;
  pending_ : PendingRequestStore;
  catalog_ : VoiceCatalog;
  metrics_ : MetricsSnapshot;
}.
#[global] Instance DataBoard_eta : Eta DataBoard := {|
  eta_expand b := mkBoard (session_pool_ b) (pending_ b) (catalog_ b) (metrics_ b) |}.

(** The constructor: 16 sessions, 60 s idle timeout, 3600 s lifetime. *)
Definition board_new : DataBoard := mkBoard (pool_new 16 60 3600) ∅ catalog_new metrics_new.
