(* ===== verification/Events.v ===== *)
(** * Bus events (src/heartbeat/heartbeat_events.h,
      src/upstream/minimax_protocol_adapter.h, src/upstream/ws_task_scheduler.h)

    The event structs published on the event bus.  [EventBus] keys its
    registry by [std::type_index]; here the type of an event is the constructor
    of [BusEvent]. *)

From S2P Require Import Prelude.

Record HeartbeatTickEvent := { ht_duration_us : Z; ht_batch_size : Z; ht_changeset_size : Z }.

Record UpstreamConnectedEvent := { uc_session_id : string }.

Record UpstreamDisconnectedEvent := {
  ud_session_id : string; ud_code : Z; ud_reason : string }.

Record WsFrameDecodedEvent := {
  fd_session_id : string;
  fd_request_id : string;
  fd_event_name : string;
  fd_audio_hex : string;
  fd_is_final : bool;
  fd_sample_rate : Z;
  fd_channels : Z;
  fd_usage_characters : Z;
  fd_status_code : Z;
  fd_status_msg : string;
  fd_trace_id : string;
}.

Record WsFrameSendFailedEvent := { sf_session_id : string; sf_error : string }.

Record UpstreamClosedEvent := { ue_session_id : string; ue_code : Z; ue_reason : string }.

Inductive BusEvent : Type :=
| EvHeartbeatTick (e : HeartbeatTickEvent)
| EvUpstreamConnected (e : UpstreamConnectedEvent)
| EvUpstreamDisconnected (e : UpstreamDisconnectedEvent)
| EvWsFrameDecoded (e : WsFrameDecodedEvent)
| EvWsFrameSendFailed (e : WsFrameSendFailedEvent)
| EvUpstreamClosed (e : UpstreamClosedEvent).

(** [typeid(E)]. *)
Inductive EventType : Type :=
| THeartbeatTick | TUpstreamConnected | TUpstreamDisconnected
| TWsFrameDecoded | TWsFrameSendFailed | TUpstreamClosed.
#[global] Instance EventType_eq_dec : EqDecision EventType.
Proof. solve_decision. Defined.
Definition event_type_code (t : EventType) : nat :=
  match t with
  | THeartbeatTick => 0 | TUpstreamConnected => 1 | TUpstreamDisconnected => 2
  | TWsFrameDecoded => 3 | TWsFrameSendFailed => 4 | TUpstreamClosed => 5
  end.
Definition event_type_of_code (n : nat) : option EventType :=
  [THeartbeatTick; TUpstreamConnected; TUpstreamDisconnected;
   TWsFrameDecoded; TWsFrameSendFailed; TUpstreamClosed] !! n.
#[global] Instance EventType_countable : Countable EventType.
Proof. apply (inj_countable event_type_code event_type_of_code). by intros []. Defined.

Definition event_type (e : BusEvent) : EventType :=
  match e with
  | EvHeartbeatTick _ => THeartbeatTick
  | EvUpstreamConnected _ => TUpstreamConnected
  | EvUpstreamDisconnected _ => TUpstreamDisconnected
  | EvWsFrameDecoded _ => TWsFrameDecoded
  | EvWsFrameSendFailed _ => TWsFrameSendFailed
  | EvUpstreamClosed _ => TUpstreamClosed
  end.

(** [kind_name()]. *)
Definition event_kind_name (e : BusEvent) : string :=
  match e with
  | EvHeartbeatTick _ => "HeartbeatTickEvent"
  | EvUpstreamConnected _ => "UpstreamConnectedEvent"
  | EvUpstreamDisconnected _ => "UpstreamDisconnectedEvent"
  | EvWsFrameDecoded _ => "WsFrameDecodedEvent"
  | EvWsFrameSendFailed _ => "WsFrameSendFailedEvent"
  | EvUpstreamClosed _ => "UpstreamClosedEvent"
  end.
