(* ===== verification/EventBus.v ===== *)
(** * EventBus (src/framework/event_bus.h, src/framework/event_bus.cpp)

    Typed publish/subscribe.  The registry maps an event type to its slots in
    subscription order; [publish_sync] calls the listeners of a snapshot of the
    slots; [publish_async] queues a copy of the event in the inbox, which worker
    threads pop one at a time and dispatch.  Registry, bucket and inbox accesses
    are each under a lock, so they are atomic steps.

    The bus is generic in the event type [Ev], its type tags [Ty] and the
    listeners [L]; calling a listener is a parameter [call], a transformer of the
    state [S] the listeners share. *)

From S2P Require Import Prelude.

Record Slot (L : Type) := mkSlot { sl_fn : L; sl_id : Z }.
Arguments mkSlot {L} _ _.
Arguments sl_fn {L} _.
Arguments sl_id {L} _.

(** [inbox_stop_] is the inbox's stop source; [workers_] the number of workers. *)
Record EventBus (Ty Ev L : Type) `{Countable Ty} := mkBus {
  registry_ : gmap Ty (list (Slot L));
  next_id_ : Z;
  running_ : bool;
  workers_ : nat;
  inbox_ : list Ev;
  inbox_stop_ : bool;
}.
Arguments mkBus {Ty Ev L _ _} _ _ _ _ _ _.
Arguments registry_ {Ty Ev L _ _} _.
Arguments next_id_ {Ty Ev L _ _} _.
Arguments running_ {Ty Ev L _ _} _.
Arguments workers_ {Ty Ev L _ _} _.
Arguments inbox_ {Ty Ev L _ _} _.
Arguments inbox_stop_ {Ty Ev L _ _} _.

Section bus.
Context {Ty Ev L S : Type} `{Countable Ty}.
Context (type_of : Ev → Ty) (call : L → Ev → S → S).
Abbreviation Bus := (EventBus Ty Ev L).
Implicit Types (b : Bus) (ev : Ev) (ty : Ty) (id : Z).

#[local] Instance EventBus_eta : Eta Bus := {|
  eta_expand b := mkBus (registry_ b) (next_id_ b) (running_ b) (workers_ b)
    (inbox_ b) (inbox_stop_ b) |}.

Definition bus_new : Bus := mkBus ∅ 1 false 0 [] false.

(** [subscribe_erased]: find or create the bucket, draw an id, append a slot. *)
Definition subscribe_erased ty (listener : L) b : Z * Bus :=
  let bucket := default [] (registry_ b !! ty) in
  let id := next_id_ b in
  let b := b <| next_id_ := u64 (next_id_ b + 1) |> in
  (id, b <| registry_ := <[ty := bucket ++ [mkSlot listener id]]> (registry_ b) |>).

(** [unsubscribe]: erase the slots with this id from every bucket. *)
Definition unsubscribe id b : Bus :=
  b <| registry_ := filter (λ s, sl_id s ≠ id) <$> registry_ b |>.

(** [dispatch_sync]: call the listeners of a copy of the bucket, in order. *)
Definition dispatch_sync ev b (s : S) : S :=
  match registry_ b !! type_of ev with
  | None => s
  | Some slots => foldl (λ s sl, call (sl_fn sl) ev s) s slots
  end.

Definition publish_sync ev b (s : S) : S := dispatch_sync ev b s.

(** [publish_async]: push a copy of the event on the inbox. *)
Definition publish_async ev b : Bus := b <| inbox_ := inbox_ b ++ [ev] |>.

(** [Inbox::try_pop]. *)
Definition inbox_try_pop b : option (Ev * Bus) :=
  match inbox_ b with
  | [] => None
  | ev :: q => Some (ev, b <| inbox_ := q |>)
  end.

(** [Inbox::close]. *)
Definition inbox_close b : Bus := b <| inbox_stop_ := true |>.

Definition start_workers (n : nat) b : Bus :=
  if running_ b then b
  else b <| running_ := true |> <| workers_ := n |>.

Definition stop_workers b : Bus :=
  if negb (running_ b) then b
  else inbox_close (b <| running_ := false |>) <| workers_ := 0 |>.

(** [~EventBus]: the workers are stopped and the inbox deleted; the events still in it,
    returned here, are never dispatched. *)
Definition bus_destroy b : list Ev := inbox_ (stop_workers b).

Definition pending_count b : nat := length (inbox_ b).
Definition is_running b : bool := running_ b.

(** [ScopedSubscription]: the bus it belongs to (or none) and the id. *)
Record ScopedSubscription := mkSub { sub_bus : bool; sub_id : Z }.

Definition subscribe ty (listener : L) b : ScopedSubscription * Bus :=
  let '(id, b) := subscribe_erased ty listener b in (mkSub true id, b).

Definition sub_reset (sub : ScopedSubscription) b : ScopedSubscription * Bus :=
  if sub_bus sub && negb (sub_id sub =? 0)%Z
  then (mkSub false 0, unsubscribe (sub_id sub) b)
  else (sub, b).

(** ** Subscriptions: specification

    The live subscriptions in the order they were made. *)
Inductive sub_op := Subscribe (ty : Ty) (l : L) | Unsubscribe (id : Z).

Definition bus_apply b (o : sub_op) : Bus :=
  match o with
  | Subscribe ty l => (subscribe_erased ty l b).2
  | Unsubscribe id => unsubscribe id b
  end.

(** The specification keeps (type, slot) pairs and the number of
    subscriptions made so far. *)
Definition sub_spec (st : nat * list (Ty * Slot L)) (o : sub_op) : nat * list (Ty * Slot L) :=
  match o with
  | Subscribe ty l =>
      (st.1 + 1, st.2 ++ [(ty, mkSlot l (Z.of_nat st.1 + 1))])
  | Unsubscribe id => (st.1, filter (λ e, sl_id e.2 ≠ id) st.2)
  end.

Definition slots_of ty (live : list (Ty * Slot L)) : list (Slot L) :=
  snd <$> filter (λ e, e.1 = ty) live.

(** The registry holds, per type, the live slots of that type in order. *)
Definition bus_matches b (st : nat * list (Ty * Slot L)) : Prop :=
  next_id_ b = (Z.of_nat st.1 + 1)%Z ∧
  ∀ ty, default [] (registry_ b !! ty) = slots_of ty st.2.

Lemma slots_of_app ty l1 l2 : slots_of ty (l1 ++ l2) = slots_of ty l1 ++ slots_of ty l2.
Proof. unfold slots_of. by rewrite filter_app, fmap_app. Qed.

Lemma slots_of_filter ty id live :
  slots_of ty (filter (λ e, sl_id e.2 ≠ id) live) =
  filter (λ s, sl_id s ≠ id) (slots_of ty live).
Proof.
  unfold slots_of. rewrite filter_fmap, !list_filter_filter. f_equal.
  apply list_filter_iff. tauto.
Qed.

Lemma bus_apply_matches b st o :
  bus_matches b st → (Z.of_nat st.1 + 2 < 2 ^ 64)%Z →
  bus_matches (bus_apply b o) (sub_spec st o).
Proof.
  intros [Hid Hreg] Hlt. destruct o as [ty l|id]; simpl; split; simpl.
  - rewrite Hid, u64_small by lia. lia.
  - intros ty'. rewrite slots_of_app, <- Hreg, Hid.
    unfold slots_of. destruct (decide (ty = ty')) as [->|Hne].
    + rewrite lookup_insert_eq, filter_cons_True by done. done.
    + rewrite lookup_insert_ne, filter_cons_False by done. simpl. by rewrite app_nil_r.
  - done.
  - intros ty'. rewrite lookup_fmap, slots_of_filter, <- Hreg.
    by destruct (registry_ b !! ty').
Qed.

(** Ids handed out so far are below the counter, and distinct. *)
Definition live_ok (st : nat * list (Ty * Slot L)) : Prop :=
  NoDup ((λ e : Ty * Slot L, sl_id e.2) <$> st.2) ∧
  Forall (λ e : Ty * Slot L, 1 ≤ sl_id e.2 ≤ Z.of_nat st.1)%Z st.2.

Lemma sub_spec_ok st o : live_ok st → live_ok (sub_spec st o).
Proof.
  intros [Hn Hf]. destruct o as [ty l|id]; unfold live_ok; simpl.
  - rewrite fmap_app. split.
    + apply NoDup_app. split_and!; [done| |apply NoDup_singleton].
      intros x (e & -> & He)%list_elem_of_fmap Hx. apply list_elem_of_singleton in Hx.
      rewrite Forall_forall in Hf. specialize (Hf e He). simpl in *. lia.
    + apply Forall_app. split; [|by repeat constructor; simpl; lia].
      eapply Forall_impl; [exact Hf|]. simpl. intros. lia.
  - split.
    + eapply sublist_NoDup; [exact Hn|]. apply fmap_sublist, sublist_filter.
    + rewrite Forall_forall in *. intros e [_ He]%list_elem_of_filter. by apply Hf.
Qed.

Definition bus_run (ops : list sub_op) b : Bus := foldl bus_apply b ops.
Definition sub_run (ops : list sub_op) : nat * list (Ty * Slot L) := foldl sub_spec (0, []) ops.

Lemma bus_run_matches (ops : list sub_op) :
  (Z.of_nat (length ops) + 2 < 2 ^ 64)%Z →
  bus_matches (bus_run ops bus_new) (sub_run ops) ∧ live_ok (sub_run ops).
Proof.
  intros Hlen. unfold bus_run, sub_run.
  enough (bus_matches (foldl bus_apply bus_new ops) (foldl sub_spec (0, []) ops) ∧
          live_ok (foldl sub_spec (0, []) ops) ∧
          (foldl sub_spec (0, []) ops).1 ≤ length ops) by tauto.
  induction ops as [|o ops IH] using rev_ind.
  - split_and!; [split; [done|intros; simpl; by rewrite lookup_empty]| |done].
    split; constructor.
  - rewrite length_app in *. simpl in *. destruct IH as (IH1 & IH2 & IH3); [lia|].
    rewrite !foldl_app. simpl. split_and!.
    + apply bus_apply_matches; [done|lia].
    + by apply sub_spec_ok.
    + destruct o; simpl; lia.
Qed.

(** Synchronous dispatch calls exactly the live subscribers of the event's
    type, each once, in the order they subscribed: after any sequence of
    subscriptions and unsubscriptions (fewer than 2^64), publishing an event
    folds the listener calls over the specification's live list restricted to
    that type, and live subscriptions have pairwise distinct ids, so that
    unsubscribing one never silences another. *)
Theorem dispatch_live_subscribers (ops : list sub_op) (ev : Ev) (s : S) :
  (Z.of_nat (length ops) + 2 < 2 ^ 64)%Z →
  publish_sync ev (bus_run ops bus_new) s =
    foldl (λ s sl, call (sl_fn sl) ev s) s (slots_of (type_of ev) (sub_run ops).2) ∧
  NoDup ((λ e : Ty * Slot L, sl_id e.2) <$> (sub_run ops).2).
Proof.
  intros Hlen. destruct (bus_run_matches ops Hlen) as [[_ Hreg] [Hn _]].
  split; [|done]. unfold publish_sync, dispatch_sync. rewrite <- Hreg.
  by destruct (registry_ _ !! _).
Qed.

(** ** Asynchronous dispatch

    A worker executes an event when it pops it; [busy] events are popped and
    not yet dispatched.  Any number of workers interleave with publishers. *)
Inductive async_step : Bus * list Ev → list Ev → list Ev → Bus * list Ev → Prop :=
| async_publish ev b busy :
    async_step (b, busy) [ev] [] (publish_async ev b, busy)
| async_pop ev b b' busy :
    inbox_try_pop b = Some (ev, b') → length busy < workers_ b →
    async_step (b, busy) [] [] (b', busy ++ [ev])
| async_dispatch ev b busy1 busy2 :
    async_step (b, busy1 ++ ev :: busy2) [] [ev] (b, busy1 ++ busy2).

Inductive async_exec : Bus * list Ev → list Ev → list Ev → Bus * list Ev → Prop :=
| async_nil c : async_exec c [] [] c
| async_cons c ins outs c' ins' outs' c'' :
    async_step c ins outs c' → async_exec c' ins' outs' c'' →
    async_exec c (ins ++ ins') (outs ++ outs') c''.

Lemma async_step_law c ins outs c' :
  async_step c ins outs c' →
  outs ++ c'.2 ++ inbox_ c'.1 ≡ₚ (c.2 ++ inbox_ c.1) ++ ins ∧
  workers_ c'.1 = workers_ c.1 ∧
  (workers_ c.1 = 1 → length c.2 ≤ 1 →
     length c'.2 ≤ 1 ∧ outs ++ c'.2 ++ inbox_ c'.1 = (c.2 ++ inbox_ c.1) ++ ins).
Proof.
  intros Hs. destruct Hs as [ev b busy|ev b b' busy Hp Hw|ev b busy1 busy2]; simpl.
  - rewrite <- app_assoc. split_and!; [done|done|]. intros. by split.
  - unfold inbox_try_pop in Hp. destruct (inbox_ b) as [|e q] eqn:E; simplify_eq/=.
    rewrite app_nil_r, <- app_assoc. simpl. rewrite length_app. simpl.
    split_and!; [done|done|]. intros. split; [lia|done].
  - rewrite app_nil_r. split_and!; [|done|].
    + rewrite <- !app_assoc. simpl. by rewrite Permutation_middle.
    + rewrite length_app. simpl. intros _ Hl.
      assert (busy1 = []) as -> by (destruct busy1; simpl in *; [done|lia]).
      assert (busy2 = []) as -> by (destruct busy2; simpl in *; [done|lia]).
      simpl. split; [lia|done].
Qed.

Lemma async_exec_law c ins outs c' :
  async_exec c ins outs c' →
  outs ++ c'.2 ++ inbox_ c'.1 ≡ₚ (c.2 ++ inbox_ c.1) ++ ins ∧
  (workers_ c.1 = 1 → length c.2 ≤ 1 →
     outs ++ c'.2 ++ inbox_ c'.1 = (c.2 ++ inbox_ c.1) ++ ins).
Proof.
  induction 1 as [c|c ins outs c' ins' outs' c'' Hs _ [IH1 IH2]].
  - by rewrite app_nil_r.
  - apply async_step_law in Hs as (H1 & Hw & H2). split.
    + by rewrite <- app_assoc, IH1, app_assoc, H1, <- app_assoc.
    + intros Hw1 Hl. destruct (H2 Hw1 Hl) as [Hl' E].
      rewrite <- app_assoc, IH2, app_assoc, E, <- app_assoc by (congruence || done). done.
Qed.

(** Asynchronous publication loses and duplicates nothing while the
    workers run: for any interleaving of publishers and workers, the dispatched
    events together with those being dispatched and those still in the inbox
    are exactly the published ones, and with a single worker (the server's
    default) they are dispatched in publication order. *)
Theorem async_no_loss (n : nat) (ins outs : list Ev) b busy :
  async_exec (start_workers n bus_new, []) ins outs (b, busy) →
  outs ++ busy ++ inbox_ b ≡ₚ ins ∧ (n = 1 → outs ++ busy ++ inbox_ b = ins).
Proof.
  intros [H1 H2]%async_exec_law. split; [done|]. intros ->. apply H2; simpl; [done|lia].
Qed.
End bus.

(** Three subscriptions on two types, one withdrawn: the event of type 0 reaches
    the remaining listener of type 0. *)
Definition bus_demo_ops : list (sub_op (Ty:=nat) (L:=nat)) :=
  [Subscribe 0 10; Subscribe 1 11; Subscribe 0 12; Unsubscribe 1].

Lemma dispatch_live_subscribers_witness :
  publish_sync (S:=list nat) fst (λ l (e : nat * nat) s, s ++ [l + e.2]) (0, 5)
    (bus_run bus_demo_ops bus_new) [] = [17] ∧
  NoDup ((λ e : nat * Slot nat, sl_id e.2) <$> (sub_run bus_demo_ops).2).
Proof.
  exact (dispatch_live_subscribers fst (λ l e s, s ++ [l + e.2]) bus_demo_ops
           (0, 5) [] ltac:(vm_compute; reflexivity)).
Defined.

(** One worker: two events published, one dispatched, one popped. *)
Lemma async_no_loss_witness :
  let b := mkBus ∅ 1 true 1 [] false : EventBus nat nat nat in
  [7] ++ [8] ++ inbox_ b ≡ₚ [7; 8] ∧ (1 = 1 → [7] ++ [8] ++ inbox_ b = [7; 8]).
Proof.
  apply (async_no_loss (L:=nat) 1 [7; 8] [7] (mkBus ∅ 1 true 1 [] false) [8]).
  apply (async_cons _ [7] [] (mkBus ∅ 1 true 1 [7] false, []) [8] [7]).
  { apply (async_publish 7 (mkBus ∅ 1 true 1 [] false) []). }
  apply (async_cons _ [] [] (mkBus ∅ 1 true 1 [] false, [7]) [8] [7]).
  { apply (async_pop 7 (mkBus ∅ 1 true 1 [7] false) (mkBus ∅ 1 true 1 [] false) []); [done|simpl; lia]. }
  apply (async_cons _ [8] [] (mkBus ∅ 1 true 1 [8] false, [7]) [] [7]).
  { apply (async_publish 8 (mkBus ∅ 1 true 1 [] false) [7]). }
  apply (async_cons _ [] [7] (mkBus ∅ 1 true 1 [8] false, []) [] []).
  { apply (async_dispatch 7 (mkBus ∅ 1 true 1 [8] false) [] []). }
  apply (async_cons _ [] [] (mkBus ∅ 1 true 1 [] false, [8]) [] []).
  { apply (async_pop 8 (mkBus ∅ 1 true 1 [8] false) (mkBus ∅ 1 true 1 [] false) []); [done|simpl; lia]. }
  apply async_nil.
Defined.
