(* ===== verification/LocalEngine.v ===== *)
(** * Local engine interface (src/local/local_tts_engine.h)

    The interface the heartbeat and the main loop use: readiness and synthesis. *)

From Stdlib Require Import SpecFloat.
From S2P Require Import Prelude.

Inductive BackendKind : Type := Onnx | Mock.
#[global] Instance BackendKind_eq_dec : EqDecision BackendKind.
Proof. solve_decision. Defined.

(** [std::vector<std::int16_t>] is a list of integers. *)
Record LocalTtsResult := mkResult {
  lr_samples : list Z;
  lr_sample_rate : Z;
  lr_channels : Z;
  lr_duration_ms : Z;
  lr_usage_ms : Z;
  lr_status_code : Z;
  lr_status_msg : string;
}.

(** A default-constructed [LocalTtsResult]. *)
Definition LocalTtsResult_default : LocalTtsResult := mkResult [] 16000 1 0 0 0 "".

(** The abstract class: [IsReady()] and [Synthesize(text, voice_id, speed)]. *)
Record ILocalTtsEngine := mkEngine {
  IsReady : bool;
  Synthesize : string → string → spec_float → LocalTtsResult;
}.

(** ** Configuration of the engines *)

Record LocalTtsConfig := mkLocalTtsConfig {
  le_enabled : bool;
  le_backend : BackendKind;
  le_model_dir : string;
  le_model_file : string;
  le_detokenizer_file : string;
  le_tokenizer_file : string;
  le_target_sample_rate : Z;
  le_target_channels : Z;
  le_num_threads : Z;
  le_max_decode_steps : Z;
  le_eos_token_id : Z;
  le_audio_token_offset : Z;
  le_use_int8 : bool;
}.
#[global] Instance LocalTtsConfig_eta : Eta LocalTtsConfig := {|
  eta_expand c := mkLocalTtsConfig (le_enabled c) (le_backend c) (le_model_dir c)
    (le_model_file c) (le_detokenizer_file c) (le_tokenizer_file c) (le_target_sample_rate c)
    (le_target_channels c) (le_num_threads c) (le_max_decode_steps c) (le_eos_token_id c)
    (le_audio_token_offset c) (le_use_int8 c) |}.

Definition LocalTtsConfig_default : LocalTtsConfig :=
  mkLocalTtsConfig true Onnx "" "model.onnx" "detokenizer.onnx" "tokenizer.json" 16000 1 0 512
    (-1) 0 false.

(** ** Samples as bytes *)

(** The bytes of a sample vector seen as [const std::uint8_t*]: two's complement,
    low byte first. *)
Definition byte_of_Z (z : Z) : Byte.byte :=
  default Byte.x00 (Byte.of_N (Z.to_N (z mod 256))).
Definition int16_bytes (z : Z) : list Byte.byte := [byte_of_Z z; byte_of_Z (z / 256)].
Definition sample_bytes (samples : list Z) : list Byte.byte := samples ≫= int16_bytes.

(** What the receiver of the bytes sees: pairs of bytes as signed 16-bit numbers. *)
Definition Z_of_byte (b : Byte.byte) : Z := Z.of_N (Byte.to_N b).
Fixpoint samples_of_bytes (l : list Byte.byte) : list Z :=
  match l with
  | lo :: hi :: l =>
      let v := (Z_of_byte lo + 256 * Z_of_byte hi)%Z in
      (if (v <? 2 ^ 15)%Z then v else (v - 2 ^ 16)%Z) :: samples_of_bytes l
  | _ => []
  end.

Lemma Z_of_byte_of_Z z : Z_of_byte (byte_of_Z z) = (z mod 256)%Z.
Proof.
  unfold Z_of_byte, byte_of_Z. pose proof (Z.mod_pos_bound z 256 ltac:(lia)) as H.
  destruct (Byte.of_N (Z.to_N (z mod 256))) as [b|] eqn:E; simpl.
  - apply Byte.to_of_N in E. rewrite E. lia.
  - apply Byte.of_N_None_iff in E. lia.
Qed.

(** The bytes determine the samples. *)
Lemma samples_of_sample_bytes (l : list Z) :
  Forall (λ z, - 2 ^ 15 ≤ z < 2 ^ 15)%Z l → samples_of_bytes (sample_bytes l) = l.
Proof.
  induction 1 as [|z l Hz _ IH]; [done|].
  change (sample_bytes (z :: l)) with (byte_of_Z z :: byte_of_Z (z / 256) :: sample_bytes l).
  cbn [samples_of_bytes]. rewrite !Z_of_byte_of_Z, IH. f_equal.
  pose proof (Z.div_mod z 256 ltac:(lia)). pose proof (Z.mod_pos_bound z 256 ltac:(lia)).
  pose proof (Z.div_mod (z / 256) 256 ltac:(lia)).
  pose proof (Z.mod_pos_bound (z / 256) 256 ltac:(lia)).
  destruct (Z.ltb_spec (z mod 256 + 256 * ((z / 256) mod 256)) (2 ^ 15)); lia.
Qed.

Lemma length_sample_bytes (l : list Z) : length (sample_bytes l) = 2 * length l.
Proof.
  induction l as [|z l IH]; [done|].
  change (sample_bytes (z :: l)) with (byte_of_Z z :: byte_of_Z (z / 256) :: sample_bytes l).
  simpl. lia.
Qed.

(** ** What an engine promises

    16-bit audio at a fixed rate, or status 1000 without samples. *)
Definition answers_well (rate : Z) (r : LocalTtsResult) : Prop :=
  lr_sample_rate r = rate ∧ Forall (λ z, - 2 ^ 15 ≤ z < 2 ^ 15)%Z (lr_samples r) ∧
  (lr_status_code r = 0%Z ∨ lr_status_code r = 1000%Z ∧ lr_samples r = []).

Class EngineLaws (rate : Z) (e : ILocalTtsEngine) : Prop :=
  engine_answers : ∀ text voice_id speed, answers_well rate (Synthesize e text voice_id speed).
