(* ===== verification/WsFrameCodec.v ===== *)
(** * WsFrameCodec and MiniMaxProtocolAdapter
      (src/upstream/ws_frame_codec.{h,cpp}, src/upstream/minimax_protocol_adapter.h)

    Encoding of the client frames and decoding of the server frames of the
    upstream protocol, and the translation of decoded frames to messages.  JSON
    values are those of nlohmann/json, a third-party library: its value type and
    the operations the codec uses are the parameter [NlohmannJson]. *)

From Stdlib Require Import SpecFloat.
From S2P Require Import Prelude Messages Events.

(** ** The JSON library *)

(** [json_set k v j] is [j[k] = v]; [json_member k j] is [j[k]] when
    [j.contains(k)]; [json_parse] is [None] when [json::parse] throws;
    [json_as_int] is the value when [is_number_integer()]. *)
Class NlohmannJson := {
  json : Type;
  json_null : json;
  json_string : string → json;
  json_int : Z → json;
  json_float : spec_float → json;
  json_bool : bool → json;
  json_set : string → json → json → json;
  json_dump : json → string;
  json_parse : string → option json;
  json_member : string → json → option json;
  json_is_object : json → bool;
  json_as_string : json → option string;
  json_as_bool : json → option bool;
  json_as_int : json → option Z;
}.

Section codec.
Context {J : NlohmannJson}.

(** ** Client frames *)

Definition voice_json (v : VoiceSettings) : json :=
  let vs := json_null in
  let vs := json_set "voice_id" (json_string (voice_id v)) vs in
  let vs := json_set "speed" (json_float (speed v)) vs in
  let vs := json_set "vol" (json_float (vol v)) vs in
  let vs := json_set "pitch" (json_int (pitch v)) vs in
  let vs := match emotion v with
            | Some e => json_set "emotion" (json_string e) vs
            | None => vs
            end in
  json_set "english_normalization" (json_bool (english_normalization v)) vs.

Definition audio_json (a : AudioSettings) : json :=
  let x := json_null in
  let x := json_set "sample_rate" (json_int (sample_rate a)) x in
  let x := json_set "bitrate" (json_int (bitrate a)) x in
  let x := json_set "format" (json_string (format_to_string (format a))) x in
  json_set "channel" (json_int (channel a)) x.

Definition encode_task_start (model : string) (v : VoiceSettings) (a : AudioSettings) : string :=
  let j := json_null in
  let j := json_set "event" (json_string "task_start") j in
  let j := json_set "model" (json_string model) j in
  let j := json_set "voice_setting" (voice_json v) j in
  let j := json_set "audio_setting" (audio_json a) j in
  json_dump j.

Definition encode_task_continue (text : string) : string :=
  let j := json_null in
  let j := json_set "event" (json_string "task_continue") j in
  let j := json_set "text" (json_string text) j in
  json_dump j.

Definition encode_task_finish : string :=
  json_dump (json_set "event" (json_string "task_finish") json_null).

(** ** Server frames *)

Record ParsedServerFrame := mkFrame {
  pf_event : string;
  pf_session_id : option string;
  pf_trace_id : option string;
  pf_audio_hex : option string;
  pf_is_final : option bool;
  pf_sample_rate : option Z;
  pf_channels : option Z;
  pf_usage_characters : option Z;
  pf_status_code : Z;
  pf_status_msg : string;
}.

(** [if (j.contains(k) && j[k].is_T()) ... = j[k].get<T>()]. *)
Definition get_string (k : string) (j : json) : option string :=
  json_member k j ≫= json_as_string.
Definition get_bool (k : string) (j : json) : option bool :=
  json_member k j ≫= json_as_bool.
(** [get<int>()] narrows the stored integer to 32 bits. *)
Definition get_int (k : string) (j : json) : option Z :=
  i32 <$> (json_member k j ≫= json_as_int).
(** [if (j.contains(k) && j[k].is_object()) { const auto& d = j[k]; ... }]. *)
Definition get_object (k : string) (j : json) : option json :=
  d ← json_member k j; if json_is_object d then Some d else None.

Definition parse_server_frame (raw : string) : option ParsedServerFrame :=
  match json_parse raw with
  | None => None
  | Some j =>
      Some {|
        pf_event := default "" (get_string "event" j);
        pf_session_id := get_string "session_id" j;
        pf_trace_id := get_string "trace_id" j;
        pf_is_final := get_bool "is_final" j;
        pf_audio_hex := d ← get_object "data" j; get_string "audio" d;
        pf_sample_rate := e ← get_object "extra_info" j; get_int "audio_sample_rate" e;
        pf_channels := e ← get_object "extra_info" j; get_int "audio_channel" e;
        pf_usage_characters := e ← get_object "extra_info" j; get_int "usage_characters" e;
        pf_status_code := default 0%Z (b ← get_object "base_resp" j; get_int "status_code" b);
        pf_status_msg := default "" (b ← get_object "base_resp" j; get_string "status_msg" b);
      |}
  end.

Definition default_voice_id : string := "male-qn-qingse".
End codec.

(** ** MiniMaxProtocolAdapter *)

(** [MiniMaxProtocolAdapter::translate]: one branch per known event name. *)
Definition translate (e : WsFrameDecodedEvent) : list TtsResponseMsg :=
  if String.eqb (fd_event_name e) "connected_success" then
    [ {| rs_session_id := fd_session_id e; rs_request_id := ""; rs_kind := WE.Connected;
         rs_audio_hex := ""; rs_is_final := false; rs_sample_rate := 0; rs_channels := 0;
         rs_usage_characters := 0; rs_status_code := 0; rs_status_msg := "";
         rs_trace_id := "" |} ]
  else if String.eqb (fd_event_name e) "task_started" then
    [ {| rs_session_id := fd_session_id e; rs_request_id := ""; rs_kind := WE.TaskStarted;
         rs_audio_hex := ""; rs_is_final := false; rs_sample_rate := 0; rs_channels := 0;
         rs_usage_characters := 0; rs_status_code := 0; rs_status_msg := "";
         rs_trace_id := "" |} ]
  else if String.eqb (fd_event_name e) "task_continued" then
    [ {| rs_session_id := fd_session_id e; rs_request_id := ""; rs_kind := WE.AudioChunk;
         rs_audio_hex := fd_audio_hex e; rs_is_final := fd_is_final e;
         rs_sample_rate := fd_sample_rate e; rs_channels := fd_channels e;
         rs_usage_characters := fd_usage_characters e; rs_status_code := fd_status_code e;
         rs_status_msg := fd_status_msg e; rs_trace_id := fd_trace_id e |} ]
  else if String.eqb (fd_event_name e) "task_finished" then
    [ {| rs_session_id := fd_session_id e; rs_request_id := ""; rs_kind := WE.TaskFinished;
         rs_audio_hex := ""; rs_is_final := false; rs_sample_rate := 0; rs_channels := 0;
         rs_usage_characters := 0; rs_status_code := fd_status_code e;
         rs_status_msg := fd_status_msg e; rs_trace_id := "" |} ]
  else if String.eqb (fd_event_name e) "task_failed" then
    [ {| rs_session_id := fd_session_id e; rs_request_id := ""; rs_kind := WE.TaskFailed;
         rs_audio_hex := ""; rs_is_final := false; rs_sample_rate := 0; rs_channels := 0;
         rs_usage_characters := 0; rs_status_code := fd_status_code e;
         rs_status_msg := fd_status_msg e; rs_trace_id := "" |} ]
  else [].
