(* ===== verification/Observability.v ===== *)
(** * Observability (src/observability/metrics_collector.h, event_logger.h,
      admission_gate.h)

    The listeners the server subscribes on the bus: metrics counters, log lines
    and the admission gate.  Each lambda of the sources is a [Listener]; its body
    is [listener_call], a transformer of the state the listeners share. *)

From S2P Require Import Prelude Metrics Events EventBus.

Inductive Listener : Type :=
| LMetricsConnected | LMetricsDisconnected | LMetricsSendFailed
| LLogConnected | LLogDisconnected | LLogSendFailed
| LGateTick.

(** Log lines written through spdlog, with the event they print. *)
Inductive LogLine : Type :=
| LogInfo (e : BusEvent)
| LogWarn (e : BusEvent).

(** What the listeners read and write: the board's metrics, the gate's
    [open_] flag, and the log. *)
Record ObsState := mkObs {
  obs_metrics : MetricsSnapshot;
  open_ : bool;
  obs_log : list LogLine;
}.
#[global] Instance ObsState_eta : Eta ObsState := {|
  eta_expand o := mkObs (obs_metrics o) (open_ o) (obs_log o) |}.

Definition log_line (l : LogLine) (o : ObsState) : ObsState :=
  o <| obs_log := obs_log o ++ [l] |>.

(** ** AdmissionGate *)

(** [admit()]. *)
Definition gate_admit (o : ObsState) : bool := open_ o.

(** The listener of [wire()]. *)
Definition gate_on_tick (t : HeartbeatTickEvent) (o : ObsState) : ObsState :=
  if (512 <? ht_changeset_size t)%Z then
    let o := o <| open_ := false |> in
    let o := o <| obs_metrics := set_backpressure_level 2 (obs_metrics o) |> in
    log_line (LogWarn (EvHeartbeatTick t)) o
  else if (ht_changeset_size t <? 64)%Z then
    o <| open_ := true |>
  else o.

(** ** All listeners *)

Definition listener_call (l : Listener) (ev : BusEvent) (o : ObsState) : ObsState :=
  match l, ev with
  | LMetricsConnected, EvUpstreamConnected _ =>
      o <| obs_metrics := inc_upstream_connected (obs_metrics o) |>
  | LMetricsDisconnected, EvUpstreamDisconnected _ =>
      o <| obs_metrics := inc_upstream_disconnected (obs_metrics o) |>
  | LMetricsSendFailed, EvWsFrameSendFailed _ =>
      o <| obs_metrics := inc_failed_requests (obs_metrics o) |>
  | LLogConnected, EvUpstreamConnected _ => log_line (LogInfo ev) o
  | LLogDisconnected, EvUpstreamDisconnected _ => log_line (LogInfo ev) o
  | LLogSendFailed, EvWsFrameSendFailed _ => log_line (LogWarn ev) o
  | LGateTick, EvHeartbeatTick t => gate_on_tick t o
  | _, _ => o
  end.

Abbreviation AppBus := (EventBus EventType BusEvent Listener).

(** ** Wiring *)

(** [MetricsCollector::wire]. *)
Definition metrics_wire (b : AppBus) : list ScopedSubscription * AppBus :=
  let '(s1, b) := subscribe TUpstreamConnected LMetricsConnected b in
  let '(s2, b) := subscribe TUpstreamDisconnected LMetricsDisconnected b in
  let '(s3, b) := subscribe TWsFrameSendFailed LMetricsSendFailed b in
  ([s1; s2; s3], b).

(** [EventLogger::wire]. *)
Definition logger_wire (b : AppBus) : list ScopedSubscription * AppBus :=
  let '(s1, b) := subscribe TUpstreamConnected LLogConnected b in
  let '(s2, b) := subscribe TUpstreamDisconnected LLogDisconnected b in
  let '(s3, b) := subscribe TWsFrameSendFailed LLogSendFailed b in
  ([s1; s2; s3], b).

(** [AdmissionGate::wire]. *)
Definition gate_wire (b : AppBus) : ScopedSubscription * AppBus :=
  subscribe THeartbeatTick LGateTick b.

(** [unwire()] of the three components: reset every subscription. *)
Definition unwire (subs : list ScopedSubscription) (b : AppBus) : AppBus :=
  foldl (λ b s, (sub_reset s b).2) b subs.

(** The order of construction in [main]. *)
Definition wire_all (b : AppBus) : AppBus :=
  let '(_, b) := metrics_wire b in
  let '(_, b) := logger_wire b in
  let '(_, b) := gate_wire b in
  b.

Definition app_publish_sync (ev : BusEvent) (b : AppBus) (o : ObsState) : ObsState :=
  publish_sync event_type listener_call ev b o.
