(* ===== verification/Subscriptions.v ===== *)
(** * ScopedSubscription and the life of subscriptions (src/framework/event_bus.h,
      event_bus.cpp, src/observability)

    [ScopedSubscription] objects own slots of the bus and hand them on by moves.  The
    first part gives their special member functions on a store of objects and shows
    that the bus calls exactly the listeners the objects hold.  The second part splits
    a synchronous dispatch into the snapshot and the calls, between which another
    thread may reset a subscription, and says when a reset silences its listener.  The
    last part applies this to the destructors of the observers. *)

From S2P Require Import Prelude EventBus Metrics Events Observability.

(** ** The special members *)

(** The default constructor, and an object moved from. *)
Definition sub_default : ScopedSubscription := mkSub false 0.

(** The move constructor: the new object, and the old one after it. *)
Definition sub_move (o : ScopedSubscription) : ScopedSubscription * ScopedSubscription :=
  (mkSub (sub_bus o) (sub_id o), sub_default).
#[local] Arguments sub_move : simpl never.

Section objects.
Context {Ty Ev L : Type} `{Countable Ty}.
Abbreviation Bus := (EventBus Ty Ev L).
Implicit Types (b : Bus) (objs : list ScopedSubscription).

(** [reset] of object [i], also its destructor. *)
Definition obj_reset (i : nat) (x : list ScopedSubscription * Bus) : list ScopedSubscription * Bus :=
  let '(objs, b) := x in
  match objs !! i with
  | None => (objs, b)
  | Some o => let '(o, b) := sub_reset o b in (<[i := o]> objs, b)
  end.

(** [objs[i] = std::move(objs[j])]: nothing for [i = j], otherwise the old subscription
    is reset before the other is taken over. *)
Definition obj_move_assign (i j : nat) (x : list ScopedSubscription * Bus) : list ScopedSubscription * Bus :=
  match x.1 !! i, x.1 !! j with
  | Some _, Some o =>
      if decide (i = j) then x
      else let '(objs, b) := obj_reset i x in
           let '(this, o) := sub_move o in (<[j := o]> (<[i := this]> objs), b)
  | _, _ => x
  end.

(** The operations of a program on its subscription objects; an object made by
    [subscribe] or by a constructor is appended to the store. *)
Inductive obj_op : Type :=
| ODefault
| OSubscribe (ty : Ty) (l : L)
| OMoveNew (j : nat)
| OAssign (i j : nat)
| OReset (i : nat).

Definition obj_apply (x : list ScopedSubscription * Bus) (o : obj_op) : list ScopedSubscription * Bus :=
  match o with
  | ODefault => (x.1 ++ [sub_default], x.2)
  | OSubscribe ty l => let '(s, b) := subscribe ty l x.2 in (x.1 ++ [s], b)
  | OMoveNew j =>
      match x.1 !! j with
      | None => x
      | Some o => let '(this, o) := sub_move o in (<[j := o]> x.1 ++ [this], x.2)
      end
  | OAssign i j => obj_move_assign i j x
  | OReset i => obj_reset i x
  end.

(** ** Specification: each object holds a listener or nothing *)

Definition hold_apply {A} (mk : Ty → L → A) (h : list (option A)) (o : obj_op) : list (option A) :=
  match o with
  | ODefault => h ++ [None]
  | OSubscribe ty l => h ++ [Some (mk ty l)]
  | OMoveNew j => match h !! j with None => h | Some a => <[j := None]> h ++ [a] end
  | OAssign i j =>
      match h !! i, h !! j with
      | Some _, Some a => if decide (i = j) then h else <[j := None]> (<[i := a]> h)
      | _, _ => h
      end
  | OReset i => match h !! i with None => h | Some _ => <[i := None]> h end
  end.

(** What the objects hold after a sequence of operations. *)
Definition held (ops : list obj_op) : list (option (Ty * L)) := foldl (hold_apply pair) [] ops.

(** ** The bus calls what the objects hold *)

Abbreviation entry := (Ty * Slot L)%type.
Definition obj_of (h : option entry) : ScopedSubscription :=
  match h with Some e => mkSub true (sl_id e.2) | None => sub_default end.
Definition forget (h : option entry) : option (Ty * L) := (λ e, (e.1, sl_fn e.2)) <$> h.

(** The store is the image of a list [hs] of entries, which are the live ones. *)
Definition own_inv (hs : list (option entry)) (st : nat * list entry)
    (x : list ScopedSubscription * Bus) : Prop :=
  x.1 = obj_of <$> hs ∧ omap id hs ≡ₚ st.2 ∧ bus_matches x.2 st ∧ live_ok st.

Lemma omap_id_insert (hs : list (option entry)) i h h' :
  hs !! i = Some h →
  ∃ l1 l2, omap id hs = l1 ++ option_list h ++ l2 ∧
           omap id (<[i := h']> hs) = l1 ++ option_list h' ++ l2.
Proof.
  intros Hi. destruct (insert_split hs i h Hi) as (l1 & l2 & -> & E).
  exists (omap id l1), (omap id l2). rewrite E, !omap_app. by destruct h, h'.
Qed.

Lemma live_ok_nonzero st (e : entry) : live_ok st → e ∈ st.2 → sl_id e.2 ≠ 0%Z.
Proof. intros [_ Hf] He. rewrite Forall_forall in Hf. specialize (Hf e He). cbn in Hf. lia. Qed.

(** Dropping the only entry with an id. *)
Lemma filter_drop_id (l1 l2 : list entry) e :
  NoDup ((λ e : entry, sl_id e.2) <$> (l1 ++ e :: l2)) →
  filter (λ e', sl_id e'.2 ≠ sl_id e.2) (l1 ++ e :: l2) = l1 ++ l2.
Proof.
  rewrite fmap_app, fmap_cons. intros (H1 & Hne & H2)%NoDup_app.
  apply NoDup_cons in H2 as [Hn2 H2]. rewrite filter_app, filter_cons_False by tauto.
  rewrite !list_filter_all; [done| |]; intros e' He' E.
  - apply Hn2. rewrite <- E. apply list_elem_of_fmap. eauto.
  - apply (Hne (sl_id e'.2)); [apply list_elem_of_fmap; eauto|]. rewrite E. left.
Qed.

(** Resetting an object that holds [h]. *)
Lemma own_inv_reset hs st x i h :
  own_inv hs st x → hs !! i = Some h → (Z.of_nat st.1 + 2 < 2 ^ 64)%Z →
  ∃ st', own_inv (<[i := None]> hs) st' (obj_reset i x) ∧ st'.1 = st.1.
Proof.
  destruct x as [objs b]. intros (Ho & Hp & Hm & Hl) Hi Hlt. cbn in Ho, Hm. subst objs.
  destruct (omap_id_insert hs i h None Hi) as (l1 & l2 & E1 & E2).
  unfold obj_reset. rewrite list_lookup_fmap, Hi. cbn.
  destruct h as [e|].
  - assert (e ∈ st.2) as He by (rewrite <- Hp, E1; set_solver).
    pose proof (live_ok_nonzero st e Hl He) as Hnz. unfold sub_reset. cbn.
    apply Z.eqb_neq in Hnz. rewrite Hnz. cbn. exists (sub_spec st (Unsubscribe (sl_id e.2))).
    split; [|done]. split_and!.
    + cbn. by rewrite list_fmap_insert.
    + rewrite E2. cbn. rewrite <- Hp, E1. cbn.
      rewrite filter_drop_id; [done|]. change (e :: l2) with (option_list (Some e) ++ l2).
      rewrite <- E1, Hp. apply Hl.
    + by apply (bus_apply_matches b st (Unsubscribe (sl_id e.2))).
    + by apply sub_spec_ok.
  - exists st. split; [|done]. split_and!; [|by rewrite E2, <- Hp, E1|done|done].
    cbn. by rewrite list_fmap_insert.
Qed.

(** Moving what object [j] holds to an object [i] that holds nothing. *)
Lemma own_inv_take hs st objs b i j h :
  own_inv hs st (objs, b) → hs !! i = Some None → hs !! j = Some h → i ≠ j →
  own_inv (<[j := None]> (<[i := h]> hs)) st (<[j := sub_default]> (<[i := obj_of h]> objs), b).
Proof.
  intros (Ho & Hp & Hm & Hl) Hi Hj Hne. cbn in Ho. subst objs. split_and!; [| |done..].
  - cbn. by rewrite !list_fmap_insert.
  - rewrite <- Hp.
    destruct (omap_id_insert hs i None h Hi) as (l1 & l2 & -> & E2).
    assert (<[i := h]> hs !! j = Some h) as Hj' by by rewrite list_lookup_insert_ne.
    destruct (omap_id_insert _ j h None Hj') as (m1 & m2 & E3 & ->).
    rewrite E2 in E3. apply (Permutation_app_inv_l (option_list h)). cbn.
    transitivity (m1 ++ option_list h ++ m2); [|rewrite <- E3]; solve_Permutation.
Qed.

Lemma own_inv_move_new hs st objs b j h :
  own_inv hs st (objs, b) → hs !! j = Some h →
  own_inv (<[j := None]> hs ++ [h]) st (<[j := sub_default]> objs ++ [obj_of h], b).
Proof.
  intros (Ho & Hp & Hm & Hl) Hj. cbn in Ho. subst objs. split_and!; [| |done..].
  - cbn. by rewrite fmap_app, list_fmap_insert.
  - rewrite <- Hp. destruct (omap_id_insert hs j h None Hj) as (l1 & l2 & -> & E2).
    rewrite omap_app, E2. cbn. destruct h; cbn; solve_Permutation.
Qed.

Lemma sub_move_obj (h : option entry) : sub_move (obj_of h) = (obj_of h, sub_default).
Proof. by destruct h. Qed.

Lemma own_inv_apply hs st x o :
  own_inv hs st x → (Z.of_nat st.1 + 2 < 2 ^ 64)%Z →
  ∃ hs' st', own_inv hs' st' (obj_apply x o) ∧ st'.1 ≤ st.1 + 1 ∧
             forget <$> hs' = hold_apply pair (forget <$> hs) o.
Proof.
  destruct x as [objs b]. intros Hinv Hlt. pose proof Hinv as (Ho & Hp & Hm & Hl).
  cbn in Ho, Hm. destruct o as [|ty l|j|i j|i]; cbn; rewrite ?list_lookup_fmap.
  - exists (hs ++ [None]), st. subst objs. split_and!; [|lia|by rewrite fmap_app].
    split_and!; [by rewrite fmap_app| |done..]. by rewrite omap_app, app_nil_r.
  - set (e := (ty, mkSlot l (next_id_ b))). exists (hs ++ [Some e]), (sub_spec st (Subscribe ty l)).
    subst objs. split_and!; [|cbn; lia|by rewrite fmap_app].
    split_and!; [by rewrite fmap_app| |by apply (bus_apply_matches b st (Subscribe ty l))|by apply sub_spec_ok].
    rewrite omap_app. cbn. rewrite Hp. destruct Hm as [E _]. unfold e. by rewrite E.
  - subst objs. rewrite list_lookup_fmap. destruct (hs !! j) as [h|] eqn:Hj; cbn.
    + rewrite sub_move_obj. exists (<[j := None]> hs ++ [h]), st.
      split_and!; [by apply own_inv_move_new|lia|by rewrite fmap_app, list_fmap_insert].
    + exists hs, st. split_and!; [done|lia|done].
  - unfold obj_move_assign. cbn [fst]. rewrite Ho, !list_lookup_fmap, <- Ho.
    destruct (hs !! i) as [hi|] eqn:Hi; cbn; [|exists hs, st; split_and!; [done|lia|done]].
    destruct (hs !! j) as [hj|] eqn:Hj; cbn; [|exists hs, st; split_and!; [done|lia|done]].
    destruct (decide (i = j)) as [->|Hne]; [exists hs, st; split_and!; [done|lia|done]|].
    destruct (own_inv_reset hs st (objs, b) i hi Hinv Hi Hlt) as (st' & Hr & Es).
    destruct (obj_reset i (objs, b)) as [objs' b'] eqn:Er. unfold obj_reset in Er. rewrite Er.
    rewrite sub_move_obj. exists (<[j := None]> (<[i := hj]> (<[i := None]> hs))), st'.
    split_and!; [|lia|rewrite list_insert_insert_eq; by rewrite !list_fmap_insert].
    apply own_inv_take; [done| |by rewrite list_lookup_insert_ne|done].
    apply list_lookup_insert_eq. by eapply lookup_lt_Some.
  - destruct (hs !! i) as [h|] eqn:Hi; cbn.
    + destruct (own_inv_reset hs st (objs, b) i h Hinv Hi Hlt) as (st' & Hr & Es).
      exists (<[i := None]> hs), st'. split_and!; [done|lia|by rewrite list_fmap_insert].
    + exists hs, st. rewrite Ho, list_lookup_fmap, Hi, <- Ho. split_and!; [done|lia|done].
Qed.

Definition obj_run (ops : list obj_op) : list ScopedSubscription * Bus := foldl obj_apply ([], bus_new) ops.

Lemma own_inv_run (ops : list obj_op) :
  (Z.of_nat (length ops) + 2 < 2 ^ 64)%Z →
  ∃ hs st, own_inv hs st (obj_run ops) ∧ st.1 ≤ length ops ∧ forget <$> hs = held ops.
Proof.
  unfold obj_run, held. induction ops as [|o ops IH] using rev_ind.
  - intros _. exists [], (0, []). split_and!; [|done|done].
    split_and!; [done|done| |split; constructor].
    split; [done|]. intros ty. cbn. by rewrite lookup_empty.
  - rewrite length_app. cbn. intros Hlt. destruct IH as (hs & st & Hi & Hn & Hf); [lia|].
    rewrite !foldl_app. cbn. rewrite <- Hf.
    destruct (own_inv_apply hs st _ o Hi) as (hs' & st' & H1 & H2 & H3); [lia|].
    exists hs', st'. split_and!; [done|lia|done].
Qed.

Lemma slots_of_perm ty (l1 l2 : list entry) : l1 ≡ₚ l2 → slots_of ty l1 ≡ₚ slots_of ty l2.
Proof. intros Hp. unfold slots_of. by rewrite Hp. Qed.

(** The listeners of one type among those held. *)
Definition listeners_of ty (h : list (option (Ty * L))) : list L :=
  snd <$> filter (λ e, e.1 = ty) (omap id h).

Lemma listeners_of_forget ty (hs : list (option entry)) :
  listeners_of ty (forget <$> hs) = sl_fn <$> slots_of ty (omap id hs).
Proof.
  unfold listeners_of, slots_of.
  assert (omap id (forget <$> hs) = (λ e, (e.1, sl_fn e.2)) <$> omap id hs) as ->
    by (induction hs as [|[e|] hs IH]; cbn; by rewrite ?IH).
  rewrite filter_fmap, <- !list_fmap_compose. done.
Qed.

(** C28: Subscription objects own their listeners: after any sequence of subscriptions,
    default and move constructions, move assignments (to itself too), resets and
    destructions, the listeners the bus holds for an event type are, each once, those
    held by the objects when every operation is read as moving or dropping a value.  A
    move never leaves two owners, an assignment drops exactly the old listener, and a
    listener stays subscribed only while an object holds it. *)
Theorem subscriptions_owned (ops : list obj_op) (ty : Ty) :
  (Z.of_nat (length ops) + 2 < 2 ^ 64)%Z →
  sl_fn <$> default [] (registry_ (obj_run ops).2 !! ty) ≡ₚ listeners_of ty (held ops).
Proof.
  intros Hlt. destruct (own_inv_run ops Hlt) as (hs & st & (Ho & Hp & [_ Hm] & Hl) & _ & <-).
  rewrite Hm, listeners_of_forget. apply fmap_Permutation, slots_of_perm. by symmetry.
Qed.
End objects.

(** ** Dispatch and concurrent resets

    [dispatch_sync] copies the slots of the type under the lock and calls them after
    releasing it; resets and subscriptions by other threads come in between. *)
Section dispatches.
Context {Ty Ev L : Type} `{Countable Ty} (type_of : Ev → Ty).
Abbreviation Bus := (EventBus Ty Ev L).
Implicit Types (b : Bus).

(** The snapshots still being called through, and the subscriptions called so far. *)
Record Dispatches := mkDisp {
  dp_bus : Bus;
  dp_flying : list (Ev * list (Slot L));
  dp_called : list Z;
}.

Definition snapshot (ev : Ev) b : list (Slot L) := default [] (registry_ b !! type_of ev).

Inductive disp_step : Dispatches → Dispatches → Prop :=
| dp_snapshot ev b fl called :
    disp_step (mkDisp b fl called) (mkDisp b (fl ++ [(ev, snapshot ev b)]) called)
| dp_call ev s ss b fl1 fl2 called :
    disp_step (mkDisp b (fl1 ++ (ev, s :: ss) :: fl2) called)
      (mkDisp b (fl1 ++ (ev, ss) :: fl2) (called ++ [sl_id s]))
| dp_change o b fl called :
    disp_step (mkDisp b fl called) (mkDisp (bus_apply b o) fl called).

(** Nothing refers to subscription [id], which was drawn before. *)
Definition silent (id : Z) (d : Dispatches) (bound : Z) : Prop :=
  (id < next_id_ (dp_bus d) ≤ bound)%Z ∧
  (∀ ty s, s ∈ default [] (registry_ (dp_bus d) !! ty) → sl_id s ≠ id) ∧
  (∀ f s, f ∈ dp_flying d → s ∈ f.2 → sl_id s ≠ id).

Lemma silent_step id d d' bound :
  disp_step d d' → silent id d bound → (0 < id)%Z → (bound + 1 < 2 ^ 64)%Z →
  silent id d' (bound + 1) ∧ ∃ new, dp_called d' = dp_called d ++ new ∧ id ∉ new.
Proof.
  intros Hs (Hid & Hb & Hf) Hpos Hlt.
  destruct Hs as [ev b fl called|ev s ss b fl1 fl2 called|o b fl called]; cbn in *.
  - split; [|exists []; rewrite app_nil_r; set_solver]. split_and!; cbn; [lia|lia|done|].
    intros f s [Hin| ->%list_elem_of_singleton]%elem_of_app Hs; [by eapply Hf|]. by eapply Hb.
  - split; [split_and!; cbn; [lia|lia|done|]|exists [sl_id s]; split; [done|]].
    + intros f s' Hin Hs'. apply elem_of_app in Hin as [Hin|[->|Hin]%elem_of_cons].
      * apply (Hf f); set_solver.
      * apply (Hf (ev, s :: ss)); cbn; set_solver.
      * apply (Hf f); set_solver.
    + rewrite list_elem_of_singleton. intros ->. by apply (Hf (ev, s :: ss) s); set_solver.
  - split; [|exists []; rewrite app_nil_r; set_solver]. destruct o as [ty l|id']; split_and!; cbn.
    + rewrite u64_small by lia. lia.
    + rewrite u64_small by lia. lia.
    + intros ty' s. destruct (decide (ty = ty')) as [->|Hne].
      * rewrite lookup_insert_eq. cbn. intros [Hin| ->%list_elem_of_singleton]%elem_of_app; [by eapply Hb|].
        cbn. lia.
      * rewrite lookup_insert_ne by done. apply Hb.
    + done.
    + lia.
    + lia.
    + intros ty' s. rewrite lookup_fmap. specialize (Hb ty' s).
      destruct (registry_ b !! ty'); cbn in *; [|set_solver].
      intros [_ Hin]%list_elem_of_filter. auto.
    + done.
Qed.

Lemma silent_run id n d d' bound :
  nsteps disp_step n d d' → silent id d bound → (0 < id)%Z →
  (bound + Z.of_nat n + 1 < 2 ^ 64)%Z →
  ∃ new, dp_called d' = dp_called d ++ new ∧ id ∉ new.
Proof.
  intros Hn. revert bound. induction Hn as [d|n d d1 d' Hs _ IH]; intros bound Hsil Hpos Hlt.
  - exists []. rewrite app_nil_r. set_solver.
  - destruct (silent_step id d d1 bound Hs Hsil Hpos) as (Hsil' & new1 & E1 & H1); [lia|].
    destruct (IH (bound + 1)%Z Hsil' Hpos) as (new2 & E2 & H2); [lia|].
    exists (new1 ++ new2). rewrite E2, E1, app_assoc. set_solver.
Qed.

(** C29: A reset silences its listener: when [unsubscribe] returns at a moment at which
    no dispatch is calling through a snapshot that holds the subscription, then in every
    later interleaving of dispatches, subscriptions and resets (fewer than 2^64 ids
    drawn) the subscription is never called again.  Draining the dispatches in flight
    is needed: [late_call] below is a call after the reset has returned. *)
Theorem reset_silences (id : Z) b fl called d n :
  (0 < id < next_id_ b)%Z → (next_id_ b + Z.of_nat n + 1 < 2 ^ 64)%Z →
  (∀ f s, f ∈ fl → s ∈ f.2 → sl_id s ≠ id) →
  nsteps disp_step n (mkDisp (unsubscribe id b) fl called) d →
  ∃ new, dp_called d = called ++ new ∧ id ∉ new.
Proof.
  intros Hid Hlt Hf Hr.
  assert (silent id (mkDisp (unsubscribe id b) fl called) (next_id_ b)) as Hs.
  { split_and!; cbn; [lia|lia| |done]. intros ty s. rewrite lookup_fmap.
    destruct (registry_ b !! ty); cbn; [|set_solver]. by intros [? _]%list_elem_of_filter. }
  apply (silent_run id n _ d (next_id_ b) Hr Hs); lia.
Qed.
End dispatches.

(** ** The observers *)

(** [a = bus_->subscribe(...)] for a member [a]: the temporary is moved into it and
    destroyed, so the member ends as the subscription made. *)
Lemma member_subscribe {Ty Ev L} `{Countable Ty} ty l (b : EventBus Ty Ev L) :
  foldl obj_apply ([], b) [ODefault; OSubscribe ty l; OAssign 0 1; OReset 1] =
  ([(subscribe ty l b).1; sub_default], (subscribe ty l b).2).
Proof. done. Qed.

(** [~MetricsCollector], [~EventLogger] and [~AdmissionGate]: [unwire]. *)
Definition metrics_destroy (subs : list ScopedSubscription) (b : AppBus) : AppBus := unwire subs b.
Definition logger_destroy (subs : list ScopedSubscription) (b : AppBus) : AppBus := unwire subs b.
Definition gate_destroy (sub : ScopedSubscription) (b : AppBus) : AppBus := unwire [sub] b.

(** The observers constructed and destroyed as [main] does, in reverse order. *)
Definition observers_lifetime (b : AppBus) : AppBus :=
  let '(ms, b) := metrics_wire b in
  let '(ls, b) := logger_wire b in
  let '(g, b) := gate_wire b in
  metrics_destroy ms (logger_destroy ls (gate_destroy g b)).

(** After the destructors no event reaches an observer any more. *)
Lemma observers_silent (ev : BusEvent) (o : ObsState) :
  app_publish_sync ev (observers_lifetime bus_new) o = o.
Proof. by destruct ev. Qed.

(** ** Instances *)

(** A subscription assigned over another, moved, assigned to itself; one dropped. *)
Definition demo_ops : list (obj_op (Ty:=nat) (L:=nat)) :=
  [OSubscribe 0 10; OSubscribe 0 11; OAssign 0 1; ODefault; OAssign 2 0; OAssign 2 2;
   OSubscribe 1 12; OMoveNew 3; OReset 3].

Example subscriptions_owned_witness :
  sl_fn <$> default [] (registry_ (obj_run (Ev:=nat) demo_ops).2 !! 0) ≡ₚ [11].
Proof.
  change [11] with (listeners_of 0 (held demo_ops)).
  apply (subscriptions_owned (Ev:=nat) demo_ops 0). vm_compute. reflexivity.
Defined.

(** One listener with id 1 on a bus that has drawn two ids. *)
Definition demo_bus : EventBus nat nat nat :=
  bus_run [Subscribe 0 10; Subscribe 0 11] bus_new.

Example reset_silences_witness :
  ∃ new, [2%Z] = [] ++ new ∧ 1%Z ∉ new.
Proof.
  apply (reset_silences (λ _ : nat, 0) 1 demo_bus [] []
           (mkDisp (unsubscribe 1 demo_bus) [(5, [])] [2%Z]) 2).
  - by vm_compute.
  - by vm_compute.
  - set_solver.
  - eapply nsteps_l; [apply (dp_snapshot _ 5)|].
    eapply nsteps_l; [|apply nsteps_O].
    apply (dp_call _ 5 (mkSlot 11 2%Z) [] (unsubscribe 1 demo_bus) [] [] []).
Defined.

(** A snapshot taken before the reset still calls the listener after it. *)
Lemma late_call :
  rtc (disp_step (λ _ : nat, 0)) (mkDisp demo_bus [] [])
    (mkDisp (unsubscribe 1 demo_bus) [(5, [mkSlot 11 2%Z])] [1%Z]).
Proof.
  eapply rtc_l; [apply (dp_snapshot _ 5)|].
  eapply rtc_l; [apply (dp_change _ (Unsubscribe 1))|].
  eapply rtc_l; [|apply rtc_refl].
  apply (dp_call _ 5 (mkSlot 10 1%Z) [mkSlot 11 2%Z] (unsubscribe 1 demo_bus) [] [] []).
Qed.
