(* ===== verification/Backpressure.v ===== *)
(** * BackpressureController (src/heartbeat/backpressure_controller.h) *)

From S2P Require Import Prelude Metrics.

Local Open Scope Z_scope.

Record BackpressureController := mkBackpressure {
  high_watermark_ : Z;
  low_watermark_ : Z;
  queue_high_watermark_ : Z;
}.

(** The member initialisers. *)
Definition backpressure_default : BackpressureController := mkBackpressure 1024 512 2048.

(** [set_high_watermark] and its siblings. *)
Definition set_high_watermark (v : Z) (c : BackpressureController) :=
  mkBackpressure v (low_watermark_ c) (queue_high_watermark_ c).
Definition set_low_watermark (v : Z) (c : BackpressureController) :=
  mkBackpressure (high_watermark_ c) v (queue_high_watermark_ c).
Definition set_queue_high_watermark (v : Z) (c : BackpressureController) :=
  mkBackpressure (high_watermark_ c) (low_watermark_ c) v.

(** [BackpressureController::Decision]. *)
Record BackpressureDecision := mkDecision { d_admit : bool; d_level : Z }.

(** [evaluate()]: the decision and the metrics with the level it records. *)
Definition evaluate (c : BackpressureController) (m : MetricsSnapshot)
    : BackpressureDecision * MetricsSnapshot :=
  let inflight := inflight_ m in
  let queued := queued_ m in
  let level := Z.max inflight queued in
  if (high_watermark_ c <=? inflight) || (queue_high_watermark_ c <=? queued) then
    (mkDecision false level, set_backpressure_level 2 m)
  else if low_watermark_ c <=? inflight then
    (mkDecision true level, set_backpressure_level 1 m)
  else
    (mkDecision true level, set_backpressure_level 0 m).

(** The decision is a function of the two gauges alone, and the only effect on
    the metrics is the recorded level. *)
Lemma evaluate_spec c m :
  let '(d, m') := evaluate c m in
  (d_admit d = true ↔ inflight_ m < high_watermark_ c ∧ queued_ m < queue_high_watermark_ c) ∧
  m' = set_backpressure_level (backpressure_ m') m ∧
  (backpressure_ m' = 2 ↔ d_admit d = false).
Proof.
  unfold evaluate.
  destruct (Z.leb_spec (high_watermark_ c) (inflight_ m)),
    (Z.leb_spec (queue_high_watermark_ c) (queued_ m)); simpl;
    try (split_and!; [split; [done|lia]|done|done]).
  destruct (Z.leb_spec (low_watermark_ c) (inflight_ m)); simpl;
    split_and!; (done || split; (done || lia)).
Qed.

(** Only the gauges [inflight_] and [queued_] decide. *)
Lemma evaluate_inflight c m : inflight_ (evaluate c m).2 = inflight_ m.
Proof. unfold evaluate. by repeat case_match. Qed.

Lemma evaluate_queued c m : queued_ (evaluate c m).2 = queued_ m.
Proof. unfold evaluate. by repeat case_match. Qed.
