(* ===== verification/Evolution.v ===== *)
(** * DataEvolutionEngine (src/heartbeat/evolution_engine.h)

    The single-layer evolution at the end of a tick: close the changed sessions
    that are errored or closed, the sessions past their lifetime and the idle
    sessions past the idle timeout, and drop the failed or cancelled requests. *)

From S2P Require Import Prelude ChangeSet SessionPool PendingStore DataBoard.

(** ** Data *)

(** [std::set<std::string>] iterates in increasing order. *)
Definition set_sorted (s : gset string) : list string := merge_sort String.le (elements s).

Record EvolveInputs := mkInputs {
  changed_sessions : gset string;
  changed_requests : gset string;
}.
#[global] Instance EvolveInputs_eta : Eta EvolveInputs := {|
  eta_expand i := mkInputs (changed_sessions i) (changed_requests i) |}.

Definition mk_close (reason sid : string) : CloseSession :=
  {| cl_session_id := sid; cl_reason := reason |}.

(** ** The code *)

(** [state == Errored || state == Closed]. *)
Definition session_dead (s : SessionRecord) : bool :=
  bool_decide (sr_state s = SS.Errored) || bool_decide (sr_state s = SS.Closed).

(** One iteration of the loop over the changed sessions. *)
Definition evolve_session (st : list CloseSession * SessionPool) (sid : string)
    : list CloseSession * SessionPool :=
  let '(out, pool) := st in
  match pool_get sid pool with
  | None => st
  | Some s =>
      if session_dead s
      then (out ++ [mk_close "evolve_session_closed" sid], mark_closed sid pool)
      else st
  end.

(** The loops over [lifetime_expired] and [idle_expired]. *)
Definition evolve_close (reason : string) (st : list CloseSession * SessionPool)
    (sid : string) : list CloseSession * SessionPool :=
  let '(out, pool) := st in
  (out ++ [mk_close reason sid], mark_closed sid pool).

(** One iteration of the loop over the terminal requests. *)
Definition evolve_request (st : list CloseSession * PendingRequestStore) (rid : string)
    : list CloseSession * PendingRequestStore :=
  let '(out, pend) := st in
  match store_get rid pend with
  | None => st
  | Some p =>
      (out ++ [mk_close "request_failed_or_cancelled" (pr_session_id p)],
       store_remove rid pend)
  end.

Section evolution.
Context {Ord : UMapOrder}.

(** [evolve(inputs)], with [now] the reading of the injected clock. *)
Definition evolve (now : TimePoint) (inputs : EvolveInputs) (b : DataBoard)
    : list CloseSession * DataBoard :=
  let pool := session_pool_ b in
  let '(out, pool) :=
    foldl evolve_session ([], pool) (set_sorted (changed_sessions inputs)) in
  let '(out, pool) :=
    foldl (evolve_close "lifetime_exceeded") (out, pool)
      (collect_lifetime_expired now pool) in
  let '(out, pool) :=
    foldl (evolve_close "idle_timeout") (out, pool) (collect_idle_expired now pool) in
  let '(out, pend) :=
    foldl evolve_request (out, pending_ b) (collect_terminal (pending_ b)) in
  (out, b <| session_pool_ := pool |> <| pending_ := pend |>).
End evolution.

(** ** Closing a list of sessions *)

Lemma elem_of_set_sorted s id : id ∈ set_sorted s ↔ id ∈ s.
Proof. unfold set_sorted. rewrite merge_sort_Permutation. apply elem_of_elements. Qed.

Lemma NoDup_set_sorted s : NoDup (set_sorted s).
Proof. unfold set_sorted. rewrite merge_sort_Permutation. apply NoDup_elements. Qed.

Definition close_ids (ids : list string) (p : SessionPool) : SessionPool :=
  foldl (λ p id, mark_closed id p) p ids.

Lemma close_ids_params ids p :
  max_size_ (close_ids ids p) = max_size_ p ∧ idle_timeout_ (close_ids ids p) = idle_timeout_ p ∧
  max_lifetime_ (close_ids ids p) = max_lifetime_ p.
Proof. revert p. induction ids as [|x ids IH]; intros p; [done|]. exact (IH (mark_closed x p)). Qed.

Lemma close_ids_wf ids p : pool_wf p → pool_wf (close_ids ids p).
Proof.
  revert p. induction ids as [|x ids IH]; intros p Hp; [done|]. simpl.
  apply IH. by apply remove_refines.
Qed.

Lemma close_ids_lookup ids p id :
  sessions_ (close_ids ids p) !! id = if decide (id ∈ ids) then None else sessions_ p !! id.
Proof.
  revert p. induction ids as [|x ids IH]; intros p.
  - done.
  - change (close_ids (x :: ids) p) with (close_ids ids (mark_closed x p)).
    rewrite IH. cbn [mark_closed remove_locked sessions_ set_member].
    destruct (decide (id ∈ ids)), (decide (id ∈ x :: ids)) as [Hin|Hin];
      try done; try (exfalso; set_solver).
    + apply elem_of_cons in Hin as [->|]; [|done]. apply lookup_delete_eq.
    + apply lookup_delete_ne. set_solver.
Qed.

Lemma evolve_close_spec reason ids out p :
  foldl (evolve_close reason) (out, p) ids = (out ++ (mk_close reason <$> ids), close_ids ids p).
Proof.
  revert out p. induction ids as [|x ids IH]; intros out p; simpl.
  - by rewrite app_nil_r.
  - rewrite IH. by rewrite <- app_assoc.
Qed.

(** The changed sessions that are dead. *)
Definition dead_in (p : SessionPool) (sid : string) : bool :=
  match pool_get sid p with Some s => session_dead s | None => false end.

Lemma evolve_session_spec ids out p :
  NoDup ids →
  let dead := filter (λ id, dead_in p id = true) ids in
  foldl evolve_session (out, p) ids =
  (out ++ (mk_close "evolve_session_closed" <$> dead), close_ids dead p).
Proof.
  intros Hn. revert out p. induction Hn as [|x ids Hx Hn IH]; intros out p; simpl.
  - by rewrite app_nil_r.
  - destruct (dead_in p x) eqn:E.
    + rewrite filter_cons_True by done. simpl.
      assert ((match pool_get x p with
               | Some s => if session_dead s then
                   (out ++ [mk_close "evolve_session_closed" x], mark_closed x p) else (out, p)
               | None => (out, p) end) =
              (out ++ [mk_close "evolve_session_closed" x], mark_closed x p)) as ->.
      { unfold dead_in in E. destruct (pool_get x p); [|done]. by rewrite E. }
      rewrite IH. rewrite <- app_assoc. simpl.
      assert (filter (λ id, dead_in (mark_closed x p) id = true) ids =
              filter (λ id, dead_in p id = true) ids) as ->; [|done].
      apply list_filter_iff'. intros y Hy. unfold dead_in, pool_get. simpl.
      rewrite lookup_delete_ne; [done|]. by intros ->.
    + rewrite filter_cons_False by congruence.
      assert ((match pool_get x p with
               | Some s => if session_dead s then
                   (out ++ [mk_close "evolve_session_closed" x], mark_closed x p) else (out, p)
               | None => (out, p) end) = (out, p)) as ->.
      { unfold dead_in in E. destruct (pool_get x p); [|done]. by rewrite E. }
      apply IH.
Qed.

Lemma evolve_request_spec ids out (pend : PendingRequestStore) :
  NoDup ids → (∀ rid, rid ∈ ids → is_Some (pend !! rid)) →
  foldl evolve_request (out, pend) ids =
  (out ++ omap (λ rid, (λ p, mk_close "request_failed_or_cancelled" (pr_session_id p))
                        <$> pend !! rid) ids,
   foldr delete pend ids).
Proof.
  intros Hn. revert out pend. induction Hn as [|x ids Hx Hn IH]; intros out pend Hin.
  - simpl. by rewrite app_nil_r.
  - rewrite omap_cons_eq. destruct (Hin x) as [p Hp]; [by left|]. simpl.
    unfold store_get. rewrite Hp. simpl. unfold store_remove.
    assert (∀ rid, rid ∈ ids → delete x pend !! rid = pend !! rid) as Hd.
    { intros rid Hrid. apply lookup_delete_ne. by intros ->. }
    rewrite IH by (intros rid Hrid; rewrite Hd by done; apply Hin; by right).
    rewrite <- app_assoc. f_equal.
    + f_equal. simpl. f_equal. clear IH. induction ids as [|y ids IHi]; [done|].
      rewrite !omap_cons_eq, Hd by left. rewrite IHi; [done|set_solver|by inversion Hn| |];
        intros; set_solver.
    + clear. induction ids as [|y ids IHi]; simpl; [done|]. rewrite IHi. apply delete_delete.
Qed.

Lemma lookup_foldr_delete (ids : list string) (pend : PendingRequestStore) rid :
  foldr delete pend ids !! rid = if decide (rid ∈ ids) then None else pend !! rid.
Proof.
  induction ids as [|x ids IH]; [done|]. simpl.
  rewrite lookup_delete, IH.
  destruct (decide (x = rid)), (decide (rid ∈ ids)), (decide (rid ∈ x :: ids)); set_solver.
Qed.

(** ** Specification *)

(** Why a session is closed: the first of the three rules that applies, read on
    the board before the evolution. *)
Definition close_reason (now : TimePoint) (inputs : EvolveInputs) (p : SessionPool)
    (sid : string) (s : SessionRecord) : option string :=
  if bool_decide (sid ∈ changed_sessions inputs) && session_dead s
  then Some "evolve_session_closed"
  else if lifetime_expired now p s then Some "lifetime_exceeded"
  else if idle_expired now p s then Some "idle_timeout"
  else None.

Section spec.
Context {Ord : UMapOrder} (now : TimePoint) (inputs : EvolveInputs) (b : DataBoard).
Context (Hwf : pool_wf (session_pool_ b)).
Let pool := session_pool_ b.

(** The ids closed by each rule, in order. *)
Definition dead_ids : list string :=
  filter (λ id, dead_in pool id = true) (set_sorted (changed_sessions inputs)).
Definition life_ids : list string := collect_lifetime_expired now (close_ids dead_ids pool).
Definition idle_ids : list string :=
  collect_idle_expired now (close_ids life_ids (close_ids dead_ids pool)).
Definition term_closes : list CloseSession :=
  omap (λ rid, (λ p, mk_close "request_failed_or_cancelled" (pr_session_id p))
                 <$> pending_ b !! rid) (collect_terminal (pending_ b)).

Lemma evolve_unfold :
  evolve now inputs b =
  (((mk_close "evolve_session_closed" <$> dead_ids) ++
    (mk_close "lifetime_exceeded" <$> life_ids) ++
    (mk_close "idle_timeout" <$> idle_ids)) ++ term_closes,
   b <| session_pool_ := close_ids idle_ids (close_ids life_ids (close_ids dead_ids pool)) |>
     <| pending_ := foldr delete (pending_ b) (collect_terminal (pending_ b)) |>).
Proof.
  unfold evolve. rewrite evolve_session_spec by apply NoDup_set_sorted. fold pool.
  fold dead_ids. cbv beta iota zeta. rewrite evolve_close_spec. fold life_ids.
  cbv beta iota zeta. rewrite evolve_close_spec. fold idle_ids. cbv beta iota zeta.
  rewrite evolve_request_spec.
  - simpl. by rewrite <- !app_assoc.
  - apply NoDup_um_collect.
  - intros rid (p & Hp & _)%elem_of_um_collect. eauto.
Qed.

Lemma elem_of_dead_ids id :
  id ∈ dead_ids ↔ ∃ s, sessions_ pool !! id = Some s ∧ id ∈ changed_sessions inputs ∧
                       session_dead s = true.
Proof.
  unfold dead_ids. rewrite list_elem_of_filter, elem_of_set_sorted.
  unfold dead_in, pool_get. destruct (sessions_ pool !! id); naive_solver.
Qed.

Lemma elem_of_life_ids id :
  id ∈ life_ids ↔ ∃ s, sessions_ pool !! id = Some s ∧ (id ∉ dead_ids) ∧
                       lifetime_expired now pool s = true.
Proof.
  unfold life_ids, collect_lifetime_expired. rewrite elem_of_um_collect.
  setoid_rewrite close_ids_lookup. unfold lifetime_expired.
  destruct (close_ids_params dead_ids pool) as (_ & _ & ->).
  case_decide; naive_solver.
Qed.

Lemma elem_of_idle_ids id :
  id ∈ idle_ids ↔ ∃ s, sessions_ pool !! id = Some s ∧ (id ∉ dead_ids) ∧ (id ∉ life_ids) ∧
                       idle_expired now pool s = true.
Proof.
  unfold idle_ids. rewrite elem_of_collect_idle by (by do 2 apply close_ids_wf).
  setoid_rewrite close_ids_lookup. rewrite ?close_ids_lookup. unfold idle_expired.
  destruct (close_ids_params life_ids (close_ids dead_ids pool)) as (_ & -> & _).
  destruct (close_ids_params dead_ids pool) as (_ & -> & _).
  repeat case_decide; naive_solver.
Qed.

(** The closed ids are those with a reason, each rule's list holding the ids
    for which that rule is the reason. *)
Lemma reason_ids id s :
  sessions_ pool !! id = Some s →
  (id ∈ dead_ids ↔ close_reason now inputs pool id s = Some "evolve_session_closed") ∧
  (id ∈ life_ids ↔ close_reason now inputs pool id s = Some "lifetime_exceeded") ∧
  (id ∈ idle_ids ↔ close_reason now inputs pool id s = Some "idle_timeout").
Proof.
  intros Hs.
  assert (id ∈ dead_ids ↔ id ∈ changed_sessions inputs ∧ session_dead s = true) as HD
    by (rewrite elem_of_dead_ids; naive_solver).
  assert (id ∈ life_ids ↔ ¬ (id ∈ dead_ids) ∧ lifetime_expired now pool s = true) as HL
    by (rewrite elem_of_life_ids; naive_solver).
  assert (id ∈ idle_ids ↔ ¬ (id ∈ dead_ids) ∧ ¬ (id ∈ life_ids) ∧
                          idle_expired now pool s = true) as HI
    by (rewrite elem_of_idle_ids; naive_solver).
  rewrite HI, HL, HD. unfold close_reason.
  destruct (bool_decide_reflect (id ∈ changed_sessions inputs)), (session_dead s),
    (lifetime_expired now pool s), (idle_expired now pool s); simpl; intuition congruence.
Qed.

Definition session_closes : list CloseSession :=
  (mk_close "evolve_session_closed" <$> dead_ids) ++
  (mk_close "lifetime_exceeded" <$> life_ids) ++
  (mk_close "idle_timeout" <$> idle_ids).

Lemma elem_of_session_closes c :
  c ∈ session_closes ↔
  ∃ s, sessions_ pool !! cl_session_id c = Some s ∧
       close_reason now inputs pool (cl_session_id c) s = Some (cl_reason c).
Proof.
  destruct c as [id r]. unfold session_closes.
  rewrite !elem_of_app, !list_elem_of_fmap. simpl. split.
  - intros [(x & [= -> ->] & Hx)|[(x & [= -> ->] & Hx)|(x & [= -> ->] & Hx)]].
    + pose proof Hx as (s & Hs & _)%elem_of_dead_ids. exists s. split; [done|].
      by apply (reason_ids x s Hs).
    + pose proof Hx as (s & Hs & _)%elem_of_life_ids. exists s. split; [done|].
      by apply (reason_ids x s Hs).
    + pose proof Hx as (s & Hs & _)%elem_of_idle_ids. exists s. split; [done|].
      by apply (reason_ids x s Hs).
  - intros (s & Hs & Hr). pose proof (reason_ids id s Hs) as (H1 & H2 & H3).
    assert (r = "evolve_session_closed" ∨ r = "lifetime_exceeded" ∨ r = "idle_timeout")
      as [->|[->| ->]] by (unfold close_reason in Hr; repeat case_match; naive_solver).
    + left. exists id. split; [done|by apply H1].
    + right; left. exists id. split; [done|by apply H2].
    + right; right. exists id. split; [done|by apply H3].
Qed.

Lemma NoDup_session_closes : NoDup (cl_session_id <$> session_closes).
Proof.
  unfold session_closes. rewrite !fmap_app, <- !list_fmap_compose.
  change (NoDup ((id <$> dead_ids) ++ (id <$> life_ids) ++ (id <$> idle_ids))).
  rewrite !list_fmap_id. apply NoDup_app. split_and!.
  - apply NoDup_filter, NoDup_set_sorted.
  - intros x Hd. rewrite elem_of_app, elem_of_life_ids, elem_of_idle_ids. naive_solver.
  - apply NoDup_app. split_and!.
    + apply NoDup_um_collect.
    + intros x Hl. rewrite elem_of_idle_ids. naive_solver.
    + apply NoDup_collect_idle. by do 2 apply close_ids_wf.
Qed.

Lemma evolve_pool_lookup id :
  sessions_ (session_pool_ (evolve now inputs b).2) !! id =
  (s ← sessions_ pool !! id;
   if close_reason now inputs pool id s is Some _ then None else Some s).
Proof.
  rewrite evolve_unfold. simpl. rewrite !close_ids_lookup.
  destruct (sessions_ pool !! id) as [s|] eqn:Hs; simpl; [|by repeat case_decide].
  pose proof (reason_ids id s Hs) as (H1 & H2 & H3).
  destruct (close_reason now inputs pool id s) as [r|] eqn:Hr.
  - assert (r = "evolve_session_closed" ∨ r = "lifetime_exceeded" ∨ r = "idle_timeout")
      by (unfold close_reason in Hr; repeat case_match; naive_solver).
    repeat case_decide; naive_solver.
  - repeat case_decide; naive_solver.
Qed.

Lemma evolve_pending_lookup rid :
  pending_ (evolve now inputs b).2 !! rid =
  (p ← pending_ b !! rid; if terminal p then None else Some p).
Proof.
  rewrite evolve_unfold. simpl. rewrite lookup_foldr_delete.
  destruct (decide (rid ∈ collect_terminal (pending_ b))) as [Hin|Hin];
    unfold collect_terminal in Hin; rewrite elem_of_um_collect in Hin.
  - destruct Hin as (p & -> & Ht). simpl. by rewrite Ht.
  - destruct (pending_ b !! rid) as [p|]; simpl; [|done].
    destruct (terminal p) eqn:E; naive_solver.
Qed.

Lemma evolve_wf : pool_wf (session_pool_ (evolve now inputs b).2).
Proof. rewrite evolve_unfold. simpl. by do 3 apply close_ids_wf. Qed.

Lemma term_closes_perm :
  term_closes ≡ₚ
  (λ ip, mk_close "request_failed_or_cancelled" (pr_session_id ip.2))
    <$> filter (λ ip, terminal ip.2 = true) (map_to_list (pending_ b)).
Proof.
  unfold term_closes, collect_terminal, um_collect.
  rewrite <- (um_items_perm (pending_ b)).
  assert (∀ ia, ia ∈ filter (λ ip, terminal ip.2 = true) (um_items (pending_ b)) →
                pending_ b !! ia.1 = Some ia.2) as H.
  { intros ia [_ Hia]%list_elem_of_filter. by apply elem_of_um_items. }
  induction (filter _ _) as [|ia l IH]; [done|].
  rewrite fmap_cons, omap_cons_eq, fmap_cons, H by left. simpl.
  rewrite IH; [done|]. intros. apply H. by right.
Qed.
End spec.

(** C13: What one evolution does.  On a board with a well-formed pool it closes
    exactly the sessions that have a reason at the injected clock's reading (a
    changed session that is errored or closed; else a lifetime of at least the
    maximum; else a [Ready] session idle for at least the timeout), reports each
    of them exactly once with its first applicable reason, removes exactly the
    failed and cancelled requests and reports one close of the bound session for
    each, and leaves every other session and request, the metrics and the
    catalogue as they were; this holds for every iteration order of the maps. *)
Theorem evolve_correct {Ord : UMapOrder} (now : TimePoint) (inputs : EvolveInputs)
    (b : DataBoard) :
  pool_wf (session_pool_ b) →
  let pool := session_pool_ b in
  let '(out, b') := evolve now inputs b in
  (∀ id, pool_get id (session_pool_ b') =
         (s ← pool_get id pool;
          if close_reason now inputs pool id s is Some _ then None else Some s)) ∧
  (∀ rid, store_get rid (pending_ b') =
          (p ← store_get rid (pending_ b); if terminal p then None else Some p)) ∧
  pool_wf (session_pool_ b') ∧ metrics_ b' = metrics_ b ∧ catalog_ b' = catalog_ b ∧
  ∃ closes failed,
    out = closes ++ failed ∧
    NoDup (cl_session_id <$> closes) ∧
    (∀ c, c ∈ closes ↔ ∃ s, pool_get (cl_session_id c) pool = Some s ∧
            close_reason now inputs pool (cl_session_id c) s = Some (cl_reason c)) ∧
    failed ≡ₚ (λ ip, mk_close "request_failed_or_cancelled" (pr_session_id ip.2))
                <$> filter (λ ip, terminal ip.2 = true) (map_to_list (pending_ b)).
Proof.
  intros Hwf. pose proof (evolve_pool_lookup now inputs b Hwf) as Hp.
  pose proof (evolve_pending_lookup now inputs b) as Hr.
  pose proof (evolve_wf now inputs b Hwf) as Hw.
  pose proof (evolve_unfold now inputs b) as Hu.
  destruct (evolve now inputs b) as [out b']. simplify_eq/=. split_and!; try done.
  exists (session_closes now inputs b), (term_closes b). split_and!.
  - done.
  - by apply NoDup_session_closes.
  - intros c. by apply elem_of_session_closes.
  - by apply term_closes_perm.
Qed.

(** A board on which nothing has a reason is left alone. *)
Lemma evolve_nothing {Ord : UMapOrder} now inputs b :
  pool_wf (session_pool_ b) →
  (∀ id s, sessions_ (session_pool_ b) !! id = Some s →
           close_reason now inputs (session_pool_ b) id s = None) →
  (∀ rid p, pending_ b !! rid = Some p → terminal p = false) →
  evolve now inputs b = ([], b).
Proof.
  intros Hwf Hs Hp.
  assert (session_closes now inputs b = []) as Hc.
  { destruct (session_closes now inputs b) as [|c l] eqn:E; [done|].
    destruct (elem_of_session_closes now inputs b Hwf c) as [Hx _].
    destruct Hx as (s & H1 & H2); [rewrite E; left|].
    rewrite Hs in H2; done. }
  assert (collect_terminal (pending_ b) = []) as Ht by (by apply um_collect_nil).
  rewrite evolve_unfold. unfold term_closes. rewrite Ht. simpl.
  unfold session_closes in Hc. apply app_nil in Hc as [H1 [H2 H3]%app_nil].
  apply fmap_nil_inv in H1, H2, H3. rewrite H1, H2, H3. by destruct b.
Qed.

(** Evolution is single-layer: what it does never enables another rule.
    Evolving again at the same clock reading, with the same changed sets or any
    smaller ones, closes nothing, removes nothing and reports nothing. *)
Theorem evolve_single_layer {Ord : UMapOrder} (now : TimePoint)
    (inputs inputs' : EvolveInputs) (b : DataBoard) :
  pool_wf (session_pool_ b) →
  changed_sessions inputs' ⊆ changed_sessions inputs →
  let b' := (evolve now inputs b).2 in
  evolve now inputs' b' = ([], b').
Proof.
  intros Hwf Hsub b'. apply evolve_nothing.
  - by apply evolve_wf.
  - intros id s. unfold b'. rewrite evolve_pool_lookup by done.
    destruct (sessions_ (session_pool_ b) !! id) as [s0|]; simpl; [|done].
    destruct (close_reason now inputs (session_pool_ b) id s0) eqn:E; [done|].
    intros [= <-]. revert E. rewrite evolve_unfold.
    unfold close_reason, lifetime_expired, idle_expired. simpl.
    destruct (close_ids_params (idle_ids now inputs b)
      (close_ids (life_ids now inputs b) (close_ids (dead_ids inputs b) (session_pool_ b))))
      as (_ & -> & ->).
    destruct (close_ids_params (life_ids now inputs b)
      (close_ids (dead_ids inputs b) (session_pool_ b))) as (_ & -> & ->).
    destruct (close_ids_params (dead_ids inputs b) (session_pool_ b)) as (_ & -> & ->).
    destruct (bool_decide_reflect (id ∈ changed_sessions inputs)),
      (bool_decide_reflect (id ∈ changed_sessions inputs')); simpl;
      try done; try set_solver.
    destruct (session_dead s0); simpl; [done|]. done.
  - intros rid p. unfold b'. rewrite evolve_pending_lookup.
    destruct (pending_ b !! rid) as [q|]; simpl; [|done].
    destruct (terminal q) eqn:E; [done|]. by intros [= <-].
Qed.

(** A board with an idle session and a cancelled request. *)
Definition evolve_demo_pool : SessionPool :=
  pool_run [OpAdd (SessionRecord_default <| sr_session_id := "s" |>); OpMarkReady "s" 0%Z]
    (pool_new 16 60 3600).
Definition evolve_demo_board : DataBoard :=
  board_new <| session_pool_ := evolve_demo_pool |>
    <| pending_ := {[ "r" := PendingRequest_default <| pr_request_id := "r" |>
                               <| pr_state := PS.Cancelled |> ]} |>.

Lemma evolve_demo_wf : pool_wf (session_pool_ evolve_demo_board).
Proof.
  apply (pool_run_refines [OpAdd (SessionRecord_default <| sr_session_id := "s" |>);
                           OpMarkReady "s" 0%Z] (pool_new 16 60 3600));
    [apply pool_new_wf|by vm_compute; split_and!].
Qed.

Lemma evolve_correct_witness :
  pool_get "s" (session_pool_ (evolve (Ord:=um_default) (seconds 61) (mkInputs ∅ ∅)
                                 evolve_demo_board).2) = None.
Proof.
  pose proof (evolve_correct (Ord:=um_default) (seconds 61) (mkInputs ∅ ∅)
                evolve_demo_board evolve_demo_wf) as H.
  destruct (evolve (seconds 61) (mkInputs ∅ ∅) evolve_demo_board) as [out b'].
  cbn [snd]. rewrite (proj1 H "s"). vm_compute. reflexivity.
Defined.

Lemma evolve_single_layer_witness :
  let b' := (evolve (Ord:=um_default) (seconds 61) (mkInputs {["s"]} ∅) evolve_demo_board).2 in
  evolve (Ord:=um_default) (seconds 61) (mkInputs ∅ ∅) b' = ([], b').
Proof.
  apply (evolve_single_layer (Ord:=um_default) (seconds 61) (mkInputs {["s"]} ∅));
    [exact evolve_demo_wf|set_solver].
Defined.
