(* ===== verification/World.v ===== *)
(** * The state the heartbeat thread works on (src/framework/clock.h,
      src/heartbeat/heartbeat.h)

    The objects the [Heartbeat] holds shared pointers to, and the two sources of
    values outside the program: readings of [std::chrono::steady_clock] and draws
    of the session-id generator.  The environment gives the n-th reading and the
    n-th draw; the world counts how many were taken. *)

From S2P Require Import Prelude Messages ChangeSet CopyChannel DataBoard Events.
From S2P Require Import EventBus LocalEngine Observability Backpressure Evolution.

(** ** Clock *)

(** [IClock] and its two implementations. *)
Inductive IClock : Type :=
| SystemClock
| VirtualClock (current_ : TimePoint).

(** [VirtualClock::advance] and [VirtualClock::set]. *)
Definition clock_advance (d : Z) (c : IClock) : IClock :=
  match c with VirtualClock t => VirtualClock (t + d)%Z | SystemClock => SystemClock end.
Definition clock_set (t : TimePoint) (c : IClock) : IClock :=
  match c with VirtualClock _ => VirtualClock t | SystemClock => SystemClock end.

(** [VirtualClock::elapsed]; the system clock has no such method. *)
Definition clock_elapsed (c : IClock) : option Z :=
  match c with VirtualClock t => Some t | SystemClock => None end.

(** ** Environment *)

(** [steady_reading n] is the n-th value [steady_clock::now()] returns in this
    execution and [rng_draw n] the n-th 64-bit draw. *)
Record Env := mkEnv {
  steady_reading : nat → TimePoint;
  rng_draw : nat → Z;
}.

(** ** World *)

(** [changed] are the two sets [tick] passes to the handlers; [obs_log_] and
    [gate_open_] belong to the listeners subscribed on [bus_]. *)
Record World := mkWorld {
  board_ : DataBoard;
  request_channel_ : CopyChannel Message;
  ws_event_channel_ : CopyChannel Message;
  changeset_ : ChangeSet;
  bus_ : AppBus;
  gate_open_ : bool;
  obs_log_ : list LogLine;
  clock_ : IClock;
  changed : EvolveInputs;
  count_ : Z;
  last_duration_us_ : Z;
  reads : nat;
  draws : nat;
}.
#[global] Instance World_eta : Eta World := {|
  eta_expand w := mkWorld (board_ w) (request_channel_ w) (ws_event_channel_ w)
    (changeset_ w) (bus_ w) (gate_open_ w) (obs_log_ w) (clock_ w) (changed w)
    (count_ w) (last_duration_us_ w) (reads w) (draws w) |}.

(** The constructor arguments of [Heartbeat] that do not change, and the
    watermarks of the backpressure controller. *)
Record HeartbeatConfig := mkHeartbeatConfig {
  local_engine_ : option ILocalTtsEngine;
  prefer_local_ : bool;
  backpressure_cfg : BackpressureController;
}.

Implicit Types w : World.

Definition no_changes : EvolveInputs := mkInputs ∅ ∅.

(** The objects as [main] builds them. *)
Definition world_new (c : IClock) : World :=
  mkWorld board_new channel_new channel_new cs_empty (wire_all bus_new) true [] c
    no_changes 0 0 0 0.

Section env.
Context (env : Env).

(** [std::chrono::steady_clock::now()]. *)
Definition steady_now w : TimePoint * World :=
  (steady_reading env (reads w), w <| reads := S (reads w) |>).

(** The reading taken by a method that calls [now()] only when [c] holds. *)
Definition steady_now_if (c : bool) w : TimePoint * World :=
  if c then steady_now w else (0%Z, w).

(** [clock_->now()]. *)
Definition clock_now w : TimePoint * World :=
  match clock_ w with
  | SystemClock => steady_now w
  | VirtualClock t => (t, w)
  end.

(** [rng()]. *)
Definition next_draw w : Z * World :=
  (rng_draw env (draws w), w <| draws := S (draws w) |>).
End env.

(** Updates of one part of the board. *)
Definition on_board (f : DataBoard → DataBoard) w : World := w <| board_ := f (board_ w) |>.
Definition on_pool f w : World :=
  on_board (λ b, b <| session_pool_ := f (session_pool_ b) |>) w.
Definition on_pending f w : World :=
  on_board (λ b, b <| pending_ := f (pending_ b) |>) w.
Definition on_metrics f w : World :=
  on_board (λ b, b <| metrics_ := f (metrics_ b) |>) w.
Definition on_changeset (f : ChangeSet → ChangeSet) w : World :=
  w <| changeset_ := f (changeset_ w) |>.

(** [changed_sessions.insert(sid)] and [changed_requests.insert(rid)]. *)
Definition note_session (sid : string) w : World :=
  w <| changed ::= λ c, c <| changed_sessions := {[sid]} ∪ changed_sessions c |> |>.
Definition note_request (rid : string) w : World :=
  w <| changed ::= λ c, c <| changed_requests := {[rid]} ∪ changed_requests c |> |>.

(** [bus_->publish_async(ev)]. *)
Definition world_publish_async (ev : BusEvent) w : World :=
  w <| bus_ := publish_async ev (bus_ w) |>.

(** [bus_->publish_sync(ev)], with the listeners' state inside the world. *)
Definition world_publish_sync (ev : BusEvent) w : World :=
  let o := app_publish_sync ev (bus_ w)
             (mkObs (metrics_ (board_ w)) (gate_open_ w) (obs_log_ w)) in
  on_metrics (λ _, obs_metrics o) w <| gate_open_ := open_ o |> <| obs_log_ := obs_log o |>.
