(* ===== verification/MessageProcessor.v ===== *)
(** * MessageProcessor (src/heartbeat/message_processor.h)

    Draining the two inbound channels, allocation of an upstream session for a
    request and registration of the request as pending. *)

From S2P Require Import Prelude Messages ChangeSet CopyChannel HexCodec Metrics.
From S2P Require Import SessionPool PendingStore DataBoard World.

Record SessionHandle := mkHandle { sh_session_id : string; sh_reused : bool }.

Implicit Types w : World.

(** [drain_batch]: the requests, then the upstream events. *)
Definition drain_batch w : list Message * World :=
  let '(out, rc) := swap_out_all [] (request_channel_ w) in
  let w := w <| request_channel_ := rc |> in
  let '(ws, wc) := swap_out_all [] (ws_event_channel_ w) in
  let w := w <| ws_event_channel_ := wc |> in
  (foldl (λ out m, out ++ [m]) out ws, w).

Definition collect_new_requests (batch : list Message) : list TtsRequestMsg :=
  omap (λ m, match m with MsgRequest r => Some r | _ => None end) batch.

Definition collect_responses (batch : list Message) : list TtsResponseMsg :=
  omap (λ m, match m with MsgResponse r => Some r | _ => None end) batch.

(** [snprintf("s-%016llx", draw)]: sixteen lower-case hexadecimal digits. *)
Fixpoint hex_digits_of (n : nat) (z : Z) : string :=
  match n with
  | O => ""
  | S n => hex_digits_of n (Z.shiftr z 4) +:+ String (hex_digit (Z.land z 15)) ""
  end.

Section processor.
Context (env : Env).

Definition generate_session_id w : string * World :=
  let '(d, w) := next_draw env w in
  ("s-" +:+ hex_digits_of 16 (u64 d), w).

(** [acquire_or_create_session]: reuse the least recently used [Ready] session,
    else create one; the empty id means the pool is full. *)
Definition acquire_or_create_session (req : TtsRequestMsg) w : SessionHandle * World :=
  match find_idle_least_recently_used (session_pool_ (board_ w)) with
  | Some idle =>
      let sid := sr_session_id idle in
      let '(t, w) := steady_now env w in
      (mkHandle sid true, on_pool (mark_active sid t) w)
  | None =>
      let '(sid, w) := generate_session_id w in
      let rec := SessionRecord_default <| sr_session_id := sid |>
                   <| sr_state := SS.Connecting |> in
      let '(ok, p) := pool_add rec (session_pool_ (board_ w)) in
      let w := on_pool (λ _, p) w in
      if negb ok then (mkHandle "" false, w) else (mkHandle sid false, w)
  end.

Definition bind_request (rid : string) (h : SessionHandle) (req : TtsRequestMsg) w : World :=
  let p := PendingRequest_default <| pr_request_id := rid |>
             <| pr_session_id := sh_session_id h |>
             <| pr_state := PS.AwaitingSession |>
             <| pr_sample_rate := sample_rate (rq_audio req) |>
             <| pr_channels := channel (rq_audio req) |>
             <| pr_format := format (rq_audio req) |> in
  let '(t, w) := steady_now env w in
  let w := on_pending (store_add p t) w in
  on_metrics (inc_inflight 1) w.
End processor.

(** [take_completed]: a copy of the request without its state and time stamps. *)
Definition take_completed (rid : string) w : list PendingRequest :=
  match store_get rid (pending_ (board_ w)) with
  | None => []
  | Some p =>
      [ PendingRequest_default <| pr_request_id := pr_request_id p |>
          <| pr_session_id := pr_session_id p |>
          <| pr_accumulated_audio := pr_accumulated_audio p |>
          <| pr_cumulative_bytes := pr_cumulative_bytes p |>
          <| pr_sample_rate := pr_sample_rate p |>
          <| pr_channels := pr_channels p |>
          <| pr_format := pr_format p |>
          <| pr_usage_characters := pr_usage_characters p |>
          <| pr_status_code := pr_status_code p |>
          <| pr_status_msg := pr_status_msg p |>
          <| pr_final_received := pr_final_received p |> ]
  end.

(** ** Lemmas *)

Lemma foldl_snoc {A} (out l : list A) : foldl (λ out m, out ++ [m]) out l = out ++ l.
Proof.
  revert out. induction l as [|x l IH]; intros out; simpl; [by rewrite app_nil_r|].
  by rewrite IH, <- app_assoc.
Qed.

Lemma drain_batch_spec w :
  drain_batch w =
  (buffer_ (request_channel_ w) ++ buffer_ (ws_event_channel_ w),
   w <| request_channel_ := mkChannel [] (closed_ (request_channel_ w)) |>
     <| ws_event_channel_ := mkChannel [] (closed_ (ws_event_channel_ w)) |>).
Proof. unfold drain_batch. rewrite !swap_out_all_spec. by rewrite foldl_snoc. Qed.

(** Session ids have 18 characters, so they are never the empty id. *)
Lemma generate_session_id_nonempty env w : (generate_session_id env w).1 ≠ "".
Proof. unfold generate_session_id. by destruct (next_draw env w). Qed.
