(* ===== verification/Heartbeat.v ===== *)
(** * Heartbeat (src/heartbeat/heartbeat.h)

    The tick of the heartbeat thread: drain the inbound channels, handle every
    message, emit the completed requests, evolve the board, and hand over the
    change set.  Handlers are functions on [World]; [bus_] is never null (the
    server and the tests always construct one). *)

From Stdlib Require Import SpecFloat.
From S2P Require Import Prelude Messages ChangeSet CopyChannel HexCodec Metrics.
From S2P Require Import SessionPool PendingStore DataBoard Events EventBus LocalEngine.
From S2P Require Import WsFrameCodec Observability Backpressure Evolution World.
From S2P Require Import MessageProcessor.

Implicit Types w : World.

(** The bytes of a [std::string] seen as [const std::uint8_t*]. *)
Definition string_bytes (s : string) : list Byte.byte := String.list_byte_of_string s.

Definition send_failed (id error : string) : BusEvent :=
  EvWsFrameSendFailed {| sf_session_id := id; sf_error := error |}.

Section heartbeat.
Context {Ord : UMapOrder} {J : NlohmannJson} (env : Env) (hb : HeartbeatConfig).

(** ** Requests *)

Definition should_use_local (req : TtsRequestMsg) : bool :=
  match local_engine_ hb with
  | None => false
  | Some e =>
      if negb (IsReady e) then false
      else match rq_backend req with
           | BK.Upstream => false
           | BK.Local => true
           | BK.Auto => prefer_local_ hb
           end
  end.

(** The job of a request: [speed > 0 ? speed : 1.0f]. *)
Definition local_job (req : TtsRequestMsg) : LocalSynthJob := {|
  lj_request_id := rq_request_id req;
  lj_text := rq_text req;
  lj_voice_id := voice_id (rq_voice req);
  lj_speed := if SFltb f32_zero (speed (rq_voice req)) then speed (rq_voice req) else f32_one;
  lj_session_dummy := 0;
|}.

(** The [use_local] branch of [handle_request]. *)
Definition handle_request_local (req : TtsRequestMsg) w : World :=
  let rid := rq_request_id req in
  let w :=
    match store_get rid (pending_ (board_ w)) with
    | None =>
        let np := PendingRequest_default <| pr_request_id := rid |>
                    <| pr_state := PS.Streaming |>
                    <| pr_sample_rate := sample_rate (rq_audio req) |>
                    <| pr_channels := channel (rq_audio req) |>
                    <| pr_format := AF.Pcm |> in
        let '(t, w) := steady_now env w in
        on_pending (store_add np t) w
    | Some _ =>
        on_pending (modify rid (λ p,
          p <| pr_sample_rate := sample_rate (rq_audio req) |>
            <| pr_channels := channel (rq_audio req) |>
            <| pr_format := AF.Pcm |>
            <| pr_state := PS.Streaming |>)) w
    end in
  let w := on_metrics (inc_inflight 1) w in
  let w := note_request rid w in
  on_changeset (add_local_job (local_job req)) w.

Definition start_frame (sid : string) (req : TtsRequestMsg) : OutWsFrame := {|
  of_session_id := sid;
  of_op := TaskStart;
  of_payload_json :=
    encode_task_start (model_to_string (rq_model req)) (rq_voice req) (rq_audio req);
|}.

Definition continue_frame (sid : string) (req : TtsRequestMsg) : OutWsFrame := {|
  of_session_id := sid;
  of_op := TaskContinue;
  of_payload_json := encode_task_continue (rq_text req);
|}.

(** The upstream branch of [handle_request]. *)
Definition handle_request_upstream (req : TtsRequestMsg) w : World :=
  let rid := rq_request_id req in
  let '(h, w) := acquire_or_create_session env req w in
  let sid := sh_session_id h in
  if String.eqb sid "" then
    world_publish_async (send_failed rid "no_session_available") w
  else
    let w := bind_request env rid h req w in
    let w := note_session sid w in
    let w := note_request rid w in
    let w := on_pool (set_current_request sid rid) w in
    let w := if negb (sh_reused h)
             then on_changeset (add_ws_frame (start_frame sid req)) w else w in
    on_changeset (add_ws_frame (continue_frame sid req)) w.

Definition handle_request (req : TtsRequestMsg) w : World :=
  let '(d, m) := evaluate (backpressure_cfg hb) (metrics_ (board_ w)) in
  let w := on_metrics (λ _, m) w in
  if negb (d_admit d) then
    world_publish_async (send_failed (rq_request_id req) "backpressure_admission_denied") w
  else if should_use_local req then handle_request_local req w
  else handle_request_upstream req w.

(** ** Local synthesis results *)

Definition local_complete_write (c : LocalSynthCompleteMsg) : WriteToClient := {|
  wc_request_id := lc_request_id c;
  wc_audio := lc_audio c;
  wc_sample_rate := lc_sample_rate c;
  wc_channels := lc_channels c;
  wc_format := lc_format c;
  wc_is_final := true;
  wc_cumulative_bytes := i64 (Z.of_nat (length (lc_audio c)));
  wc_audio_length_ms := lc_usage_ms c;
  wc_status_code := lc_status_code c;
  wc_status_msg := lc_status_msg c;
  wc_trace_id := "";
|}.

Definition handle_local_complete (c : LocalSynthCompleteMsg) w : World :=
  let w := on_changeset (add_client_write (local_complete_write c)) w in
  let w := on_metrics (add_audio_bytes (Z.of_nat (length (lc_audio c)))) w in
  let w := on_metrics (dec_inflight 1) w in
  on_pending (store_remove (lc_request_id c)) w.

Definition local_failed_write (f : LocalSynthFailedMsg) : WriteToClient := {|
  wc_request_id := lf_request_id f;
  wc_audio := [];
  wc_sample_rate := 16000;
  wc_channels := 1;
  wc_format := AF.Pcm;
  wc_is_final := true;
  wc_cumulative_bytes := 0;
  wc_audio_length_ms := 0;
  wc_status_code := lf_status_code f;
  wc_status_msg := lf_status_msg f;
  wc_trace_id := "";
|}.

Definition handle_local_failed (f : LocalSynthFailedMsg) w : World :=
  let w := on_changeset (add_client_write (local_failed_write f)) w in
  let w := on_metrics inc_failed_requests w in
  let w := on_metrics (dec_inflight 1) w in
  let w := on_pending (store_remove (lf_request_id f)) w in
  note_request (lf_request_id f) w.

(** ** Upstream events *)

(** The loop body of the [TaskFailed] case. *)
Definition fail_task (rsp : TtsResponseMsg) w (rid : string) : World :=
  let w := on_pending (set_state rid PS.Failed) w in
  let w := on_pending (modify rid (λ p, p <| pr_status_code := rs_status_code rsp |>)) w in
  let w := on_pending (modify rid (λ p, p <| pr_status_msg := rs_status_msg rsp |>)) w in
  let w := on_metrics inc_failed_requests w in
  note_request rid w.

(** The loop body of the [Disconnected] case. *)
Definition fail_disconnected w (rid : string) : World :=
  let w := on_pending (set_state rid PS.Failed) w in
  note_request rid w.

Definition handle_response (rsp : TtsResponseMsg) w : World :=
  let sid := rs_session_id rsp in
  match rs_kind rsp with
  | WE.Connected =>
      let '(t, w) :=
        steady_now_if env (bool_decide (is_Some (pool_get sid (session_pool_ (board_ w))))) w in
      let w := on_pool (mark_ready sid t) w in
      let w := note_session sid w in
      on_metrics inc_upstream_connected w
  | WE.TaskStarted => w
  | WE.AudioChunk =>
      let rid := match pool_get sid (session_pool_ (board_ w)) with
                 | Some s => sr_current_request_id s
                 | None => ""
                 end in
      if String.eqb rid "" then w
      else
        let bytes := string_bytes (hex_decode (rs_audio_hex rsp)) in
        let '(t, w) :=
          steady_now_if env (bool_decide (is_Some (store_get rid (pending_ (board_ w))))) w in
        let w := on_pending (λ st,
          (append_chunk rid bytes (rs_is_final rsp) (rs_usage_characters rsp) t st).2) w in
        note_request rid w
  | WE.TaskFinished => note_session sid w
  | WE.TaskFailed =>
      let ids := collect_by_session sid (pending_ (board_ w)) in
      let w := foldl (fail_task rsp) w ids in
      let w := on_pool (mark_errored sid (rs_status_msg rsp)) w in
      note_session sid w
  | WE.Disconnected =>
      let ids := collect_by_session sid (pending_ (board_ w)) in
      let w := foldl fail_disconnected w ids in
      let w := on_pool (mark_closed sid) w in
      note_session sid w
  end.

Definition handle_cancel (c : CancelRequestMsg) w : World :=
  let w := on_pending (set_state (cn_request_id c) PS.Cancelled) w in
  note_request (cn_request_id c) w.

(** The [std::visit] of [tick]. *)
Definition handle_message w (m : Message) : World :=
  match m with
  | MsgRequest r => handle_request r w
  | MsgResponse r => handle_response r w
  | MsgCancel c => handle_cancel c w
  | MsgLocalComplete c => handle_local_complete c w
  | MsgLocalFailed f => handle_local_failed f w
  end.

(** ** Completed requests *)

Definition completed_write (rid : string) (p : PendingRequest) : WriteToClient := {|
  wc_request_id := rid;
  wc_audio := pr_accumulated_audio p;
  wc_sample_rate := pr_sample_rate p;
  wc_channels := pr_channels p;
  wc_format := pr_format p;
  wc_is_final := pr_final_received p;
  wc_cumulative_bytes := pr_cumulative_bytes p;
  wc_audio_length_ms := pr_usage_characters p;
  wc_status_code := pr_status_code p;
  wc_status_msg := pr_status_msg p;
  wc_trace_id := "";
|}.

Definition emit_completed w (rid : string) : World :=
  match store_get rid (pending_ (board_ w)) with
  | None => w
  | Some p =>
      let w := on_changeset (add_client_write (completed_write rid p)) w in
      let w := on_metrics (add_audio_bytes (u64 (pr_cumulative_bytes p))) w in
      let w := on_metrics (dec_inflight 1) w in
      let w := on_pool (mark_draining (pr_session_id p)) w in
      let w := note_session (pr_session_id p) w in
      let w := note_request rid w in
      on_pending (store_remove rid) w
  end.

(** ** The tick *)

(** The handlers and emissions of a tick, up to the evolution. *)
Definition process_batch (batch : list Message) w : World :=
  let w := foldl handle_message w batch in
  let ready := find_ready_to_emit (pending_ (board_ w)) in
  foldl emit_completed w ready.

Definition tick w : ChangeSet * World :=
  let '(t0, w) := clock_now env w in
  let '(batch, w) := drain_batch w in
  let w := w <| changed := no_changes |> in
  let w := process_batch batch w in
  let '(now, w) := clock_now env w in
  let '(closes, b) := evolve now (changed w) (board_ w) in
  let w := w <| board_ := b |> in
  let w := on_changeset (add_closes closes) w in
  let '(cs, rest) := collect (changeset_ w) in
  let w := w <| changeset_ := rest |> in
  let '(t1, w) := clock_now env w in
  let us := u64 (Z.quot (t1 - t0) 1000) in
  let w := w <| last_duration_us_ := us |> <| count_ := u64 (count_ w + 1) |> in
  let w := on_metrics inc_heartbeat w in
  let w := on_metrics (record_heartbeat_latency_us us) w in
  let ev := EvHeartbeatTick {| ht_duration_us := us;
                               ht_batch_size := Z.of_nat (length batch);
                               ht_changeset_size := Z.of_nat (changeset_total cs) |} in
  let w := world_publish_sync ev w in
  (cs, w <| changed := no_changes |>).

(** The [stats()] accessor. *)
Definition stats w : Z * Z := (count_ w, last_duration_us_ w).
End heartbeat.
