(* ===== verification/Demo.v ===== *)
(** * Concrete inputs

    A JSON library that renders objects as text, an environment, two
    configurations and a request, on which the properties of the heartbeat are
    instantiated. *)

From Stdlib Require Import SpecFloat.
From S2P Require Import Prelude Messages ChangeSet CopyChannel Metrics SessionPool.
From S2P Require Import PendingStore DataBoard Events EventBus LocalEngine WsFrameCodec.
From S2P Require Import Observability Backpressure Evolution World MessageProcessor.
From S2P Require Import Heartbeat.

(** Objects are rendered as [key:value;] sequences; nothing parses. *)
Definition demo_json : NlohmannJson := {|
  json := string;
  json_null := "";
  json_string s := s;
  json_int _ := "i";
  json_float _ := "f";
  json_bool _ := "b";
  json_set k v j := j +:+ k +:+ ":" +:+ v +:+ ";";
  json_dump j := j;
  json_parse _ := None;
  json_member _ _ := None;
  json_is_object _ := false;
  json_as_string _ := None;
  json_as_bool _ := None;
  json_as_int _ := None;
|}.

(** Readings from [start] seconds on, one nanosecond apart; draws 255, 256, ... *)
Definition demo_env (start : Z) : Env :=
  mkEnv (λ n, (seconds start + Z.of_nat n)%Z) (λ n, (Z.of_nat n + 255)%Z).

Definition demo_engine : ILocalTtsEngine :=
  mkEngine true (λ _ _ _, mkResult [1; 2]%Z 16000 1 10 10 0 "").

Definition demo_local : HeartbeatConfig :=
  mkHeartbeatConfig (Some demo_engine) true backpressure_default.
Definition demo_upstream : HeartbeatConfig :=
  mkHeartbeatConfig None true backpressure_default.
(** A controller that admits nothing. *)
Definition demo_closed : HeartbeatConfig :=
  mkHeartbeatConfig None true (set_high_watermark 0 backpressure_default).

Definition demo_request (rid text : string) : TtsRequestMsg := {|
  rq_request_id := rid; rq_kind := RK.OpenStream; rq_text := text;
  rq_model := MD.Speech28Turbo; rq_voice := VoiceSettings_default;
  rq_audio := AudioSettings_default; rq_backend := BK.Auto; rq_deadline := 0%Z |}.

Definition demo_world : World := world_new SystemClock.
