(* ===== verification/TickAtomic.v ===== *)
(** * A tick is atomic (src/heartbeat/heartbeat.h)

    [System] takes a tick as one step.  In the program gRPC handlers go on sending
    requests while the heartbeat thread is inside [tick].  Here a tick is run in small
    steps (the clock readings, the draining of each channel, each handled message, each
    emitted request, the evolution, the collection, the bookkeeping at the end), with
    arrivals in between, and shown to be equal to a whole tick at the moment it drains
    the request channel: what arrives before belongs to this tick, what arrives later
    waits for the next, and nothing else changes. *)

From S2P Require Import Prelude Messages ChangeSet CopyChannel HexCodec Metrics.
From S2P Require Import SessionPool PendingStore DataBoard Events EventBus LocalEngine.
From S2P Require Import WsFrameCodec Observability Backpressure Evolution World.
From S2P Require Import MessageProcessor Heartbeat Demo.

Implicit Types w : World.

(** ** Functions that do not look at the request channel *)

Definition with_requests (ch : CopyChannel Message) w : World := w <| request_channel_ := ch |>.

Definition blind (f : World → World) : Prop :=
  ∀ ch w, f (with_requests ch w) = with_requests ch (f w).
Definition blind_get {A} (f : World → A * World) : Prop :=
  ∀ ch w, f (with_requests ch w) = ((f w).1, with_requests ch (f w).2).

Lemma with_requests_same w : with_requests (request_channel_ w) w = w.
Proof. by destruct w. Qed.

Lemma blind_keeps f w : blind f → request_channel_ (f w) = request_channel_ w.
Proof. intros Hf. by rewrite <- (with_requests_same w) at 1; rewrite Hf. Qed.

Lemma blind_foldl {A} (f : World → A → World) (l : list A) :
  (∀ x, blind (λ w, f w x)) → blind (λ w, foldl f w l).
Proof.
  intros Hf ch. induction l as [|x l IH]; intros w; [done|]. cbn [foldl].
  pose proof (Hf x ch w) as Hx. cbv beta in Hx. by rewrite Hx, IH.
Qed.

Lemma blind_comp f g : blind f → blind g → blind (λ w, g (f w)).
Proof. intros Hf Hg ch w. by rewrite Hf, Hg. Qed.

Section handlers.
Context {Ord : UMapOrder} {J : NlohmannJson} (env : Env) (hb : HeartbeatConfig).

Lemma blind_clock : blind_get (clock_now env).
Proof. intros ch w. unfold clock_now. change (clock_ (with_requests ch w)) with (clock_ w).
  by destruct (clock_ w). Qed.

Lemma blind_acquire req : blind_get (acquire_or_create_session env req).
Proof.
  intros ch w. unfold acquire_or_create_session, generate_session_id, next_draw, steady_now.
  change (board_ (with_requests ch w)) with (board_ w).
  destruct (find_idle_least_recently_used _); [done|]. cbn [board_ with_requests].
  match goal with |- context [pool_add ?r ?p] => destruct (pool_add r p) as [[] p'] eqn:E end.
  all: cbn in E |- *; by rewrite E.
Qed.

Lemma blind_request req : blind (handle_request env hb req).
Proof.
  intros ch w. unfold handle_request. change (board_ (with_requests ch w)) with (board_ w).
  destruct (evaluate _ _) as [d m].
  change (on_metrics (λ _, m) (with_requests ch w)) with (with_requests ch (on_metrics (λ _, m) w)).
  generalize (on_metrics (λ _, m) w). clear w. intros w.
  destruct (negb (d_admit d)); [done|]. destruct (should_use_local hb req).
  - unfold handle_request_local. change (board_ (with_requests ch w)) with (board_ w).
    by destruct (store_get _ _).
  - unfold handle_request_upstream. rewrite blind_acquire.
    destruct (acquire_or_create_session env req w) as [h w1]. cbn [fst snd].
    destruct (String.eqb (sh_session_id h) ""); [done|]. by destruct (negb (sh_reused h)).
Qed.

Lemma blind_response rsp : blind (handle_response env rsp).
Proof.
  intros ch w. unfold handle_response. destruct (rs_kind rsp).
  - unfold steady_now_if. change (board_ (with_requests ch w)) with (board_ w). by destruct (bool_decide _).
  - done.
  - change (board_ (with_requests ch w)) with (board_ w).
    destruct (String.eqb _ ""); [done|]. unfold steady_now_if. by destruct (bool_decide _).
  - done.
  - change (board_ (with_requests ch w)) with (board_ w).
    rewrite (blind_foldl (fail_task rsp)) by done. done.
  - change (board_ (with_requests ch w)) with (board_ w).
    rewrite (blind_foldl fail_disconnected) by done. done.
Qed.

Lemma blind_message m : blind (λ w, handle_message env hb w m).
Proof.
  destruct m as [r|r|c|c|f]; cbn [handle_message]; [apply blind_request|apply blind_response|done..].
Qed.

Lemma blind_emit rid : blind (λ w, emit_completed w rid).
Proof.
  intros ch w. unfold emit_completed. change (board_ (with_requests ch w)) with (board_ w).
  by destruct (store_get rid _).
Qed.
End handlers.

(** ** A tick in small steps *)

(** Where the heartbeat thread is inside [tick], with its local variables. *)
Inductive TickPc : Type :=
| KStart
| KDrain (t0 : TimePoint)
| KDrainWs (t0 : TimePoint) (out : list Message)
| KHandle (t0 : TimePoint) (size : nat) (batch : list Message)
| KEmit (t0 : TimePoint) (size : nat) (ready : list string)
| KEvolve (t0 : TimePoint) (size : nat)
| KCollect (t0 : TimePoint) (size : nat)
| KFinish (t0 : TimePoint) (size : nat) (cs : ChangeSet)
| KDone (cs : ChangeSet).

Section small_steps.
Context {Ord : UMapOrder} {J : NlohmannJson} (env : Env) (hb : HeartbeatConfig).

(** The end of a tick: time, statistics and the tick event. *)
Definition tick_finish (t0 : TimePoint) (size : nat) (cs : ChangeSet) w : World :=
  let '(t1, w) := clock_now env w in
  let us := u64 (Z.quot (t1 - t0) 1000) in
  let w := w <| last_duration_us_ := us |> <| count_ := u64 (count_ w + 1) |> in
  let w := on_metrics inc_heartbeat w in
  let w := on_metrics (record_heartbeat_latency_us us) w in
  let ev := EvHeartbeatTick {| ht_duration_us := us; ht_batch_size := Z.of_nat size;
                               ht_changeset_size := Z.of_nat (changeset_total cs) |} in
  (world_publish_sync ev w) <| changed := no_changes |>.

Definition tick_evolve w : World :=
  let '(now, w) := clock_now env w in
  let '(closes, b) := evolve now (changed w) (board_ w) in
  on_changeset (add_closes closes) (w <| board_ := b |>).

Definition tick_micro (pc : TickPc) w : TickPc * World :=
  match pc with
  | KStart => let '(t0, w) := clock_now env w in (KDrain t0, w)
  | KDrain t0 =>
      let '(out, rc) := swap_out_all [] (request_channel_ w) in
      (KDrainWs t0 out, w <| request_channel_ := rc |>)
  | KDrainWs t0 out =>
      let '(ws, wc) := swap_out_all [] (ws_event_channel_ w) in
      let batch := foldl (λ out m, out ++ [m]) out ws in
      (KHandle t0 (length batch) batch, w <| ws_event_channel_ := wc |> <| changed := no_changes |>)
  | KHandle t0 n (m :: batch) => (KHandle t0 n batch, handle_message env hb w m)
  | KHandle t0 n [] => (KEmit t0 n (find_ready_to_emit (pending_ (board_ w))), w)
  | KEmit t0 n (rid :: ready) => (KEmit t0 n ready, emit_completed w rid)
  | KEmit t0 n [] => (KEvolve t0 n, w)
  | KEvolve t0 n => (KCollect t0 n, tick_evolve w)
  | KCollect t0 n =>
      let '(cs, rest) := collect (changeset_ w) in (KFinish t0 n cs, w <| changeset_ := rest |>)
  | KFinish t0 n cs => (KDone cs, tick_finish t0 n cs w)
  | KDone cs => (KDone cs, w)
  end.

(** What is left of a tick from a point, as one function. *)
Definition from_collect (t0 : TimePoint) (n : nat) w : ChangeSet * World :=
  let '(cs, rest) := collect (changeset_ w) in (cs, tick_finish t0 n cs (w <| changeset_ := rest |>)).
Definition from_emit (t0 : TimePoint) (n : nat) (ready : list string) w : ChangeSet * World :=
  from_collect t0 n (tick_evolve (foldl emit_completed w ready)).
Definition from_handle (t0 : TimePoint) (n : nat) (batch : list Message) w : ChangeSet * World :=
  let w := foldl (handle_message env hb) w batch in
  from_emit t0 n (find_ready_to_emit (pending_ (board_ w))) w.
Definition from_drain_ws (t0 : TimePoint) (out : list Message) w : ChangeSet * World :=
  let '(ws, wc) := swap_out_all [] (ws_event_channel_ w) in
  let batch := foldl (λ out m, out ++ [m]) out ws in
  from_handle t0 (length batch) batch (w <| ws_event_channel_ := wc |> <| changed := no_changes |>).

Definition tick_from (pc : TickPc) w : ChangeSet * World :=
  match pc with
  | KStart => tick env hb w
  | KDrain t0 =>
      let '(out, rc) := swap_out_all [] (request_channel_ w) in
      from_drain_ws t0 out (w <| request_channel_ := rc |>)
  | KDrainWs t0 out => from_drain_ws t0 out w
  | KHandle t0 n batch => from_handle t0 n batch w
  | KEmit t0 n ready => from_emit t0 n ready w
  | KEvolve t0 n => from_collect t0 n (tick_evolve w)
  | KCollect t0 n => from_collect t0 n w
  | KFinish t0 n cs => (cs, tick_finish t0 n cs w)
  | KDone cs => (cs, w)
  end.

Lemma tick_from_start w :
  tick env hb w = tick_from (KDrain (clock_now env w).1) (clock_now env w).2.
Proof.
  unfold tick. destruct (clock_now env w) as [t0 w1]. cbn [fst snd tick_from].
  unfold drain_batch, from_drain_ws, from_handle, from_emit, from_collect, tick_evolve, process_batch.
  destruct (swap_out_all [] (request_channel_ w1)) as [out rc].
  destruct (swap_out_all [] (ws_event_channel_ _)) as [ws wc].
  set (batch := foldl _ out ws). set (w2 := foldl emit_completed _ _).
  destruct (clock_now env w2) as [now w3]. destruct (evolve _ _ _) as [closes b].
  set (w4 := on_changeset _ _). destruct (collect (changeset_ w4)) as [cs rest].
  unfold tick_finish. by destruct (clock_now env _) as [t1 w5].
Qed.

(** A small step does what the whole had left to do. *)
Lemma tick_micro_from pc w :
  tick_from (tick_micro pc w).1 (tick_micro pc w).2 = tick_from pc w.
Proof.
  destruct pc as [|t0|t0 out|t0 n [|m batch]|t0 n [|rid ready]|t0 n|t0 n|t0 n cs|cs]; try done.
  cbn [tick_micro]. destruct (clock_now env w) as [t0 w1] eqn:E. cbn [fst snd].
  change (tick_from KStart w) with (tick env hb w). by rewrite tick_from_start, E.
Qed.

Lemma blind_finish t0 n cs : blind (tick_finish t0 n cs).
Proof.
  intros ch w. unfold tick_finish. rewrite blind_clock. by destruct (clock_now env w) as [t1 w1].
Qed.

Lemma blind_evolve : blind tick_evolve.
Proof.
  intros ch w. unfold tick_evolve. rewrite blind_clock. destruct (clock_now env w) as [now w1].
  cbn [fst snd]. change (changed (with_requests ch w1)) with (changed w1).
  change (board_ (with_requests ch w1)) with (board_ w1). by destruct (evolve _ _ _).
Qed.

Lemma blind_collect t0 n : blind_get (from_collect t0 n).
Proof.
  intros ch w. unfold from_collect. change (changeset_ (with_requests ch w)) with (changeset_ w).
  destruct (collect (changeset_ w)) as [cs rest]. cbn [fst snd]. by rewrite <- blind_finish.
Qed.

Lemma blind_from_emit t0 n ready : blind_get (from_emit t0 n ready).
Proof.
  intros ch w. unfold from_emit. rewrite (blind_foldl emit_completed ready blind_emit ch w).
  by rewrite blind_evolve, blind_collect.
Qed.

Lemma blind_from_handle t0 n batch : blind_get (from_handle t0 n batch).
Proof.
  intros ch w. unfold from_handle.
  rewrite (blind_foldl (handle_message env hb) batch (blind_message env hb) ch w).
  apply blind_from_emit.
Qed.

(** After the request channel was drained, the rest of the tick does not look at it. *)
Definition drained (pc : TickPc) : bool :=
  match pc with KStart | KDrain _ => false | _ => true end.

Lemma blind_from pc : drained pc = true → blind_get (tick_from pc).
Proof.
  destruct pc as [|t0|t0 out|t0 n batch|t0 n ready|t0 n|t0 n|t0 n cs|cs]; try done; intros _ ch w;
    cbn [tick_from].
  - unfold from_drain_ws. change (ws_event_channel_ (with_requests ch w)) with (ws_event_channel_ w).
    destruct (swap_out_all [] (ws_event_channel_ w)) as [ws wc]. by rewrite <- blind_from_handle.
  - apply blind_from_handle.
  - apply blind_from_emit.
  - by rewrite blind_evolve, blind_collect.
  - apply blind_collect.
  - by rewrite blind_finish.
Qed.

(** ** Arrivals *)

(** A handler's [request_channel_->send(m)], which throws on a closed channel. *)
Definition arrive w (m : Message) : World :=
  match send m (request_channel_ w) with Ok ch => with_requests ch w | Throw _ => w end.
Definition arrivals (ms : list Message) w : World := foldl arrive w ms.

Lemma arrivals_snoc ms m w : arrivals (ms ++ [m]) w = arrive (arrivals ms w) m.
Proof. unfold arrivals. by rewrite foldl_app. Qed.

(** Arrivals commute with what does not look at the channel. *)
Lemma blind_arrive {A} (f : World → A * World) m w :
  blind_get f → f (arrive w m) = ((f w).1, arrive (f w).2 m).
Proof.
  intros Hf. assert (request_channel_ (f w).2 = request_channel_ w) as E.
  { rewrite <- (with_requests_same w) at 1. by rewrite Hf. }
  unfold arrive. rewrite E. destruct (send m (request_channel_ w)); [apply Hf|by destruct (f w)].
Qed.

(** The heartbeat thread inside a tick, beside the handlers; the messages that arrived. *)
Inductive tick_run : TickPc * World → list Message → TickPc * World → Prop :=
| tr_nil x : tick_run x [] x
| tr_micro x ms pc w :
    tick_run x ms (pc, w) → tick_run x ms (tick_micro pc w)
| tr_arrive x ms pc w m :
    tick_run x ms (pc, w) → tick_run x (ms ++ [m]) (pc, arrive w m).

(** What has arrived before the draining, and after it. *)
Definition run_inv w0 (ms : list Message) (pc : TickPc) w : Prop :=
  match pc with
  | KStart => w = arrivals ms w0
  | KDrain t0 => clock_now env (arrivals ms w0) = (t0, w)
  | _ => ∃ ms1 ms2, ms = ms1 ++ ms2 ∧
           tick_from pc w = ((tick env hb (arrivals ms1 w0)).1,
                             arrivals ms2 (tick env hb (arrivals ms1 w0)).2)
  end.

Lemma run_inv_micro w0 ms pc w :
  run_inv w0 ms pc w → run_inv w0 ms (tick_micro pc w).1 (tick_micro pc w).2.
Proof.
  intros Hi. pose proof (tick_micro_from pc w) as Hf.
  destruct pc as [|t0|t0 out|t0 n [|m batch]|t0 n [|rid ready]|t0 n|t0 n|t0 n cs|cs]; cbn [tick_micro] in *.
  { cbn [run_inv] in Hi. subst w. by destruct (clock_now env (arrivals ms w0)) eqn:E. }
  { destruct (swap_out_all [] (request_channel_ w)) as [out rc]. cbn [fst snd run_inv] in *.
    exists ms, []. rewrite app_nil_r. split; [done|]. rewrite Hf. cbn [arrivals foldl].
    rewrite (tick_from_start (arrivals ms w0)), Hi. cbn [fst snd]. apply surjective_pairing. }
  all: repeat match goal with |- context [collect ?c] => destruct (collect c)
                         | |- context [swap_out_all ?o ?c] => destruct (swap_out_all o c) end;
    cbn [fst snd run_inv] in *; rewrite ?Hf; done.
Qed.

Lemma run_inv_arrive w0 ms pc w m : run_inv w0 ms pc w → run_inv w0 (ms ++ [m]) pc (arrive w m).
Proof.
  intros Hi. destruct (drained pc) eqn:Ed.
  - assert (∃ ms1 ms2, ms = ms1 ++ ms2 ∧
      tick_from pc w = ((tick env hb (arrivals ms1 w0)).1,
                        arrivals ms2 (tick env hb (arrivals ms1 w0)).2)) as (ms1 & ms2 & -> & E)
      by (destruct pc; done).
    enough (∃ ms1' ms2', (ms1 ++ ms2) ++ [m] = ms1' ++ ms2' ∧
      tick_from pc (arrive w m) = ((tick env hb (arrivals ms1' w0)).1,
                        arrivals ms2' (tick env hb (arrivals ms1' w0)).2)) by (destruct pc; done).
    exists ms1, (ms2 ++ [m]). split; [by rewrite app_assoc|].
    rewrite (blind_arrive (tick_from pc)) by (by apply blind_from).
    by rewrite E, arrivals_snoc.
  - destruct pc; try discriminate Ed; cbn [run_inv] in *; rewrite arrivals_snoc; [by rewrite Hi|].
    rewrite (blind_arrive (clock_now env)) by apply blind_clock. by rewrite Hi.
Qed.

Lemma run_inv_run w0 ms x :
  tick_run (KStart, w0) ms x → run_inv w0 ms x.1 x.2.
Proof.
  intros Hr. remember (KStart, w0) as x0 eqn:E0.
  induction Hr as [x|x ms pc w _ IH|x ms pc w m _ IH]; subst.
  - done.
  - by apply run_inv_micro, IH.
  - by apply run_inv_arrive, IH.
Qed.

(** ** A tick completes *)

Definition completes (x : TickPc * World) (ms : list Message) : Prop :=
  ∃ cs w', tick_run x ms (KDone cs, w').

Lemma completes_collect x ms t0 n w : tick_run x ms (KCollect t0 n, w) → completes x ms.
Proof.
  intros Hr%tr_micro. cbn [tick_micro] in Hr. destruct (collect _) as [cs rest].
  apply tr_micro in Hr. by eexists _, _.
Qed.

Lemma completes_emit x ms t0 n ready w : tick_run x ms (KEmit t0 n ready, w) → completes x ms.
Proof.
  revert w. induction ready as [|rid ready IH]; intros w Hr%tr_micro; cbn [tick_micro] in Hr.
  - apply tr_micro in Hr. by eapply completes_collect.
  - by eapply IH.
Qed.

Lemma completes_handle x ms t0 n batch w : tick_run x ms (KHandle t0 n batch, w) → completes x ms.
Proof.
  revert w. induction batch as [|m batch IH]; intros w Hr%tr_micro; cbn [tick_micro] in Hr.
  - by eapply completes_emit.
  - by eapply IH.
Qed.

Lemma completes_drain_ws x ms t0 out w : tick_run x ms (KDrainWs t0 out, w) → completes x ms.
Proof.
  intros Hr%tr_micro. cbn [tick_micro] in Hr. destruct (swap_out_all _ _). by eapply completes_handle.
Qed.

Lemma completes_drain x ms t0 w : tick_run x ms (KDrain t0, w) → completes x ms.
Proof.
  intros Hr%tr_micro. cbn [tick_micro] in Hr. destruct (swap_out_all _ _). by eapply completes_drain_ws.
Qed.

Lemma tick_completes x ms pc w : tick_run x ms (pc, w) → completes x ms.
Proof.
  destruct pc; eauto using completes_drain, completes_drain_ws, completes_handle, completes_emit,
    completes_collect.
  - intros Hr%tr_micro. cbn [tick_micro] in Hr. destruct (clock_now env w). by eapply completes_drain.
  - intros Hr%tr_micro. by eapply completes_collect.
  - intros Hr%tr_micro. by eexists _, _.
  - intros Hr. by eexists _, _.
Qed.

(** A tick is atomic, at the moment it drains the request channel.  However the small
    steps of a tick and the sends of gRPC handlers interleave, a completed tick gives
    the change set and the state of a whole, undisturbed tick on the messages that had
    arrived before the draining, with the later ones waiting in the channel in order
    (a message sent to a closed channel is refused); and from wherever it stands the
    tick completes, without waiting for an arrival. *)
Theorem tick_atomic w0 ms pc w :
  tick_run (KStart, w0) ms (pc, w) →
  completes (KStart, w0) ms ∧
  ∀ cs, pc = KDone cs →
    ∃ ms1 ms2 w1, ms = ms1 ++ ms2 ∧ tick env hb (arrivals ms1 w0) = (cs, w1) ∧ w = arrivals ms2 w1.
Proof.
  intros Hr. split; [by eapply tick_completes|]. intros cs ->.
  destruct (run_inv_run w0 ms _ Hr) as (ms1 & ms2 & -> & E). cbn [fst snd tick_from] in E.
  exists ms1, ms2, (tick env hb (arrivals ms1 w0)).2. injection E as -> ->.
  split; [done|]. by destruct (tick env hb (arrivals ms1 w0)).
Qed.
End small_steps.

(** ** Instance *)

(** One request arrives before the draining, one after it. *)
Definition early : Message := MsgRequest (demo_request "a" "first").
Definition late : Message := MsgRequest (demo_request "b" "second").
Abbreviation micro := (tick_micro (Ord:=um_default) (J:=demo_json) (demo_env 10) demo_local).

Definition micros (n : nat) (x : TickPc * World) : TickPc * World :=
  foldl (λ x _, micro x.1 x.2) x (replicate n tt).

Abbreviation ticking :=
  (tick_run (Ord:=um_default) (J:=demo_json) (demo_env 10) demo_local (KStart, demo_world)).

Lemma micros_run n ms x : ticking ms x → ticking ms (micros n x).
Proof.
  unfold micros. revert x. induction n as [|n IH]; intros [pc w] Hr; [done|]. cbn [replicate foldl].
  apply IH. by apply tr_micro.
Qed.

Definition demo_drained : TickPc * World :=
  let '(pc, w) := micros 1 (KStart, demo_world) in micro pc (arrive w early).
Definition demo_ticked : TickPc * World := micros 7 (demo_drained.1, arrive demo_drained.2 late).

Lemma demo_ticked_run : ticking [early; late] demo_ticked.
Proof.
  apply micros_run. apply (tr_arrive _ _ _ [early] demo_drained.1 demo_drained.2 late).
  rewrite <- surjective_pairing. unfold demo_drained.
  pose proof (micros_run 1 [] (KStart, demo_world) (tr_nil _ _ _)) as H.
  destruct (micros 1 (KStart, demo_world)) as [pc w]. apply tr_micro. by apply (tr_arrive _ _ _ []).
Qed.

Definition demo_cs : ChangeSet := match demo_ticked.1 with KDone cs => cs | _ => cs_empty end.

Example tick_atomic_witness :
  length (local_jobs demo_cs) = 1 ∧
  ∃ ms1 ms2 w1, [early; late] = ms1 ++ ms2 ∧
    tick (Ord:=um_default) (J:=demo_json) (demo_env 10) demo_local (arrivals ms1 demo_world) =
      (demo_cs, w1) ∧
    demo_ticked.2 = arrivals ms2 w1.
Proof.
  split; [vm_compute; reflexivity|].
  apply (tick_atomic (Ord:=um_default) (J:=demo_json) (demo_env 10) demo_local demo_world
    [early; late] demo_ticked.1 demo_ticked.2).
  - rewrite <- surjective_pairing. exact demo_ticked_run.
  - vm_compute. reflexivity.
Defined.
