(* ===== verification/TickChange.v ===== *)
(** * A tick commutes with what listeners do (src/heartbeat/heartbeat.h,
      src/observability)

    While the heartbeat thread is inside [tick], workers of the event bus pop events and
    call listeners, which count in the metrics the tick counts in and write to the log
    its synchronous listeners write to.  Here each part of a tick is shown to commute
    with such a change, exactly up to the tick event, and up to the order of log lines
    from there on. *)

From S2P Require Import Prelude Messages ChangeSet CopyChannel HexCodec Metrics.
From S2P Require Import SessionPool PendingStore DataBoard Events EventBus LocalEngine.
From S2P Require Import WsFrameCodec Observability Backpressure Evolution World.
From S2P Require Import MessageProcessor Heartbeat Demo TickAtomic.

Implicit Types w : World.

Definition inbox w : list BusEvent := inbox_ (bus_ w).

(** ** Functions that commute with a change made by another thread *)

Section past.
Context (φ : World → World) (ok : World → Prop).

Definition past (f : World → World) : Prop := ∀ w, ok w → f (φ w) = φ (f w) ∧ ok (f w).
Definition past_get {A} (f : World → A * World) : Prop :=
  ∀ w, ok w → f (φ w) = ((f w).1, φ (f w).2) ∧ ok (f w).2.

Lemma past_foldl {A} (f : World → A → World) (l : list A) :
  (∀ x, past (λ w, f w x)) → past (λ w, foldl f w l).
Proof.
  intros Hf. induction l as [|x l IH]; intros w Hw; [done|]. cbn [foldl].
  destruct (Hf x w Hw) as [E Hx]. cbv beta in E. rewrite E. by apply IH.
Qed.
End past.

(** ** What the other thread changes *)

(** A counter of the metrics, and lines at the end of the log. *)
Definition counter (g : MetricsSnapshot → MetricsSnapshot) : Prop :=
  g = id ∨ g = inc_upstream_connected ∨ g = inc_upstream_disconnected ∨ g = inc_failed_requests.
Definition bump (g : MetricsSnapshot → MetricsSnapshot) (lines : list LogLine) w : World :=
  on_metrics g w <| obs_log_ := obs_log_ w ++ lines |>.

(** The inbox without its first event. *)
Definition pop w : World :=
  let b := bus_ w in
  w <| bus_ := mkBus (registry_ b) (next_id_ b) (running_ b) (workers_ b) (tail (inbox_ b))
                 (inbox_stop_ b) |>.

(** Events of [publish_async] are not tick events. *)
Definition quiet (e : BusEvent) : Prop := event_type e ≠ THeartbeatTick.

(** The three changes: a call of a listener, a pop, and none, with what holds before and
    after: nothing, the registry and the first event of the inbox, quiet events. *)
Inductive change : (World → World) → (World → Prop) → Prop :=
| ch_bump g lines : counter g → change (bump g lines) (λ _, True)
| ch_pop e r : change pop (λ w, registry_ (bus_ w) = r ∧ head (inbox w) = Some e)
| ch_none : change id (λ w, Forall quiet (inbox w)).

(** A change and straight-line code: look at every member. *)
Ltac members w :=
  let b := fresh "b" in let bus := fresh "bus" in let m := fresh "m" in
  destruct w as [b ? ? ? bus ? ? ? ? ? ? ? ?]; destruct b as [? ? m ?]; destruct m;
  destruct bus as [? ? ? ? ? ?].
Ltac settle Hc w := destruct Hc as [g lines [->|[->|[->| ->]]]|e r|]; members w; done.
Ltac by_members :=
  let Hc := fresh "Hc" in let w := fresh "w" in let Hw := fresh "Hw" in intros Hc w Hw; settle Hc w.

Section handlers.
Context {Ord : UMapOrder} {J : NlohmannJson} (env : Env) (hb : HeartbeatConfig).
Context (φ : World → World) (ok : World → Prop).

Lemma change_async e : quiet e → change φ ok → past φ ok (world_publish_async e).
Proof.
  intros Hq [g lines Hg|e' r|]; intros w Hw.
  - split; [|done]. by destruct w.
  - destruct Hw as [Hr Hh]. destruct w as [? ? ? ? bus ? ? ? ? ? ? ? ?]. destruct bus as [? ? ? ? inb ?].
    unfold inbox in *. cbn in *. by destruct inb as [|x inb].
  - split; [done|]. unfold inbox. cbn. by apply Forall_app_2; [|constructor].
Qed.

Lemma change_local_complete c : change φ ok → past φ ok (handle_local_complete c).
Proof. by_members. Qed.

Lemma change_local_failed f : change φ ok → past φ ok (handle_local_failed f).
Proof. by_members. Qed.

Lemma change_cancel c : change φ ok → past φ ok (handle_cancel c).
Proof. by_members. Qed.
(** What a handler reads of the board but for the metrics is the same before and after. *)
Lemma change_reads w :
  change φ ok → session_pool_ (board_ (φ w)) = session_pool_ (board_ w) ∧
                pending_ (board_ (φ w)) = pending_ (board_ w) ∧ changed (φ w) = changed w ∧
                clock_ (φ w) = clock_ w ∧ changeset_ (φ w) = changeset_ w ∧
                ws_event_channel_ (φ w) = ws_event_channel_ w ∧
                request_channel_ (φ w) = request_channel_ w ∧ reads (φ w) = reads w ∧ draws (φ w) = draws w.
Proof. intros [g lines Hg|e r|]; done. Qed.

Lemma change_clock : change φ ok → past_get φ ok (clock_now env).
Proof.
  intros Hc w Hw. unfold clock_now. destruct (change_reads w Hc) as (_ & _ & _ & -> & _ & _ & _ & Er & _).
  destruct (clock_ w); [|done]. revert Er. unfold steady_now.
  intros ->. settle Hc w.
Qed.

(** Code that reads the board and then writes members other than the log. *)
Lemma change_request_local req : change φ ok → past φ ok (handle_request_local env req).
Proof.
  intros Hc w Hw. unfold handle_request_local. destruct (change_reads w Hc) as (_ & -> & _).
  destruct (store_get (rq_request_id req) (pending_ (board_ w))); settle Hc w.
Qed.
Lemma change_acquire req : change φ ok → past_get φ ok (acquire_or_create_session env req).
Proof.
  intros Hc w Hw. unfold acquire_or_create_session, generate_session_id, next_draw, steady_now.
  destruct (change_reads w Hc) as (Ep & _ & _ & _ & _ & _ & _ & -> & ->). rewrite Ep.
  destruct (find_idle_least_recently_used _); [settle Hc w|].
  set (sid := "s-" +:+ _). set (new := _ <| sr_state := SS.Connecting |>). clearbody new sid.
  cbv zeta. change (board_ ((φ w) <| draws := _ |>)) with (board_ (φ w)). rewrite Ep.
  change (board_ (w <| draws := _ |>)) with (board_ w). clear Ep.
  destruct (pool_add new (session_pool_ (board_ w))) as [[] p]; settle Hc w.
Qed.

Lemma past_comp f g : past φ ok f → past φ ok g → past φ ok (λ w, g (f w)).
Proof. intros Hf Hg w Hw. destruct (Hf w Hw) as [-> Hw']. by apply Hg. Qed.

Lemma change_bound req h : change φ ok → past φ ok (λ w,
  let w := note_request (rq_request_id req) (note_session (sh_session_id h)
             (bind_request env (rq_request_id req) h req w)) in
  let w := on_pool (set_current_request (sh_session_id h) (rq_request_id req)) w in
  let w := if negb (sh_reused h)
           then on_changeset (add_ws_frame (start_frame (sh_session_id h) req)) w else w in
  on_changeset (add_ws_frame (continue_frame (sh_session_id h) req)) w).
Proof. intros Hc w Hw. destruct (negb (sh_reused h)); settle Hc w. Qed.

Lemma change_request_upstream req : change φ ok → past φ ok (handle_request_upstream env req).
Proof.
  intros Hc w Hw. unfold handle_request_upstream. destruct (change_acquire req Hc w Hw) as [-> Hw'].
  destruct (acquire_or_create_session env req w) as [h w1]. cbn [fst snd] in *.
  destruct (String.eqb (sh_session_id h) ""); [by apply change_async|].
  exact (change_bound req h Hc w1 Hw').
Qed.

Lemma change_request req : change φ ok → past φ ok (handle_request env hb req).
Proof.
  intros Hc w Hw. unfold handle_request.
  assert (evaluate (backpressure_cfg hb) (metrics_ (board_ (φ w))) =
          ((evaluate (backpressure_cfg hb) (metrics_ (board_ w))).1,
           metrics_ (board_ (φ (on_metrics (λ _, (evaluate (backpressure_cfg hb) (metrics_ (board_ w))).2) w)))))
    as E.
  { unfold evaluate. clear Hw.
    destruct Hc as [g lines [->|[->|[->| ->]]]|e r|]; cbn [board_ metrics_];
      destruct (orb _ _); try done; destruct (Z.leb (low_watermark_ _) _); done. }
  rewrite E. clear E. destruct (evaluate _ (metrics_ (board_ w))) as [d m]. cbn [fst snd].
  assert (past φ ok (λ w, if negb (d_admit d) then
      world_publish_async (send_failed (rq_request_id req) "backpressure_admission_denied") w
    else if should_use_local hb req then handle_request_local env req w
    else handle_request_upstream env req w)) as Hrest.
  { destruct (negb (d_admit d)); [by apply change_async|].
    destruct (should_use_local hb req); [by apply change_request_local|by apply change_request_upstream]. }
  assert (on_metrics (λ _, metrics_ (board_ (φ (on_metrics (λ _, m) w)))) (φ w) = φ (on_metrics (λ _, m) w)
          ∧ ok (on_metrics (λ _, m) w)) as [-> Hw'] by (clear Hrest; settle Hc w).
  exact (Hrest _ Hw').
Qed.

Lemma change_fail_task rsp rid : change φ ok → past φ ok (λ w, fail_task rsp w rid).
Proof. by_members. Qed.
Lemma change_fail_disconnected rid : change φ ok → past φ ok (λ w, fail_disconnected w rid).
Proof. by_members. Qed.
Lemma change_errored sid msg : change φ ok → past φ ok (λ w, note_session sid (on_pool (mark_errored sid msg) w)).
Proof. by_members. Qed.
Lemma change_closed sid : change φ ok → past φ ok (λ w, note_session sid (on_pool (mark_closed sid) w)).
Proof. by_members. Qed.

Lemma change_read_if c : change φ ok → past_get φ ok (steady_now_if env c).
Proof.
  intros Hc w Hw. destruct (change_reads w Hc) as (_ & _ & _ & _ & _ & _ & _ & Er & _).
  destruct c; [|done]. cbn [steady_now_if]. unfold steady_now. rewrite Er. settle Hc w.
Qed.

Lemma change_connected sid t : change φ ok → past φ ok (λ w,
  on_metrics inc_upstream_connected (note_session sid (on_pool (mark_ready sid t) w))).
Proof. by_members. Qed.

Lemma change_chunk rid bytes final usage t : change φ ok → past φ ok (λ w,
  note_request rid (on_pending (λ st, (append_chunk rid bytes final usage t st).2) w)).
Proof. by_members. Qed.

Lemma change_response rsp : change φ ok → past φ ok (handle_response env rsp).
Proof.
  intros Hc w Hw. unfold handle_response. cbv zeta.
  destruct (change_reads w Hc) as (Ep & Eq & _). rewrite ?Ep, ?Eq. clear Ep Eq.
  destruct (rs_kind rsp).
  - destruct (change_read_if (bool_decide (is_Some (pool_get (rs_session_id rsp) (session_pool_ (board_ w)))))
      Hc w Hw) as [-> Hw']. destruct (steady_now_if env _ w) as [t w1]. by apply change_connected.
  - done.
  - destruct (String.eqb _ ""); [done|]. set (rid := match pool_get _ _ with Some _ => _ | None => _ end).
    destruct (change_read_if (bool_decide (is_Some (store_get rid (pending_ (board_ w))))) Hc w Hw) as [-> Hw'].
    destruct (steady_now_if env _ w) as [t w1]. by apply change_chunk.
  - settle Hc w.
  - destruct (past_foldl φ ok (fail_task rsp) (collect_by_session (rs_session_id rsp) (pending_ (board_ w)))
      (λ rid, change_fail_task rsp rid Hc) w Hw) as [E Hw']. cbv beta in E. rewrite E. by apply change_errored.
  - destruct (past_foldl φ ok fail_disconnected (collect_by_session (rs_session_id rsp) (pending_ (board_ w)))
      (λ rid, change_fail_disconnected rid Hc) w Hw) as [E Hw']. cbv beta in E. rewrite E. by apply change_closed.
Qed.

Lemma change_message m : change φ ok → past φ ok (λ w, handle_message env hb w m).
Proof.
  intros Hc. destruct m; cbn [handle_message].
  - by apply change_request.
  - by apply change_response.
  - by apply change_cancel.
  - by apply change_local_complete.
  - by apply change_local_failed.
Qed.

Lemma change_emit rid : change φ ok → past φ ok (λ w, emit_completed w rid).
Proof.
  intros Hc w Hw. unfold emit_completed. destruct (change_reads w Hc) as (_ & -> & _).
  destruct (store_get rid _); [settle Hc w|done].
Qed.

Lemma change_evolve : change φ ok → past φ ok (tick_evolve env).
Proof.
  intros Hc w Hw. unfold tick_evolve. destruct (change_clock Hc w Hw) as [-> Hw'].
  destruct (clock_now env w) as [now w1]. cbn [fst snd] in *. clear w Hw.
  destruct (change_reads w1 Hc) as (Ep & Eq & -> & _). unfold evolve. rewrite Ep, Eq. clear Ep Eq.
  destruct (foldl evolve_session _ _) as [out1 p1]. destruct (foldl _ (out1, p1) _) as [out2 p2].
  destruct (foldl _ (out2, p2) _) as [out3 p3]. destruct (foldl _ (out3, _) _) as [out4 p4].
  settle Hc w1.
Qed.
End handlers.

(** ** Worlds that differ in the order of log lines *)

Definition same w1 w2 : Prop :=
  w1 <| obs_log_ := [] |> = w2 <| obs_log_ := [] |> ∧ obs_log_ w1 ≡ₚ obs_log_ w2.

#[global] Instance same_equivalence : Equivalence same.
Proof.
  split.
  - done.
  - intros w1 w2 [E P]. done.
  - intros w1 w2 w3 [E P] [E' P']. split; [by rewrite E|by rewrite P].
Qed.

#[global] Instance same_arrive : Proper (same ==> eq ==> same) arrive.
Proof.
  intros w1 w2 [E P] m _ <-. unfold arrive. destruct w1, w2. cbn in *. injection E as; subst.
  by destruct (send m _).
Qed.

(** ** The tick event and its synchronous listeners *)

Definition obs_past (g : MetricsSnapshot → MetricsSnapshot) (lines : list LogLine) (o1 o2 : ObsState) : Prop :=
  obs_metrics o1 = g (obs_metrics o2) ∧ open_ o1 = open_ o2 ∧ obs_log o1 ≡ₚ obs_log o2 ++ lines.

Lemma obs_past_call g lines l t o1 o2 :
  counter g → obs_past g lines o1 o2 →
  obs_past g lines (listener_call l (EvHeartbeatTick t) o1) (listener_call l (EvHeartbeatTick t) o2).
Proof.
  intros Hg (Em & Eo & P). destruct l; cbn [listener_call]; try done. unfold gate_on_tick, log_line.
  destruct (512 <? _)%Z; [|by destruct (_ <? 64)%Z].
  split_and!; [|done|].
  - cbn. rewrite Em. by destruct Hg as [->|[->|[->| ->]]].
  - cbn. rewrite P, <- !(assoc_L app). f_equiv. apply Permutation_app_comm.
Qed.

Lemma obs_past_publish g lines t b o1 o2 :
  counter g → obs_past g lines o1 o2 →
  obs_past g lines (app_publish_sync (EvHeartbeatTick t) b o1) (app_publish_sync (EvHeartbeatTick t) b o2).
Proof.
  intros Hg Ho. unfold app_publish_sync, publish_sync, dispatch_sync.
  destruct (registry_ b !! _) as [slots|]; [|done].
  revert o1 o2 Ho. induction slots as [|sl slots IH]; intros o1 o2 Ho; [done|].
  cbn [foldl]. apply IH. by apply obs_past_call.
Qed.

Section finish.
Context {Ord : UMapOrder} {J : NlohmannJson} (env : Env) (hb : HeartbeatConfig).
Context (φ : World → World) (ok : World → Prop).

(** Commuting with a change up to the order of log lines. *)
Definition passes {A} (f : World → A * World) : Prop :=
  ∀ w, ok w → (f (φ w)).1 = (f w).1 ∧ same (f (φ w)).2 (φ (f w).2) ∧ ok (f w).2.

Lemma past_passes {A} f (g : World → A * World) : past φ ok f → passes g → passes (λ w, g (f w)).
Proof. intros Hf Hg w Hw. destruct (Hf w Hw) as [-> Hw']. by apply Hg. Qed.

Lemma change_publish_sync t w :
  change φ ok → ok w →
  same (world_publish_sync (EvHeartbeatTick t) (φ w)) (φ (world_publish_sync (EvHeartbeatTick t) w)) ∧
  ok (world_publish_sync (EvHeartbeatTick t) w).
Proof.
  intros [g lines Hg|e r|] Hw; try (split; [|done]; by destruct w).
  split; [|done].
  pose proof (obs_past_publish g lines t (bus_ w)
    (mkObs (g (metrics_ (board_ w))) (gate_open_ w) (obs_log_ w ++ lines))
    (mkObs (metrics_ (board_ w)) (gate_open_ w) (obs_log_ w)) Hg) as (Em & Eo & P); [done|].
  unfold world_publish_sync, bump. cbn [bus_ board_ metrics_ gate_open_ obs_log_ on_metrics on_board].
  split; [|done]. cbn. by rewrite Em, Eo.
Qed.

Lemma change_book us : change φ ok → past φ ok (λ w,
  on_metrics (record_heartbeat_latency_us us) (on_metrics inc_heartbeat
    (w <| last_duration_us_ := us |> <| count_ := u64 (count_ w + 1) |>))).
Proof. by_members. Qed.

Lemma change_forget : change φ ok → past φ ok (λ w, w <| changed := no_changes |>).
Proof. by_members. Qed.

#[local] Instance same_forget : Proper (same ==> same) (λ w, w <| changed := no_changes |>).
Proof. intros w1 w2 [E P]. destruct w1, w2. cbn in *. injection E as; subst. done. Qed.

Lemma change_finish t0 n cs : change φ ok → passes (λ w, (cs, tick_finish env t0 n cs w)).
Proof.
  intros Hc w Hw. split; [done|]. cbn [snd]. unfold tick_finish.
  destruct (change_clock env φ ok Hc w Hw) as [-> Hw']. destruct (clock_now env w) as [t1 w1].
  cbn [fst snd] in *. set (us := u64 _). cbv zeta.
  destruct (change_book us Hc w1 Hw') as [E Hw2]. cbv beta zeta in E, Hw2. rewrite E. clear E.
  match type of Hw2 with ok ?w2 => generalize dependent w2 end. intros w2 Hw2.
  match goal with |- context [world_publish_sync (EvHeartbeatTick ?ht) (φ w2)] =>
    destruct (change_publish_sync ht w2 Hc Hw2) as [Hs Hw3]; set (t := ht) in * end.
  destruct (change_forget Hc _ Hw3) as [E Hw4]. split; [|exact Hw4]. rewrite <- E. by apply same_forget.
Qed.

Lemma change_changeset cs : change φ ok → past φ ok (λ w, w <| changeset_ := cs |>).
Proof. by_members. Qed.
Lemma change_drained rc : change φ ok → past φ ok (λ w, w <| request_channel_ := rc |>).
Proof. by_members. Qed.
Lemma change_drained_ws wc : change φ ok → past φ ok (λ w,
  w <| ws_event_channel_ := wc |> <| changed := no_changes |>).
Proof. by_members. Qed.

Lemma change_from_collect t0 n : change φ ok → passes (from_collect env t0 n).
Proof.
  intros Hc w Hw. unfold from_collect. destruct (change_reads φ ok w Hc) as (_ & _ & _ & _ & -> & _).
  destruct (collect (changeset_ w)) as [cs rest].
  exact (past_passes _ _ (change_changeset rest Hc) (change_finish t0 n cs Hc) w Hw).
Qed.

Lemma change_from_emit t0 n ready : change φ ok → passes (from_emit env t0 n ready).
Proof.
  intros Hc. apply (past_passes (λ w, foldl emit_completed w ready)
    (λ w, from_collect env t0 n (tick_evolve env w))).
  - apply past_foldl. intros rid. by apply change_emit.
  - by apply past_passes; [apply change_evolve|apply change_from_collect].
Qed.

Lemma change_from_handle t0 n batch : change φ ok → passes (from_handle env hb t0 n batch).
Proof.
  intros Hc. apply (past_passes (λ w, foldl (handle_message env hb) w batch)
    (λ w, from_emit env t0 n (find_ready_to_emit (pending_ (board_ w))) w)).
  - apply past_foldl. intros m. by apply change_message.
  - intros w Hw. destruct (change_reads φ ok w Hc) as (_ & -> & _). by apply change_from_emit.
Qed.

Lemma change_from_drain_ws t0 out : change φ ok → passes (from_drain_ws env hb t0 out).
Proof.
  intros Hc w Hw. unfold from_drain_ws. destruct (change_reads φ ok w Hc) as (_ & _ & _ & _ & _ & -> & _).
  destruct (swap_out_all [] (ws_event_channel_ w)) as [ws wc].
  exact (past_passes _ _ (change_drained_ws wc Hc) (change_from_handle t0 _ _ Hc) w Hw).
Qed.

(** What is left of a tick commutes with a change made in the meantime. *)
Lemma change_from pc : change φ ok → passes (tick_from env hb pc).
Proof.
  intros Hc. assert (∀ t0, passes (tick_from env hb (KDrain t0))) as Hd.
  { intros t0 w Hw. cbn [tick_from]. destruct (change_reads φ ok w Hc) as (_ & _ & _ & _ & _ & _ & -> & _).
    destruct (swap_out_all [] (request_channel_ w)) as [out rc].
    exact (past_passes _ _ (change_drained rc Hc) (change_from_drain_ws t0 out Hc) w Hw). }
  destruct pc as [|t0|t0 out|t0 n batch|t0 n ready|t0 n|t0 n|t0 n cs|cs].
  - intros w Hw. change (tick_from env hb KStart) with (tick env hb). rewrite !tick_from_start.
    destruct (change_clock env φ ok Hc w Hw) as [-> Hw']. by apply Hd.
  - apply Hd.
  - by apply change_from_drain_ws.
  - by apply change_from_handle.
  - by apply change_from_emit.
  - exact (past_passes _ _ (change_evolve env φ ok Hc) (change_from_collect t0 n Hc)).
  - by apply change_from_collect.
  - by apply change_finish.
  - by intros w Hw.
Qed.
End finish.
