(* ===== verification/TickWorkers.v ===== *)
(** * A tick beside the workers of the bus (src/heartbeat/heartbeat.h,
      src/framework/event_bus.cpp)

    The steps of a tick (TickAtomic.v), the sends of handlers and the steps of bus
    workers interleave; a worker's pop and each of its calls are steps of their own.  Up
    to the order of log lines the outcome is that of an undisturbed tick followed by
    the workers' steps, and these amount to whole deliveries. *)

From S2P Require Import Prelude Messages ChangeSet CopyChannel HexCodec Metrics.
From S2P Require Import SessionPool PendingStore DataBoard Events EventBus LocalEngine.
From S2P Require Import WsFrameCodec Observability Backpressure Evolution World.
From S2P Require Import MessageProcessor Heartbeat Demo TickAtomic.
From S2P Require Import TickChange.

Implicit Types w : World.

(** ** The workers of the bus *)

(** What a worker has still to call for the event it popped. *)
Abbreviation Calls := (list (Listener * BusEvent)).

(** One listener called by a worker. *)
Definition world_call (l : Listener) (ev : BusEvent) w : World :=
  let o := listener_call l ev (mkObs (metrics_ (board_ w)) (gate_open_ w) (obs_log_ w)) in
  (on_metrics (λ _, obs_metrics o) w) <| gate_open_ := open_ o |> <| obs_log_ := obs_log o |>.

(** The listeners of the copy of the bucket; nothing subscribes or resets while the server
    runs, so the copy can be taken with the pop. *)
Definition calls_of (b : AppBus) (ev : BusEvent) : Calls :=
  (λ sl, (sl_fn sl, ev)) <$> default [] (registry_ b !! event_type ev).

(** The next step of worker [i]: a call, or, when it has none left, a pop; nothing happens
    to a worker that finds the inbox empty. *)
Definition worker_step (i : nat) (x : World * list Calls) : option (World * list Calls) :=
  let '(w, ws) := x in
  match ws !! i with
  | None => None
  | Some ((l, ev) :: rest) => Some (world_call l ev w, <[i := rest]> ws)
  | Some [] =>
      match inbox_try_pop (bus_ w) with
      | None => None
      | Some (ev, b) => Some (w <| bus_ := b |>, <[i := calls_of b ev]> ws)
      end
  end.

Definition worker_run (acts : list nat) (x : World * list Calls) : option (World * list Calls) :=
  foldl (λ o i, o ≫= worker_step i) (Some x) acts.

Lemma worker_run_snoc acts i x : worker_run (acts ++ [i]) x = worker_run acts x ≫= worker_step i.
Proof. unfold worker_run. by rewrite foldl_app. Qed.

(** Nothing the workers have or will pop is a tick event. *)
Definition all_quiet w (ws : list Calls) : Prop :=
  Forall quiet (inbox w) ∧ Forall (Forall (quiet ∘ snd)) ws.

Lemma bump_id w : bump id [] w = w.
Proof. destruct w as [[] ? ? ? ? ? ? ? ? ? ? ? ?]. unfold bump. cbn. by rewrite app_nil_r. Qed.

Ltac counts g :=
  exists g, []; split; [by auto|]; intros w; unfold bump; rewrite app_nil_r; reflexivity.

Lemma call_bump l ev :
  quiet ev → ∃ g lines, counter g ∧ ∀ w, world_call l ev w = bump g lines w.
Proof.
  unfold quiet, counter. intros Hq.
  assert (∀ w, listener_call l ev (mkObs (metrics_ (board_ w)) (gate_open_ w) (obs_log_ w)) =
               mkObs (metrics_ (board_ w)) (gate_open_ w) (obs_log_ w) → world_call l ev w = w) as Hid.
  { intros w E. unfold world_call. rewrite E. by destruct w as [[] ? ? ? ? ? ? ? ? ? ? ? ?]. }
  destruct l, ev; try (by destruct (Hq eq_refl)).
  all: first
    [ exists id, []; split; [by left|]; intros w; rewrite bump_id; by apply Hid
    | counts inc_upstream_connected | counts inc_upstream_disconnected | counts inc_failed_requests
    | eexists id, [_]; split; [by left|]; intros w; reflexivity ].
Qed.

(** A step of a worker is a change: it does the same wherever the change is possible. *)
Lemma worker_change i w ws w' ws' :
  all_quiet w ws → worker_step i (w, ws) = Some (w', ws') →
  ∃ φ ok, change φ ok ∧ ok w ∧ w' = φ w ∧ ∀ w2, ok w2 → worker_step i (w2, ws) = Some (φ w2, ws').
Proof.
  intros [_ Hq]. cbn [worker_step]. destruct (ws !! i) as [[|[l ev] rest]|] eqn:Ei; [|..|done].
  - unfold inbox_try_pop. destruct (inbox_ (bus_ w)) as [|ev q] eqn:Eb; [done|]. intros [= <- <-].
    exists pop, (λ w2, registry_ (bus_ w2) = registry_ (bus_ w) ∧ head (inbox w2) = Some ev).
    split_and!; [constructor|done|unfold inbox; by rewrite Eb|by unfold pop; rewrite Eb|].
    unfold inbox. intros w2 [Er Hh]. destruct (inbox_ (bus_ w2)) as [|ev' q'] eqn:E2; [done|].
    injection Hh as ->. unfold pop. rewrite E2. do 2 f_equal. f_equal. unfold calls_of. cbn. by rewrite Er.
  - intros [= <- <-]. rewrite Forall_lookup in Hq. specialize (Hq i _ Ei).
    apply Forall_cons in Hq as [Hev _]. destruct (call_bump l ev Hev) as (g & lines & Hg & E).
    exists (bump g lines), (λ _, True). split_and!; [by constructor|done|done|].
    intros w2 _. by rewrite E.
Qed.

Lemma worker_quiet i w ws w' ws' :
  all_quiet w ws → worker_step i (w, ws) = Some (w', ws') → all_quiet w' ws'.
Proof.
  intros [Hi Hq]. cbn [worker_step]. destruct (ws !! i) as [[|[l ev] rest]|] eqn:Ei; [|..|done].
  - unfold inbox in Hi. unfold inbox_try_pop. destruct (inbox_ (bus_ w)) as [|ev q] eqn:Eb; [done|].
    apply Forall_cons in Hi as [Hev Hi]. intros [= <- <-]. split; [done|].
    apply Forall_insert; [done|]. unfold calls_of. apply Forall_fmap, Forall_true. by intros sl.
  - intros [= <- <-]. split; [done|]. apply Forall_insert; [done|].
    rewrite Forall_lookup in Hq. by apply (Forall_cons_1 _ _ _ (Hq i _ Ei)).
Qed.

(** Changes do not look at the log. *)
Lemma change_same φ ok w1 w2 : change φ ok → same w1 w2 → ok w1 → ok w2 ∧ same (φ w1) (φ w2).
Proof.
  intros Hc [E P] Hok. destruct w1 as [b1 ? ? ? bus1 ? ? ? ? ? ? ? ?], w2. cbn in *. injection E as; subst.
  destruct Hc as [g lines Hg|e r|]; (split; [done|]); split; [done| |done|done..].
  cbn. by rewrite P.
Qed.

Section passing.
Context (R : relation World) {A : Type} (f : World → A * World).
Context `{!Equivalence R}.
Context (HR : ∀ φ ok w1 w2, change φ ok → R w1 w2 → ok w1 → ok w2 ∧ R (φ w1) (φ w2)).
Context (Hf : ∀ φ ok w, change φ ok → ok w →
  (f (φ w)).1 = (f w).1 ∧ R (f (φ w)).2 (φ (f w).2) ∧ ok (f w).2).

(** What commutes with every change commutes with the steps of the workers. *)
Lemma worker_run_pass acts w ws w' ws' :
  all_quiet w ws → worker_run acts (w, ws) = Some (w', ws') →
  all_quiet w' ws' ∧
  ∃ w2, worker_run acts ((f w).2, ws) = Some (w2, ws') ∧ (f w').1 = (f w).1 ∧ R (f w').2 w2.
Proof.
  intros Hq. revert w' ws'. induction acts as [|i acts IH] using rev_ind; intros w' ws'.
  - intros [= <- <-]. split; [done|]. by exists (f w).2.
  - rewrite !worker_run_snoc. destruct (worker_run acts (w, ws)) as [[w1 ws1]|]; [|done].
    destruct (IH w1 ws1 eq_refl) as (Hq1 & w2 & -> & E1 & R2). cbn [mbind option_bind].
    intros Hs. split; [by eapply worker_quiet|].
    destruct (worker_change i w1 ws1 w' ws' Hq1 Hs) as (φ & ok & Hc & Hok & -> & Hall).
    destruct (Hf φ ok w1 Hc Hok) as (E2 & R3 & Hok2).
    destruct (HR φ ok _ _ Hc R2 Hok2) as [Hok3 R4].
    exists (φ w2). split_and!; [by apply Hall|by rewrite E2|by rewrite R3].
Qed.
End passing.

(** ** Whole deliveries *)

(** A worker that pops an event and calls its listeners without interruption. *)
Definition deliver_event w : World :=
  match inbox_try_pop (bus_ w) with
  | None => w
  | Some (ev, b) => world_publish_sync ev (w <| bus_ := b |>)
  end.

Definition bumps (cs : Calls) w : World := foldl (λ w c, world_call c.1 c.2 w) w cs.

Lemma bumps_app cs1 cs2 w : bumps (cs1 ++ cs2) w = bumps cs2 (bumps cs1 w).
Proof. apply foldl_app. Qed.

(** The calls of an event, one by one, are its synchronous publication. *)
Lemma bumps_publish b ev w : bus_ w = b → bumps (calls_of b ev) w = world_publish_sync ev w.
Proof.
  intros <-. unfold calls_of, world_publish_sync, app_publish_sync, publish_sync, dispatch_sync, bumps.
  assert (∀ slots w0, foldl (λ w c, world_call c.1 c.2 w) w0 ((λ sl, (sl_fn sl, ev)) <$> slots) =
    let o := foldl (λ s (sl : Slot Listener), listener_call (sl_fn sl) ev s)
               (mkObs (metrics_ (board_ w0)) (gate_open_ w0) (obs_log_ w0)) slots in
    (on_metrics (λ _, obs_metrics o) w0) <| gate_open_ := open_ o |> <| obs_log_ := obs_log o |>) as H.
  { intros slots. induction slots as [|sl slots IH]; intros w0; cbn [fmap list_fmap foldl].
    - by destruct w0 as [[] ? ? ? ? ? ? ? ? ? ? ? ?].
    - rewrite IH. cbn [fst snd]. unfold world_call. cbn [board_ metrics_ gate_open_ obs_log_ on_metrics on_board].
      by destruct (listener_call _ _ _). }
  rewrite H. by destruct (registry_ (bus_ w) !! event_type ev).
Qed.

Lemma bump_comm g1 l1 g2 l2 w :
  counter g1 → counter g2 → same (bump g1 l1 (bump g2 l2 w)) (bump g2 l2 (bump g1 l1 w)).
Proof.
  intros H1 H2. split.
  - destruct w as [[? ? m ?] ? ? ? ? ? ? ? ? ? ? ? ?]. destruct m.
    by destruct H1 as [->|[->|[->| ->]]], H2 as [->|[->|[->| ->]]].
  - cbn. rewrite <- !(assoc_L app). f_equiv. apply Permutation_app_comm.
Qed.

Lemma call_same l ev w1 w2 : quiet ev → same w1 w2 → same (world_call l ev w1) (world_call l ev w2).
Proof.
  intros Hq Hs. destruct (call_bump l ev Hq) as (g & lines & Hg & E). rewrite !E.
  by apply (change_same _ (λ _, True)); [constructor| |].
Qed.

Lemma bumps_proper cs w1 w2 : Forall (quiet ∘ snd) cs → same w1 w2 → same (bumps cs w1) (bumps cs w2).
Proof.
  revert w1 w2. induction cs as [|c cs IH]; intros w1 w2; [done|]. intros [Hc Hq]%Forall_cons Hs.
  apply IH; [done|]. by apply call_same.
Qed.

(** The order of calls shows in the log only. *)
Lemma bumps_same cs1 cs2 w1 w2 :
  Forall (quiet ∘ snd) cs1 → cs1 ≡ₚ cs2 → same w1 w2 → same (bumps cs1 w1) (bumps cs2 w2).
Proof.
  intros Hq P. revert w1 w2 Hq. induction P as [|c cs1 cs2 P IH|[l1 e1] [l2 e2] cs|cs1 cs2 cs3 P1 IH1 P2 IH2];
    intros w1 w2 Hq Hs.
  - done.
  - apply Forall_cons in Hq as [Hc Hq]. apply IH; [done|]. by apply call_same.
  - apply Forall_cons in Hq as [H2 Hq]. apply Forall_cons in Hq as [H1 Hq]. cbn [compose snd] in *.
    change (same (bumps cs (world_call l1 e1 (world_call l2 e2 w1)))
                 (bumps cs (world_call l2 e2 (world_call l1 e1 w2)))).
    apply bumps_proper; [done|]. rewrite (call_same l1 e1 _ (world_call l2 e2 w2)) by (done || by apply call_same).
    destruct (call_bump l1 e1 H1) as (g1 & k1 & Hg1 & E1), (call_bump l2 e2 H2) as (g2 & k2 & Hg2 & E2).
    rewrite !E1, !E2. by apply bump_comm.
  - rewrite IH1 by done. apply IH2; [by rewrite <- P1|done].
Qed.

Lemma bumps_bus cs w : bus_ (bumps cs w) = bus_ w.
Proof. revert w. induction cs as [|c cs IH]; intros w; [done|]. exact (IH (world_call c.1 c.2 w)). Qed.

Lemma bumps_pop cs w : Forall (quiet ∘ snd) cs → bumps cs (pop w) = pop (bumps cs w).
Proof.
  revert w. induction cs as [|c cs IH]; intros w; [done|]. intros [Hc Hq]%Forall_cons.
  unfold bumps. cbn [foldl]. destruct (call_bump c.1 c.2 Hc) as (g & lines & Hg & E).
  rewrite !E. change (bump g lines (pop w)) with (pop (bump g lines w)). by apply IH.
Qed.

(** A delivery: a pop and the calls. *)
Lemma deliver_bumps w ev q :
  inbox w = ev :: q → deliver_event w = bumps (calls_of (bus_ w) ev) (pop w).
Proof.
  unfold deliver_event, inbox_try_pop, inbox, pop. intros E. rewrite E. cbn [tail].
  symmetry. change (calls_of (bus_ w) ev) with (calls_of (bus_ (pop w)) ev).
  unfold pop. rewrite E. by apply bumps_publish.
Qed.

Lemma calls_of_quiet b ev : quiet ev → Forall (quiet ∘ snd) (calls_of b ev).
Proof. intros Hq. unfold calls_of. apply Forall_fmap, Forall_true. by intros sl. Qed.

Lemma deliver_inbox w : inbox (deliver_event w) = tail (inbox w).
Proof. unfold deliver_event, inbox_try_pop, inbox. by destruct (inbox_ (bus_ w)) eqn:E. Qed.

Lemma iter_inbox k w : inbox (Nat.iter k deliver_event w) = drop k (inbox w).
Proof.
  induction k as [|k IH]; [done|]. cbn [Nat.iter nat_rect]. rewrite deliver_inbox.
  change (nat_rect _ _ _ k) with (Nat.iter k deliver_event w).
  rewrite IH, <- (Nat.add_1_r k), <- drop_drop. by destruct (drop k (inbox w)).
Qed.

(** A delivery can be put before pending calls. *)
Lemma deliver_past cs w1 w2 :
  Forall quiet (inbox w2) → Forall (quiet ∘ snd) cs → same w1 (bumps cs w2) →
  same (deliver_event w1) (bumps cs (deliver_event w2)).
Proof.
  intros Hi Hq Hs. assert (inbox w1 = inbox w2 ∧ bus_ w1 = bus_ w2) as [E1 E2].
  { destruct Hs as [E _]. assert (bus_ w1 = bus_ (bumps cs w2)) as E' by exact (f_equal bus_ E).
    rewrite bumps_bus in E'. unfold inbox. by rewrite E'. }
  destruct (inbox w2) as [|ev q] eqn:Eb.
  { unfold deliver_event, inbox_try_pop, inbox in *. by rewrite E1, Eb. }
  apply Forall_cons in Hi as [Hev _].
  rewrite (deliver_bumps w1 ev q) by congruence. rewrite (deliver_bumps w2 ev q) by done. rewrite E2, <- bumps_app.
  assert (same (pop w1) (bumps cs (pop w2))) as Hp.
  { rewrite bumps_pop by done. apply (change_same pop (λ w, registry_ (bus_ w) = registry_ (bus_ w1) ∧
      head (inbox w) = Some ev)); [constructor|done|]. by rewrite E1. }
  rewrite (bumps_proper (calls_of (bus_ w2) ev) _ _ (calls_of_quiet _ _ Hev) Hp), <- bumps_app.
  apply bumps_same; [|apply Permutation_app_comm|done].
  apply Forall_app. split; [done|by apply calls_of_quiet].
Qed.

Lemma concat_insert (ws : list Calls) i c c' :
  ws !! i = Some c → ∃ rest, concat ws ≡ₚ c ++ rest ∧ concat (<[i := c']> ws) ≡ₚ c' ++ rest.
Proof.
  intros Hi. destruct (insert_split ws i c Hi) as (l1 & l2 & -> & E). rewrite E.
  exists (concat l1 ++ concat l2). rewrite !concat_app. cbn [concat]. split; solve_Permutation.
Qed.

Lemma worker_run_quiet acts w ws w' ws' :
  all_quiet w ws → worker_run acts (w, ws) = Some (w', ws') → all_quiet w' ws'.
Proof.
  intros Hq. revert w' ws'. induction acts as [|i acts IH] using rev_ind; intros w' ws'; [by intros [= <- <-]|].
  rewrite worker_run_snoc. destruct (worker_run acts (w, ws)) as [[w1 ws1]|]; [|done].
  intros Hs. by eapply worker_quiet; [apply IH|].
Qed.

Lemma concat_quiet w ws : all_quiet w ws → Forall quiet (inbox w) ∧ Forall (quiet ∘ snd) (concat ws).
Proof. intros [Hi Hw]. split; [done|]. by apply Forall_concat. Qed.

(** A call made is a call less to make. *)
Lemma call_deliveries i w ws l ev rest :
  all_quiet w ws → ws !! i = Some ((l, ev) :: rest) →
  same (bumps (concat (<[i := rest]> ws)) (world_call l ev w)) (bumps (concat ws) w).
Proof.
  intros [_ Hq]%concat_quiet Hi. destruct (concat_insert ws i _ rest Hi) as (R & P & P'). rewrite P in Hq.
  symmetry. rewrite (bumps_same (concat ws) _ w w) by (done || by rewrite P).
  symmetry. apply (bumps_same (concat (<[i := rest]> ws)) (rest ++ R)); [|done|done].
  rewrite P'. by apply Forall_cons in Hq as [_ Hq].
Qed.

(** A pop and the calls it brings are a delivery. *)
Lemma pop_deliveries i w ws ev q :
  all_quiet w ws → ws !! i = Some [] → inbox w = ev :: q →
  same (bumps (concat (<[i := calls_of (bus_ w) ev]> ws)) (pop w)) (deliver_event (bumps (concat ws) w)).
Proof.
  intros [Hi Hq]%concat_quiet Hws Eb. destruct (concat_insert ws i _ (calls_of (bus_ w) ev) Hws) as (R & P & P').
  cbn [app] in P. rewrite deliver_past; [|exact Hi|exact Hq|done].
  rewrite (deliver_bumps w ev q), <- bumps_app by done. rewrite Eb in Hi. apply Forall_cons in Hi as [Hev _].
  apply bumps_same; [|by rewrite P', P|done].
  rewrite P', <- P. apply Forall_app. split; [by apply calls_of_quiet|done].
Qed.

(** The steps of the workers amount to deliveries, in the order of the inbox, of the events
    popped, once the calls still pending at the end are made. *)
Lemma worker_run_deliveries acts w ws w' ws' :
  all_quiet w ws → worker_run acts (w, ws) = Some (w', ws') →
  ∃ k, same (bumps (concat ws') w') (bumps (concat ws) (Nat.iter k deliver_event w)) ∧
       inbox w' = drop k (inbox w) ∧ k ≤ length (inbox w).
Proof.
  intros Hq. revert w' ws'. induction acts as [|i acts IH] using rev_ind; intros w' ws'.
  - intros [= <- <-]. exists 0. split_and!; [done|done|lia].
  - rewrite worker_run_snoc. destruct (worker_run acts (w, ws)) as [[w1 ws1]|] eqn:E1; [|done].
    destruct (IH w1 ws1 eq_refl) as (k & Hs & Hin & Hk).
    pose proof (worker_run_quiet _ _ _ _ _ Hq E1) as Hq1. cbn [mbind option_bind worker_step].
    destruct (ws1 !! i) as [[|[l ev] rest]|] eqn:Ei; [| |done].
    + unfold inbox_try_pop. destruct (inbox_ (bus_ w1)) as [|ev q] eqn:Eb; [done|]. intros [= <- <-].
      exists (S k). pose proof (pop_deliveries i w1 ws1 ev q Hq1 Ei Eb) as Hp. unfold pop in Hp. rewrite Eb in Hp.
      cbn [tail] in Hp. assert (k < length (inbox w)).
      { apply (f_equal length) in Hin. rewrite length_drop in Hin. unfold inbox in Hin at 1.
        rewrite Eb in Hin. cbn in Hin. lia. }
      split_and!; [|..|lia].
      * etrans; [exact Hp|]. change (Nat.iter (S k) deliver_event w) with (deliver_event (Nat.iter k deliver_event w)).
        apply concat_quiet in Hq as [Hi Hc].
        apply deliver_past; [by rewrite iter_inbox; apply Forall_drop|done|done].
      * unfold inbox in *. cbn. rewrite <- Nat.add_1_r, <- drop_drop, <- Hin, Eb. done.
    + intros [= <- <-]. exists k. split_and!; [|done|done]. by rewrite (call_deliveries i w1 ws1 l ev rest).
Qed.

Section beside.
Context {Ord : UMapOrder} {J : NlohmannJson} (env : Env) (hb : HeartbeatConfig).

(** ** The heartbeat thread inside a tick, beside handlers and workers *)

(** The messages that arrived, and the steps the workers made. *)
Inductive tick_beside : TickPc * World * list Calls → list Message → list nat →
                        TickPc * World * list Calls → Prop :=
| tb_nil x : tick_beside x [] [] x
| tb_micro x ms acts pc w ws :
    tick_beside x ms acts (pc, w, ws) → tick_beside x ms acts (tick_micro env hb pc w, ws)
| tb_arrive x ms acts pc w ws m :
    tick_beside x ms acts (pc, w, ws) → tick_beside x (ms ++ [m]) acts (pc, arrive w m, ws)
| tb_worker x ms acts pc w ws i w' ws' :
    tick_beside x ms acts (pc, w, ws) → worker_step i (w, ws) = Some (w', ws') →
    tick_beside x ms (acts ++ [i]) (pc, w', ws').

(** The small steps publish no tick event asynchronously. *)
Lemma micro_quiet pc w : Forall quiet (inbox w) → Forall quiet (inbox (tick_micro env hb pc w).2).
Proof.
  intros Hw. pose proof ch_none as Hn.
  destruct pc as [|t0|t0 out|t0 n [|m batch]|t0 n [|rid ready]|t0 n|t0 n|t0 n cs|cs]; cbn [tick_micro]; try done.
  - destruct (clock_now env w) as [t0 w1] eqn:E. pose proof (change_clock env _ _ Hn w Hw) as [_ H].
    by rewrite E in H.
  - exact (proj2 (change_message env hb _ _ m Hn w Hw)).
  - exact (proj2 (change_emit _ _ rid Hn w Hw)).
  - exact (proj2 (change_evolve env _ _ Hn w Hw)).
  - exact (proj2 (proj2 (change_finish env _ _ t0 n cs Hn w Hw))).
Qed.

Lemma arrive_inbox w m : inbox (arrive w m) = inbox w.
Proof. unfold arrive. by destruct (send _ _). Qed.

Lemma change_arrive φ ok m w : change φ ok → ok w → arrive (φ w) m = φ (arrive w m) ∧ ok (arrive w m).
Proof.
  intros Hc Hw. unfold arrive. destruct (change_reads φ ok w Hc) as (_ & _ & _ & _ & _ & _ & -> & _).
  destruct (send m (request_channel_ w)) as [ch|]; [|done].
  exact (change_drained φ ok ch Hc w Hw).
Qed.

Lemma beside_quiet w0 ws0 ms acts x :
  all_quiet w0 ws0 → tick_beside (KStart, w0, ws0) ms acts x → all_quiet x.1.2 x.2.
Proof.
  intros Hq Hr. remember (KStart, w0, ws0) as x0 eqn:E0.
  induction Hr as [x|x ms acts pc w ws _ IH|x ms acts pc w ws m _ IH|x ms acts pc w ws i w' ws' _ IH Hs]; subst.
  - done.
  - destruct (IH eq_refl) as [Hi Hws]. split; [|done]. by apply micro_quiet.
  - destruct (IH eq_refl) as [Hi Hws]. split; [|done]. cbn [fst snd]. by rewrite arrive_inbox.
  - by eapply worker_quiet; [apply IH|].
Qed.

(** An exact commutation, and one up to the order of log lines. *)
Lemma run_past {A} (f : World → A * World) acts w ws w' ws' :
  (∀ φ ok, change φ ok → past_get φ ok f) → all_quiet w ws → worker_run acts (w, ws) = Some (w', ws') →
  worker_run acts ((f w).2, ws) = Some ((f w').2, ws') ∧ (f w').1 = (f w).1.
Proof.
  intros Hf Hq Hr.
  destruct (worker_run_pass eq f) with acts w ws w' ws' as (_ & w2 & E & E1 & <-); try done.
  - intros φ ok w1 w2 Hc <- Hok. done.
  - intros φ ok w1 Hc Hok. destruct (Hf φ ok Hc w1 Hok) as [-> ?]. done.
Qed.

Lemma run_from pc acts w ws w' ws' :
  all_quiet w ws → worker_run acts (w, ws) = Some (w', ws') →
  ∃ w2, worker_run acts ((tick_from env hb pc w).2, ws) = Some (w2, ws') ∧
        (tick_from env hb pc w').1 = (tick_from env hb pc w).1 ∧ same (tick_from env hb pc w').2 w2.
Proof.
  intros Hq Hr. refine (proj2 (worker_run_pass same (tick_from env hb pc) change_same _ acts w ws w' ws' Hq Hr)).
  intros φ ok w1 Hc Hok. exact (change_from env hb φ ok pc Hc w1 Hok).
Qed.

(** The whole of what the tick will have done. *)
Definition tick_then w0 (ws0 : list Calls) (ms : list Message) (acts : list nat) (pc : TickPc) w
    (ws : list Calls) : Prop :=
  ∃ ms1 ms2 w2, ms = ms1 ++ ms2 ∧ (tick_from env hb pc w).1 = (tick env hb (arrivals ms1 w0)).1 ∧
    worker_run acts (arrivals ms2 (tick env hb (arrivals ms1 w0)).2, ws0) = Some (w2, ws) ∧
    same (tick_from env hb pc w).2 w2.

Definition beside_inv w0 (ws0 : list Calls) (ms : list Message) (acts : list nat) (pc : TickPc) w
    (ws : list Calls) : Prop :=
  match pc with
  | KStart => worker_run acts (arrivals ms w0, ws0) = Some (w, ws)
  | KDrain t0 => t0 = (clock_now env (arrivals ms w0)).1 ∧
                 worker_run acts ((clock_now env (arrivals ms w0)).2, ws0) = Some (w, ws)
  | _ => tick_then w0 ws0 ms acts pc w ws
  end.

Lemma beside_inv_drained w0 ws0 ms acts pc w ws :
  drained pc = true → beside_inv w0 ws0 ms acts pc w ws = tick_then w0 ws0 ms acts pc w ws.
Proof. by destruct pc. Qed.

Lemma arrivals_inbox ms w : inbox (arrivals ms w) = inbox w.
Proof.
  induction ms as [|m ms IH] using rev_ind; [done|]. by rewrite arrivals_snoc, arrive_inbox.
Qed.

Lemma quiet_arrivals ms w ws : all_quiet w ws → all_quiet (arrivals ms w) ws.
Proof. intros [Hi Hw]. split; [|done]. by rewrite arrivals_inbox. Qed.

Lemma quiet_clock w ws : all_quiet w ws → all_quiet (clock_now env w).2 ws.
Proof. intros [Hi Hw]. split; [|done]. exact (proj2 (change_clock env _ _ ch_none w Hi)). Qed.

Lemma quiet_tick w ws : all_quiet w ws → all_quiet (tick env hb w).2 ws.
Proof. intros [Hi Hw]. split; [|done]. exact (proj2 (proj2 (change_from env hb _ _ KStart ch_none w Hi))). Qed.

Lemma beside_inv_micro w0 ws0 ms acts pc w ws :
  all_quiet w0 ws0 → beside_inv w0 ws0 ms acts pc w ws →
  beside_inv w0 ws0 ms acts (tick_micro env hb pc w).1 (tick_micro env hb pc w).2 ws.
Proof.
  intros Hq Hi. pose proof (tick_micro_from env hb pc w) as Hf.
  destruct (drained pc) eqn:Ed.
  { assert (drained (tick_micro env hb pc w).1 = true) as Ed'.
    { destruct pc as [| | |t0 n [|]|t0 n [|]| | | |]; try done. }
    rewrite beside_inv_drained in Hi |- * by done. unfold tick_then in *. by rewrite Hf. }
  apply (quiet_arrivals ms) in Hq.
  destruct pc as [|t0| | | | | | |]; try discriminate Ed; clear Ed; cbn [beside_inv] in Hi.
  - destruct (run_past (clock_now env) acts _ _ _ _ (change_clock env) Hq Hi) as [E1 E2].
    cbn [tick_micro]. destruct (clock_now env w) as [t0 w1]. done.
  - destruct Hi as [-> Hr]. apply quiet_clock in Hq.
    destruct (run_from (KDrain (clock_now env (arrivals ms w0)).1) _ _ _ _ _ Hq Hr) as (w2 & E & E1 & Hs).
    rewrite beside_inv_drained by done. exists ms, [], w2. rewrite Hf, app_nil_r.
    by rewrite tick_from_start.
Qed.

Lemma beside_inv_arrive w0 ws0 ms acts pc w ws m :
  all_quiet w0 ws0 → beside_inv w0 ws0 ms acts pc w ws → beside_inv w0 ws0 (ms ++ [m]) acts pc (arrive w m) ws.
Proof.
  intros Hq Hi.
  assert (∀ φ ok, change φ ok → past_get φ ok (λ w, (tt, arrive w m))) as Ha.
  { intros φ ok Hc w1 Hw1. cbn [fst snd]. by destruct (change_arrive φ ok m w1 Hc Hw1) as [-> ?]. }
  destruct (drained pc) eqn:Ed.
  - rewrite beside_inv_drained in Hi |- * by done. destruct Hi as (ms1 & ms2 & w2 & -> & E & Hr & Hs).
    exists ms1, (ms2 ++ [m]), (arrive w2 m).
    rewrite (blind_arrive (tick_from env hb pc)) by (by apply blind_from). cbn [fst snd].
    split_and!; [by rewrite app_assoc|done| |by rewrite Hs].
    rewrite arrivals_snoc. eapply (run_past (λ w, (tt, arrive w m))); [done| |done].
    by apply quiet_arrivals, quiet_tick, quiet_arrivals.
  - apply (quiet_arrivals ms) in Hq.
    destruct pc as [|t0| | | | | | |]; try discriminate Ed; cbn [beside_inv] in *; rewrite arrivals_snoc.
    + by eapply (run_past (λ w, (tt, arrive w m))).
    + destruct Hi as [-> Hr]. rewrite (blind_arrive (clock_now env)) by apply blind_clock.
      split; [done|]. eapply (run_past (λ w, (tt, arrive w m))); [done| |done]. by apply quiet_clock.
Qed.

Lemma beside_inv_worker w0 ws0 ms acts pc w ws i w' ws' :
  all_quiet w ws → worker_step i (w, ws) = Some (w', ws') →
  beside_inv w0 ws0 ms acts pc w ws → beside_inv w0 ws0 ms (acts ++ [i]) pc w' ws'.
Proof.
  intros Hq Hs Hi. destruct (drained pc) eqn:Ed.
  - rewrite beside_inv_drained in Hi |- * by done. destruct Hi as (ms1 & ms2 & w2 & -> & E & Hr & Hw2).
    destruct (worker_change i w ws w' ws' Hq Hs) as (φ & ok & Hc & Hok & -> & Hall).
    destruct (change_from env hb φ ok pc Hc w Hok) as (E1 & Hs1 & Hok1).
    destruct (change_same φ ok _ _ Hc Hw2 Hok1) as [Hok2 Hs2].
    exists ms1, ms2, (φ w2). rewrite worker_run_snoc, Hr. cbn [mbind option_bind].
    split_and!; [done|by rewrite E1|by apply Hall|by rewrite Hs1].
  - destruct pc as [|t0| | | | | | |]; try discriminate Ed; cbn [beside_inv] in *;
      rewrite worker_run_snoc; [by rewrite Hi|]. destruct Hi as [-> Hr]. by rewrite Hr.
Qed.

Lemma beside_inv_run w0 ws0 ms acts x :
  all_quiet w0 ws0 → tick_beside (KStart, w0, ws0) ms acts x → beside_inv w0 ws0 ms acts x.1.1 x.1.2 x.2.
Proof.
  intros Hq Hr. remember (KStart, w0, ws0) as x0 eqn:E0.
  induction Hr as [x|x ms acts pc w ws _ IH|x ms acts pc w ws m _ IH|x ms acts pc w ws i w' ws' Hr IH Hs]; subst.
  - done.
  - by apply beside_inv_micro, IH.
  - by apply beside_inv_arrive, IH.
  - eapply beside_inv_worker; [|done|by apply IH]. by apply (beside_quiet _ _ _ _ _ Hq) in Hr.
Qed.

Lemma beside_micro_run x ms y :
  tick_run env hb x ms y → ms = [] → ∀ c, tick_beside (x, c) [] [] (y, c).
Proof.
  intros Hr -> c. remember [] as ms0 eqn:E. induction Hr as [x|x ms pc w _ IH|x ms pc w m _ IH].
  - constructor.
  - apply tb_micro. by apply IH.
  - by destruct ms.
Qed.

(** C6: A tick is atomic beside gRPC handlers and bus workers.  However the small steps of a
    tick, the sends of handlers, and the pops and single listener calls of any number of
    workers interleave, a completed tick gives the change set of a whole, undisturbed
    tick on the messages that had arrived before it drained the request channel; the later
    ones wait in order; the rest of the state, up to the order of log lines, is that of
    this tick followed by the workers' steps, and, when the workers have nothing left to
    call, by whole deliveries of events in the order of the inbox.  Nothing the workers
    do can stop the tick: from wherever it stands it completes alone.  (Events published
    asynchronously are never tick events, which [publish_sync] delivers.) *)
Theorem tick_atomic_beside w0 ws0 ms acts pc w ws :
  all_quiet w0 ws0 → tick_beside (KStart, w0, ws0) ms acts (pc, w, ws) →
  (∃ cs w', tick_beside (pc, w, ws) [] [] (KDone cs, w', ws)) ∧
  ∀ cs, pc = KDone cs →
    ∃ ms1 ms2 w1 w2, ms = ms1 ++ ms2 ∧ tick env hb (arrivals ms1 w0) = (cs, w1) ∧
      worker_run acts (arrivals ms2 w1, ws0) = Some (w2, ws) ∧ same w w2 ∧
      (concat ws0 = [] → concat ws = [] → ∃ k, same w (Nat.iter k deliver_event (arrivals ms2 w1))).
Proof.
  intros Hq Hr. split.
  { destruct (tick_completes env hb (pc, w) [] pc w (tr_nil _ _ _)) as (cs & w' & Hc).
    exists cs, w'. by apply (beside_micro_run _ _ _ Hc). }
  intros cs ->. destruct (beside_inv_run w0 ws0 ms acts _ Hq Hr) as (ms1 & ms2 & w2 & -> & E & Hw & Hs).
  cbn [fst snd tick_from] in E, Hs, Hw. exists ms1, ms2, (tick env hb (arrivals ms1 w0)).2, w2.
  split_and!; [done|rewrite E; apply surjective_pairing|done|done|].
  intros E0 E1. apply worker_run_deliveries in Hw as (k & Hk & _ & _);
    [|by apply quiet_arrivals, quiet_tick, quiet_arrivals].
  rewrite E0, E1 in Hk. exists k. by rewrite Hs.
Qed.

(** ** Schedules *)

Inductive beside_move := BMicro | BArrive (m : Message) | BWork (i : nat).

Definition beside_next (x : TickPc * World * list Calls) (mv : beside_move)
    : option (TickPc * World * list Calls) :=
  let '(pc, w, ws) := x in
  match mv with
  | BMicro => Some (tick_micro env hb pc w, ws)
  | BArrive m => Some (pc, arrive w m, ws)
  | BWork i => '(w, ws) ← worker_step i (w, ws); Some (pc, w, ws)
  end.

Definition arrived_in (mvs : list beside_move) : list Message :=
  omap (λ mv, match mv with BArrive m => Some m | _ => None end) mvs.
Definition worked_in (mvs : list beside_move) : list nat :=
  omap (λ mv, match mv with BWork i => Some i | _ => None end) mvs.

Lemma beside_schedule x mvs y :
  foldl (λ o mv, x ← o; beside_next x mv) (Some x) mvs = Some y →
  tick_beside x (arrived_in mvs) (worked_in mvs) y.
Proof.
  revert y. induction mvs as [|mv mvs IH] using rev_ind; intros y; [intros [= <-]; constructor|].
  rewrite foldl_app. unfold arrived_in, worked_in in *. rewrite !omap_app. cbn [foldl].
  destruct (foldl _ _ mvs) as [[[pc w] ws]|]; [|done]. specialize (IH _ eq_refl).
  cbn [mbind option_bind beside_next]. destruct mv as [|m|i]; cbn [omap list_omap]; rewrite ?app_nil_r.
  - intros [= <-]. by apply tb_micro.
  - intros [= <-]. by apply tb_arrive.
  - destruct (worker_step i (w, ws)) as [[w' ws']|] eqn:E; [|done]. intros [= <-]. by eapply tb_worker.
Qed.
End beside.

(** ** Instance *)

(** An event waits in the inbox; worker 1 pops it inside the tick and calls its two
    listeners between the steps of the tick, while two requests arrive. *)
Definition beside_world : World := world_publish_async (send_failed "s-0" "closed") demo_world.
Definition beside_moves : list beside_move :=
  [BMicro; BWork 1; BArrive early; BMicro; BArrive late; BMicro; BWork 1; BMicro; BMicro; BWork 1] ++
  replicate 6 BMicro.

Definition beside_end : option (TickPc * World * list Calls) :=
  foldl (λ o mv, x ← o; beside_next (Ord:=um_default) (J:=demo_json) (demo_env 10) demo_local x mv)
    (Some (KStart, beside_world, [[]; []])) beside_moves.
Definition beside_last : TickPc * World * list Calls :=
  default (KStart, beside_world, [[]; []]) beside_end.

Lemma beside_last_run :
  tick_beside (Ord:=um_default) (J:=demo_json) (demo_env 10) demo_local (KStart, beside_world, [[]; []])
    [early; late] [1; 1; 1] beside_last.
Proof.
  apply (beside_schedule (Ord:=um_default) (J:=demo_json) (demo_env 10) demo_local _ beside_moves).
  vm_compute. reflexivity.
Qed.

Lemma beside_world_quiet : all_quiet beside_world [[]; []].
Proof. split; [|by repeat constructor]. vm_compute. repeat constructor. discriminate. Qed.

Definition beside_cs : ChangeSet := match beside_last.1.1 with KDone cs => cs | _ => cs_empty end.

Example tick_atomic_beside_witness :
  length (local_jobs beside_cs) = 1 ∧ length (obs_log_ beside_last.1.2) = 1 ∧
  ∃ ms1 ms2 w1 w2, [early; late] = ms1 ++ ms2 ∧
    tick (Ord:=um_default) (J:=demo_json) (demo_env 10) demo_local (arrivals ms1 beside_world) =
      (beside_cs, w1) ∧
    worker_run [1; 1; 1] (arrivals ms2 w1, [[]; []]) = Some (w2, beside_last.2) ∧ same beside_last.1.2 w2 ∧
    (concat ([[]; []] : list Calls) = [] → concat beside_last.2 = [] →
     ∃ k, same beside_last.1.2 (Nat.iter k deliver_event (arrivals ms2 w1))).
Proof.
  split; [vm_compute; reflexivity|]. split; [vm_compute; reflexivity|].
  apply (tick_atomic_beside (Ord:=um_default) (J:=demo_json) (demo_env 10) demo_local beside_world
    [[]; []] [early; late] [1; 1; 1] beside_last.1.1 beside_last.1.2 beside_last.2).
  - exact beside_world_quiet.
  - rewrite <- !surjective_pairing. exact beside_last_run.
  - vm_compute. reflexivity.
Defined.
