(* ===== verification/HeartbeatSteps.v ===== *)
(** * Elementary steps of the heartbeat (src/heartbeat/heartbeat.h)

    Every handler of the heartbeat is a composition of few elementary updates of
    the world.  [micro] lists them; an invariant of the board is proved once per
    elementary update and then holds across handlers, batches and ticks.  The
    predicate [K] on pending requests is a parameter, so that the same
    decomposition serves several invariants. *)

From S2P Require Import Prelude Messages ChangeSet CopyChannel HexCodec Metrics.
From S2P Require Import SessionPool PendingStore DataBoard Events EventBus LocalEngine.
From S2P Require Import WsFrameCodec Observability Backpressure Evolution World.
From S2P Require Import MessageProcessor Heartbeat.

Implicit Types w : World.

(** ** Views of the world *)

Definition inflight_of w : Z := inflight_ (metrics_ (board_ w)).
Definition pool_of w : SessionPool := session_pool_ (board_ w).
Definition pending_of w : PendingRequestStore := pending_ (board_ w).

(** ** What an update of each part keeps *)

(** An update of the pool that adds no session. *)
Definition pool_safe (f : SessionPool → SessionPool) : Prop :=
  ∃ o, (∀ s, o ≠ OpAdd s) ∧ ∀ p, f p = pool_apply p o.

(** Requests are filed under their own id and satisfy [K]. *)
Definition pend_inv (K : PendingRequest → Prop) (st : PendingRequestStore) : Prop :=
  ∀ rid p, st !! rid = Some p → pr_request_id p = rid ∧ K p.

Definition pend_safe (K : PendingRequest → Prop)
    (f : PendingRequestStore → PendingRequestStore) : Prop :=
  ∀ st, pend_inv K st → pend_inv K (f st).

Definition u64_ok (z : Z) : Prop := (0 ≤ z < 2 ^ 64)%Z.

(** The id made from a draw, and the record of a new session. *)
Definition session_id_of (d : Z) : string := "s-" +:+ hex_digits_of 16 (u64 d).
Definition new_session (sid : string) : SessionRecord :=
  SessionRecord_default <| sr_session_id := sid |> <| sr_state := SS.Connecting |>.

(** Distinct draws give distinct ids. *)
Lemma string_snoc_inj (s t : string) a b :
  s +:+ String a "" = t +:+ String b "" → s = t ∧ a = b.
Proof.
  revert t. induction s as [|x s IH]; intros [|y t]; simpl; intros [= ]; subst; try done.
  - by destruct t.
  - by destruct s.
  - destruct (IH t) as [-> ->]; done.
Qed.

Lemma nibble_hex_digit i : (0 ≤ i < 16)%Z → nibble (hex_digit i) = i.
Proof.
  intros Hi. assert (∃ n, i = Z.of_nat n ∧ n < 16) as (n & -> & Hn) by (exists (Z.to_nat i); lia).
  clear Hi. do 16 (destruct n as [|n]; [done|]). lia.
Qed.

Lemma hex_digits_of_inj n a b :
  (0 ≤ a < 2 ^ (4 * Z.of_nat n))%Z → (0 ≤ b < 2 ^ (4 * Z.of_nat n))%Z →
  hex_digits_of n a = hex_digits_of n b → a = b.
Proof.
  revert a b. induction n as [|n IH]; intros a b Ha Hb.
  - simpl in *. lia.
  - replace (4 * Z.of_nat (S n))%Z with (4 * Z.of_nat n + 4)%Z in * by lia.
    rewrite Z.pow_add_r in Ha, Hb by lia. change (2 ^ 4)%Z with 16%Z in *.
    simpl. intros [H1 H2]%string_snoc_inj.
    change 15%Z with (Z.ones 4) in H2. rewrite !Z.land_ones in H2 by lia.
    rewrite !Z.shiftr_div_pow2 in H1 by lia. change (2 ^ 4)%Z with 16%Z in *.
    apply (f_equal nibble) in H2.
    rewrite !nibble_hex_digit in H2 by (apply Z.mod_pos_bound; lia).
    apply IH in H1.
    + rewrite (Z.div_mod a 16), (Z.div_mod b 16) by lia. lia.
    + split; [apply Z.div_pos; lia|]. apply Z.div_lt_upper_bound; lia.
    + split; [apply Z.div_pos; lia|]. apply Z.div_lt_upper_bound; lia.
Qed.

Lemma session_id_of_inj a b : session_id_of a = session_id_of b → u64 a = u64 b.
Proof.
  unfold session_id_of. intros H. apply (hex_digits_of_inj 16); [apply u64_range..|].
  revert H. generalize (hex_digits_of 16 (u64 a)) (hex_digits_of 16 (u64 b)).
  by intros s t [= ->].
Qed.

Section micro.
Context (env : Env) (K : PendingRequest → Prop).

Inductive micro : World → World → Prop :=
| mi_pool f w : pool_safe f → micro w (on_pool f w)
| mi_new w :
    micro w (on_pool (λ p, (pool_add (new_session (session_id_of (rng_draw env (draws w)))) p).2)
               (w <| draws := S (draws w) |>))
| mi_pending f w : pend_safe K f → micro w (on_pending f w)
| mi_metrics f w :
    (u64_ok (inflight_of w) → u64_ok (inflight_ (f (metrics_ (board_ w))))) →
    micro w (on_metrics f w)
| mi_changeset f w : micro w (on_changeset f w)
| mi_note_session sid w : micro w (note_session sid w)
| mi_note_request rid w : micro w (note_request rid w)
| mi_read w : micro w (steady_now env w).2
| mi_async ev w : micro w (world_publish_async ev w).

(** What no handler touches. *)
Lemma micro_frame w w' :
  micro w w' →
  request_channel_ w' = request_channel_ w ∧ ws_event_channel_ w' = ws_event_channel_ w ∧
  clock_ w' = clock_ w ∧ gate_open_ w' = gate_open_ w ∧ obs_log_ w' = obs_log_ w ∧
  catalog_ (board_ w') = catalog_ (board_ w) ∧ count_ w' = count_ w.
Proof. by destruct 1. Qed.

Lemma micros_frame w w' :
  rtc micro w w' →
  request_channel_ w' = request_channel_ w ∧ ws_event_channel_ w' = ws_event_channel_ w ∧
  clock_ w' = clock_ w ∧ gate_open_ w' = gate_open_ w ∧ obs_log_ w' = obs_log_ w ∧
  catalog_ (board_ w') = catalog_ (board_ w) ∧ count_ w' = count_ w.
Proof.
  induction 1 as [|w w1 w2 H _ IH]; [done|].
  apply micro_frame in H. destruct_and!. split_and!; congruence.
Qed.

Lemma micros_pending w w' :
  rtc micro w w' → pend_inv K (pending_of w) → pend_inv K (pending_of w').
Proof.
  induction 1 as [|w w1 w2 H _ IH]; [done|]. intros Hp. apply IH.
  destruct H as [| |f w Hf| | | | | |]; try done. by apply Hf.
Qed.

Lemma micros_inflight w w' :
  rtc micro w w' → u64_ok (inflight_of w) → u64_ok (inflight_of w').
Proof.
  induction 1 as [|w w1 w2 H _ IH]; [done|]. intros Hp. apply IH.
  destruct H as [| | |f w Hf| | | | |]; try done. by apply Hf.
Qed.

(** ** The pool *)

(** The first [n] draws are pairwise different. *)
Definition distinct_draws (n : nat) : Prop :=
  ∀ i j, i < n → j < n →
    u64 (rng_draw env i) = u64 (rng_draw env j) → i = j.

(** A well-formed pool whose ids come from earlier draws.  Sessions are never
    given a creation time: it stays at the epoch. *)
Definition pool_inv w : Prop :=
  (max_size_ (pool_of w) = 16 ∧ idle_timeout_ (pool_of w) = 60%Z ∧
   max_lifetime_ (pool_of w) = 3600%Z) ∧
  (∀ id s, sessions_ (pool_of w) !! id = Some s → sr_created_at s = 0%Z ∧
     ∃ n, n < draws w ∧ id = session_id_of (rng_draw env n)) ∧
  (distinct_draws (draws w) → pool_wf (pool_of w)).

Lemma distinct_draws_le m n : m ≤ n → distinct_draws n → distinct_draws m.
Proof. intros Hle Hd i j Hi Hj. apply Hd; lia. Qed.

(** Updates that add no session only change records in place or drop them. *)
Lemma pool_apply_lookup p o id s :
  (∀ s, o ≠ OpAdd s) → sessions_ (pool_apply p o) !! id = Some s →
  ∃ s', sessions_ p !! id = Some s' ∧ sr_created_at s = sr_created_at s'.
Proof.
  intros Ho.
  destruct o as [s0|k now|k rid|k now|k now|k|k now|k reason|k]; simpl;
    [by destruct (Ho s0)|..];
    unfold touch_active, set_current_request, mark_active, mark_ready,
      mark_draining, mark_idle, mark_errored, mark_closed, remove_locked; simpl;
    try (destruct (sessions_ p !! k) as [s1|] eqn:E; simpl;
         [intros [[<- <-]|[_ ?]]%lookup_insert_Some; eauto|eauto]).
  intros [_ ?]%lookup_delete_Some. eauto.
Qed.

Lemma pool_apply_params p o :
  max_size_ (pool_apply p o) = max_size_ p ∧ idle_timeout_ (pool_apply p o) = idle_timeout_ p ∧
  max_lifetime_ (pool_apply p o) = max_lifetime_ p.
Proof.
  destruct o; simpl;
    unfold pool_add, touch_active, set_current_request, mark_active, mark_ready,
      mark_draining, mark_idle, mark_errored;
    try (by destruct (sessions_ p !! _)); try done.
  by destruct (Nat.leb _ _).
Qed.

Lemma pool_inv_new w :
  pool_inv w →
  pool_inv (on_pool (λ p, (pool_add (new_session (session_id_of (rng_draw env (draws w)))) p).2)
              (w <| draws := S (draws w) |>)).
Proof.
  intros (Hm & Hs & Hw). split; [|split].
  - unfold pool_of in *. simpl. unfold pool_add. by destruct (Nat.leb _ _).
  - intros id s. unfold pool_of in *. simpl. unfold pool_add.
    destruct (Nat.leb _ _); simpl; intros H.
    + apply Hs in H as (? & n & ? & ?). split; [done|]. exists n. split; [simpl; lia|done].
    + apply lookup_insert_Some in H as [[<- <-]|[_ H]].
      * split; [done|]. exists (draws w). split; [simpl; lia|done].
      * apply Hs in H as (? & n & ? & ?). split; [done|]. exists n. split; [simpl; lia|done].
  - intros Hd. assert (distinct_draws (draws w)) as Hd' by (eapply distinct_draws_le, Hd; simpl; lia).
    specialize (Hw Hd'). apply (add_refines (pool_of w) Hw). rewrite view_get by done.
    destruct (sessions_ (pool_of w) !! _) as [s|] eqn:E; [|done].
    apply Hs in E as (_ & n & Hn & He). simpl in He.
    apply session_id_of_inj, Hd in He; simpl in *; lia.
Qed.

Lemma micro_pool w w' : micro w w' → pool_inv w → pool_inv w'.
Proof.
  intros H Hp. destruct H as [f w (o & Ho & Hf)|w| | | | | | |];
    [|by apply pool_inv_new|exact Hp..].
  destruct Hp as (Hm & Hs & Hw). unfold pool_inv, pool_of in *. simpl.
  rewrite Hf. destruct (pool_apply_params (session_pool_ (board_ w)) o) as (-> & -> & ->).
  split; [done|split].
  - intros id s H. apply pool_apply_lookup in H as (s' & H & ->); [|done]. by apply Hs.
  - intros Hd. apply pool_apply_refines; [by apply Hw|]. destruct o; try done. by destruct (Ho s).
Qed.

Lemma micros_pool w w' : rtc micro w w' → pool_inv w → pool_inv w'.
Proof. induction 1 as [|w w1 w2 H _ IH]; [done|]. intros. eapply IH, micro_pool; eauto. Qed.
End micro.

(** ** The updates the handlers use *)

Create HintDb micro.

Lemma pool_safe_op o : (∀ s, o ≠ OpAdd s) → pool_safe (λ p, pool_apply p o).
Proof. intros H. by exists o. Qed.

Ltac solve_pool_safe :=
  match goal with
  | |- pool_safe (mark_active ?i ?t) => apply (pool_safe_op (OpMarkActive i t))
  | |- pool_safe (mark_ready ?i ?t) => apply (pool_safe_op (OpMarkReady i t))
  | |- pool_safe (mark_draining ?i) => apply (pool_safe_op (OpMarkDraining i))
  | |- pool_safe (mark_errored ?i ?r) => apply (pool_safe_op (OpMarkErrored i r))
  | |- pool_safe (mark_closed ?i) => apply (pool_safe_op (OpMarkClosed i))
  | |- pool_safe (set_current_request ?i ?r) => apply (pool_safe_op (OpSetRequest i r))
  end; done.
#[export] Hint Extern 1 (pool_safe _) => solve_pool_safe : micro.

Section updates.
Context (K : PendingRequest → Prop).

Lemma pend_safe_remove rid : pend_safe K (store_remove rid).
Proof. unfold store_remove. intros st H x p [_ ?]%lookup_delete_Some. by apply H. Qed.

Lemma pend_safe_modify rid f :
  (∀ p, pr_request_id (f p) = pr_request_id p ∧ (K p → K (f p))) →
  pend_safe K (modify rid f).
Proof.
  intros Hf st H x p. rewrite lookup_modify. case_decide; [|apply H].
  rewrite fmap_Some. intros (q & Hq & ->). destruct (H x q Hq) as [<- HK].
  split; [apply Hf|by apply Hf].
Qed.

Lemma pend_safe_add p t :
  K (p <| pr_created_at := t |> <| pr_last_chunk_at := t |>) → pend_safe K (store_add p t).
Proof.
  intros HK st H x q. unfold store_add. simpl.
  intros [[<- <-]|[_ Hq]]%lookup_insert_Some; [done|by apply H].
Qed.
End updates.
#[export] Hint Resolve pend_safe_remove : micro.
#[export] Hint Resolve u64_range : micro.

(** A predicate on requests that every update of the handlers keeps.  The two
    updates of the local branch are needed only when the configuration can take
    that branch, the update by a chunk only if [chunks] may arrive. *)
Record request_inv_if (chunks : Prop) (hb : HeartbeatConfig) (K : PendingRequest → Prop)
    : Prop := {
  ri_await rid sid rate ch fmt t :
    K (PendingRequest_default <| pr_request_id := rid |> <| pr_session_id := sid |>
         <| pr_state := PS.AwaitingSession |> <| pr_sample_rate := rate |>
         <| pr_channels := ch |> <| pr_format := fmt |>
         <| pr_created_at := t |> <| pr_last_chunk_at := t |>);
  ri_local req rid rate ch fmt t : should_use_local hb req = true →
    K (PendingRequest_default <| pr_request_id := rid |> <| pr_state := PS.Streaming |>
         <| pr_sample_rate := rate |> <| pr_channels := ch |> <| pr_format := fmt |>
         <| pr_created_at := t |> <| pr_last_chunk_at := t |>);
  ri_again req p rate ch fmt : should_use_local hb req = true → K p →
    K (p <| pr_sample_rate := rate |> <| pr_channels := ch |> <| pr_format := fmt |>
         <| pr_state := PS.Streaming |>);
  ri_chunk p data fin usage t : chunks → K p → K (chunked data fin usage t p);
  ri_state p s : s = PS.Failed ∨ s = PS.Cancelled → K p → K (p <| pr_state := s |>);
  ri_code p c : K p → K (p <| pr_status_code := c |>);
  ri_msg p m : K p → K (p <| pr_status_msg := m |>);
}.

Abbreviation request_inv := (request_inv_if True).

(** Messages from upstream. *)
Definition is_response (m : Message) : Prop := ∃ r, m = MsgResponse r.

Lemma request_inv_True hb : request_inv hb (λ _, True).
Proof. by split. Qed.

(** ** Handlers are compositions of elementary steps *)

(** Peel elementary updates off the target, outermost first. *)
Ltac micros :=
  repeat first
    [ reflexivity
    | assumption
    | lazymatch goal with
      | |- rtc _ _ (on_pool _ _) => eapply rtc_r; [|apply mi_pool]
      | |- rtc _ _ (on_pending _ _) => eapply rtc_r; [|apply mi_pending]
      | |- rtc _ _ (on_metrics _ _) => eapply rtc_r; [|apply mi_metrics]
      | |- rtc _ _ (on_changeset _ _) => eapply rtc_r; [|apply mi_changeset]
      | |- rtc _ _ (note_session _ _) => eapply rtc_r; [|apply mi_note_session]
      | |- rtc _ _ (note_request _ _) => eapply rtc_r; [|apply mi_note_request]
      | |- rtc _ _ (world_publish_async _ _) => eapply rtc_r; [|apply mi_async]
      | |- rtc _ _ (set_member (λ _, S _) _) => eapply rtc_r; [|apply mi_read]
      end ];
  try (intros _; apply u64_range); try (intros H; exact H); auto with micro.

Section handlers.
Context {Ord : UMapOrder} {J : NlohmannJson} (env : Env) (hb : HeartbeatConfig).
Context (chunks : Prop) (K : PendingRequest → Prop) (HK : request_inv_if chunks hb K).
Abbreviation steps := (rtc (micro env K)).

Lemma steps_foldl {A} (f : World → A → World) (l : list A) w :
  (∀ w x, steps w (f w x)) → steps w (foldl f w l).
Proof.
  intros Hf. revert w. induction l as [|x l IH]; intros w; simpl; [reflexivity|].
  etrans; [apply Hf|apply IH].
Qed.

Lemma steps_steady_if c w : steps w (steady_now_if env c w).2.
Proof. destruct c; simpl; [eapply rtc_once, mi_read|reflexivity]. Qed.

Lemma steps_local req w :
  should_use_local hb req = true → steps w (handle_request_local env req w).
Proof.
  intros Hl. unfold handle_request_local.
  set (w1 := match store_get _ _ with None => _ | Some _ => _ end).
  assert (steps w w1) as H1.
  { unfold w1. destruct (store_get _ _) as [p|].
    - micros. apply pend_safe_modify. intros q. split; [done|].
      by apply (ri_again _ _ _ HK req).
    - unfold steady_now. cbv beta iota zeta. micros.
      apply pend_safe_add. by apply (ri_local _ _ _ HK req). }
  micros.
Qed.

Lemma steps_acquire req w : steps w (acquire_or_create_session env req w).2.
Proof.
  unfold acquire_or_create_session.
  destruct (find_idle_least_recently_used _) as [s|].
  - unfold steady_now. cbv beta iota zeta. cbn [snd]. micros.
  - unfold generate_session_id, next_draw. cbv beta iota zeta.
    destruct (pool_add _ _) as [ok p] eqn:E.
    apply (f_equal snd) in E. simpl in E.
    assert (steps w (on_pool (λ _, p) (w <| draws := S (draws w) |>))) as H.
    { rewrite <- E. apply rtc_once. exact (mi_new env K w). }
    by destruct ok.
Qed.

Lemma steps_upstream req w : steps w (handle_request_upstream env req w).
Proof.
  unfold handle_request_upstream. pose proof (steps_acquire req w) as Ha.
  destruct (acquire_or_create_session env req w) as [h w1]. simpl in Ha.
  destruct (String.eqb _ _); [micros|]. unfold bind_request, steady_now.
  cbv beta iota zeta. destruct (sh_reused h); simpl negb; cbv iota; micros;
    apply pend_safe_add, (ri_await _ _ _ HK).
Qed.

Lemma steps_request req w : steps w (handle_request env hb req w).
Proof.
  unfold handle_request.
  pose proof (evaluate_inflight (backpressure_cfg hb) (metrics_ (board_ w))) as Hi.
  destruct (evaluate (backpressure_cfg hb) (metrics_ (board_ w))) as [d m]. simpl in Hi.
  assert (steps w (on_metrics (λ _, m) w)) as H1.
  { micros. unfold inflight_of. by rewrite Hi. }
  destruct (negb (d_admit d)); [micros|]. etrans; [exact H1|].
  destruct (should_use_local hb req) eqn:E; [by apply steps_local|apply steps_upstream].
Qed.

Lemma steps_response (Hc : chunks) rsp w : steps w (handle_response env rsp w).
Proof.
  unfold handle_response. destruct (rs_kind rsp).
  - match goal with |- context [steady_now_if env ?c w] =>
      pose proof (steps_steady_if c w); destruct (steady_now_if env c w) as [t w1] end.
    cbn [snd] in *. micros.
  - reflexivity.
  - destruct (String.eqb _ _); [reflexivity|].
    match goal with |- context [steady_now_if env ?c w] =>
      pose proof (steps_steady_if c w); destruct (steady_now_if env c w) as [t w1] end.
    cbn [snd] in *. micros.
    intros st. rewrite append_chunk_modify. apply pend_safe_modify. intros p.
    split; [by destruct (rs_is_final rsp)|by apply (ri_chunk _ _ _ HK)].
  - micros.
  - assert (steps w (foldl (fail_task rsp) w
      (collect_by_session (rs_session_id rsp) (pending_ (board_ w))))) as H.
    { apply steps_foldl. intros w' x. unfold fail_task, set_state. micros;
        apply pend_safe_modify; intros p; (split; [done|]); apply HK; auto. }
    micros.
  - assert (steps w (foldl fail_disconnected w
      (collect_by_session (rs_session_id rsp) (pending_ (board_ w))))) as H.
    { apply steps_foldl. intros w' x. unfold fail_disconnected, set_state. micros.
      apply pend_safe_modify; intros p; (split; [done|]); apply HK; auto. }
    micros.
Qed.

Lemma steps_message_if w m : (is_response m → chunks) → steps w (handle_message env hb w m).
Proof.
  intros Hm. destruct m as [r|r|c|c|f]; simpl;
    [apply steps_request|by apply steps_response, Hm; eexists|..].
  - unfold handle_cancel, set_state. micros.
    apply pend_safe_modify; intros p; (split; [done|]); apply HK; auto.
  - unfold handle_local_complete. micros.
  - unfold handle_local_failed. micros.
Qed.

Lemma steps_emit w rid : steps w (emit_completed w rid).
Proof. unfold emit_completed. destruct (store_get _ _); [micros|reflexivity]. Qed.

Lemma steps_messages_if batch w :
  Forall (λ m, is_response m → chunks) batch →
  steps w (foldl (handle_message env hb) w batch).
Proof.
  intros HA. revert w. induction HA as [|m l Hm _ IH]; intros w; simpl; [reflexivity|].
  etrans; [by apply steps_message_if|apply IH].
Qed.

Lemma steps_batch_if batch w :
  Forall (λ m, is_response m → chunks) batch → steps w (process_batch env hb batch w).
Proof.
  intros HA. unfold process_batch. trans (foldl (handle_message env hb) w batch).
  - by apply steps_messages_if.
  - apply steps_foldl, steps_emit.
Qed.
End handlers.

Section all_messages.
Context {Ord : UMapOrder} {J : NlohmannJson} (env : Env) (hb : HeartbeatConfig).
Context (K : PendingRequest → Prop) (HK : request_inv hb K).

Lemma steps_message w m : rtc (micro env K) w (handle_message env hb w m).
Proof. by apply (steps_message_if env hb True). Qed.

Lemma steps_batch batch w : rtc (micro env K) w (process_batch env hb batch w).
Proof. apply (steps_batch_if env hb True); [done|]. by apply Forall_true. Qed.
End all_messages.
