(* ===== verification/HeartbeatFacts.v ===== *)
(** * Properties of the heartbeat (src/heartbeat/heartbeat.h)

    What each handler does to the change set, the in-flight gauge, the pool and
    the pending requests, and the properties of whole ticks and of executions of
    the server: sequences of arrivals on the two channels and ticks. *)

From Stdlib Require Import SpecFloat.
From S2P Require Import Prelude Messages ChangeSet CopyChannel HexCodec Metrics.
From S2P Require Import SessionPool PendingStore DataBoard Events EventBus LocalEngine.
From S2P Require Import WsFrameCodec Observability Backpressure Evolution World.
From S2P Require Import MessageProcessor Heartbeat HeartbeatSteps.

Implicit Types w : World.

(** The frames that start the synthesis of one request text. *)
Definition is_continue (f : OutWsFrame) : bool := bool_decide (of_op f = TaskContinue).
Definition continues (cs : ChangeSet) : nat :=
  length (filter (λ f, is_continue f = true) (ws_frames cs)).

(** Requests admitted minus responses written, as recorded in a change set. *)
Definition net_admitted (cs : ChangeSet) : Z :=
  (Z.of_nat (length (local_jobs cs)) + Z.of_nat (continues cs)
   - Z.of_nat (length (client_writes cs)))%Z.

(** ** Listeners never touch the in-flight gauge *)

Lemma listener_inflight l ev o :
  inflight_ (obs_metrics (listener_call l ev o)) = inflight_ (obs_metrics o).
Proof.
  destruct l, ev; try done. unfold listener_call, gate_on_tick, log_line.
  by repeat case_match.
Qed.

Lemma app_publish_inflight ev b o :
  inflight_ (obs_metrics (app_publish_sync ev b o)) = inflight_ (obs_metrics o).
Proof.
  unfold app_publish_sync, publish_sync, dispatch_sync.
  destruct (registry_ b !! event_type ev) as [slots|]; [|done].
  revert o. induction slots as [|sl slots IH]; intros o; simpl; [done|].
  by rewrite IH, listener_inflight.
Qed.

Lemma publish_sync_inflight ev w : inflight_of (world_publish_sync ev w) = inflight_of w.
Proof. apply app_publish_inflight. Qed.

(** Publishing to listeners changes nothing but metrics, gate and log. *)
Lemma publish_sync_frame ev w :
  let w' := world_publish_sync ev w in
  pool_of w' = pool_of w ∧ pending_of w' = pending_of w ∧
  changeset_ w' = changeset_ w ∧ request_channel_ w' = request_channel_ w ∧
  ws_event_channel_ w' = ws_event_channel_ w ∧ draws w' = draws w ∧ reads w' = reads w ∧
  clock_ w' = clock_ w ∧ bus_ w' = bus_ w.
Proof. done. Qed.

Section facts.
Context {Ord : UMapOrder} {J : NlohmannJson} (env : Env) (hb : HeartbeatConfig).

(** ** The in-flight balance *)

(** In-flight gauge minus what the change set under construction accounts for. *)
Definition balance w : Z := u64 (inflight_of w - net_admitted (changeset_ w)).

Lemma acquire_frame req w :
  let w' := (acquire_or_create_session env req w).2 in
  metrics_ (board_ w') = metrics_ (board_ w) ∧ changeset_ w' = changeset_ w ∧
  pending_of w' = pending_of w ∧ changed w' = changed w ∧ clock_ w' = clock_ w ∧
  bus_ w' = bus_ w ∧ request_channel_ w' = request_channel_ w ∧
  ws_event_channel_ w' = ws_event_channel_ w.
Proof.
  unfold acquire_or_create_session.
  destruct (find_idle_least_recently_used _) as [idle|]; [done|].
  unfold generate_session_id, next_draw, pool_add. simpl.
  by destruct (Nat.leb _ _).
Qed.

Lemma continues_add f cs :
  continues (add_ws_frame f cs) = continues cs + (if is_continue f then 1 else 0).
Proof.
  unfold continues. simpl. rewrite filter_app, length_app. f_equal.
  destruct (is_continue f) eqn:E.
  - by rewrite filter_cons_True.
  - by rewrite filter_cons_False by congruence.
Qed.

Lemma net_add_frame f cs :
  net_admitted (add_ws_frame f cs) =
  (net_admitted cs + (if is_continue f then 1 else 0))%Z.
Proof. unfold net_admitted. rewrite continues_add. simpl. destruct (is_continue f); lia. Qed.

Lemma net_add_job j cs : net_admitted (add_local_job j cs) = (net_admitted cs + 1)%Z.
Proof. unfold net_admitted, continues. simpl. rewrite length_app. simpl. lia. Qed.

Lemma net_add_write x cs : net_admitted (add_client_write x cs) = (net_admitted cs - 1)%Z.
Proof. unfold net_admitted, continues. simpl. rewrite length_app. simpl. lia. Qed.

(** Effect of the elementary updates on the balance. *)
Lemma balance_u64 w : u64 (balance w) = balance w.
Proof. apply u64_small, u64_range. Qed.

Lemma balance_pool f w : balance (on_pool f w) = balance w.
Proof. done. Qed.
Lemma balance_pending f w : balance (on_pending f w) = balance w.
Proof. done. Qed.
Lemma balance_note_session sid w : balance (note_session sid w) = balance w.
Proof. done. Qed.
Lemma balance_note_request rid w : balance (note_request rid w) = balance w.
Proof. done. Qed.
Lemma balance_async ev w : balance (world_publish_async ev w) = balance w.
Proof. done. Qed.
Lemma balance_reads n w : balance (w <| reads := n |>) = balance w.
Proof. done. Qed.
Lemma balance_steady_if c w : balance (steady_now_if env c w).2 = balance w.
Proof. by destruct c. Qed.

Lemma balance_metrics f w :
  (∀ m, inflight_ (f m) = inflight_ m) → balance (on_metrics f w) = balance w.
Proof. intros Hf. unfold balance, inflight_of. simpl. by rewrite Hf. Qed.

Lemma balance_inc w : balance (on_metrics (inc_inflight 1) w) = u64 (balance w + 1).
Proof.
  unfold balance, inflight_of. simpl. rewrite u64_sub_l, u64_add_l. f_equal. lia.
Qed.
Lemma balance_dec w : balance (on_metrics (dec_inflight 1) w) = u64 (balance w - 1).
Proof.
  unfold balance, inflight_of. simpl. rewrite !u64_sub_l. f_equal. lia.
Qed.
Lemma balance_frame f w :
  balance (on_changeset (add_ws_frame f) w) =
  u64 (balance w - (if is_continue f then 1 else 0)).
Proof.
  unfold balance, inflight_of. cbn [changeset_ board_ on_changeset set_member].
  rewrite net_add_frame, u64_sub_l. f_equal. lia.
Qed.
Lemma is_continue_start sid req : is_continue (start_frame sid req) = false.
Proof. done. Qed.
Lemma is_continue_continue sid req : is_continue (continue_frame sid req) = true.
Proof. done. Qed.

Lemma balance_job j w : balance (on_changeset (add_local_job j) w) = u64 (balance w - 1).
Proof.
  unfold balance, inflight_of. cbn [changeset_ board_ on_changeset set_member].
  rewrite net_add_job, u64_sub_l. f_equal. lia.
Qed.
Lemma balance_write x w : balance (on_changeset (add_client_write x) w) = u64 (balance w + 1).
Proof.
  unfold balance, inflight_of. cbn [changeset_ board_ on_changeset set_member].
  rewrite net_add_write, u64_add_l. f_equal. lia.
Qed.
End facts.

Create Rewrite HintDb balance.
#[export] Hint Rewrite @balance_pool @balance_pending @balance_note_session
  @balance_note_request @balance_async @balance_reads Z.sub_0_r @balance_steady_if @balance_inc @balance_dec
  @is_continue_start @is_continue_continue @balance_frame @balance_job @balance_write u64_add_l u64_sub_l : balance.

(** Normalise a balance goal: push [balance] through the updates, then compare. *)
Ltac solve_balance :=
  repeat first
    [ progress autorewrite with balance
    | rewrite balance_metrics by (intros; reflexivity) ];
  lazymatch goal with
  | |- u64 _ = balance ?w => etrans; [|apply (balance_u64 w)]; f_equal; try lia
  | |- _ => try done
  end.

Section balance.
Context {Ord : UMapOrder} {J : NlohmannJson} (env : Env) (hb : HeartbeatConfig).

Lemma balance_local req w : balance (handle_request_local env req w) = balance w.
Proof.
  unfold handle_request_local.
  set (w1 := match store_get _ _ with None => _ | Some _ => _ end).
  assert (balance w1 = balance w) as <- by (unfold w1; by destruct (store_get _ _)).
  solve_balance.
Qed.

Lemma balance_upstream req w : balance (handle_request_upstream env req w) = balance w.
Proof.
  unfold handle_request_upstream.
  destruct (acquire_frame env req w) as (Hm & Hc & _).
  destruct (acquire_or_create_session env req w) as [h w1]. simpl in Hm, Hc.
  assert (balance w1 = balance w) as <-
    by (unfold balance, inflight_of; by rewrite Hm, Hc).
  destruct (String.eqb _ _); [done|]. unfold bind_request, steady_now.
  destruct (sh_reused h); simpl negb; cbv iota zeta; solve_balance.
Qed.

Lemma balance_request req w : balance (handle_request env hb req w) = balance w.
Proof.
  unfold handle_request.
  pose proof (evaluate_inflight (backpressure_cfg hb) (metrics_ (board_ w))) as Hi.
  destruct (evaluate (backpressure_cfg hb) (metrics_ (board_ w))) as [d m]. simpl in Hi.
  assert (balance (on_metrics (λ _, m) w) = balance w) as <-
    by (unfold balance, inflight_of; simpl; by rewrite Hi).
  destruct (negb (d_admit d)); [solve_balance|].
  destruct (should_use_local hb req); [apply balance_local|apply balance_upstream].
Qed.

Lemma balance_foldl {A} (f : World → A → World) (l : list A) w :
  (∀ w x, balance (f w x) = balance w) → balance (foldl f w l) = balance w.
Proof.
  intros Hf. revert w. induction l as [|x l IH]; intros w; simpl; [done|].
  by rewrite IH, Hf.
Qed.

Lemma balance_response rsp w : balance (handle_response env rsp w) = balance w.
Proof.
  unfold handle_response. destruct (rs_kind rsp).
  - pose proof (balance_steady_if env
      (bool_decide (is_Some (pool_get (rs_session_id rsp) (session_pool_ (board_ w))))) w) as H.
    destruct (steady_now_if _ _ _) as [t w1]. simpl in H. rewrite <- H. solve_balance.
  - done.
  - destruct (String.eqb _ _); [done|].
    match goal with |- context [steady_now_if env ?c w] =>
      pose proof (balance_steady_if env c w) as H; destruct (steady_now_if env c w) as [t w1] end.
    simpl in H. rewrite <- H. solve_balance.
  - solve_balance.
  - rewrite balance_note_session, balance_pool, balance_foldl; [done|].
    intros. unfold fail_task. solve_balance.
  - rewrite balance_note_session, balance_pool, balance_foldl; [done|].
    intros. unfold fail_disconnected. solve_balance.
Qed.

Lemma balance_message m w : balance (handle_message env hb w m) = balance w.
Proof.
  destruct m as [r|r|c|c|f]; simpl.
  - apply balance_request.
  - apply balance_response.
  - unfold handle_cancel. solve_balance.
  - unfold handle_local_complete. solve_balance.
  - unfold handle_local_failed. solve_balance.
Qed.

Lemma balance_emit rid w : balance (emit_completed w rid) = balance w.
Proof.
  unfold emit_completed. destruct (store_get _ _); [|done]. solve_balance.
Qed.

Lemma balance_batch batch w : balance (process_batch env hb batch w) = balance w.
Proof.
  unfold process_batch. rewrite balance_foldl by (intros; apply balance_emit).
  apply balance_foldl. intros; apply balance_message.
Qed.
End balance.

(** ** The parts of a tick *)

Section tick.
Context {Ord : UMapOrder} {J : NlohmannJson} (env : Env) (hb : HeartbeatConfig).

(** The messages a tick handles, the world it starts handling them in, and the
    world after the handlers and the emissions. *)
Definition tick_batch w : list Message :=
  buffer_ (request_channel_ w) ++ buffer_ (ws_event_channel_ w).
Definition tick_start w : World :=
  (drain_batch (clock_now env w).2).2 <| changed := no_changes |>.
Definition tick_mid w : World := process_batch env hb (tick_batch w) (tick_start w).

Lemma clock_now_frame w : ∃ n, (clock_now env w).2 = w <| reads := n |>.
Proof.
  unfold clock_now, steady_now. destruct (clock_ w); simpl; [by eexists|].
  exists (reads w). by destruct w.
Qed.

Lemma tick_start_frame w :
  board_ (tick_start w) = board_ w ∧ changeset_ (tick_start w) = changeset_ w ∧
  draws (tick_start w) = draws w ∧ clock_ (tick_start w) = clock_ w ∧
  request_channel_ (tick_start w) = mkChannel [] (closed_ (request_channel_ w)) ∧
  ws_event_channel_ (tick_start w) = mkChannel [] (closed_ (ws_event_channel_ w)) ∧
  count_ (tick_start w) = count_ w.
Proof.
  unfold tick_start. destruct (clock_now_frame w) as [n ->].
  by rewrite drain_batch_spec.
Qed.

Lemma tick_spec w cs w' :
  tick env hb w = (cs, w') →
  let w1 := tick_mid w in
  let '(closes, b) := evolve (clock_now env w1).1 (changed w1) (board_ w1) in
  cs = add_closes closes (changeset_ w1) ∧
  pool_of w' = session_pool_ b ∧ pending_of w' = pending_ b ∧
  inflight_of w' = inflight_of w1 ∧ changeset_ w' = cs_empty ∧
  request_channel_ w' = request_channel_ w1 ∧ ws_event_channel_ w' = ws_event_channel_ w1 ∧
  draws w' = draws w1 ∧ clock_ w' = clock_ w1 ∧ count_ w' = u64 (count_ w1 + 1).
Proof.
  intros Ht w1. unfold tick in Ht.
  pose proof (eq_refl (tick_start w)) as Hs. unfold tick_start at 1 in Hs.
  destruct (clock_now_frame w) as [n0 E0].
  destruct (clock_now env w) as [t0 w0]. cbn [snd] in E0, Hs. subst w0.
  rewrite drain_batch_spec in Ht, Hs. cbv beta iota in Ht. cbn [snd] in Hs.
  rewrite Hs in Ht. fold (tick_batch (w <| reads := n0 |>)) in Ht.
  change (tick_batch (w <| reads := n0 |>)) with (tick_batch w) in Ht.
  change (process_batch env hb (tick_batch w) (tick_start w)) with (tick_mid w) in Ht.
  fold w1 in Ht. destruct (clock_now_frame w1) as [n1 E1].
  destruct (clock_now env w1) as [now w2]. cbn [snd] in E1. subst w2. cbn [fst].
  change (changed (w1 <| reads := n1 |>)) with (changed w1) in Ht.
  change (board_ (w1 <| reads := n1 |>)) with (board_ w1) in Ht.
  destruct (evolve now (changed w1) (board_ w1)) as [closes b] eqn:Ee.
  assert (inflight_ (metrics_ b) = inflight_of w1) as Hi.
  { pose proof (evolve_unfold now (changed w1) (board_ w1)) as Hu.
    rewrite Ee in Hu. by injection Hu as _ ->. }
  cbn [collect] in Ht.
  match type of Ht with context [clock_now env ?w3] =>
    destruct (clock_now_frame w3) as [n2 E2];
    destruct (clock_now env w3) as [t1 w4] end.
  cbn [snd] in E2. subst w4. injection Ht as <- <-.
  split; [done|]. split_and!; try done.
  unfold inflight_of at 1. cbn [board_ metrics_]. rewrite app_publish_inflight. exact Hi.
Qed.

Lemma tick_mid_frame w :
  request_channel_ (tick_mid w) = mkChannel [] (closed_ (request_channel_ w)) ∧
  ws_event_channel_ (tick_mid w) = mkChannel [] (closed_ (ws_event_channel_ w)) ∧
  clock_ (tick_mid w) = clock_ w ∧ count_ (tick_mid w) = count_ w.
Proof.
  destruct (micros_frame env (λ _, True) _ _ (steps_batch env hb (λ _, True)
    (request_inv_True hb) (tick_batch w) (tick_start w))) as (F1 & F2 & F3 & _ & _ & _ & F4).
  destruct (tick_start_frame w) as (_ & _ & _ & G3 & G1 & G2 & G4).
  unfold tick_mid. by rewrite F1, F2, F3, F4.
Qed.

(** A tick empties both channels. *)
Lemma tick_channels w cs w' :
  tick env hb w = (cs, w') →
  request_channel_ w' = mkChannel [] (closed_ (request_channel_ w)) ∧
  ws_event_channel_ w' = mkChannel [] (closed_ (ws_event_channel_ w)) ∧
  clock_ w' = clock_ w ∧ count_ w' = u64 (count_ w + 1).
Proof.
  intros Ht. pose proof (tick_spec w cs w' Ht) as Hsp. simpl in Hsp.
  destruct (evolve _ _ _) as [closes b]. destruct_and!.
  destruct (tick_mid_frame w) as (F1 & F2 & F3 & F4). split_and!; congruence.
Qed.
End tick.

(** ** What is written to clients *)

(** The response a message from the local engine makes. *)
Definition local_write (m : Message) : option WriteToClient :=
  match m with
  | MsgLocalComplete c => Some (local_complete_write c)
  | MsgLocalFailed f => Some (local_failed_write f)
  | _ => None
  end.

Definition writes_of w : list WriteToClient := client_writes (changeset_ w).

Section writes.
Context {Ord : UMapOrder} {J : NlohmannJson} (env : Env) (hb : HeartbeatConfig).

Lemma writes_foldl {A} (f : World → A → World) (l : list A) w :
  (∀ w x, writes_of (f w x) = writes_of w) → writes_of (foldl f w l) = writes_of w.
Proof.
  intros Hf. revert w. induction l as [|x l IH]; intros w; simpl; [done|].
  by rewrite IH, Hf.
Qed.

Lemma writes_request req w : writes_of (handle_request env hb req w) = writes_of w.
Proof.
  unfold handle_request. destruct (evaluate _ _) as [d m].
  destruct (negb (d_admit d)); [done|]. destruct (should_use_local hb req).
  - unfold handle_request_local. by destruct (store_get _ _).
  - unfold handle_request_upstream.
    destruct (acquire_frame env req (on_metrics (λ _, m) w)) as (_ & Hc & _).
    destruct (acquire_or_create_session _ _ _) as [h w1]. cbn [snd] in Hc.
    destruct (String.eqb _ _); unfold writes_of.
    + by cbn; rewrite Hc.
    + by destruct (sh_reused h); cbn; rewrite Hc.
Qed.

Lemma writes_response rsp w : writes_of (handle_response env rsp w) = writes_of w.
Proof.
  unfold handle_response, steady_now_if. destruct (rs_kind rsp); try done.
  - by destruct (bool_decide _).
  - destruct (String.eqb _ _); [done|]. by destruct (bool_decide _).
  - by refine (eq_trans _ (writes_foldl (fail_task rsp)
      (collect_by_session (rs_session_id rsp) (pending_ (board_ w))) w _)).
  - by refine (eq_trans _ (writes_foldl fail_disconnected
      (collect_by_session (rs_session_id rsp) (pending_ (board_ w))) w _)).
Qed.

Lemma writes_messages batch w :
  writes_of (foldl (handle_message env hb) w batch) = writes_of w ++ omap local_write batch.
Proof.
  revert w. induction batch as [|m batch IH]; intros w; [by rewrite app_nil_r|].
  rewrite omap_cons_eq. simpl. rewrite IH.
  destruct m as [r|r|c|c|f]; simpl.
  - by rewrite writes_request.
  - by rewrite writes_response.
  - done.
  - by rewrite cons_middle, app_assoc.
  - by rewrite cons_middle, app_assoc.
Qed.

(** The responses for a list of requests of the store, in that order. *)
Definition completed_writes (st : PendingRequestStore) (ids : list string)
    : list WriteToClient :=
  omap (λ rid, completed_write rid <$> st !! rid) ids.

Lemma emit_one w rid :
  writes_of (emit_completed w rid) =
    writes_of w ++ option_list (completed_write rid <$> pending_of w !! rid) ∧
  pending_of (emit_completed w rid) = delete rid (pending_of w).
Proof.
  unfold emit_completed, store_get. change (pending_ (board_ w)) with (pending_of w).
  destruct (pending_of w !! rid) as [p|] eqn:E; [done|].
  split; [by rewrite app_nil_r|]. by rewrite delete_id.
Qed.

Lemma completed_writes_ext (st st' : PendingRequestStore) ids :
  (∀ y, y ∈ ids → st !! y = st' !! y) → completed_writes st ids = completed_writes st' ids.
Proof.
  unfold completed_writes. intros H.
  induction ids as [|y ids IH]; [done|]. rewrite !omap_cons_eq, H by left.
  rewrite IH; [done|]. intros z Hz. apply H. by right.
Qed.

Lemma emit_completed_spec ids w :
  NoDup ids →
  writes_of (foldl emit_completed w ids) = writes_of w ++ completed_writes (pending_of w) ids ∧
  pending_of (foldl emit_completed w ids) = foldr delete (pending_of w) ids.
Proof.
  intros Hn. revert w. induction Hn as [|x ids Hx Hn IH]; intros w; [by rewrite app_nil_r|].
  simpl. destruct (IH (emit_completed w x)) as [-> ->]. destruct (emit_one w x) as [-> ->].
  split.
  - rewrite <- app_assoc. f_equal.
    rewrite (completed_writes_ext _ (pending_of w))
      by (intros y Hy; apply lookup_delete_ne; by intros ->).
    unfold completed_writes. simpl. by destruct (pending_of w !! x).
  - clear. induction ids as [|y ids IH]; simpl; [done|]. rewrite IH. apply delete_delete.
Qed.
End writes.

Section tick_writes.
Context {Ord : UMapOrder} {J : NlohmannJson} (env : Env) (hb : HeartbeatConfig).

Lemma tick_writes w cs w' :
  tick env hb w = (cs, w') → changeset_ w = cs_empty →
  let w1 := foldl (handle_message env hb) (tick_start env w) (tick_batch w) in
  client_writes cs = omap local_write (tick_batch w) ++
    completed_writes (pending_of w1) (find_ready_to_emit (pending_of w1)).
Proof.
  intros Ht Hcs w1. pose proof (tick_spec env hb w cs w' Ht) as Hsp. simpl in Hsp.
  destruct (evolve _ _ _) as [closes b]. destruct Hsp as [-> _].
  rewrite add_closes_spec. cbn [client_writes]. unfold tick_mid, process_batch. fold w1.
  change (client_writes (changeset_ ?x)) with (writes_of x).
  destruct (emit_completed_spec (find_ready_to_emit (pending_ (board_ w1))) w1) as [-> _];
    [apply NoDup_um_collect|].
  unfold w1 at 1. rewrite writes_messages. unfold writes_of.
  destruct (tick_start_frame env w) as (_ & -> & _). by rewrite Hcs.
Qed.
End tick_writes.
