(* ===== verification/RequestFacts.v ===== *)
(** * What happens to a request (src/heartbeat/heartbeat.h: [handle_request])

    The outcome of [handle_request] on each of its branches: refused by
    backpressure, handed to the local engine, sent on a reused session, sent on a
    new session, refused because the pool is full. *)

From Stdlib Require Import SpecFloat.
From S2P Require Import Prelude Messages ChangeSet CopyChannel HexCodec Metrics.
From S2P Require Import SessionPool PendingStore DataBoard Events EventBus LocalEngine.
From S2P Require Import WsFrameCodec Observability Backpressure Evolution World.
From S2P Require Import MessageProcessor Heartbeat Demo HeartbeatSteps HeartbeatFacts.

Implicit Types (w : World) (req : TtsRequestMsg).

(** The condition under which backpressure lets a request in. *)
Definition admitted (hb : HeartbeatConfig) w : Prop :=
  (inflight_of w < high_watermark_ (backpressure_cfg hb))%Z ∧
  (queued_ (metrics_ (board_ w)) < queue_high_watermark_ (backpressure_cfg hb))%Z.

(** The events waiting for the bus workers. *)
Definition inbox_of w : list BusEvent := inbox_ (bus_ w).

(** The pending entry of an upstream request, up to its time stamps. *)
Definition awaiting_entry req (sid : string) (t : TimePoint) : PendingRequest :=
  PendingRequest_default <| pr_request_id := rq_request_id req |>
    <| pr_session_id := sid |> <| pr_state := PS.AwaitingSession |>
    <| pr_sample_rate := sample_rate (rq_audio req) |>
    <| pr_channels := channel (rq_audio req) |> <| pr_format := format (rq_audio req) |>
    <| pr_created_at := t |> <| pr_last_chunk_at := t |>.

Section request.
Context {J : NlohmannJson} (env : Env) (hb : HeartbeatConfig).

Lemma evaluate_admitted w :
  d_admit (evaluate (backpressure_cfg hb) (metrics_ (board_ w))).1 = true ↔ admitted hb w.
Proof.
  pose proof (evaluate_spec (backpressure_cfg hb) (metrics_ (board_ w))) as H.
  destruct (evaluate _ _) as [d m]. apply H.
Qed.

(** The world after the backpressure evaluation. *)
Definition evaluated w : World :=
  on_metrics (λ _, (evaluate (backpressure_cfg hb) (metrics_ (board_ w))).2) w.

Lemma evaluated_frame w :
  pool_of (evaluated w) = pool_of w ∧ pending_of (evaluated w) = pending_of w ∧
  inflight_of (evaluated w) = inflight_of w ∧ changeset_ (evaluated w) = changeset_ w ∧
  inbox_of (evaluated w) = inbox_of w ∧ changed (evaluated w) = changed w.
Proof. split_and!; try done. apply evaluate_inflight. Qed.

Lemma handle_request_cases req w :
  (admitted hb w ∧ handle_request env hb req w =
     if should_use_local hb req then handle_request_local env req (evaluated w)
     else handle_request_upstream env req (evaluated w)) ∨
  (¬ admitted hb w ∧ handle_request env hb req w =
     world_publish_async (send_failed (rq_request_id req) "backpressure_admission_denied")
       (evaluated w)).
Proof.
  pose proof (evaluate_admitted w) as H. unfold handle_request, evaluated.
  destruct (evaluate _ _) as [d m]. simpl in *. destruct (d_admit d); simpl.
  - left. split; [by apply H|done].
  - right. split; [|done]. intros Ha%H. done.
Qed.


(** Local branch.  An admitted request for which the local engine is chosen
    adds exactly one local synthesis job, made from its text and voice, to the
    change set and one to the in-flight gauge; its pending entry is [Streaming] with
    the requested sample rate and channels and format PCM, the other requests and
    the session pool are untouched, and no frame or response is produced. *)
Theorem request_local req w :
  admitted hb w → should_use_local hb req = true →
  let w' := handle_request env hb req w in
  changeset_ w' = add_local_job (local_job req) (changeset_ w) ∧
  inflight_of w' = u64 (inflight_of w + 1) ∧ pool_of w' = pool_of w ∧
  inbox_of w' = inbox_of w ∧
  (∃ p, store_get (rq_request_id req) (pending_of w') = Some p ∧
     pr_state p = PS.Streaming ∧ pr_sample_rate p = sample_rate (rq_audio req) ∧
     pr_channels p = channel (rq_audio req) ∧ pr_format p = AF.Pcm) ∧
  (∀ rid, rid ≠ rq_request_id req →
     store_get rid (pending_of w') = store_get rid (pending_of w)).
Proof.
  intros Ha Hl w'. destruct (handle_request_cases req w) as [[_ E]|[Hn _]]; [|done].
  unfold w'. rewrite E, Hl. destruct (evaluated_frame w) as (H1 & H2 & H3 & H4 & H5 & _).
  clear E w'. set (w0 := evaluated w) in *.
  rewrite <- H1, <- H2, <- H3, <- H4, <- H5. clear H1 H2 H3 H4 H5. clearbody w0.
  unfold handle_request_local, store_get, pending_of.
  destruct (pending_ (board_ w0) !! rq_request_id req) as [p|] eqn:Ep;
    (split_and!; [done..| |]); simpl.
  - eexists. rewrite lookup_modify, decide_True, Ep by done. simpl. split; [done|]. done.
  - intros rid Hne. by rewrite lookup_modify, decide_False.
  - eexists. unfold store_add. simpl. rewrite lookup_insert_eq. split; [done|]. done.
  - intros rid Hne. unfold store_add. simpl. by rewrite lookup_insert_ne.
Qed.

(** The frames, the pending entry and the gauge of a request that got a session. *)
Definition sent_on (sid : string) (reused : bool) req w w' : Prop :=
  changeset_ w' = add_ws_frame (continue_frame sid req)
    (if reused then changeset_ w else add_ws_frame (start_frame sid req) (changeset_ w)) ∧
  inflight_of w' = u64 (inflight_of w + 1) ∧
  (∃ t, pending_of w' = <[rq_request_id req := awaiting_entry req sid t]> (pending_of w)) ∧
  inbox_of w' = inbox_of w.

(** The part of the upstream branch after a session was found. *)
Definition send_on (h : SessionHandle) req w : World :=
  let sid := sh_session_id h in
  let rid := rq_request_id req in
  let w := bind_request env rid h req w in
  let w := note_session sid w in
  let w := note_request rid w in
  let w := on_pool (set_current_request sid rid) w in
  let w := if negb (sh_reused h)
           then on_changeset (add_ws_frame (start_frame sid req)) w else w in
  on_changeset (add_ws_frame (continue_frame sid req)) w.

Lemma handle_request_upstream_eq req w :
  handle_request_upstream env req w =
  let '(h, w) := acquire_or_create_session env req w in
  if String.eqb (sh_session_id h) "" then
    world_publish_async (send_failed (rq_request_id req) "no_session_available") w
  else send_on h req w.
Proof. done. Qed.

Lemma send_on_spec h req w :
  sent_on (sh_session_id h) (sh_reused h) req w (send_on h req w) ∧
  pool_of (send_on h req w) =
    set_current_request (sh_session_id h) (rq_request_id req) (pool_of w).
Proof.
  unfold send_on, bind_request, steady_now. cbv beta iota zeta.
  destruct (sh_reused h); (split; [split_and!|]; try done; by eexists).
Qed.

(** Binding a pooled session to a request. *)
Lemma set_current_refines p sid rid :
  pool_wf p →
  pool_view (set_current_request sid rid p) =
    LruSpec.update sid (λ s, s <| sr_current_request_id := rid |>) (pool_view p) ∧
  pool_wf (set_current_request sid rid p).
Proof. intros Hwf. destruct (pool_apply_refines p (OpSetRequest sid rid) Hwf I) as (? & ? & _). done. Qed.

Lemma upstream_reused req w s :
  pool_wf (pool_of w) → pool_get "" (pool_of w) = None →
  LruSpec.oldest_ready (pool_view (pool_of w)) = Some s →
  let w' := handle_request_upstream env req w in
  pool_wf (pool_of w') ∧ sent_on (sr_session_id s) true req w w' ∧
  ∃ t, pool_view (pool_of w') =
    LruSpec.touch (sr_session_id s) (λ s, s <| sr_state := SS.Streaming |>
      <| sr_last_active_at := t |> <| sr_current_request_id := rq_request_id req |>)
      (pool_view (pool_of w)).
Proof.
  intros Hwf Hne Ho w'. pose proof (oldest_ready_pooled _ _ Hwf Ho) as Hs.
  unfold w'. rewrite handle_request_upstream_eq. unfold acquire_or_create_session.
  change (session_pool_ (board_ w)) with (pool_of w). rewrite find_idle_spec, Ho.
  unfold steady_now. set (t := steady_reading env (reads w)). cbv beta iota zeta.
  cbn [sh_session_id].
  assert (String.eqb (sr_session_id s) "" = false) as ->.
  { apply String.eqb_neq. intros Hn. rewrite Hn in Hs. unfold pool_get in Hne. congruence. }
  change (sent_on (sr_session_id s) true req w) with
    (sent_on (sr_session_id s) true req
       (on_pool (mark_active (sr_session_id s) t) (w <| reads := S (reads w) |>))).
  destruct (send_on_spec (mkHandle (sr_session_id s) true) req
    (on_pool (mark_active (sr_session_id s) t) (w <| reads := S (reads w) |>))) as [H1 H2].
  cbn [sh_session_id sh_reused] in H1, H2.
  destruct (pool_apply_refines (pool_of w) (OpMarkActive (sr_session_id s) t) Hwf I)
    as (Hv & Hw & _).
  destruct (set_current_refines _ (sr_session_id s) (rq_request_id req) Hw) as [Hv' Hw'].
  rewrite H2. split; [exact Hw'|]. split; [exact H1|]. exists t.
  refine (eq_trans Hv' _). rewrite Hv. apply spec_update_touch.
Qed.

Lemma upstream_new req w :
  pool_wf (pool_of w) → LruSpec.oldest_ready (pool_view (pool_of w)) = None →
  let fresh := session_id_of (rng_draw env (draws w)) in
  pool_get fresh (pool_of w) = None →
  length (pool_view (pool_of w)) < max_size_ (pool_of w) →
  let w' := handle_request_upstream env req w in
  pool_wf (pool_of w') ∧ sent_on fresh false req w w' ∧
  pool_view (pool_of w') =
    (fresh, (new_session fresh) <| sr_current_request_id := rq_request_id req |>)
      :: pool_view (pool_of w).
Proof.
  intros Hwf Ho fresh Hf Hlt w'.
  destruct (add_refines (pool_of w) Hwf (new_session fresh)) as (Hv & Hw & _ & Hok).
  { simpl. by rewrite view_get. }
  apply Hok in Hlt as Hadd. unfold LruSpec.insert in Hv. rewrite decide_False in Hv by lia.
  unfold w'. rewrite handle_request_upstream_eq. unfold acquire_or_create_session.
  change (session_pool_ (board_ w)) with (pool_of w). rewrite find_idle_spec, Ho.
  unfold generate_session_id, next_draw. cbv beta iota zeta.
  fold (session_id_of (rng_draw env (draws w))). fold fresh. fold (new_session fresh).
  change (session_pool_ (board_ (w <| draws := S (draws w) |>))) with (pool_of w).
  destruct (pool_add (new_session fresh) (pool_of w)) as [ok p]. simpl in Hadd, Hv, Hw. subst ok.
  cbn [negb sh_session_id]. assert (String.eqb fresh "" = false) as -> by done.
  change (sent_on fresh false req w) with
    (sent_on fresh false req (on_pool (λ _, p) (w <| draws := S (draws w) |>))).
  destruct (send_on_spec (mkHandle fresh false) req
    (on_pool (λ _, p) (w <| draws := S (draws w) |>))) as [H1 H2].
  cbn [sh_session_id sh_reused] in H1, H2.
  destruct (set_current_refines _ fresh (rq_request_id req) Hw) as [Hv' Hw'].
  rewrite H2. split; [exact Hw'|]. split; [exact H1|].
  refine (eq_trans Hv' _). rewrite Hv. unfold LruSpec.update. rewrite fmap_cons. cbn [fst snd].
  rewrite decide_True by done. f_equal.
  apply (spec_update_absent fresh). by rewrite view_get.
Qed.

Lemma upstream_full req w :
  pool_wf (pool_of w) → LruSpec.oldest_ready (pool_view (pool_of w)) = None →
  max_size_ (pool_of w) ≤ length (pool_view (pool_of w)) →
  let w' := handle_request_upstream env req w in
  pool_of w' = pool_of w ∧ pending_of w' = pending_of w ∧
  inflight_of w' = inflight_of w ∧ changeset_ w' = changeset_ w ∧
  inbox_of w' = inbox_of w ++ [send_failed (rq_request_id req) "no_session_available"].
Proof.
  intros Hwf Ho Hle w'. rewrite view_length in Hle by done.
  unfold w'. rewrite handle_request_upstream_eq. unfold acquire_or_create_session.
  change (session_pool_ (board_ w)) with (pool_of w). rewrite find_idle_spec, Ho.
  unfold generate_session_id, next_draw, pool_add. cbv beta iota zeta.
  change (session_pool_ (board_ (w <| draws := S (draws w) |>))) with (pool_of w).
  by rewrite (proj2 (Nat.leb_le _ _) Hle).
Qed.

(** C31: Upstream branch.  An admitted request that goes upstream takes the [Ready]
    session used longest ago, which becomes [Streaming], most recently used and
    bound to the request, and gets one continuation frame; without a [Ready]
    session a new [Connecting] one is put in front of the pool and gets a start
    frame and a continuation frame; when the pool is full the request is refused
    with a failure event and nothing else changes.  In the first two cases exactly
    one pending entry, for the request on that session, is filed. *)
Theorem request_upstream req w :
  admitted hb w → should_use_local hb req = false →
  pool_wf (pool_of w) → pool_get "" (pool_of w) = None →
  let fresh := session_id_of (rng_draw env (draws w)) in
  pool_get fresh (pool_of w) = None →
  let w' := handle_request env hb req w in
  let v := pool_view (pool_of w) in
  let rid := rq_request_id req in
  pool_wf (pool_of w') ∧
  match LruSpec.oldest_ready v with
  | Some s =>
      sent_on (sr_session_id s) true req w w' ∧
      ∃ t, pool_view (pool_of w') =
        LruSpec.touch (sr_session_id s) (λ s, s <| sr_state := SS.Streaming |>
          <| sr_last_active_at := t |> <| sr_current_request_id := rid |>) v
  | None =>
      if decide (length v < max_size_ (pool_of w)) then
        sent_on fresh false req w w' ∧
        pool_view (pool_of w') =
          (fresh, (new_session fresh) <| sr_current_request_id := rid |>) :: v
      else
        pool_of w' = pool_of w ∧ pending_of w' = pending_of w ∧
        inflight_of w' = inflight_of w ∧ changeset_ w' = changeset_ w ∧
        inbox_of w' = inbox_of w ++ [send_failed rid "no_session_available"]
  end.
Proof.
  intros Ha Hl Hwf Hne fresh Hf w' v rid.
  destruct (handle_request_cases req w) as [[_ E]|[Hn _]]; [|done].
  unfold w'. rewrite E, Hl. destruct (evaluated_frame w) as (H1 & H2 & H3 & H4 & H5 & _).
  unfold sent_on, v. rewrite <- H1, <- H2, <- H3, <- H4, <- H5.
  rewrite <- H1 in Hwf, Hne, Hf. change (draws w) with (draws (evaluated w)) in fresh.
  destruct (LruSpec.oldest_ready (pool_view (pool_of (evaluated w)))) as [s|] eqn:Eo.
  - by apply upstream_reused.
  - case_decide as Hd.
    + by apply upstream_new.
    + destruct (upstream_full req (evaluated w) Hwf Eo) as (F1 & F2 & F3 & F4 & F5); [lia|].
      rewrite F1. done.
Qed.
End request.

(** ** Instances *)


Lemma request_local_witness :
  local_jobs (changeset_ (handle_request (J:=demo_json) (demo_env 10) demo_local
                            (demo_request "r1" "hello") demo_world)) =
  [local_job (demo_request "r1" "hello")].
Proof.
  destruct (request_local (J:=demo_json) (demo_env 10) demo_local
              (demo_request "r1" "hello") demo_world) as [-> _].
  - split; vm_compute; reflexivity.
  - reflexivity.
  - reflexivity.
Defined.

Lemma request_upstream_witness :
  sent_on (J:=demo_json) (session_id_of 255) false (demo_request "r1" "hello") demo_world
    (handle_request (J:=demo_json) (demo_env 10) demo_upstream
       (demo_request "r1" "hello") demo_world).
Proof.
  refine (proj1 (proj2 (request_upstream (J:=demo_json) (demo_env 10) demo_upstream
            (demo_request "r1" "hello") demo_world _ _ _ _ _))).
  - split; vm_compute; reflexivity.
  - reflexivity.
  - apply (pool_new_wf 16 60 3600).
  - reflexivity.
  - reflexivity.
Defined.
