(* ===== verification/Server.v ===== *)
(** * Executions of the server (src/heartbeat/heartbeat.h, src/main.cpp)

    The heartbeat thread runs beside the threads that feed it.  A step of the
    server is the arrival of a message on one of the two channels, the passing of
    (virtual) time, one delivery by a bus worker, or one tick of the heartbeat.
    A tick drains the channels once and does not look at them again, so arrivals
    during a tick are arrivals after it.  The hash maps may iterate in another
    order at every tick. *)

From S2P Require Import Prelude Messages ChangeSet CopyChannel HexCodec Metrics.
From S2P Require Import SessionPool PendingStore DataBoard Events EventBus LocalEngine.
From S2P Require Import WsFrameCodec Observability Backpressure Evolution World.
From S2P Require Import MessageProcessor Heartbeat Demo HeartbeatSteps HeartbeatFacts.

Implicit Types w : World.

Section server.
Context {J : NlohmannJson} (env : Env) (hb : HeartbeatConfig).

(** [server_step w ms css w']: messages [ms] arrive, change sets [css] are
    handed over. *)
Inductive server_step : World → list Message → list ChangeSet → World → Prop :=
| sv_request m w ch :
    send m (request_channel_ w) = Ok ch →
    server_step w [m] [] (w <| request_channel_ := ch |>)
| sv_event m w ch :
    send m (ws_event_channel_ w) = Ok ch →
    server_step w [m] [] (w <| ws_event_channel_ := ch |>)
| sv_time d w : server_step w [] [] (w <| clock_ := clock_advance d (clock_ w) |>)
| sv_worker ev b w :
    inbox_try_pop (bus_ w) = Some (ev, b) →
    server_step w [] [] (world_publish_sync ev (w <| bus_ := b |>))
| sv_tick (Ord : UMapOrder) cs w w' :
    tick env hb w = (cs, w') → server_step w [] [cs] w'.

(** Executions, with the messages and the change sets in order. *)
Inductive server_exec : World → list Message → list ChangeSet → World → Prop :=
| se_nil w : server_exec w [] [] w
| se_snoc w ms css w1 ms' css' w2 :
    server_exec w ms css w1 → server_step w1 ms' css' w2 →
    server_exec w (ms ++ ms') (css ++ css') w2.

(** ** Invariants by rule induction *)

(** A predicate on the change sets so far and the state that arrivals, time and
    bus deliveries keep because it does not depend on what they change, and that
    ticks over allowed messages keep. *)
Lemma exec_invariant (P : list ChangeSet → World → Prop) (A : Message → Prop) :
  (∀ css w w', board_ w = board_ w' → changeset_ w = changeset_ w' → draws w = draws w' →
               P css w → P css w') →
  (∀ css ev w, P css w → P css (world_publish_sync ev w)) →
  (∀ (Ord : UMapOrder) css cs w w', Forall A (tick_batch w) →
      tick env hb w = (cs, w') → P css w → P (css ++ [cs]) w') →
  ∀ c ms css w, server_exec (world_new c) ms css w → Forall A ms →
    P [] (world_new c) → P css w ∧ Forall A (tick_batch w).
Proof.
  intros Hframe Hpub Htick c ms css w He. remember (world_new c) as w0 eqn:E0.
  induction He as [w|w ms css w1 ms' css' w2 He IH Hs]; intros HA HP.
  { split; [done|]. rewrite E0. constructor. }
  apply Forall_app in HA as [HA HA']. destruct (IH E0 HA HP) as [IP IA]. clear IH.
  destruct Hs as [m w1 ch Hc|m w1 ch Hc|d w1|ev b w1 Hb|Ord cs w1 w2 Ht];
    rewrite ?app_nil_r.
  - rewrite Forall_singleton in HA'. split; [by apply (Hframe _ w1)|].
    unfold send in Hc. destruct (closed_ _); [done|]. injection Hc as <-.
    unfold tick_batch in IA |- *. simpl. rewrite !Forall_app, Forall_singleton.
    apply Forall_app in IA as [? ?]. split_and!; done.
  - rewrite Forall_singleton in HA'. split; [by apply (Hframe _ w1)|].
    unfold send in Hc. destruct (closed_ _); [done|]. injection Hc as <-.
    unfold tick_batch in IA |- *. simpl. rewrite !Forall_app, Forall_singleton.
    apply Forall_app in IA as [? ?]. split_and!; done.
  - split; [|done]. by apply (Hframe _ w1).
  - split; [|done]. apply Hpub. by apply (Hframe _ w1).
  - split; [by eapply Htick|].
    destruct (tick_channels env hb w1 cs w2 Ht) as (Hr & Hw & _).
    unfold tick_batch. rewrite Hr, Hw. constructor.
Qed.

(** Without a restriction on the messages. *)
Lemma exec_invariant_any (P : list ChangeSet → World → Prop) :
  (∀ css w w', board_ w = board_ w' → changeset_ w = changeset_ w' → draws w = draws w' →
               P css w → P css w') →
  (∀ css ev w, P css w → P css (world_publish_sync ev w)) →
  (∀ (Ord : UMapOrder) css cs w w',
      tick env hb w = (cs, w') → P css w → P (css ++ [cs]) w') →
  ∀ c ms css w, server_exec (world_new c) ms css w → P [] (world_new c) → P css w.
Proof.
  intros H1 H2 H3 c ms css w He HP.
  apply (exec_invariant P (λ _, True) H1 H2 (λ O css cs w w' _, H3 O css cs w w') _ _ _ _ He);
    [|done].
  by apply Forall_true.
Qed.

(** ** The in-flight gauge *)

(** Requests handed to a backend minus responses, over all change sets. *)
Definition total_net (css : list ChangeSet) : Z := foldr Z.add 0%Z (net_admitted <$> css).

Lemma total_net_snoc css cs : total_net (css ++ [cs]) = (total_net css + net_admitted cs)%Z.
Proof.
  unfold total_net. rewrite fmap_app, foldr_app. simpl.
  induction (net_admitted <$> css); simpl; lia.
Qed.

Lemma net_add_closes l cs : net_admitted (add_closes l cs) = net_admitted cs.
Proof. by rewrite add_closes_spec. Qed.

Lemma tick_net (Ord : UMapOrder) w cs w' :
  tick env hb w = (cs, w') → changeset_ w = cs_empty → u64_ok (inflight_of w) →
  changeset_ w' = cs_empty ∧ u64_ok (inflight_of w') ∧
  inflight_of w' = u64 (inflight_of w + net_admitted cs).
Proof.
  intros Ht Hcs Hi. pose proof (tick_spec env hb w cs w' Ht) as Hsp. simpl in Hsp.
  destruct (evolve _ _ _) as [closes b]. destruct Hsp as (-> & _ & _ & -> & -> & _).
  destruct (tick_start_frame env w) as (Hb & Hc & _).
  assert (u64_ok (inflight_of (tick_mid env hb w))) as Hok.
  { eapply micros_inflight; [apply steps_batch, request_inv_True|].
    unfold inflight_of. by rewrite Hb. }
  split_and!; [done..|].
  pose proof (balance_batch env hb (tick_batch w) (tick_start env w)) as Hbal.
  fold (tick_mid env hb w) in Hbal. unfold balance in Hbal.
  unfold inflight_of in Hbal at 2. rewrite Hb, Hc, Hcs, Z.sub_0_r in Hbal.
  fold (inflight_of w) in Hbal. rewrite (u64_small (inflight_of w)) in Hbal by done.
  rewrite net_add_closes, <- Hbal, u64_add_l, Z.sub_add. by rewrite u64_small.
Qed.

(** The in-flight gauge is exact: after every execution of the server it
    equals, as a 64-bit counter, the number of requests handed to a backend (local
    jobs and upstream continuation frames in the change sets so far) minus the
    number of responses written to clients.  Nothing else changes it: denied
    requests, cancellations, upstream failures, disconnects and evolution do not. *)
Theorem inflight_conservation c ms css w :
  server_exec (world_new c) ms css w →
  inflight_of w = u64 (total_net css).
Proof.
  intros He.
  enough (inflight_of w = u64 (total_net css) ∧ u64_ok (inflight_of w) ∧
          changeset_ w = cs_empty) by tauto.
  refine (exec_invariant_any (λ css w, inflight_of w = u64 (total_net css) ∧
    u64_ok (inflight_of w) ∧ changeset_ w = cs_empty) _ _ _ c ms css w He _).
  - intros css' w1 w2 Hb Hc _. unfold inflight_of. by rewrite Hb, Hc.
  - intros css' ev w1. by rewrite publish_sync_inflight.
  - intros Ord css' cs w1 w2 Ht (IH & Hok & Hc).
    destruct (tick_net Ord w1 cs w2 Ht Hc Hok) as (H1 & H2 & H3).
    split_and!; [|done..].
    by rewrite H3, IH, total_net_snoc, u64_add_l.
  - done.
Qed.

(** ** The board *)

(** What holds of every request while handlers run. *)
Definition request_ok (p : PendingRequest) : Prop :=
  bytes_counted p ∧ pr_state p ≠ PS.Complete.

Lemma request_ok_inv : request_inv hb request_ok.
Proof.
  split; unfold request_ok, bytes_counted; simpl; try (intros; split; done).
  - by intros req p rate ch fmt _ [Hc _].
  - intros p data fin usage t _ [Hc Hs]. split; [by apply chunked_counted|].
    by destruct fin.
  - by intros p s [->| ->] [Hc _].
  - done.
  - done.
Qed.

(** Evolution only drops sessions. *)
Lemma evolve_pool_inv (Ord : UMapOrder) now w b :
  pool_inv env w → (evolve now (changed w) (board_ w)).2 = b →
  (max_size_ (session_pool_ b) = 16 ∧ idle_timeout_ (session_pool_ b) = 60%Z ∧
   max_lifetime_ (session_pool_ b) = 3600%Z) ∧
  (∀ id s, sessions_ (session_pool_ b) !! id = Some s →
           sessions_ (pool_of w) !! id = Some s) ∧
  (distinct_draws env (draws w) → pool_wf (session_pool_ b)).
Proof.
  intros (Hm & Hs & Hw) <-. split; [|split].
  - rewrite evolve_unfold. cbn [snd session_pool_ set_member].
    repeat match goal with |- context [close_ids ?l ?p] =>
      destruct (close_ids_params l p) as (-> & -> & ->) end. done.
  - intros id s. rewrite evolve_unfold. cbn [snd session_pool_ set_member].
    rewrite !close_ids_lookup. by repeat case_decide.
  - intros Hd. by apply evolve_wf, Hw.
Qed.

(** A tick keeps the invariants of pool and store, and leaves no failed or
    cancelled request behind. *)
Lemma tick_board (Ord : UMapOrder) K w cs w' :
  request_inv hb K → tick env hb w = (cs, w') →
  (pool_inv env w → pool_inv env w') ∧
  (pend_inv K (pending_of w) →
   pend_inv (λ p, K p ∧ terminal p = false) (pending_of w')).
Proof.
  intros HK Ht. pose proof (tick_spec env hb w cs w' Ht) as Hsp. cbv zeta in Hsp.
  destruct (tick_start_frame env w) as (Hb & _ & Hd & _).
  pose proof (steps_batch env hb K HK (tick_batch w) (tick_start env w)) as Hst.
  fold (tick_mid env hb w) in Hst.
  destruct (evolve _ _ _) as [closes b] eqn:Ee. destruct Hsp as (_ & Hp & Hr & _ & _ & _ & _ & Hdr & _).
  apply (f_equal snd) in Ee. cbn [snd] in Ee. split.
  - intros Hi. assert (pool_inv env (tick_mid env hb w)) as Hi'.
    { eapply micros_pool; [done|]. unfold pool_inv, pool_of. by rewrite Hb, Hd. }
    destruct (evolve_pool_inv Ord _ _ b Hi' Ee) as (H1 & H2 & H3).
    unfold pool_inv. rewrite Hp, Hdr. split; [done|]. split; [|done].
    intros id s Hs. apply H2 in Hs. destruct Hi' as (_ & Hi' & _). by apply Hi'.
  - intros Hi. assert (pend_inv K (pending_of (tick_mid env hb w))) as Hi'.
    { eapply micros_pending; [done|]. unfold pending_of. by rewrite Hb. }
    intros rid p. rewrite Hr, <- Ee, evolve_pending_lookup.
    change (pending_ (board_ (tick_mid env hb w))) with (pending_of (tick_mid env hb w)).
    destruct (pending_of (tick_mid env hb w) !! rid) as [q|] eqn:E; simpl; [|done].
    destruct (terminal q) eqn:Eq; [done|]. intros [= <-].
    apply Hi' in E as [? ?]. done.
Qed.

Lemma pool_inv_init c : pool_inv env (world_new c).
Proof. split; [done|]. split; [done|]. intros _. apply (pool_new_wf 16 60 3600). Qed.

Lemma exec_pool c ms css w : server_exec (world_new c) ms css w → pool_inv env w.
Proof.
  intros He.
  refine (exec_invariant_any (λ _, pool_inv env) _ _ _ c ms css w He (pool_inv_init c)).
  - intros _ w1 w2 Hb _ Hd. unfold pool_inv, pool_of. by rewrite Hb, Hd.
  - done.
  - intros Ord _ cs w1 w2 Ht. by apply (tick_board Ord _ _ _ _ request_ok_inv Ht).
Qed.

Lemma exec_pending c ms css w :
  server_exec (world_new c) ms css w →
  pend_inv (λ p, request_ok p ∧ terminal p = false) (pending_of w).
Proof.
  intros He.
  refine (exec_invariant_any
    (λ _ w, pend_inv (λ p, request_ok p ∧ terminal p = false) (pending_of w))
    _ _ _ c ms css w He _); [|done| |done].
  - intros _ w1 w2 Hb _ _. unfold pending_of. by rewrite Hb.
  - intros Ord _ cs w1 w2 Ht Hi. apply (tick_board Ord _ _ _ _ request_ok_inv Ht).
    intros rid p Hp. apply Hi in Hp. naive_solver.
Qed.

(** C11: The board stays consistent in every execution.  Between ticks each
    pending request is filed under its own id, its byte count is the length of
    its audio and it is still in progress (no failed, cancelled or completed
    request is kept); the pool keeps its configuration, and as long as the random
    draws for session ids did not collide it is well formed: map and recency list
    agree without duplicates, records are filed under their own id, and there are
    at most sixteen sessions. *)
Theorem board_invariant c ms css w :
  server_exec (world_new c) ms css w →
  (∀ rid p, store_get rid (pending_of w) = Some p →
     pr_request_id p = rid ∧ bytes_counted p ∧
     (pr_state p = PS.AwaitingSession ∨ pr_state p = PS.Streaming)) ∧
  max_size_ (pool_of w) = 16 ∧
  (distinct_draws env (draws w) → pool_wf (pool_of w)).
Proof.
  intros He. split; [|split].
  - intros rid p Hp. destruct (exec_pending _ _ _ _ He rid p Hp) as (H1 & (H2 & H3) & H4).
    split; [done|]. split; [done|]. unfold terminal in H4.
    destruct (pr_state p); auto; done.
  - apply (exec_pool _ _ _ _ He).
  - apply (exec_pool _ _ _ _ He).
Qed.

(** ** Responses *)

Lemma exec_changeset c ms css w : server_exec (world_new c) ms css w → changeset_ w = cs_empty.
Proof.
  intros He.
  refine (exec_invariant_any (λ _ w, changeset_ w = cs_empty) _ _ _ c ms css w He _); try done.
  - by intros _ w1 w2 _ -> _.
  - intros Ord _ cs w1 w2 Ht _. pose proof (tick_spec env hb w1 cs w2 Ht) as Hsp.
    cbv zeta in Hsp. destruct (evolve _ _ _). by destruct_and!.
Qed.

(** C10: The responses of a tick.  In every execution the change set of a tick
    contains, in this order, one final response per local synthesis result in the
    drained batch, in arrival order, and one response per pending request that is
    streaming and has received its final chunk once the batch is handled, carrying
    the audio accumulated for it; each of these requests is answered once in the
    tick and is no longer pending afterwards. *)
Theorem tick_client_writes (Ord : UMapOrder) c ms css w cs w' :
  server_exec (world_new c) ms css w → tick env hb w = (cs, w') →
  let st := pending_of (foldl (handle_message env hb) (tick_start env w) (tick_batch w)) in
  let ready := find_ready_to_emit st in
  client_writes cs = omap local_write (tick_batch w) ++ completed_writes st ready ∧
  (∀ rid, rid ∈ ready ↔ ∃ p, store_get rid st = Some p ∧ ready_to_emit p = true) ∧
  NoDup ready ∧ (∀ rid, rid ∈ ready → store_get rid (pending_of w') = None).
Proof.
  intros He Ht st ready. split_and!.
  - apply (tick_writes env hb w cs w' Ht). by eapply exec_changeset.
  - intros rid. apply elem_of_um_collect.
  - apply NoDup_um_collect.
  - intros rid Hr. pose proof (tick_spec env hb w cs w' Ht) as Hsp. cbv zeta in Hsp.
    destruct (evolve _ _ _) as [closes b] eqn:Ee. destruct Hsp as (_ & _ & Hp & _).
    apply (f_equal snd) in Ee. cbn [snd] in Ee. unfold store_get.
    rewrite Hp, <- Ee, evolve_pending_lookup. unfold tick_mid, process_batch.
    fold (pending_of (foldl (handle_message env hb) (tick_start env w) (tick_batch w))).
    fold st ready.
    match goal with |- context [foldl emit_completed ?w1 ready] =>
      destruct (emit_completed_spec ready w1) as [_ Hd]; [apply NoDup_um_collect|] end.
    unfold pending_of in Hd at 1. rewrite Hd, lookup_foldr_delete.
    by rewrite decide_True.
Qed.

(** ** Requests sent upstream *)

(** Messages other than results of the local engine. *)
Definition not_local (m : Message) : Prop := local_write m = None.

Definition not_streaming (p : PendingRequest) : Prop := pr_state p ≠ PS.Streaming.

Lemma not_streaming_inv :
  (∀ req, should_use_local hb req = false) → request_inv hb not_streaming.
Proof.
  intros Hl. split; unfold not_streaming; simpl; try done.
  - intros req. by rewrite Hl.
  - intros req. by rewrite Hl.
  - intros p data fin usage t _ Hp. by destruct fin.
  - by intros p s [->| ->].
Qed.

Lemma upstream_tick (Ord : UMapOrder) w cs w' :
  (∀ req, should_use_local hb req = false) → Forall not_local (tick_batch w) →
  tick env hb w = (cs, w') → changeset_ w = cs_empty →
  pend_inv not_streaming (pending_of w) →
  client_writes cs = [] ∧ pend_inv not_streaming (pending_of w').
Proof.
  intros Hl HA Ht Hc Hp. pose proof (not_streaming_inv Hl) as HK. split.
  - rewrite (tick_writes env hb w cs w' Ht Hc).
    assert (omap local_write (tick_batch w) = []) as ->.
    { induction HA as [|m l Hm _ IH]; [done|]. rewrite omap_cons_eq. by rewrite Hm. }
    unfold find_ready_to_emit. rewrite um_collect_nil; [done|].
    intros rid p. destruct (tick_start_frame env w) as (Hb & _).
    assert (pend_inv not_streaming
      (pending_of (foldl (handle_message env hb) (tick_start env w) (tick_batch w)))) as Hi.
    { eapply micros_pending; [apply steps_foldl; intros; by apply steps_message|].
      unfold pending_of. by rewrite Hb. }
    intros [_ Hq]%Hi. unfold ready_to_emit. by rewrite bool_decide_false.
  - intros rid p Hr. apply (proj2 (tick_board Ord _ _ _ _ HK Ht) Hp) in Hr. naive_solver.
Qed.

(** C35: A request sent upstream is never answered.  When the configuration never
    takes the local branch (no engine, or an engine that is not ready, or every
    request asking for upstream), then in every execution, whatever frames the
    upstream delivers (the final audio chunk included), no change set contains a
    response to a client, and the in-flight gauge counts every request ever sent:
    it is never decremented.  Pending requests are created [AwaitingSession], only
    [bind_session] would make them [Streaming], and nothing calls it. *)
Theorem upstream_never_answered c ms css w :
  (∀ req, should_use_local hb req = false) →
  server_exec (world_new c) ms css w → Forall not_local ms →
  Forall (λ cs, client_writes cs = []) css ∧
  inflight_of w = u64 (foldr Z.add 0%Z ((λ cs, Z.of_nat (length (local_jobs cs)) +
                                          Z.of_nat (continues cs))%Z <$> css)).
Proof.
  intros Hl He HA.
  set (P := λ css w, (Forall (λ cs, client_writes cs = []) css ∧
    inflight_of w = u64 (total_net css) ∧ u64_ok (inflight_of w)) ∧
    changeset_ w = cs_empty ∧ pend_inv not_streaming (pending_of w)).
  assert (P css w) as ((H1 & H2 & _) & _).
  { refine (proj1 (exec_invariant P not_local _ _ _ c ms css w He HA _)).
    - unfold P. intros css' w1 w2 Hb Hc _. unfold inflight_of, pending_of. by rewrite Hb, Hc.
    - unfold P. intros css' ev w1. by rewrite publish_sync_inflight.
    - unfold P. intros Ord css' cs w1 w2 Hm Ht ((IH & Hn & Hok) & Hc & Hp).
      destruct (upstream_tick Ord w1 cs w2 Hl Hm Ht Hc Hp) as [Hw Hp'].
      destruct (tick_net Ord w1 cs w2 Ht Hc Hok) as (T1 & T2 & T3).
      split_and!; try done.
      + apply Forall_app. split; [done|by apply Forall_singleton].
      + by rewrite T3, Hn, total_net_snoc, u64_add_l.
    - done. }
  split; [done|]. rewrite H2. f_equal. unfold total_net. clear -H1.
  induction H1 as [|cs css Hc _ IH]; [done|]. rewrite !fmap_cons. cbn [foldr]. rewrite IH. unfold net_admitted.
  rewrite Hc. simpl. lia.
Qed.

(** ** Session lifetime *)

(** C36: Sessions have no creation time.  With the system clock and an uptime of at
    least an hour (every reading of the monotonic clock is at least 3600 s), each
    tick of every execution ends with an empty session pool: a session created in
    the tick has [created_at] at the epoch and is closed as past its lifetime in
    the same tick, so no session is ever reused or connected. *)
Theorem sessions_expire_at_once (Ord : UMapOrder) ms css w cs w' :
  (∀ n, seconds 3600 ≤ steady_reading env n)%Z →
  server_exec (world_new SystemClock) ms css w → tick env hb w = (cs, w') →
  sessions_ (pool_of w') = ∅.
Proof.
  intros Hr He Ht. pose proof (tick_spec env hb w cs w' Ht) as Hsp. cbv zeta in Hsp.
  destruct (evolve _ _ _) as [closes b] eqn:Ee. destruct Hsp as (_ & Hp & _).
  apply (f_equal snd) in Ee. cbn [snd] in Ee. rewrite Hp, <- Ee.
  assert (clock_ (tick_mid env hb w) = SystemClock) as Hck.
  { destruct (tick_mid_frame env hb w) as (_ & _ & -> & _).
    clear -He. remember (world_new SystemClock) as w0 eqn:E0.
    induction He as [|w ms css w1 ms' css' w2 He IH Hs]; [by rewrite E0|].
    specialize (IH E0). destruct Hs; try done; [simpl; by rewrite IH|].
    match goal with H : tick env hb _ = _ |- _ =>
      destruct (tick_channels _ _ _ _ _ H) as (_ & _ & -> & _) end. done. }
  assert (pool_inv env (tick_mid env hb w)) as (Hm & Hs & _).
  { eapply micros_pool; [apply steps_batch, request_inv_True|].
    destruct (tick_start_frame env w) as (Hb & _ & Hd & _).
    pose proof (exec_pool _ _ _ _ He) as Hi.
    unfold pool_inv, pool_of in *. by rewrite Hb, Hd. }
  apply map_eq. intros id. rewrite lookup_empty, evolve_unfold.
  cbn [snd session_pool_ set_member]. rewrite !close_ids_lookup.
  destruct (decide _); [done|]. case_decide as Hl; [done|]. case_decide as Hd; [done|].
  destruct (sessions_ _ !! id) as [s|] eqn:E; [|done]. exfalso. apply Hl.
  apply elem_of_life_ids. exists s. split_and!; [done..|].
  unfold lifetime_expired. destruct (Hs id s E) as [-> _].
  destruct Hm as (_ & _ & Hm). unfold pool_of in Hm. rewrite Hm.
  apply Z.leb_le. unfold clock_now, steady_now. rewrite Hck. cbn [fst].
  specialize (Hr (reads (tick_mid env hb w))). lia.
Qed.
End server.

(** ** Executable runs *)

(** What happens next; channels are open, maps iterate in stdpp's order. *)
Inductive act := DoRequest (m : Message) | DoEvent (m : Message) | DoTick.

Section run.
Context {J : NlohmannJson} (env : Env) (hb : HeartbeatConfig).

(** The messages that arrived, the change sets produced, and the state. *)
Definition run_act (st : list Message * list ChangeSet * World) (a : act)
    : list Message * list ChangeSet * World :=
  let '(ms, css, w) := st in
  match a with
  | DoRequest m =>
      match send m (request_channel_ w) with
      | Ok ch => (ms ++ [m], css ++ [], w <| request_channel_ := ch |>)
      | Throw _ => st
      end
  | DoEvent m =>
      match send m (ws_event_channel_ w) with
      | Ok ch => (ms ++ [m], css ++ [], w <| ws_event_channel_ := ch |>)
      | Throw _ => st
      end
  | DoTick =>
      let '(cs, w') := tick (Ord:=um_default) env hb w in (ms ++ [], css ++ [cs], w')
  end.

Definition run (acts : list act) w : list Message * list ChangeSet * World :=
  foldl run_act ([], [], w) acts.

Lemma run_exec acts w :
  server_exec env hb w (run acts w).1.1 (run acts w).1.2 (run acts w).2.
Proof.
  unfold run. induction acts as [|a acts IH] using rev_ind; [apply se_nil|].
  rewrite foldl_app. simpl. destruct (foldl run_act ([], [], w) acts) as [[ms css] w1].
  simpl in *. destruct a as [m|m|].
  - destruct (send m (request_channel_ w1)) as [ch|] eqn:E; simpl; [|done].
    eapply se_snoc; [done|]. by apply sv_request.
  - destruct (send m (ws_event_channel_ w1)) as [ch|] eqn:E; simpl; [|done].
    eapply se_snoc; [done|]. by apply sv_event.
  - destruct (tick env hb w1) as [cs w2] eqn:E. simpl.
    eapply se_snoc; [done|]. by eapply sv_tick.
Qed.
End run.

(** A local request and its result; an upstream request with its final chunk. *)
Definition demo_complete : LocalSynthCompleteMsg := {|
  lc_request_id := "r1"; lc_session_id := ""; lc_audio := [Byte.x01; Byte.x02]; lc_sample_rate := 16000;
  lc_channels := 1; lc_format := AF.Pcm; lc_usage_ms := 10; lc_status_code := 0;
  lc_status_msg := "" |}.
Definition local_acts : list act :=
  [DoRequest (MsgRequest (demo_request "r1" "hello")); DoTick;
   DoRequest (MsgLocalComplete demo_complete)].
Definition demo_chunk : TtsResponseMsg := {|
  rs_session_id := session_id_of 255; rs_request_id := ""; rs_kind := WE.AudioChunk;
  rs_audio_hex := "0102"; rs_is_final := true; rs_sample_rate := 16000; rs_channels := 1;
  rs_usage_characters := 5; rs_status_code := 0; rs_status_msg := ""; rs_trace_id := "" |}.
Definition upstream_acts : list act :=
  [DoRequest (MsgRequest (demo_request "r1" "hello")); DoTick;
   DoEvent (MsgResponse demo_chunk); DoTick].

Definition local_run := run (J:=demo_json) (demo_env 10) demo_local local_acts demo_world.
Definition upstream_run :=
  run (J:=demo_json) (demo_env 10) demo_upstream upstream_acts demo_world.

Lemma inflight_conservation_witness :
  inflight_of local_run.2 = u64 (total_net local_run.1.2) ∧ total_net local_run.1.2 = 1%Z.
Proof.
  split; [|vm_compute; reflexivity].
  apply (inflight_conservation (J:=demo_json) (demo_env 10) demo_local SystemClock
           local_run.1.1).
  apply (run_exec (J:=demo_json)).
Defined.

Lemma board_invariant_witness :
  pool_wf (pool_of upstream_run.2) ∧ draws upstream_run.2 = 1.
Proof.
  split; [|vm_compute; reflexivity].
  destruct (board_invariant (J:=demo_json) (demo_env 10) demo_upstream SystemClock
              upstream_run.1.1 upstream_run.1.2 upstream_run.2) as (_ & _ & H).
  - apply (run_exec (J:=demo_json)).
  - apply H. assert (draws upstream_run.2 = 1) as -> by (vm_compute; reflexivity).
    intros i j Hi Hj _. lia.
Defined.

Lemma tick_client_writes_witness :
  client_writes (tick (Ord:=um_default) (J:=demo_json) (demo_env 10) demo_local local_run.2).1 =
  [local_complete_write demo_complete].
Proof.
  destruct (tick_client_writes (J:=demo_json) (demo_env 10) demo_local um_default SystemClock
    local_run.1.1 local_run.1.2 local_run.2
    (tick (Ord:=um_default) (J:=demo_json) (demo_env 10) demo_local local_run.2).1
    (tick (Ord:=um_default) (J:=demo_json) (demo_env 10) demo_local local_run.2).2)
    as [-> _].
  - apply (run_exec (J:=demo_json)).
  - apply surjective_pairing.
  - vm_compute. reflexivity.
Defined.

Lemma upstream_never_answered_witness :
  Forall (λ cs, client_writes cs = []) upstream_run.1.2 ∧ length upstream_run.1.2 = 2 ∧
  inflight_of upstream_run.2 = 1%Z.
Proof.
  split; [|vm_compute; split; reflexivity].
  apply (upstream_never_answered (J:=demo_json) (demo_env 10) demo_upstream SystemClock
           upstream_run.1.1 upstream_run.1.2 upstream_run.2).
  - reflexivity.
  - apply (run_exec (J:=demo_json)).
  - assert (upstream_run.1.1 = [MsgRequest (demo_request "r1" "hello"); MsgResponse demo_chunk])
      as -> by (vm_compute; reflexivity).
    repeat constructor.
Defined.

(** An upstream request one hour after boot. *)
Definition late_run :=
  run (J:=demo_json) (demo_env 3600) demo_upstream
    [DoRequest (MsgRequest (demo_request "r1" "hello"))] demo_world.

Lemma sessions_expire_at_once_witness :
  let t := tick (Ord:=um_default) (J:=demo_json) (demo_env 3600) demo_upstream late_run.2 in
  sessions_ (pool_of t.2) = ∅ ∧
  close_sessions t.1 = [mk_close "lifetime_exceeded" (session_id_of 255)].
Proof.
  split; [|vm_compute; reflexivity].
  apply (sessions_expire_at_once (J:=demo_json) (demo_env 3600) demo_upstream um_default
    late_run.1.1 late_run.1.2 late_run.2
    (tick (Ord:=um_default) (J:=demo_json) (demo_env 3600) demo_upstream late_run.2).1).
  - intros n. unfold demo_env. cbn [steady_reading]. lia.
  - apply (run_exec (J:=demo_json)).
  - apply surjective_pairing.
Defined.
