(* ===== verification/Proto.v ===== *)
(** * Protocol messages (proto/tts.proto, proto/mediator_tts.proto)

    The messages of the two gRPC services as records.  Enums of proto3 are open:
    a field of enum type is any 32-bit integer, with the named values as
    constants.  A message field that is not set reads as its default. *)

From Stdlib Require Import SpecFloat.
From S2P Require Import Prelude Messages.

(** ** Enum values *)

Definition PB_SPEECH_2_8_HD : Z := 1.
Definition PB_SPEECH_2_8_TURBO : Z := 2.
Definition PB_SPEECH_2_6_HD : Z := 3.
Definition PB_SPEECH_2_6_TURBO : Z := 4.
Definition PB_SPEECH_02_HD : Z := 5.
Definition PB_SPEECH_02_TURBO : Z := 6.
Definition PB_SPEECH_01_HD : Z := 7.
Definition PB_SPEECH_01_TURBO : Z := 8.

Definition PB_AUDIO_FORMAT_UNSPECIFIED : Z := 0.
Definition PB_MP3 : Z := 1.
Definition PB_PCM : Z := 2.
Definition PB_FLAC : Z := 3.
Definition PB_WAV : Z := 4.

Definition PB_EMOTION_UNSPECIFIED : Z := 0.
Definition PB_HAPPY : Z := 1.
Definition PB_SAD : Z := 2.
Definition PB_ANGRY : Z := 3.
Definition PB_FEARFUL : Z := 4.
Definition PB_DISGUSTED : Z := 5.
Definition PB_SURPRISED : Z := 6.
Definition PB_CALM : Z := 7.
Definition PB_FLUENT : Z := 8.
Definition PB_WHISPER : Z := 9.

Definition PB_BACKEND_UNSPECIFIED : Z := 0.
Definition PB_BACKEND_AUTO : Z := 1.
Definition PB_BACKEND_LOCAL : Z := 2.
Definition PB_BACKEND_UPSTREAM : Z := 3.

(** ** Messages of tts.proto *)

Record PbVoiceSetting := mkPbVoice {
  pv_voice_id : string;
  pv_speed : spec_float;
  pv_vol : spec_float;
  pv_pitch : Z;
  pv_emotion : Z;
  pv_english_normalization : bool;
}.

Record PbAudioSetting := mkPbAudio {
  pa_sample_rate : Z;
  pa_bitrate : Z;
  pa_format : Z;
  pa_channel : Z;
}.

(** The fields the sources read. *)
Record PbSynthesizeRequest := mkPbRequest {
  pq_text : string;
  pq_model : Z;
  pq_voice : PbVoiceSetting;
  pq_audio : PbAudioSetting;
  pq_backend : Z;
}.

(** A message with no field set. *)
Definition PbSynthesizeRequest_default : PbSynthesizeRequest :=
  mkPbRequest "" 0 (mkPbVoice "" f32_zero f32_zero 0 0 false) (mkPbAudio 0 0 0 0) 0.

(** [oneof body]. *)
Inductive PbTextChunk : Type :=
| ChunkText (text : string)
| ChunkFinish
| ChunkNotSet.

Record PbAudioMeta := mkPbMeta {
  pm_sample_rate : Z;
  pm_channels : Z;
  pm_format : Z;
  pm_audio_length_ms : Z;
  pm_audio_size_bytes : Z;
  pm_usage_characters : Z;
}.

Record PbSynthesizeResponse := mkPbResponse {
  pp_audio : list Byte.byte;
  pp_meta : PbAudioMeta;
  pp_is_final : bool;
  pp_cumulative_bytes : Z;
  pp_status_code : Z;
  pp_status_msg : string;
  pp_trace_id : string;
}.

(** [MetricsSnapshot] of the service. *)
Record PbMetrics := mkPbMetrics {
  px_inflight_requests : Z;
  px_queued_messages : Z;
  px_heartbeat_p99_us : Z;
  px_upstream_connected : Z;
  px_upstream_disconnected_total : Z;
  px_audio_bytes_emitted_total : Z;
  px_failed_requests_total : Z;
  px_pool_idle_sessions : Z;
  px_pool_active_sessions : Z;
  px_backpressure_level : Z;
  px_heartbeat_count : Z;
  px_bus_worker_pending : Z;
}.

(** ** Messages of mediator_tts.proto *)

Record PbMediatorRequest := mkPbMediator {
  pt_text : string;
  pt_session_id : string;
  pt_clip_id : Z;
}.

(** ** gRPC status *)

Inductive StatusCode : Type := OK | INVALID_ARGUMENT | UNAUTHENTICATED | UNAVAILABLE | INTERNAL.
#[global] Instance StatusCode_eq_dec : EqDecision StatusCode.
Proof. solve_decision. Defined.

Record Status := mkStatus { st_code : StatusCode; st_message : string }.
Definition Status_OK : Status := mkStatus OK "".
