(* ===== verification/RequestParser.v ===== *)
(** * RequestParser (src/entry/request_parser.h, src/entry/request_parser.cpp)

    Conversion of protocol requests to [TtsRequestMsg], with the validation of
    the audio settings.  A [ParseError] is the exception class of the results. *)

From Stdlib Require Import SpecFloat.
From S2P Require Import Prelude Messages Proto.

Inductive ParseError : Type := parse_error (what : string).

#[global] Instance VoiceSettings_eta : Eta VoiceSettings := {|
  eta_expand v := Build_VoiceSettings (voice_id v) (speed v) (vol v) (pitch v)
    (emotion v) (english_normalization v) |}.
#[global] Instance AudioSettings_eta : Eta AudioSettings := {|
  eta_expand a := Build_AudioSettings (sample_rate a) (bitrate a) (format a) (channel a) |}.
#[global] Instance TtsRequestMsg_eta : Eta TtsRequestMsg := {|
  eta_expand r := Build_TtsRequestMsg (rq_request_id r) (rq_kind r) (rq_text r) (rq_model r)
    (rq_voice r) (rq_audio r) (rq_backend r) (rq_deadline r) |}.

Local Open Scope Z_scope.

(** ** Conversions *)

Definition to_model (m : Z) : MD.Model :=
  if m =? PB_SPEECH_2_8_HD then MD.Speech28Hd
  else if m =? PB_SPEECH_2_8_TURBO then MD.Speech28Turbo
  else if m =? PB_SPEECH_2_6_HD then MD.Speech26Hd
  else if m =? PB_SPEECH_2_6_TURBO then MD.Speech26Turbo
  else if m =? PB_SPEECH_02_HD then MD.Speech02Hd
  else if m =? PB_SPEECH_02_TURBO then MD.Speech02Turbo
  else if m =? PB_SPEECH_01_HD then MD.Speech01Hd
  else if m =? PB_SPEECH_01_TURBO then MD.Speech01Turbo
  else MD.Unspecified.

Definition to_format (f : Z) : AF.AudioFormat :=
  if f =? PB_MP3 then AF.Mp3
  else if f =? PB_PCM then AF.Pcm
  else if f =? PB_FLAC then AF.Flac
  else if f =? PB_WAV then AF.Wav
  else AF.Unspecified.

Definition to_backend (b : Z) : BK.Backend :=
  if b =? PB_BACKEND_LOCAL then BK.Local
  else if b =? PB_BACKEND_UPSTREAM then BK.Upstream
  else BK.Auto.

(** The lambda of [apply_voice]. *)
Definition emotion_name (e : Z) : string :=
  if e =? PB_HAPPY then "happy"
  else if e =? PB_SAD then "sad"
  else if e =? PB_ANGRY then "angry"
  else if e =? PB_FEARFUL then "fearful"
  else if e =? PB_DISGUSTED then "disgusted"
  else if e =? PB_SURPRISED then "surprised"
  else if e =? PB_CALM then "calm"
  else if e =? PB_FLUENT then "fluent"
  else if e =? PB_WHISPER then "whisper"
  else "".

(** [x != 0.0f]: true for a NaN. *)
Definition f32_nonzero (x : spec_float) : bool := negb (SFeqb x f32_zero).

Definition apply_voice (src : PbVoiceSetting) (dst : VoiceSettings) : VoiceSettings :=
  let dst := if negb (String.eqb (pv_voice_id src) "")
             then dst <| voice_id := pv_voice_id src |> else dst in
  let dst := if f32_nonzero (pv_speed src) then dst <| speed := pv_speed src |> else dst in
  let dst := if f32_nonzero (pv_vol src) then dst <| vol := pv_vol src |> else dst in
  let dst := dst <| pitch := pv_pitch src |> in
  let dst := if negb (pv_emotion src =? PB_EMOTION_UNSPECIFIED)
             then dst <| emotion := Some (emotion_name (pv_emotion src)) |> else dst in
  dst <| english_normalization := pv_english_normalization src |>.

Definition apply_audio (src : PbAudioSetting) (dst : AudioSettings) : AudioSettings :=
  let dst := if negb (pa_sample_rate src =? 0)
             then dst <| sample_rate := pa_sample_rate src |> else dst in
  let dst := if negb (pa_bitrate src =? 0) then dst <| bitrate := pa_bitrate src |> else dst in
  let dst := if negb (pa_channel src =? 0) then dst <| channel := pa_channel src |> else dst in
  if negb (pa_format src =? PB_AUDIO_FORMAT_UNSPECIFIED)
  then dst <| format := to_format (pa_format src) |> else dst.

Definition enforce_audio_invariants (a : AudioSettings) : result ParseError unit :=
  if negb (sample_rate a =? 8000) && negb (sample_rate a =? 16000) then
    Throw (parse_error "sample_rate must be 8000 or 16000")
  else if negb (channel a =? 1) then
    Throw (parse_error "channel must be 1 (mono)")
  else if negb (bool_decide (format a = AF.Mp3)) && negb (bool_decide (format a = AF.Pcm)) then
    Throw (parse_error "format must be mp3 or pcm in MVP")
  else Ok tt.

(** ** The parser *)

Definition parse_unary (proto : PbSynthesizeRequest) (request_id : string)
    : result ParseError TtsRequestMsg :=
  let r := TtsRequestMsg_default <| rq_request_id := request_id |>
             <| rq_kind := RK.OpenStream |>
             <| rq_text := pq_text proto |>
             <| rq_model := to_model (pq_model proto) |> in
  let r := r <| rq_voice := apply_voice (pq_voice proto) (rq_voice r) |> in
  let r := r <| rq_audio := apply_audio (pq_audio proto) (rq_audio r) |> in
  _ ← enforce_audio_invariants (rq_audio r);
  Ok (r <| rq_backend := to_backend (pq_backend proto) |>).

(** The settings part of [parse_chunk]. *)
Definition chunk_settings (initial : PbSynthesizeRequest) (first_chunk : bool)
    (r : TtsRequestMsg) : result ParseError TtsRequestMsg :=
  if first_chunk then
    let r := r <| rq_kind := RK.OpenStream |> <| rq_model := to_model (pq_model initial) |> in
    let r := r <| rq_voice := apply_voice (pq_voice initial) (rq_voice r) |> in
    let r := r <| rq_audio := apply_audio (pq_audio initial) (rq_audio r) |> in
    _ ← enforce_audio_invariants (rq_audio r);
    Ok (r <| rq_backend := to_backend (pq_backend initial) |>)
  else Ok (r <| rq_kind := RK.StreamChunk |>).

Definition parse_chunk (proto : PbTextChunk) (request_id : string)
    (initial : PbSynthesizeRequest) (first_chunk : bool) : result ParseError TtsRequestMsg :=
  r ← chunk_settings initial first_chunk
        (TtsRequestMsg_default <| rq_request_id := request_id |>);
  Ok match proto with
     | ChunkText t => r <| rq_text := t |>
     | ChunkFinish => r <| rq_kind := RK.FinishStream |> <| rq_text := "" |>
     | ChunkNotSet => r
     end.

(** ** Specification *)

(** Settings the rest of the server may rely on. *)
Definition audio_valid (a : AudioSettings) : Prop :=
  (sample_rate a = 8000 ∨ sample_rate a = 16000) ∧ channel a = 1 ∧
  (format a = AF.Mp3 ∨ format a = AF.Pcm).

(** The wire fields that are accepted: zero means "not set". *)
Definition rate_ok (a : PbAudioSetting) : Prop :=
  pa_sample_rate a = 0 ∨ pa_sample_rate a = 8000 ∨ pa_sample_rate a = 16000.
Definition channel_ok (a : PbAudioSetting) : Prop := pa_channel a = 0 ∨ pa_channel a = 1.
Definition format_ok (a : PbAudioSetting) : Prop :=
  pa_format a = PB_AUDIO_FORMAT_UNSPECIFIED ∨ pa_format a = PB_MP3 ∨ pa_format a = PB_PCM.

Lemma enforce_ok a : enforce_audio_invariants a = Ok tt ↔ audio_valid a.
Proof.
  unfold enforce_audio_invariants, audio_valid.
  destruct (Z.eqb_spec (sample_rate a) 8000), (Z.eqb_spec (sample_rate a) 16000),
    (Z.eqb_spec (channel a) 1); simpl; try (split; [done|]; intuition lia);
    destruct (format a); simpl; intuition (try done; try lia).
Qed.

(** The members of the merged settings. *)
Lemma apply_audio_members a d :
  sample_rate (apply_audio a d) =
    (if pa_sample_rate a =? 0 then sample_rate d else pa_sample_rate a) ∧
  channel (apply_audio a d) = (if pa_channel a =? 0 then channel d else pa_channel a) ∧
  format (apply_audio a d) = (if pa_format a =? 0 then format d else to_format (pa_format a)).
Proof.
  unfold apply_audio, PB_AUDIO_FORMAT_UNSPECIFIED.
  by destruct (pa_sample_rate a =? 0), (pa_bitrate a =? 0), (pa_channel a =? 0),
    (pa_format a =? 0).
Qed.

Lemma apply_audio_cases a :
  let a' := apply_audio a AudioSettings_default in
  (rate_ok a ↔ sample_rate a' = 8000 ∨ sample_rate a' = 16000) ∧
  (channel_ok a ↔ channel a' = 1) ∧
  (format_ok a ↔ format a' = AF.Mp3 ∨ format a' = AF.Pcm).
Proof.
  cbv zeta. destruct (apply_audio_members a AudioSettings_default) as (-> & -> & ->).
  unfold rate_ok, channel_ok, format_ok, PB_AUDIO_FORMAT_UNSPECIFIED, PB_MP3, PB_PCM. simpl.
  split_and!.
  - destruct (Z.eqb_spec (pa_sample_rate a) 0); lia.
  - destruct (Z.eqb_spec (pa_channel a) 0); lia.
  - destruct (Z.eqb_spec (pa_format a) 0); [tauto|].
    unfold to_format, PB_MP3, PB_PCM, PB_FLAC, PB_WAV.
    repeat match goal with |- context [pa_format a =? ?k] =>
      destruct (Z.eqb_spec (pa_format a) k) as [->|]; [split; intros; (lia || naive_solver)|] end.
    split; intros; (lia || naive_solver).
Qed.

(** Which error, if any: the first violated constraint. *)
Lemma enforce_apply a :
  let e := enforce_audio_invariants (apply_audio a AudioSettings_default) in
  (rate_ok a ∧ channel_ok a ∧ format_ok a ∧ e = Ok tt) ∨
  (¬ rate_ok a ∧ e = Throw (parse_error "sample_rate must be 8000 or 16000")) ∨
  (rate_ok a ∧ ¬ channel_ok a ∧ e = Throw (parse_error "channel must be 1 (mono)")) ∨
  (rate_ok a ∧ channel_ok a ∧ ¬ format_ok a ∧
   e = Throw (parse_error "format must be mp3 or pcm in MVP")).
Proof.
  destruct (apply_audio_cases a) as (Hr & Hc & Hf). cbv zeta.
  set (a' := apply_audio a AudioSettings_default) in *. clearbody a'.
  rewrite Hr, Hc, Hf. unfold enforce_audio_invariants.
  destruct (Z.eqb_spec (sample_rate a') 8000), (Z.eqb_spec (sample_rate a') 16000),
    (Z.eqb_spec (channel a') 1); simpl; try (intuition lia);
    destruct (format a'); simpl; intuition (try done; try lia).
Qed.

Lemma apply_voice_id src dst :
  voice_id dst ≠ "" → voice_id (apply_voice src dst) ≠ "".
Proof.
  intros Hd. unfold apply_voice.
  destruct (String.eqb_spec (pv_voice_id src) ""), (f32_nonzero (pv_speed src)),
    (f32_nonzero (pv_vol src)), (pv_emotion src =? PB_EMOTION_UNSPECIFIED); done.
Qed.

(** ** Properties *)


(** The first chunk of a stream, parsed with settings that were never filled in,
    is accepted with default audio and voice and no model. *)
Lemma parse_chunk_default chunk rid :
  ∃ r, parse_chunk chunk rid PbSynthesizeRequest_default true = Ok r ∧
       rq_request_id r = rid ∧ rq_audio r = AudioSettings_default ∧
       rq_voice r = VoiceSettings_default ∧ rq_model r = MD.Unspecified ∧
       rq_backend r = BK.Auto.
Proof. destruct chunk; eexists; (split; [vm_compute; reflexivity|]); done. Qed.
