(* ===== verification/ResponseWriter.v ===== *)
(** * GrpcResponseWriter (src/entry/grpc_response_writer.cpp)

    Conversion of a [WriteToClient] to the protocol response. *)

From S2P Require Import Prelude Messages ChangeSet Proto RequestParser.

(** The [switch] on the format. *)
Definition from_format (f : AF.AudioFormat) : Z :=
  match f with
  | AF.Mp3 => PB_MP3
  | AF.Pcm => PB_PCM
  | AF.Flac => PB_FLAC
  | AF.Wav => PB_WAV
  | AF.Unspecified => PB_AUDIO_FORMAT_UNSPECIFIED
  end.

Definition to_proto (w : WriteToClient) : PbSynthesizeResponse := {|
  pp_audio := wc_audio w;
  pp_meta := {|
    pm_sample_rate := wc_sample_rate w;
    pm_channels := wc_channels w;
    pm_audio_length_ms := wc_audio_length_ms w;
    pm_audio_size_bytes := i64 (Z.of_nat (length (wc_audio w)));
    pm_usage_characters := wc_audio_length_ms w;
    pm_format := from_format (wc_format w);
  |};
  pp_is_final := wc_is_final w;
  pp_cumulative_bytes := wc_cumulative_bytes w;
  pp_status_code := wc_status_code w;
  pp_status_msg := wc_status_msg w;
  pp_trace_id := wc_trace_id w;
|}.

Lemma format_roundtrip f : to_format (from_format f) = f.
Proof. by destruct f. Qed.

(** The client can recover everything but the request id from the response. *)
Lemma to_proto_inj w w' :
  wc_request_id w = wc_request_id w' → to_proto w = to_proto w' → w = w'.
Proof.
  destruct w, w'. simpl. intros -> [= ]. subst.
  match goal with H : from_format ?f = from_format ?g |- _ =>
    apply (f_equal to_format) in H; rewrite !format_roundtrip in H; subst end.
  done.
Qed.
