(* ===== verification/Jwt.v ===== *)
(** * JwtVerifier (src/entry/jwt_auth_interceptor.h, src/entry/jwt_auth_interceptor.cpp)

    Verification of RS256 bearer tokens.  The two OpenSSL services the code uses,
    base64 decoding through a BIO and RSA/SHA-256 verification with the loaded
    key, are parameters; everything around them (splitting, padding, searching the
    JSON texts for claims, number parsing, comparison) is modelled. *)

From S2P Require Import Prelude HexCodec.

(** ** OpenSSL *)

(** [bio_base64 s] is what [BIO_read] delivers through the base64 filter, [None]
    when it returns a negative count; [rsa_sha256 data sig] is whether
    [EVP_DigestVerifyFinal] returns 1 for the verifier's key. *)
Class OpenSsl := {
  bio_base64 : string → option string;
  rsa_sha256 : string → string → bool;
}.

Inductive JwtResult : Type :=
| JwtOk | MissingHeader | InvalidSignature | Expired | Malformed | IssuerMismatch.
#[global] Instance JwtResult_eq_dec : EqDecision JwtResult.
Proof. solve_decision. Defined.

(** ** Characters *)

Definition ch_dot : Ascii.ascii := Ascii.ascii_of_nat 46.
Definition ch_quote : Ascii.ascii := Ascii.ascii_of_nat 34.
Definition ch_minus : Ascii.ascii := Ascii.ascii_of_nat 45.
Definition ch_plus : Ascii.ascii := Ascii.ascii_of_nat 43.
Definition ch_underscore : Ascii.ascii := Ascii.ascii_of_nat 95.
Definition ch_slash : Ascii.ascii := Ascii.ascii_of_nat 47.
Definition ch_equals : Ascii.ascii := Ascii.ascii_of_nat 61.
Definition ch_comma : Ascii.ascii := Ascii.ascii_of_nat 44.
Definition ch_brace : Ascii.ascii := Ascii.ascii_of_nat 125.

(** A string in double quotes. *)
Definition quoted (s : string) : string := String ch_quote "" +:+ s +:+ String ch_quote "".

(** ** Splitting and comparing *)

(** The loop of [split_dot]; [cur] is [s.substr(start, i - start)]. *)
Fixpoint split_dot_loop (s cur : string) (parts : list string) : list string :=
  match s with
  | "" => parts ++ [cur]
  | String c s =>
      if Ascii.eqb c ch_dot then split_dot_loop s "" (parts ++ [cur])
      else split_dot_loop s (cur +:+ String c "") parts
  end.

Definition split_dot (s : string) : list string := split_dot_loop s "" [].

(** The loop of [constant_time_eq], on strings of equal size: [acc |= a[i] ^ b[i]]. *)
Fixpoint ct_loop (a b : string) (acc : Z) : Z :=
  match a, b with
  | String x a, String y b => ct_loop a b (Z.lor acc (Z.lxor (char_code x) (char_code y)))
  | _, _ => acc
  end.

Definition constant_time_eq (a b : string) : bool :=
  if negb (Nat.eqb (String.length a) (String.length b)) then false
  else (ct_loop a b 0 =? 0)%Z.

(** ** Base64url *)

(** [std::replace(in.begin(), in.end(), x, y)]. *)
Fixpoint replace_char (x y : Ascii.ascii) (s : string) : string :=
  match s with
  | "" => ""
  | String c s => String (if Ascii.eqb c x then y else c) (replace_char x y s)
  end.

(** [while (in.size() % 4 != 0) in.push_back('=')]: at most three rounds. *)
Fixpoint pad_loop (fuel : nat) (s : string) : string :=
  match fuel with
  | O => s
  | S fuel =>
      if Nat.eqb (String.length s mod 4) 0 then s
      else pad_loop fuel (s +:+ String ch_equals "")
  end.

Definition base64url_input (s : string) : string :=
  pad_loop 3 (replace_char ch_underscore ch_slash (replace_char ch_minus ch_plus s)).

(** ** Claims *)

(** [json.find_first_of(",}", p)], scanning the suffix from [p]. *)
Fixpoint find_first_of_end (s : string) (p : nat) : nat :=
  match s with
  | "" => 0
  | String c s =>
      match p with
      | S p => S (find_first_of_end s p)
      | O => if Ascii.eqb c ch_comma || Ascii.eqb c ch_brace then 0
             else S (find_first_of_end s 0)
      end
  end.

(** The lambda [find_value]; the position of the end of the text stands for
    [npos] in the last search, as the code substitutes it. *)
Definition find_value (json key : string) : string :=
  let k := quoted key +:+ ":" in
  match String.index 0 k json with
  | None => ""
  | Some p =>
      let p := p + String.length k in
      if bool_decide (String.get p json = Some ch_quote) then
        match String.index (p + 1) (String ch_quote "") json with
        | None => ""
        | Some e => String.substring (p + 1) (e - p - 1) json
        end
      else
        let e := find_first_of_end json p in
        String.substring p (e - p) json
  end.

(** [std::stoll]: white space, sign, decimal digits; what follows is ignored.
    [None] is one of its two exceptions. *)
Definition is_space (c : Ascii.ascii) : bool :=
  let v := char_code c in (v =? 32)%Z || ((9 <=? v) && (v <=? 13))%Z.
Definition digit_of (c : Ascii.ascii) : option Z :=
  let v := char_code c in if ((48 <=? v) && (v <=? 57))%Z then Some (v - 48)%Z else None.

Fixpoint skip_space (s : string) : string :=
  match s with
  | String c s' => if is_space c then skip_space s' else s
  | "" => ""
  end.

Fixpoint digits_loop (s : string) (acc : Z) : Z :=
  match s with
  | String c s => match digit_of c with
                  | Some d => digits_loop s (10 * acc + d)%Z
                  | None => acc
                  end
  | "" => acc
  end.

Definition digits_value (s : string) : option Z :=
  match s with
  | String c s => d ← digit_of c; Some (digits_loop s d)
  | "" => None
  end.

Definition in_range (z : Z) : option Z :=
  if ((- 2 ^ 63 <=? z) && (z <? 2 ^ 63))%Z then Some z else None.

Definition stoll (s : string) : option Z :=
  match skip_space s with
  | String c s' =>
      if Ascii.eqb c ch_minus then z ← digits_value s'; in_range (- z)
      else if Ascii.eqb c ch_plus then z ← digits_value s'; in_range z
      else z ← digits_value (String c s'); in_range z
  | "" => None
  end.

(** ** Verification *)

Section verify.
Context {Ssl : OpenSsl}.

(** [base64url_decode]; [None] is the exception. *)
Definition base64url_decode (s : string) : option string := bio_base64 (base64url_input s).

(** The expiry test: [true] when it returns [Expired]. *)
Definition expired (payload : string) (now : Z) : bool :=
  let exp_str := find_value payload "exp" in
  if String.eqb exp_str "" then false
  else match stoll exp_str with
       | Some exp => (exp <=? now)%Z
       | None => false
       end.

(** [Rsa256Verifier::verify]; [now] is the system clock in seconds. *)
Definition verify (now : Z) (token required_issuer : string) : JwtResult :=
  if String.eqb token "" then MissingHeader
  else match split_dot token with
  | [h; p; s] =>
      match base64url_decode h, base64url_decode p with
      | Some header_json, Some payload_json =>
          match base64url_decode s with
          | Some sig_bytes =>
              if negb (rsa_sha256 (h +:+ "." +:+ p) sig_bytes) then InvalidSignature
              else if bool_decide
                (String.index 0 (quoted "alg" +:+ ":" +:+ quoted "RS256") header_json = None)
              then InvalidSignature
              else if expired payload_json now then Expired
              else if negb (String.eqb required_issuer "") &&
                      negb (constant_time_eq (find_value payload_json "iss") required_issuer)
              then IssuerMismatch
              else JwtOk
          | None => Malformed
          end
      | _, _ => Malformed
      end
  | _ => Malformed
  end.
End verify.

(** [JwtAuthInterceptor::verify]: delegate, [Malformed] without an inner verifier. *)
Definition interceptor_verify (inner : option (string → string → JwtResult))
    (token issuer : string) : JwtResult :=
  match inner with None => Malformed | Some v => v token issuer end.

(** ** Splitting is exact *)

(** Parts joined with dots. *)
Fixpoint join_dot (parts : list string) : string :=
  match parts with
  | [] => ""
  | [p] => p
  | p :: parts => p +:+ "." +:+ join_dot parts
  end.

Fixpoint no_dot (s : string) : bool :=
  match s with "" => true | String c s => negb (Ascii.eqb c ch_dot) && no_dot s end.

Lemma no_dot_snoc s c : no_dot s = true → Ascii.eqb c ch_dot = false →
  no_dot (s +:+ String c "") = true.
Proof.
  intros Hs Hc. induction s as [|x s IH]; simpl in *; [by rewrite Hc|].
  apply andb_true_iff in Hs as [-> Hs]. simpl. by apply IH.
Qed.

Lemma join_dot_snoc parts a b :
  join_dot ((parts ++ [a]) ++ [b]) = join_dot (parts ++ [a]) +:+ "." +:+ b.
Proof.
  induction parts as [|p parts IH]; [done|]. simpl in *.
  assert (∀ x (l : list string), (l ++ [x]) ++ [b] ≠ [] ∧ l ++ [x] ≠ []) as Hne
    by (intros x [|]; done).
  destruct ((parts ++ [a]) ++ [b]) eqn:E1; [by destruct (Hne a parts)|].
  destruct (parts ++ [a]) eqn:E2; [by destruct (Hne a parts)|].
  rewrite IH. by rewrite !string_app_assoc.
Qed.

Lemma join_dot_last parts a c :
  join_dot (parts ++ [a +:+ c]) = join_dot (parts ++ [a]) +:+ c.
Proof.
  induction parts as [|p parts IH]; [done|]. simpl in *.
  destruct (parts ++ [a +:+ c]) eqn:E1; [by destruct parts|].
  destruct (parts ++ [a]) eqn:E2; [by destruct parts|].
  rewrite IH. by rewrite !string_app_assoc.
Qed.

Lemma split_dot_loop_spec s cur parts :
  no_dot cur = true → Forall (λ p, no_dot p = true) parts →
  join_dot (split_dot_loop s cur parts) = join_dot (parts ++ [cur]) +:+ s ∧
  Forall (λ p, no_dot p = true) (split_dot_loop s cur parts).
Proof.
  revert cur parts. induction s as [|c s IH]; intros cur parts Hc Hp; simpl.
  - rewrite string_app_nil. split; [done|]. apply Forall_app. split; [done|by constructor].
  - destruct (Ascii.eqb c ch_dot) eqn:E.
    + destruct (IH "" (parts ++ [cur])) as [H1 H2]; [done|by apply Forall_app; repeat constructor|].
      split; [|done]. rewrite H1, join_dot_snoc. apply Ascii.eqb_eq in E as ->.
      by rewrite string_app_assoc.
    + destruct (IH (cur +:+ String c "") parts) as [H1 H2]; [by apply no_dot_snoc|done|].
      split; [|done]. rewrite H1, join_dot_last. by rewrite string_app_assoc.
Qed.

Lemma split_dot_spec s :
  join_dot (split_dot s) = s ∧ Forall (λ p, no_dot p = true) (split_dot s).
Proof. destruct (split_dot_loop_spec s "" []) as [H1 H2]; [done|constructor|]. done. Qed.

(** ** Comparison is equality *)

Lemma char_code_inj x y : char_code x = char_code y → x = y.
Proof.
  unfold char_code. intros H%N2Z.inj. rewrite <- (Ascii.ascii_N_embedding x), H.
  apply Ascii.ascii_N_embedding.
Qed.

Lemma ct_loop_zero a b acc :
  String.length a = String.length b → (ct_loop a b acc = 0%Z ↔ acc = 0%Z ∧ a = b).
Proof.
  revert b acc. induction a as [|x a IH]; intros [|y b] acc; simpl; intros Hl; try done.
  - naive_solver.
  - rewrite IH by congruence. rewrite Z.lor_eq_0_iff, Z.lxor_eq_0_iff.
    split.
    + by intros ((-> & ->%char_code_inj) & ->).
    + by intros (-> & [= -> ->]).
Qed.

Lemma constant_time_eq_spec a b : constant_time_eq a b = String.eqb a b.
Proof.
  unfold constant_time_eq. destruct (Nat.eqb_spec (String.length a) (String.length b)) as [Hl|Hl];
    simpl.
  - pose proof (ct_loop_zero a b 0 Hl) as H.
    destruct (Z.eqb_spec (ct_loop a b 0) 0), (String.eqb_spec a b); naive_solver.
  - destruct (String.eqb_spec a b); [by subst|done].
Qed.

(** Padding ends: the input of the decoder is a whole number of quads, whatever
    the token. *)
Lemma base64url_input_quads s : String.length (base64url_input s) mod 4 = 0.
Proof.
  unfold base64url_input. generalize (replace_char ch_underscore ch_slash
    (replace_char ch_minus ch_plus s)) as t. intros t.
  assert (∀ u, String.length (u +:+ String ch_equals "") = S (String.length u)) as Hs.
  { induction u as [|c u IH]; simpl; [done|]. by rewrite IH. }
  pose proof (Nat.mod_upper_bound (String.length t) 4).
  do 3 (cbn [pad_loop]; match goal with |- context [Nat.eqb ?x 0] =>
    destruct (Nat.eqb_spec x 0) as [|]; [done|] end).
  cbn [pad_loop]. rewrite !Hs in *.
  assert (∃ q r, String.length t = 4 * q + r ∧ r < 4) as (q & r & Ht & Hr).
  { exists (String.length t / 4), (String.length t mod 4). split; [apply Nat.div_mod_eq|lia]. }
  rewrite Ht in *. replace (S (S (S (4 * q + r)))) with (r + 3 + q * 4) in * by lia.
  replace (S (S (4 * q + r))) with (r + 2 + q * 4) in * by lia.
  replace (S (4 * q + r)) with (r + 1 + q * 4) in * by lia.
  replace (4 * q + r) with (r + q * 4) in * by lia.
  rewrite !Nat.Div0.mod_add in *.
  destruct r as [|[|[|[|]]]]; simpl in *; lia.
Qed.

Lemma split_dot_loop_app p s cur parts :
  no_dot p = true → split_dot_loop (p +:+ s) cur parts = split_dot_loop s (cur +:+ p) parts.
Proof.
  revert cur. induction p as [|c p IH]; intros cur Hp; simpl in *; [by rewrite string_app_nil|].
  apply andb_true_iff in Hp as [Hc Hp]. apply negb_true_iff in Hc. rewrite Hc, IH by done.
  by rewrite string_app_assoc.
Qed.

Lemma split_dot_three h p s :
  no_dot h = true → no_dot p = true → no_dot s = true →
  split_dot (h +:+ "." +:+ p +:+ "." +:+ s) = [h; p; s].
Proof.
  intros Hh Hp Hs. unfold split_dot.
  assert (∀ t cur parts, split_dot_loop ("." +:+ t) cur parts =
                         split_dot_loop t "" (parts ++ [cur])) as Hd by done.
  rewrite split_dot_loop_app, Hd, split_dot_loop_app, Hd by done.
  rewrite <- (string_app_nil s), split_dot_loop_app by done. simpl. by rewrite string_app_nil.
Qed.

(** ** Soundness and completeness *)

(** What makes a token acceptable: three dot-free parts that decode, a signature
    over the first two verified with the key, the RS256 algorithm in the header, an
    expiry that is absent, unreadable or in the future, and the issuer. *)
Definition token_ok {Ssl : OpenSsl} (now : Z) (token issuer : string) : Prop :=
  ∃ h p s header payload sig,
    token = h +:+ "." +:+ p +:+ "." +:+ s ∧
    (no_dot h = true ∧ no_dot p = true ∧ no_dot s = true) ∧
    (base64url_decode h = Some header ∧ base64url_decode p = Some payload ∧
     base64url_decode s = Some sig) ∧
    rsa_sha256 (h +:+ "." +:+ p) sig = true ∧
    is_Some (String.index 0 (quoted "alg" +:+ ":" +:+ quoted "RS256") header) ∧
    (∀ exp, find_value payload "exp" ≠ "" → stoll (find_value payload "exp") = Some exp →
            (now < exp)%Z) ∧
    (issuer = "" ∨ find_value payload "iss" = issuer).

Lemma expired_false payload now :
  expired payload now = false ↔
  (∀ exp, find_value payload "exp" ≠ "" → stoll (find_value payload "exp") = Some exp →
          (now < exp)%Z).
Proof.
  unfold expired. destruct (String.eqb_spec (find_value payload "exp") "") as [->|Hne];
    [naive_solver|].
  destruct (stoll _) as [e|]; [|naive_solver]. rewrite Z.leb_gt. naive_solver.
Qed.

Lemma split_dot_three_inv token h p s :
  split_dot token = [h; p; s] →
  token = h +:+ "." +:+ p +:+ "." +:+ s ∧
  (no_dot h = true ∧ no_dot p = true ∧ no_dot s = true).
Proof.
  intros E. destruct (split_dot_spec token) as [Hj Hf]. rewrite E in Hj, Hf.
  split; [by rewrite <- Hj|]. by repeat (apply Forall_cons in Hf as [? Hf]).
Qed.

Lemma verify_ok_iff {Ssl : OpenSsl} (now : Z) (token issuer : string) :
  verify now token issuer = JwtOk ↔ token_ok now token issuer.
Proof.
  unfold verify. split.
  - destruct (String.eqb_spec token ""); [done|].
    destruct (split_dot token) as [|h [|p [|s [|? ?]]]] eqn:E; try done.
    destruct (base64url_decode h) as [header|] eqn:Eh; [|done].
    destruct (base64url_decode p) as [payload|] eqn:Ep; [|done].
    destruct (base64url_decode s) as [sig|] eqn:Es; [|done].
    destruct (rsa_sha256 _ _) eqn:Er; [|done]. simpl negb. cbv iota.
    destruct (String.index 0 _ header) as [k|] eqn:Ea; [|done]. rewrite bool_decide_false by done.
    destruct (expired payload now) eqn:Ex; [done|]. rewrite constant_time_eq_spec.
    intros Hi. apply split_dot_three_inv in E as [Ht Hn]. pose proof (proj1 (expired_false _ _) Ex) as Ex'.
    exists h, p, s, header, payload, sig.
    split; [done|]. split; [done|]. split; [done|]. split; [done|]. split; [by eauto|].
    split; [done|].
    destruct (String.eqb_spec issuer ""); [by left|]. right.
    by destruct (String.eqb_spec (find_value payload "iss") issuer).
  - intros (h & p & s & header & payload & sig & -> & (Hh & Hp & Hs) & (Eh & Ep & Es) &
            Er & [n Ea] & Ex & Hi).
    destruct (String.eqb_spec (h +:+ "." +:+ p +:+ "." +:+ s) "") as [E|_].
    { by destruct h. }
    rewrite split_dot_three by done. rewrite Eh, Ep, Es, Er. simpl negb. cbv iota.
    rewrite Ea, bool_decide_false by done. rewrite (proj2 (expired_false payload now) Ex).
    rewrite constant_time_eq_spec.
    destruct Hi as [->| ->]; [done|]. rewrite String.eqb_refl. by rewrite andb_false_r.
Qed.

(** An expired token stays expired. *)
Lemma expired_mono payload now now' :
  (now ≤ now')%Z → expired payload now = true → expired payload now' = true.
Proof.
  unfold expired. case_match; [done|]. case_match; [|done]. rewrite !Z.leb_le. lia.
Qed.

Lemma verify_expired {Ssl : OpenSsl} now now' token issuer :
  (now ≤ now')%Z → verify now token issuer = Expired → verify now' token issuer = Expired.
Proof.
  intros Hn. unfold verify. repeat (case_match; try done).
  - match goal with H : expired _ now = true |- _ => apply (expired_mono _ _ now' Hn) in H end.
    congruence.
  - match goal with H : expired _ now = true |- _ => apply (expired_mono _ _ now' Hn) in H end.
    congruence.
Qed.

(** C33: Token verification accepts exactly the acceptable tokens: [verify] returns
    [Ok] iff the token is three dot-separated parts that decode, the signature
    verifies over exactly the text before the last dot, the header names RS256, a
    readable expiry lies in the future and the issuer matches the required one; and
    a token once rejected as expired is never accepted later. *)
Theorem jwt_accepts {Ssl : OpenSsl} (now : Z) (token issuer : string) :
  (verify now token issuer = JwtOk ↔ token_ok now token issuer) ∧
  (verify now token issuer = Expired →
   ∀ now', (now ≤ now')%Z → verify now' token issuer = Expired ∧ ¬ token_ok now' token issuer).
Proof.
  split; [apply verify_ok_iff|]. intros He now' Hn.
  pose proof (verify_expired now now' token issuer Hn He) as He'. split; [done|].
  rewrite <- verify_ok_iff. by rewrite He'.
Qed.
