(* ===== verification/TtsService.v ===== *)
(** * TtsServiceImpl (src/entry/tts_service_impl.h)

    The gRPC service: authentication, request ids, the tables that route
    responses to the handlers, and the handlers themselves.  Each handler runs in
    a thread of the gRPC server; the tables are accessed under [writers_mtx_], so
    a handler is a sequence of atomic steps that interleave with the heartbeat
    thread's [dispatch_to_writers].

    The per-request queues are shared pointers: the table and the handler refer to
    the same queue, which lives in the heap [queues].  A client stream is a number;
    [alive] are the streams whose handler has not returned (the stream object is
    destroyed with it), [written] the [Write] calls made, with their results.
    Whether a [Write] succeeds is decided by the network. *)

From S2P Require Import Prelude Messages ChangeSet CopyChannel Metrics DataBoard.
From S2P Require Import Proto RequestParser ResponseWriter Jwt.

(** ** State *)

Record Service := mkService {
  writers_ : gmap string nat;
  local_queues_ : gmap string nat;
  queues : gmap nat (CopyChannel WriteToClient);
  next_queue : nat;
  ctr : Z;
  alive : gset nat;
  written : list (nat * PbSynthesizeResponse * bool);
}.
#[global] Instance Service_eta : Eta Service := {|
  eta_expand s := mkService (writers_ s) (local_queues_ s) (queues s) (next_queue s)
    (ctr s) (alive s) (written s) |}.

Definition service_new : Service := mkService ∅ ∅ ∅ 0 1 ∅ [].

(** The result of the n-th [Write] on any stream. *)
Record Net := mkNet { write_result : nat → bool }.

Implicit Types (svc : Service) (w : WriteToClient).

(** ** Decimal numbers: [std::to_string] of an unsigned integer *)

Fixpoint decimal_loop (fuel : nat) (z : Z) (out : string) : string :=
  match fuel with
  | O => out
  | S fuel =>
      let out := String (HexCodec.to_char (48 + z mod 10)) out in
      if (z <? 10)%Z then out else decimal_loop fuel (z / 10) out
  end.

(** Twenty digits are enough for 64 bits. *)
Definition to_string_u64 (z : Z) : string := decimal_loop 20 z "".

(** [generate_request_id]. *)
Definition generate_request_id (tag : string) svc : string * Service :=
  (tag +:+ "-" +:+ to_string_u64 (ctr svc), svc <| ctr := u64 (ctr svc + 1) |>).

(** ** Authentication *)

(** [check_auth]: the verifier or none, and the value of the [authorization]
    metadata or none. *)
Definition check_auth (jwt : option (string → string → JwtResult))
    (authorization : option string) : bool :=
  match jwt with
  | None => true
  | Some verify =>
      match authorization with
      | None => false
      | Some v =>
          if negb (String.prefix "Bearer " v) then false
          else
            let token := String.substring 7 (String.length v - 7) v in
            bool_decide (verify token "tts-service" = JwtOk)
      end
  end.

Definition unauth : Status := mkStatus UNAUTHENTICATED "auth".

(** ** Tables *)

Definition register_writer (rid : string) (stream : nat) svc : Service :=
  svc <| writers_ := <[rid := stream]> (writers_ svc) |>.

(** [writers_.erase(rid); local_queues_.erase(rid);] *)
Definition erase_both (rid : string) svc : Service :=
  svc <| writers_ := delete rid (writers_ svc) |>
      <| local_queues_ := delete rid (local_queues_ svc) |>.

(** [local_queues_[rid] = std::make_shared<CopyChannel<WriteToClient>>()]. *)
Definition register_queue (rid : string) svc : nat * Service :=
  let q := next_queue svc in
  (q, svc <| queues := <[q := channel_new]> (queues svc) |>
          <| next_queue := S q |>
          <| local_queues_ := <[rid := q]> (local_queues_ svc) |>).

(** [stream->Write(out)]. *)
Definition stream_write (net : Net) (stream : nat) (out : PbSynthesizeResponse) svc
    : bool * Service :=
  let ok := write_result net (length (written svc)) in
  (ok, svc <| written := written svc ++ [(stream, out, ok)] |>).

(** ** Dispatch *)

(** One iteration of [dispatch_to_writers]. *)
Definition dispatch_one (net : Net) svc w : result ChannelClosed Service :=
  let rid := wc_request_id w in
  match local_queues_ svc !! rid with
  | Some q =>
      ch ← send w (default channel_new (queues svc !! q));
      Ok (svc <| queues := <[q := ch]> (queues svc) |>)
  | None =>
      match writers_ svc !! rid with
      | Some stream =>
          let '(_, svc) := stream_write net stream (to_proto w) svc in
          Ok (if wc_is_final w then svc <| writers_ := delete rid (writers_ svc) |> else svc)
      | None => Ok svc
      end
  end.

Definition dispatch_to_writers (net : Net) (writes : list WriteToClient) svc
    : result ChannelClosed Service :=
  foldl (λ r w, svc ← r; dispatch_one net svc w) (Ok svc) writes.

(** ** SynthesizeStream *)

(** Where a [SynthesizeStream] handler is. *)
Inductive StreamPc : Type :=
| PcSent (rid : string)
| PcQueued (rid : string) (q : nat)
| PcPolling (rid : string) (q : nat) (deadline : TimePoint)
| PcDone (st : Status)
| PcThrown.

(** From the call to [request_channel_->send]: authentication, id, parsing. *)
Definition stream_enter (jwt : option (string → string → JwtResult))
    (authorization : option string) (request : PbSynthesizeRequest) (stream : nat)
    (ch : CopyChannel Message) svc : StreamPc * CopyChannel Message * Service :=
  let svc := svc <| alive := {[stream]} ∪ alive svc |> in
  if negb (check_auth jwt authorization) then (PcDone unauth, ch, svc)
  else
    let '(rid, svc) := generate_request_id "strm" svc in
    match parse_unary request rid with
    | Throw (parse_error what) => (PcDone (mkStatus INVALID_ARGUMENT what), ch, svc)
    | Ok r =>
        match send (MsgRequest r) ch with
        | Throw _ => (PcThrown, ch, svc)
        | Ok ch => (PcSent rid, ch, svc)
        end
    end.

(** What became of the drained responses: all written, or the handler returned. *)
Inductive Delivery : Type := AllWritten | Returned.

(** The inner loop: write each response; return on failure or after a final one. *)
Fixpoint deliver (net : Net) (rid : string) (stream : nat) (ws : list WriteToClient) svc
    : Delivery * Service :=
  match ws with
  | [] => (AllWritten, svc)
  | w :: ws =>
      let '(ok, svc) := stream_write net stream (to_proto w) svc in
      if negb ok then (Returned, erase_both rid svc)
      else if wc_is_final w then (Returned, erase_both rid svc)
      else deliver net rid stream ws svc
  end.

(** One step of the handler of [stream]: registration of the queue, registration
    of the writer, or one round of the polling loop.  [cancelled] is
    [context->IsCancelled()], [now] the reading of the monotonic clock. *)
Definition stream_step (net : Net) (stream : nat) (cancelled : bool) (now : TimePoint)
    (pc : StreamPc) svc : StreamPc * Service :=
  match pc with
  | PcSent rid =>
      let '(q, svc) := register_queue rid svc in (PcQueued rid q, svc)
  | PcQueued rid q =>
      (PcPolling rid q (now + seconds 60)%Z, register_writer rid stream svc)
  | PcPolling rid q deadline =>
      if cancelled then (PcDone Status_OK, erase_both rid svc)
      else
        let '(drained, ch) := swap_out_all [] (default channel_new (queues svc !! q)) in
        let svc := svc <| queues := <[q := ch]> (queues svc) |> in
        match deliver net rid stream drained svc with
        | (Returned, svc) => (PcDone Status_OK, svc)
        | (AllWritten, svc) =>
            if (deadline <? now)%Z then (PcDone Status_OK, erase_both rid svc)
            else (PcPolling rid q deadline, svc)
        end
  | PcDone _ | PcThrown => (pc, svc)
  end.

(** The stream object dies when the handler returns. *)
Definition stream_exit (stream : nat) svc : Service :=
  svc <| alive := alive svc ∖ {[stream]} |>.

(** ** SynthesizeClient *)

(** The reading loop; [initial_settings] is never filled in. *)
Fixpoint client_loop (chunks : list PbTextChunk) (rid : string) (first : bool)
    (ch : CopyChannel Message) : result ChannelClosed (Status * CopyChannel Message) :=
  match chunks with
  | [] => Ok (Status_OK, ch)
  | c :: chunks =>
      match parse_chunk c rid PbSynthesizeRequest_default first with
      | Throw (parse_error what) => Ok (mkStatus INVALID_ARGUMENT what, ch)
      | Ok r =>
          ch ← send (MsgRequest r) ch;
          client_loop chunks rid false ch
      end
  end.

Definition SynthesizeClient (jwt : option (string → string → JwtResult))
    (authorization : option string) (stream : nat) (chunks : list PbTextChunk)
    (ch : CopyChannel Message) svc
    : result ChannelClosed (Status * CopyChannel Message * Service) :=
  let svc := svc <| alive := {[stream]} ∪ alive svc |> in
  if negb (check_auth jwt authorization) then Ok (unauth, ch, stream_exit stream svc)
  else
    let '(rid, svc) := generate_request_id "cli" svc in
    let svc := register_writer rid stream svc in
    '(st, ch) ← client_loop chunks rid true ch;
    Ok (st, ch, stream_exit stream svc).

(** ** GetMetrics *)

Definition GetMetrics (jwt : option (string → string → JwtResult))
    (authorization : option string) (b : DataBoard) : Status * option PbMetrics :=
  if negb (check_auth jwt authorization) then (unauth, None)
  else
    let m := metrics_ b in
    (Status_OK, Some {|
      px_inflight_requests := inflight_ m;
      px_queued_messages := queued_ m;
      px_heartbeat_p99_us := heartbeat_p99_us m;
      px_upstream_connected := upstream_connected_ m;
      px_upstream_disconnected_total := upstream_disconnected_ m;
      px_audio_bytes_emitted_total := audio_bytes_ m;
      px_failed_requests_total := failed_requests_ m;
      px_pool_idle_sessions := pool_idle_ m;
      px_pool_active_sessions := pool_active_ m;
      px_backpressure_level := backpressure_ m;
      px_heartbeat_count := heartbeat_count_ m;
      px_bus_worker_pending := bus_pending_ m;
    |}).
