(* ===== verification/ServiceFacts.v ===== *)
(** * Properties of the service (src/entry/tts_service_impl.h)

    Request ids are distinct; responses are routed to the queue of their request;
    a polling handler writes them to its client in order, up to the final one,
    under every interleaving with the heartbeat thread and the other handlers. *)

From S2P Require Import Prelude Messages ChangeSet CopyChannel HexCodec Metrics DataBoard.
From S2P Require Import Proto RequestParser ResponseWriter Jwt TtsService.

Implicit Types (svc : Service) (w : WriteToClient) (ws : list WriteToClient).

(** ** Request ids *)

Lemma digit_of_to_char z : (0 ≤ z < 10)%Z → digit_of (to_char (48 + z)) = Some z.
Proof.
  intros Hz. assert (∃ n, z = Z.of_nat n ∧ n < 10) as (n & -> & Hn) by (exists (Z.to_nat z); lia).
  clear Hz. do 10 (destruct n as [|n]; [done|]). lia.
Qed.

Lemma decimal_loop_S fuel z out :
  decimal_loop (S fuel) z out =
  if (z <? 10)%Z then String (to_char (48 + z mod 10)) out
  else decimal_loop fuel (z / 10) (String (to_char (48 + z mod 10)) out).
Proof. done. Qed.

(** Reading back the decimal digits. *)
Lemma decimal_loop_value fuel z out :
  (0 ≤ z < 10 ^ Z.of_nat (S fuel))%Z →
  digits_loop (decimal_loop (S fuel) z out) 0 = digits_loop out z.
Proof.
  revert z out. induction fuel as [|fuel IH]; intros z out Hz.
  - simpl in *. assert (z < 10)%Z as Hlt by lia. rewrite (proj2 (Z.ltb_lt z 10)) by done.
    simpl. rewrite Z.mod_small, digit_of_to_char by lia. f_equal; lia.
  - rewrite decimal_loop_S. pose proof (Z.mod_pos_bound z 10 ltac:(lia)) as Hm.
    destruct (Z.ltb_spec z 10).
    + cbn [digits_loop]. rewrite Z.mod_small, digit_of_to_char by lia. f_equal; lia.
    + rewrite IH.
      * cbn [digits_loop]. rewrite digit_of_to_char by lia. f_equal.
        pose proof (Z.div_mod z 10). lia.
      * split; [apply Z.div_pos; lia|]. apply Z.div_lt_upper_bound; [lia|].
        rewrite (Nat2Z.inj_succ (S fuel)), Z.pow_succ_r in Hz by lia. lia.
Qed.

Lemma to_string_u64_value z : (0 ≤ z < 2 ^ 64)%Z → digits_loop (to_string_u64 z) 0 = z.
Proof. intros Hz. apply (decimal_loop_value 19). simpl. lia. Qed.

(** Request ids are never handed out twice: two ids generated with the same
    tag at different counter values are different, for all 2^64 values. *)
Theorem request_ids_distinct (tag : string) svc svc' :
  (0 ≤ ctr svc < 2 ^ 64)%Z → (0 ≤ ctr svc' < 2 ^ 64)%Z → ctr svc ≠ ctr svc' →
  (generate_request_id tag svc).1 ≠ (generate_request_id tag svc').1.
Proof.
  intros H1 H2 Hne. simpl. intros E. apply Hne.
  rewrite <- (to_string_u64_value (ctr svc)), <- (to_string_u64_value (ctr svc')) by done.
  f_equal. induction tag as [|c tag IH]; simpl in E; [by injection E|].
  injection E as E. by apply IH.
Qed.

Lemma request_ids_distinct_witness :
  (generate_request_id "strm" service_new).1 ≠
  (generate_request_id "strm" (generate_request_id "strm" service_new).2).1.
Proof. apply request_ids_distinct; vm_compute; (split; congruence) || congruence. Defined.

(** ** The tables *)

(** Every registered queue exists, is open and belongs to one request. *)
Record svc_wf svc : Prop := {
  sw_queue rid q : local_queues_ svc !! rid = Some q →
    q < next_queue svc ∧ is_Some (queues svc !! q);
  sw_open q ch : queues svc !! q = Some ch → closed_ ch = false;
  sw_inj r1 r2 q : local_queues_ svc !! r1 = Some q → local_queues_ svc !! r2 = Some q → r1 = r2;
  sw_heap q : is_Some (queues svc !! q) → q < next_queue svc;
}.

Lemma service_new_wf : svc_wf service_new.
Proof. by split; try intros ? []. Qed.

(** The responses waiting in a queue. *)
Definition queued_in (q : nat) svc : list WriteToClient :=
  buffer_ (default channel_new (queues svc !! q)).

(** The responses of one request among those of a tick. *)
Definition for_request (rid : string) ws : list WriteToClient :=
  filter (λ w, wc_request_id w = rid) ws.

(** What was written to a stream, in order. *)
Definition stream_log (stream : nat) svc : list PbSynthesizeResponse :=
  (λ e, e.1.2) <$> filter (λ e, e.1.1 = stream) (written svc).

Section dispatch.
Context (net : Net).

Lemma dispatch_one_spec svc w :
  svc_wf svc →
  ∃ svc', dispatch_one net svc w = Ok svc' ∧ svc_wf svc' ∧
    local_queues_ svc' = local_queues_ svc ∧
    (∀ rid q, local_queues_ svc !! rid = Some q →
       queued_in q svc' = queued_in q svc ++ for_request rid [w]) ∧
    writers_ svc' ⊆ writers_ svc ∧
    (∀ stream, (∀ rid, writers_ svc !! rid = Some stream →
                       is_Some (local_queues_ svc !! rid)) →
       stream_log stream svc' = stream_log stream svc) ∧
    (local_queues_ svc !! wc_request_id w = None → writers_ svc !! wc_request_id w = None →
     svc' = svc).
Proof.
  intros Hwf. unfold dispatch_one, for_request.
  destruct (local_queues_ svc !! wc_request_id w) as [q|] eqn:Eq.
  - destruct (sw_queue svc Hwf _ _ Eq) as (Hlt & ch & Hch). rewrite Hch. simpl.
    unfold send. rewrite (sw_open svc Hwf q ch Hch). simpl.
    eexists. split; [done|]. split; [|split; [done|]].
    + split; simpl.
      * intros rid q' Hq. destruct (sw_queue svc Hwf _ _ Hq) as [? ?]. split; [done|].
        rewrite lookup_insert_is_Some'. by right.
      * intros q' ch' [[<- <-]|[_ H]]%lookup_insert_Some; [apply (sw_open svc Hwf q ch Hch)|].
        by eapply sw_open.
      * apply (sw_inj svc Hwf).
      * intros q' [<-|H]%lookup_insert_is_Some'; [done|by apply (sw_heap svc Hwf)].
    + split; [|split; [done|split; [done|by intros [=]]]]. intros rid q' Hq.
      unfold queued_in. simpl. destruct (decide (q' = q)) as [->|Hne].
      * rewrite lookup_insert_eq, Hch. simpl. f_equal.
        rewrite filter_cons_True; [done|]. by apply (sw_inj svc Hwf _ _ q).
      * rewrite lookup_insert_ne by done. rewrite filter_cons_False, filter_nil, app_nil_r; [done|].
        intros <-. congruence.
  - assert (∀ rid q, local_queues_ svc !! rid = Some q → filter (λ w, wc_request_id w = rid) [w] = [])
      as Hnil.
    { intros rid q Hq. rewrite filter_cons_False; [done|]. intros <-. congruence. }
    destruct (writers_ svc !! wc_request_id w) as [stream|] eqn:Ew; simpl.
    + eexists. split; [done|].
      assert (∀ s, (∀ rid, writers_ svc !! rid = Some s → is_Some (local_queues_ svc !! rid)) →
        s ≠ stream) as Hs.
      { intros s H ->. destruct (H _ Ew) as [? ?]. congruence. }
      assert (∀ s o b, s ≠ stream →
        (λ e, e.1.2) <$> filter (λ e, e.1.1 = s) (written svc ++ [(stream, o, b)]) =
        stream_log s svc) as Hlog.
      { intros s o b Hne. unfold stream_log. rewrite filter_app, filter_cons_False by (simpl; congruence).
        by rewrite filter_nil, app_nil_r. }
      destruct (wc_is_final w); (split; [by destruct Hwf; split|split; [done|split; [|split; [|split]]]]);
        try (intros rid q Hq; rewrite (Hnil rid q Hq), app_nil_r; done); simpl; try done.
      * apply delete_subseteq.
      * intros s H. apply Hlog; auto.
      * intros s H. apply Hlog; auto.
    + eexists. split; [done|]. split; [done|]. split; [done|]. split; [|done].
      intros rid q Hq. rewrite (Hnil rid q Hq), app_nil_r. done.
Qed.
End dispatch.

Section routes.
Context (net : Net).

(** The fold of [dispatch_to_writers], one response at a time. *)
Lemma dispatch_cons svc w ws svc' :
  dispatch_one net svc w = Ok svc' →
  dispatch_to_writers net (w :: ws) svc = dispatch_to_writers net ws svc'.
Proof. intros H. unfold dispatch_to_writers. simpl. by rewrite H. Qed.

Lemma dispatch_spec ws svc :
  svc_wf svc →
  ∃ svc', dispatch_to_writers net ws svc = Ok svc' ∧ svc_wf svc' ∧
    local_queues_ svc' = local_queues_ svc ∧
    (∀ rid q, local_queues_ svc !! rid = Some q →
       queued_in q svc' = queued_in q svc ++ for_request rid ws) ∧
    writers_ svc' ⊆ writers_ svc ∧
    (∀ stream, (∀ rid, writers_ svc !! rid = Some stream →
                       is_Some (local_queues_ svc !! rid)) →
       stream_log stream svc' = stream_log stream svc).
Proof.
  revert svc. induction ws as [|w ws IH]; intros svc Hwf.
  { exists svc. split; [done|]. split; [done|]. split; [done|]. split; [|done].
    intros rid q _. by rewrite app_nil_r. }
  destruct (dispatch_one_spec net svc w Hwf) as (s1 & E & W1 & L1 & Q1 & K1 & G1 & _).
  destruct (IH s1 W1) as (s2 & E2 & W2 & L2 & Q2 & K2 & G2).
  exists s2. rewrite (dispatch_cons _ _ _ _ E), L2, L1.
  split; [done|]. split; [done|]. split; [done|]. split; [|split].
  - intros rid q Hq. rewrite (Q2 rid q) by (by rewrite L1). rewrite (Q1 rid q Hq).
    rewrite <- app_assoc. f_equal. unfold for_request. by rewrite <- filter_app.
  - by trans (writers_ s1).
  - intros s Hs. rewrite G2, G1; [done..|].
    intros rid Hr. rewrite L1. apply Hs. eapply lookup_weaken; eauto.
Qed.

(** Routing of responses.  On consistent tables [dispatch_to_writers] never
    throws, appends to the queue of every registered request exactly the responses
    of that request, in order, leaves all other queues alone and keeps the tables
    consistent; a response whose request is in neither table is dropped without a
    trace. *)
Theorem dispatch_routes ws svc :
  svc_wf svc →
  (∃ svc', dispatch_to_writers net ws svc = Ok svc' ∧ svc_wf svc' ∧
     local_queues_ svc' = local_queues_ svc ∧
     ∀ rid q, local_queues_ svc !! rid = Some q →
       queued_in q svc' = queued_in q svc ++ for_request rid ws) ∧
  (Forall (λ w, local_queues_ svc !! wc_request_id w = None ∧
                writers_ svc !! wc_request_id w = None) ws →
   dispatch_to_writers net ws svc = Ok svc).
Proof.
  intros Hwf. split.
  - destruct (dispatch_spec ws svc Hwf) as (s & H1 & H2 & H3 & H4 & _). eauto.
  - induction 1 as [|w ws [Hq Hw] _ IH]; [done|].
    destruct (dispatch_one_spec net svc w Hwf) as (s1 & E & _ & _ & _ & _ & _ & Hs).
    rewrite (dispatch_cons _ _ _ _ E), (Hs Hq Hw). done.
Qed.
End routes.

(** ** A polling handler *)

(** Responses up to and including the first final one. *)
Fixpoint until_final ws : list WriteToClient :=
  match ws with
  | [] => []
  | w :: ws => w :: (if wc_is_final w then [] else until_final ws)
  end.

Definition has_final ws : bool := existsb wc_is_final ws.

Lemma until_final_app ws ws' :
  until_final (ws ++ ws') = until_final ws ++ (if has_final ws then [] else until_final ws').
Proof.
  induction ws as [|w ws IH]; simpl; [done|]. destruct (wc_is_final w); simpl; [done|].
  by rewrite IH.
Qed.

Lemma until_final_all ws : has_final ws = false → until_final ws = ws.
Proof.
  induction ws as [|w ws IH]; simpl; [done|]. destruct (wc_is_final w); simpl; [done|].
  intros H. by rewrite IH.
Qed.

Section deliver.
Context (net : Net) (Hnet : ∀ n, write_result net n = true).

Lemma deliver_spec rid stream ws svc :
  let '(d, svc') := deliver net rid stream ws svc in
  stream_log stream svc' = stream_log stream svc ++ (to_proto <$> until_final ws) ∧
  queues svc' = queues svc ∧ next_queue svc' = next_queue svc ∧
  match d with
  | Returned => has_final ws = true ∧ local_queues_ svc' = delete rid (local_queues_ svc) ∧
                writers_ svc' = delete rid (writers_ svc)
  | AllWritten => has_final ws = false ∧ local_queues_ svc' = local_queues_ svc ∧
                  writers_ svc' = writers_ svc
  end.
Proof.
  revert svc. induction ws as [|w ws IH]; intros svc.
  { simpl. by rewrite app_nil_r. }
  cbn [deliver until_final has_final existsb]. unfold stream_write. rewrite Hnet.
  cbv beta iota zeta. cbn [negb].
  set (svc1 := svc <| written := written svc ++ [(stream, to_proto w, true)] |>).
  assert (stream_log stream svc1 = stream_log stream svc ++ [to_proto w]) as Hlog.
  { unfold stream_log, svc1. simpl. rewrite filter_app, filter_cons_True by done.
    by rewrite fmap_app. }
  destruct (wc_is_final w).
  - split; [exact Hlog|]. done.
  - specialize (IH svc1). rewrite fmap_cons, cons_middle. destruct (deliver net rid stream ws svc1) as [d svc'].
    destruct IH as (H1 & H2 & H3 & H4). rewrite H1, Hlog, <- app_assoc.
    done.
Qed.
End deliver.

Section session.
Context (net : Net) (Hnet : ∀ n, write_result net n = true) (rid : string) (stream : nat).

(** What a step of another handler may do: it touches neither this request's
    entries and queue nor this handler's stream. *)
Definition others svc svc' : Prop :=
  (svc_wf svc → svc_wf svc') ∧
  local_queues_ svc' !! rid = local_queues_ svc !! rid ∧
  writers_ svc' !! rid = writers_ svc !! rid ∧
  (∀ q, local_queues_ svc !! rid = Some q → queues svc' !! q = queues svc !! q) ∧
  stream_log stream svc' = stream_log stream svc ∧
  (∀ r, r ≠ rid → writers_ svc' !! r = Some stream → writers_ svc !! r = Some stream).

(** A handler that polls before its deadline and is not cancelled, beside the
    heartbeat thread and the other handlers.  The first component collects the
    responses dispatched for the request. *)
Inductive session_step :
    list WriteToClient * StreamPc * Service → list WriteToClient * StreamPc * Service → Prop :=
| ss_dispatch ws hist pc svc svc' :
    dispatch_to_writers net ws svc = Ok svc' →
    session_step (hist, pc, svc) (hist ++ for_request rid ws, pc, svc')
| ss_poll now hist pc svc pc' svc' :
    match pc with PcPolling _ _ d => (now ≤ d)%Z | _ => True end →
    stream_step net stream false now pc svc = (pc', svc') →
    session_step (hist, pc, svc) (hist, pc', svc')
| ss_other hist pc svc svc' :
    others svc svc' → session_step (hist, pc, svc) (hist, pc, svc').

Definition session_inv (base : list PbSynthesizeResponse)
    (st : list WriteToClient * StreamPc * Service) : Prop :=
  let '(hist, pc, svc) := st in
  svc_wf svc ∧ (∀ r, writers_ svc !! r = Some stream → r = rid) ∧
  match pc with
  | PcPolling r q d =>
      r = rid ∧ local_queues_ svc !! rid = Some q ∧
      ∃ done, hist = done ++ queued_in q svc ∧ has_final done = false ∧
              stream_log stream svc = base ++ (to_proto <$> done)
  | PcDone st =>
      st = Status_OK ∧ local_queues_ svc !! rid = None ∧ writers_ svc !! rid = None ∧
      has_final hist = true ∧ stream_log stream svc = base ++ (to_proto <$> until_final hist)
  | _ => False
  end.

Lemma has_final_app ws ws' : has_final (ws ++ ws') = has_final ws || has_final ws'.
Proof. apply existsb_app. Qed.

Lemma session_dispatch base hist pc svc ws svc' :
  session_inv base (hist, pc, svc) → dispatch_to_writers net ws svc = Ok svc' →
  session_inv base (hist ++ for_request rid ws, pc, svc').
Proof.
  intros (Hwf & Hu & Hpc) Hd.
  destruct (dispatch_spec net ws svc Hwf) as (s & E & W & L & Q & K & G).
  rewrite E in Hd. injection Hd as ->.
  assert (∀ r, writers_ svc' !! r = Some stream → r = rid) as Hu'.
  { intros r Hr. apply Hu. eapply lookup_weaken; eauto. }
  destruct pc as [| |r q d|st|]; try done; (split; [done|]; split; [done|]).
  - destruct Hpc as (-> & Hq & done & -> & Hf & Hlog). split; [done|]. split; [by rewrite L|].
    exists done. rewrite (Q rid q Hq), app_assoc. split; [done|]. split; [done|].
    rewrite G; [done|]. intros r Hr%Hu. subst. by rewrite Hq.
  - destruct Hpc as (-> & Hq & Hw & Hf & Hlog). split_and!.
    + done.
    + by rewrite L.
    + destruct (writers_ svc' !! rid) as [s|] eqn:Es; [|done].
      pose proof (lookup_weaken _ _ _ _ Es K). congruence.
    + by rewrite has_final_app, Hf.
    + rewrite until_final_app, Hf, app_nil_r, G; [done|].
      intros r Hr. pose proof (Hu r Hr). congruence.
Qed.

Lemma emptied_wf q svc ch :
  svc_wf svc → is_Some (queues svc !! q) → closed_ ch = false →
  svc_wf (svc <| queues := <[q := ch]> (queues svc) |>).
Proof.
  intros [H1 H2 H3 H4] Hq Hc. split; simpl.
  - intros r q' Hr. destruct (H1 r q' Hr). split; [done|]. rewrite lookup_insert_is_Some'. by right.
  - intros q' ch' [[<- <-]|[_ ?]]%lookup_insert_Some; eauto.
  - done.
  - intros q' [<-|?]%lookup_insert_is_Some'; auto.
Qed.

Lemma erased_wf svc svc' :
  svc_wf svc → queues svc' = queues svc → next_queue svc' = next_queue svc →
  (local_queues_ svc' = local_queues_ svc ∨ local_queues_ svc' = delete rid (local_queues_ svc)) →
  svc_wf svc'.
Proof.
  intros [H1 H2 H3 H4] Hq Hn Hl.
  assert (∀ r q, local_queues_ svc' !! r = Some q → local_queues_ svc !! r = Some q) as Hsub.
  { intros r q. destruct Hl as [->| ->]; [done|]. by intros [_ ?]%lookup_delete_Some. }
  split; rewrite ?Hq, ?Hn; eauto.
Qed.

Lemma session_poll base hist r q d svc now :
  session_inv base (hist, PcPolling r q d, svc) → (now ≤ d)%Z →
  let '(pc', svc') := stream_step net stream false now (PcPolling r q d) svc in
  session_inv base (hist, pc', svc') ∧ (has_final hist = true → pc' = PcDone Status_OK).
Proof.
  intros (Hwf & Hu & -> & Hq & done & -> & Hf & Hlog) Hnow.
  destruct (sw_queue svc Hwf rid q Hq) as (_ & ch & Hch).
  cbn [stream_step]. rewrite swap_out_all_spec, app_nil_l. rewrite Hch. cbn [from_option id].
  unfold queued_in. rewrite Hch. cbn [from_option id].
  set (s1 := svc <| queues := <[q := mkChannel [] (closed_ ch)]> (queues svc) |>).
  assert (svc_wf s1) as Hwf1.
  { apply emptied_wf; [done|by rewrite Hch|exact (sw_open svc Hwf q ch Hch)]. }
  pose proof (deliver_spec net Hnet rid stream (buffer_ ch) s1) as Hd.
  destruct (deliver net rid stream (buffer_ ch) s1) as [dl s2].
  destruct Hd as (Hl & Hqs & Hn & Hm).
  change (stream_log stream s1) with (stream_log stream svc) in Hl. rewrite Hlog in Hl.
  destruct dl; destruct Hm as (Hfin & Hlq & Hwr).
  - rewrite (proj2 (Z.ltb_ge d now)) by done. rewrite has_final_app, Hf, Hfin.
    split; [|done]. split; [|split].
    + eapply (erased_wf s1); auto.
    + by rewrite Hwr.
    + split; [done|]. split; [by rewrite Hlq|]. exists (done ++ buffer_ ch).
      unfold queued_in. rewrite Hqs. simpl. rewrite lookup_insert_eq. simpl.
      rewrite app_nil_r, has_final_app, Hf, Hfin, Hl, until_final_all by done.
      by rewrite fmap_app, app_assoc.
  - split; [|done]. split; [|split].
    + eapply (erased_wf s1); auto.
    + rewrite Hwr. intros x [_ ?]%lookup_delete_Some. by apply Hu.
    + rewrite Hlq, Hwr, !lookup_delete_eq. split_and!; try done.
      * by rewrite has_final_app, Hf, Hfin.
      * rewrite until_final_app, Hf, (until_final_all done), Hl by done.
        by rewrite fmap_app, app_assoc.
Qed.

Lemma session_other base hist pc svc svc' :
  session_inv base (hist, pc, svc) → others svc svc' → session_inv base (hist, pc, svc').
Proof.
  intros (Hwf & Hu & Hpc) (O1 & O2 & O3 & O4 & O5 & O6). split; [by apply O1|]. split.
  { intros r Hr. destruct (decide (r = rid)); [done|]. by apply Hu, O6. }
  destruct pc as [| |r q d|st|]; try done.
  - destruct Hpc as (-> & Hq & done & -> & Hf & Hlog). split; [done|]. split; [by rewrite O2|].
    exists done. unfold queued_in. rewrite (O4 q Hq), O5. done.
  - by rewrite O2, O3, O5.
Qed.

Lemma session_invariant base st st' :
  session_inv base st → rtc session_step st st' → session_inv base st'.
Proof.
  intros Hi Hr. revert Hi. induction Hr as [|st st1 st2 Hs _ IH]; [done|]. intros Hi. apply IH.
  destruct Hs as [ws hist pc svc svc' Hd|now hist pc svc pc' svc' Hn Hs|hist pc svc svc' Ho].
  - by eapply session_dispatch.
  - destruct pc as [| |r q d|s|]; try (by destruct Hi as (_ & _ & [])).
    + pose proof (session_poll base hist r q d svc now Hi Hn) as Hp.
      rewrite Hs in Hp. apply Hp.
    + cbn in Hs. by injection Hs as <- <-.
  - by eapply session_other.
Qed.

(** Delivery to the client.  Once a [SynthesizeStream] handler polls its
    registered queue (not cancelled, before its deadline, with successful writes),
    then under every interleaving of its polls with dispatches by the heartbeat
    thread and with other handlers, what it has written to its client is a prefix of
    the responses put in the queue for its request, in order and without a final one, as
    long as it runs; once it has returned, with status OK, it is exactly these
    responses up to and including the first final one, each once, and its tables
    are cleaned; and when a final response was dispatched its next poll returns. *)
Theorem stream_delivers_in_order q d svc hist pc svc' :
  svc_wf svc → local_queues_ svc !! rid = Some q →
  (∀ r, writers_ svc !! r = Some stream → r = rid) →
  rtc session_step (queued_in q svc, PcPolling rid q d, svc) (hist, pc, svc') →
  match pc with
  | PcPolling _ q' d' =>
      (∃ rest, hist = rest ++ queued_in q' svc' ∧ has_final rest = false ∧
               stream_log stream svc' = stream_log stream svc ++ (to_proto <$> rest)) ∧
      (∀ now, (now ≤ d')%Z → has_final hist = true →
              (stream_step net stream false now pc svc').1 = PcDone Status_OK)
  | PcDone st =>
      st = Status_OK ∧ has_final hist = true ∧
      stream_log stream svc' = stream_log stream svc ++ (to_proto <$> until_final hist) ∧
      local_queues_ svc' !! rid = None ∧ writers_ svc' !! rid = None
  | _ => False
  end.
Proof.
  intros Hwf Hq Hu Hr.
  assert (session_inv (stream_log stream svc) (queued_in q svc, PcPolling rid q d, svc)) as Hi.
  { split; [done|]. split; [done|]. split; [done|]. split; [done|]. exists [].
    simpl. by rewrite app_nil_r. }
  pose proof (session_invariant _ _ _ Hi Hr) as Hi'.
  destruct pc as [| |r q' d'|st|]; try (by destruct Hi' as (_ & _ & [])).
  - split.
    + destruct Hi' as (_ & _ & _ & _ & done & H1 & H2 & H3). eauto.
    + intros now Hn Hf. pose proof (session_poll _ _ _ _ _ _ now Hi' Hn) as Hp.
      destruct (stream_step _ _ _ _ _ _) as [pc' s2]. by apply Hp.
  - destruct Hi' as (_ & _ & H1 & H2 & H3 & H4 & H5). done.
Qed.
End session.

(** ** Other handlers keep out of the way *)

Lemma deliver_frame net rid2 stream2 ws svc :
  let svc' := (deliver net rid2 stream2 ws svc).2 in
  queues svc' = queues svc ∧ next_queue svc' = next_queue svc ∧
  (local_queues_ svc' = local_queues_ svc ∧ writers_ svc' = writers_ svc ∨
   local_queues_ svc' = delete rid2 (local_queues_ svc) ∧
   writers_ svc' = delete rid2 (writers_ svc)) ∧
  (∀ s, s ≠ stream2 → stream_log s svc' = stream_log s svc).
Proof.
  revert svc. induction ws as [|w ws IH]; intros svc; [split_and!; auto|].
  cbn [deliver]. unfold stream_write.
  set (ok := write_result net (length (written svc))). cbv beta iota zeta.
  set (svc1 := svc <| written := written svc ++ [(stream2, to_proto w, ok)] |>).
  assert (∀ s, s ≠ stream2 → stream_log s svc1 = stream_log s svc) as Hlog.
  { intros s Hs. unfold stream_log, svc1. simpl.
    rewrite filter_app, filter_cons_False by (simpl; congruence). by rewrite app_nil_r. }
  destruct ok; cbn [negb]; [destruct (wc_is_final w)|].
  - split_and!; auto.
  - destruct (IH svc1) as (H1 & H2 & H3 & H4). split_and!; auto.
    intros s Hs. by rewrite H4, Hlog.
  - split_and!; auto.
Qed.

(** A newly registered queue keeps the tables consistent. *)
Lemma registered_wf rid svc : svc_wf svc → svc_wf (register_queue rid svc).2.
Proof.
  intros [H1 H2 H3 H4]. split; simpl.
  - intros r q [[<- <-]|[_ H]]%lookup_insert_Some.
    + split; [lia|]. rewrite lookup_insert_eq. eauto.
    + destruct (H1 r q H). split; [lia|]. rewrite lookup_insert_is_Some'. by right.
  - intros q ch [[<- <-]|[_ H]]%lookup_insert_Some; [done|by eapply H2].
  - intros r1 r2 q [[<- <-]|[? E1]]%lookup_insert_Some [[<- E2]|[? E2]]%lookup_insert_Some;
      try done; [destruct (H1 _ _ E2)|destruct (H1 _ _ E1)|by eapply H3]; lia.
  - intros q [<-|H]%lookup_insert_is_Some'; [lia|]. specialize (H4 q H). lia.
Qed.

(** Only the entries of another request may have gone. *)
Lemma others_erased rid stream rid2 svc svc' q :
  local_queues_ svc !! rid = Some q → rid2 ≠ rid →
  queues svc' !! q = queues svc !! q → (svc_wf svc → svc_wf svc') →
  (local_queues_ svc' = local_queues_ svc ∧ writers_ svc' = writers_ svc ∨
   local_queues_ svc' = delete rid2 (local_queues_ svc) ∧
   writers_ svc' = delete rid2 (writers_ svc)) →
  stream_log stream svc' = stream_log stream svc → others rid stream svc svc'.
Proof.
  intros Hq Hr F1 F3 F4 F5. unfold others.
  assert (local_queues_ svc' !! rid = local_queues_ svc !! rid ∧
          writers_ svc' !! rid = writers_ svc !! rid) as [-> ->].
  { destruct F4 as [[-> ->]|[-> ->]]; rewrite ?lookup_delete_ne by done; done. }
  split_and!; try done.
  - intros q' Hq'. by assert (q' = q) as -> by congruence.
  - intros r _. destruct F4 as [[_ ->]|[_ ->]]; [done|]. by intros [_ ?]%lookup_delete_Some.
Qed.

(** A round of another handler's polling loop. *)
Lemma poll_others net rid stream rid2 stream2 cancelled now q2 d svc q :
  svc_wf svc → local_queues_ svc !! rid = Some q → rid2 ≠ rid → stream2 ≠ stream →
  q2 ≠ q → is_Some (queues svc !! q2) →
  others rid stream svc (stream_step net stream2 cancelled now (PcPolling rid2 q2 d) svc).2.
Proof.
  intros Hwf Hq Hr Hs Hne [ch Hch]. cbn [stream_step]. destruct cancelled.
  { eapply others_erased; try done; [|by right]. intros _. eapply (erased_wf rid2 svc); auto. }
  rewrite swap_out_all_spec, Hch. cbn [from_option id].
  set (s1 := svc <| queues := <[q2 := mkChannel [] (closed_ ch)]> (queues svc) |>).
  pose proof (deliver_frame net rid2 stream2 (buffer_ ch) s1) as Hd. cbv zeta in Hd.
  cbn [app]. destruct (deliver net rid2 stream2 (buffer_ ch) s1) as [dl s2].
  cbn [snd] in Hd. destruct Hd as (D1 & D2 & D3 & D4).
  assert (svc_wf s1) as Hwf1.
  { apply emptied_wf; [done|by rewrite Hch|exact (sw_open svc Hwf q2 ch Hch)]. }
  assert (svc_wf s2) as Hwf2.
  { eapply (erased_wf rid2 s1); auto. destruct D3 as [[-> _]|[-> _]]; auto. }
  assert (queues s2 !! q = queues svc !! q) as Hqq.
  { rewrite D1. simpl. by rewrite lookup_insert_ne. }
  assert (others rid stream svc s2) as Ho by (eapply others_erased; eauto).
  destruct dl; [destruct (d <? now)%Z|]; [|exact Ho..].
  eapply (others_erased rid stream rid2 svc _ q); auto.
  - intros _. eapply (erased_wf rid2 s2); auto.
  - right. cbn. destruct D3 as [[-> ->]|[-> ->]]; [done|].
    cbn. rewrite !delete_delete_eq. done.
  - exact (D4 stream (not_eq_sym Hs)).
Qed.

(** The handler of another request, on another stream, as [others] demands. *)
Lemma handler_others net rid stream rid2 stream2 cancelled now pc svc q :
  svc_wf svc → local_queues_ svc !! rid = Some q → rid2 ≠ rid → stream2 ≠ stream →
  match pc with
  | PcSent r => r = rid2
  | PcQueued r q2 | PcPolling r q2 _ => r = rid2 ∧ q2 ≠ q ∧ is_Some (queues svc !! q2)
  | _ => True
  end →
  others rid stream svc (stream_step net stream2 cancelled now pc svc).2.
Proof.
  intros Hwf Hq Hr Hs Hpc. pose proof (sw_queue svc Hwf rid q Hq) as [Hlt _].
  destruct pc as [r|r q2|r q2 d|st|].
  - cbn [stream_step]. subst r. split_and!; simpl; rewrite ?lookup_insert_ne by done; try done.
    + intros _. exact (registered_wf rid2 svc Hwf).
    + intros q' Hq'. rewrite lookup_insert_ne; [done|].
      assert (q' = q) as -> by congruence. lia.
  - cbn [stream_step]. destruct Hpc as (-> & _). unfold others. cbn.
    rewrite lookup_insert_ne by done. split_and!; try done.
    + by intros [H1 H2 H3 H4]; split.
    + intros r Hne [[_ ?]|[_ ?]]%lookup_insert_Some; congruence.
  - destruct Hpc as (-> & Hne & Hin). by eapply poll_others.
  - unfold others. split_and!; auto.
  - unfold others. split_and!; auto.
Qed.

(** Registration: after its first two steps a handler polls its own new queue. *)
Lemma registration net stream rid now c svc :
  svc_wf svc → (∀ r, writers_ svc !! r ≠ Some stream) →
  let '(pc1, svc1) := stream_step net stream c now (PcSent rid) svc in
  let '(pc2, svc2) := stream_step net stream c now pc1 svc1 in
  pc2 = PcPolling rid (next_queue svc) (now + seconds 60)%Z ∧ svc_wf svc2 ∧
  local_queues_ svc2 !! rid = Some (next_queue svc) ∧ queued_in (next_queue svc) svc2 = [] ∧
  (∀ r, writers_ svc2 !! r = Some stream → r = rid).
Proof.
  intros Hwf Hs. pose proof (registered_wf rid svc Hwf) as [H1 H2 H3 H4].
  cbn. split; [done|]. split; [by split|].
  rewrite lookup_insert_eq. unfold queued_in. cbn. rewrite lookup_insert_eq.
  split; [done|]. split; [done|].
  intros r [[<- _]|[_ H]]%lookup_insert_Some; [done|]. by destruct (Hs r).
Qed.

(** ** Instances *)

(** A handler for "r" on stream 7, just registered; a final response arrives. *)
Definition demo_net : Net := mkNet (λ _, true).
Definition demo_registered : Service :=
  (stream_step demo_net 7 false 0 (PcQueued "r" 0)
     (stream_step demo_net 7 false 0 (PcSent "r") service_new).2).2.
Definition demo_write (rid : string) (final : bool) : WriteToClient := {|
  wc_request_id := rid; wc_audio := [Byte.x01]; wc_sample_rate := 16000; wc_channels := 1;
  wc_format := AF.Pcm; wc_is_final := final; wc_cumulative_bytes := 1; wc_audio_length_ms := 1;
  wc_status_code := 0; wc_status_msg := ""; wc_trace_id := "" |}.
Definition demo_dispatched : Service :=
  match dispatch_to_writers demo_net [demo_write "r" true; demo_write "x" true]
          demo_registered with
  | Ok s => s
  | Throw _ => demo_registered
  end.

Lemma demo_registered_ok :
  svc_wf demo_registered ∧ local_queues_ demo_registered !! "r" = Some 0 ∧
  queued_in 0 demo_registered = [] ∧
  (∀ r, writers_ demo_registered !! r = Some 7 → r = "r").
Proof.
  destruct (registration demo_net 7 "r" 0 false service_new) as (_ & H).
  - apply service_new_wf.
  - intros r. cbn. by rewrite lookup_empty.
  - exact H.
Qed.

Lemma dispatch_routes_witness :
  dispatch_to_writers demo_net [demo_write "x" true] demo_registered = Ok demo_registered.
Proof.
  refine (proj2 (dispatch_routes demo_net [demo_write "x" true] demo_registered _) _).
  - apply demo_registered_ok.
  - repeat constructor; vm_compute; reflexivity.
Defined.

Lemma stream_delivers_in_order_witness :
  let '(pc, svc) := stream_step demo_net 7 false 5 (PcPolling "r" 0 (seconds 60)) demo_dispatched in
  pc = PcDone Status_OK ∧
  stream_log 7 svc = stream_log 7 demo_registered ++ [to_proto (demo_write "r" true)].
Proof.
  destruct demo_registered_ok as (H1 & H2 & H3 & H4).
  destruct (stream_delivers_in_order demo_net (λ _, eq_refl) "r" 7 0 (seconds 60)
    demo_registered [demo_write "r" true] (PcDone Status_OK)
    (stream_step demo_net 7 false 5 (PcPolling "r" 0 (seconds 60)) demo_dispatched).2
    H1 H2 H4) as (_ & _ & Hlog & _).
  - rewrite H3. eapply rtc_l.
    { apply (ss_dispatch demo_net "r" 7 [demo_write "r" true; demo_write "x" true] []
               _ _ demo_dispatched). vm_compute. reflexivity. }
    eapply rtc_l; [|apply rtc_refl].
    eapply (ss_poll demo_net "r" 7 5).
    + vm_compute. discriminate.
    + vm_compute. reflexivity.
  - split; [vm_compute; reflexivity|exact Hlog].
Defined.
