(* ===== verification/Handlers.v ===== *)
(** * The threads of the gRPC service (src/entry/tts_service_impl.h)

    TtsService.v takes a round of a handler's polling loop, and a whole dispatch, as
    one step.  Here every access to something shared is a step of its own: a handler
    registers, drains its queue, writes one response, erases its entries; the heartbeat
    thread looks a response's request up under the lock, releases it, and only then
    sends or writes.  Any number of calls of both methods run at once, on the heap of
    queues they share with the tables. *)

From S2P Require Import Prelude Messages ChangeSet CopyChannel HexCodec Metrics DataBoard.
From S2P Require Import Proto RequestParser ResponseWriter Jwt TtsService ServiceFacts.

Implicit Types (svc : Service) (w : WriteToClient) (ws : list WriteToClient).

(** ** Handlers *)

(** The method called, with its request. *)
Inductive Call : Type :=
| StreamCall (request : PbSynthesizeRequest)
| ClientCall.

Definition call_tag (call : Call) : string :=
  match call with StreamCall _ => "strm" | ClientCall => "cli" end.
Definition is_stream (call : Call) : bool :=
  match call with StreamCall _ => true | ClientCall => false end.

(** The next access of a handler to shared state, with its local variables. *)
Inductive HandlerPc : Type :=
| HSend (r : TtsRequestMsg)
| HQueue
| HWriter (q : nat)
| HPoll (q : nat) (deadline : TimePoint)
| HDeliver (q : nat) (deadline : TimePoint) (drained : list WriteToClient)
| HErase (q : nat)
| CWriter
| CRead (first : bool)
| CSend (r : TtsRequestMsg)
| HReturned (st : Status)
| HThrown.

(** A call: the method, the [authorization] metadata of its context, the request id. *)
Record Handler := mkHandler {
  h_call : Call; h_auth : option string; h_rid : string; h_pc : HandlerPc }.
#[global] Instance Handler_eta : Eta Handler := {|
  eta_expand h := mkHandler (h_call h) (h_auth h) (h_rid h) (h_pc h) |}.

Definition goto (pc : HandlerPc) (h : Handler) : Handler := h <| h_pc := pc |>.

(** The start of a call up to its first access to the channel or the tables:
    authentication, request id and, in [SynthesizeStream], parsing.  [None] is the
    return of [unauth()]. *)
Definition call_begin (jwt : option (string → string → JwtResult)) (auth : option string)
    (call : Call) (stream : nat) svc : option Handler * Service :=
  if negb (check_auth jwt auth) then (None, svc)
  else
    let svc := svc <| alive := {[stream]} ∪ alive svc |> in
    let '(rid, svc) := generate_request_id (call_tag call) svc in
    match call with
    | StreamCall request =>
        match parse_unary request rid with
        | Throw (parse_error what) =>
            (Some (mkHandler call auth rid (HReturned (mkStatus INVALID_ARGUMENT what))),
             stream_exit stream svc)
        | Ok r => (Some (mkHandler call auth rid (HSend r)), svc)
        end
    | ClientCall => (Some (mkHandler call auth rid CWriter), svc)
    end.

(** What the outside world answers: [context->IsCancelled()], the monotonic clock, and
    [stream->Read(&chunk)]. *)
Record Answers := mkAnswers { a_cancelled : bool; a_now : TimePoint; a_chunk : option PbTextChunk }.

(** One step of the handler of [stream]. *)
Definition handler_step (net : Net) (stream : nat) (a : Answers) (h : Handler)
    (ch : CopyChannel Message) svc : Handler * CopyChannel Message * Service :=
  let rid := h_rid h in
  match h_pc h with
  | HSend r =>
      match send (MsgRequest r) ch with
      | Throw _ => (goto HThrown h, ch, stream_exit stream svc)
      | Ok ch => (goto HQueue h, ch, svc)
      end
  | HQueue => let '(q, svc) := register_queue rid svc in (goto (HWriter q) h, ch, svc)
  | HWriter q =>
      (goto (HPoll q (a_now a + seconds 60)%Z) h, ch, register_writer rid stream svc)
  | HPoll q d =>
      if a_cancelled a then (goto (HErase q) h, ch, svc)
      else
        let '(drained, c) := swap_out_all [] (default channel_new (queues svc !! q)) in
        (goto (HDeliver q d drained) h, ch, svc <| queues := <[q := c]> (queues svc) |>)
  | HDeliver q d [] =>
      (goto (if (d <? a_now a)%Z then HErase q else HPoll q d) h, ch, svc)
  | HDeliver q d (w :: ws) =>
      let '(ok, svc) := stream_write net stream (to_proto w) svc in
      (goto (if negb ok || wc_is_final w then HErase q else HDeliver q d ws) h, ch, svc)
  | HErase q =>
      (goto (HReturned Status_OK) h, ch, stream_exit stream (erase_both rid svc))
  | CWriter => (goto (CRead true) h, ch, register_writer rid stream svc)
  | CRead first =>
      match a_chunk a with
      | None => (goto (HReturned Status_OK) h, ch, stream_exit stream svc)
      | Some c =>
          match parse_chunk c rid PbSynthesizeRequest_default first with
          | Throw (parse_error what) =>
              (goto (HReturned (mkStatus INVALID_ARGUMENT what)) h, ch, stream_exit stream svc)
          | Ok r => (goto (CSend r) h, ch, svc)
          end
      end
  | CSend r =>
      match send (MsgRequest r) ch with
      | Throw _ => (goto HThrown h, ch, stream_exit stream svc)
      | Ok ch => (goto (CRead false) h, ch, svc)
      end
  | HReturned _ | HThrown => (h, ch, svc)
  end.

(** ** The dispatching thread *)

(** Between two responses, with what the lookup found, or about to erase a writer. *)
Inductive DispatchPc : Type :=
| DNext (ws : list WriteToClient)
| DLooked (w : WriteToClient) (ws : list WriteToClient) (q fn : option nat)
| DErase (rid : string) (ws : list WriteToClient).

Definition dispatch_step (net : Net) (d : DispatchPc) svc
    : result ChannelClosed (DispatchPc * Service) :=
  match d with
  | DNext [] => Ok (DNext [], svc)
  | DNext (w :: ws) =>
      Ok (DLooked w ws (local_queues_ svc !! wc_request_id w) (writers_ svc !! wc_request_id w),
          svc)
  | DLooked w ws (Some q) _ =>
      ch ← send w (default channel_new (queues svc !! q));
      Ok (DNext ws, svc <| queues := <[q := ch]> (queues svc) |>)
  | DLooked w ws None (Some stream) =>
      let '(_, svc) := stream_write net stream (to_proto w) svc in
      Ok (if wc_is_final w then DErase (wc_request_id w) ws else DNext ws, svc)
  | DLooked w ws None None => Ok (DNext ws, svc)
  | DErase rid ws => Ok (DNext ws, svc <| writers_ := delete rid (writers_ svc) |>)
  end.

(** The response a step looks up. *)
Definition looks_up (d : DispatchPc) : list WriteToClient :=
  match d with DNext (w :: _) => [w] | _ => [] end.

(** ** All calls at once *)

(** The service, its handlers, the request channel and the dispatch; [cl_since] is a
    history variable: for each stream whose queue was registered, the responses looked
    up since then. *)
Record Clients := mkClients {
  cl_service : Service;
  cl_handlers : gmap nat Handler;
  cl_channel : CopyChannel Message;
  cl_dispatch : DispatchPc;
  cl_since : gmap nat (list WriteToClient);
}.

Definition registers (h : Handler) : bool := match h_pc h with HQueue => true | _ => false end.
Definition since_handler (s : nat) (h : Handler) (since : gmap nat (list WriteToClient))
    : gmap nat (list WriteToClient) :=
  if registers h then <[s := []]> since else since.
Definition since_dispatch (d : DispatchPc) (since : gmap nat (list WriteToClient))
    : gmap nat (list WriteToClient) :=
  (λ after, after ++ looks_up d) <$> since.

Section clients.
Context (net : Net) (jwt_at : Z → option (string → string → JwtResult)).

(** A call on a new stream; a step of a handler; a step of the dispatch, or the
    responses of the next tick; what other threads do to the request channel.  The
    label collects the responses looked up. *)
Inductive clients_step : Clients → list WriteToClient → Clients → Prop :=
| ck_call now auth call stream svc hs ch d since h svc' :
    hs !! stream = None → call_begin (jwt_at now) auth call stream svc = (h, svc') →
    clients_step (mkClients svc hs ch d since) []
      (mkClients svc' (from_option (λ h, <[stream := h]> hs) hs h) ch d since)
| ck_handler a stream h svc hs ch d since h' ch' svc' :
    hs !! stream = Some h → handler_step net stream a h ch svc = (h', ch', svc') →
    clients_step (mkClients svc hs ch d since) []
      (mkClients svc' (<[stream := h']> hs) ch' d (since_handler stream h since))
| ck_dispatch svc hs ch d since d' svc' :
    dispatch_step net d svc = Ok (d', svc') →
    clients_step (mkClients svc hs ch d since) (looks_up d)
      (mkClients svc' hs ch d' (since_dispatch d since))
| ck_post ws svc hs ch since :
    clients_step (mkClients svc hs ch (DNext []) since) [] (mkClients svc hs ch (DNext ws) since)
| ck_channel svc hs ch ch' d since :
    clients_step (mkClients svc hs ch d since) [] (mkClients svc hs ch' d since).

Inductive clients_exec : Clients → list WriteToClient → Clients → Prop :=
| cx_nil st : clients_exec st [] st
| cx_snoc st posted st1 ws st2 :
    clients_exec st posted st1 → clients_step st1 ws st2 → clients_exec st (posted ++ ws) st2.

Definition clients_new : Clients := mkClients service_new ∅ channel_new (DNext []) ∅.
End clients.
