(* ===== verification/HandlersFacts.v ===== *)
(** * Properties of the threads of the gRPC service

    The threads keep the clients apart: every response written to a stream is one
    dispatched for the request id of that call, in order and without gaps, and the
    stream of [SynthesizeStream] is written by its own handler only. *)

From S2P Require Import Prelude Messages ChangeSet CopyChannel HexCodec Metrics DataBoard.
From S2P Require Import Proto RequestParser ResponseWriter Jwt TtsService ServiceFacts Handlers.

Implicit Types (svc : Service) (w : WriteToClient) (ws : list WriteToClient).

(** ** The invariant *)

(** The queue a handler has registered and not yet erased, and what it has drained. *)
Definition queue_of (pc : HandlerPc) : option nat :=
  match pc with HWriter q | HPoll q _ | HDeliver q _ _ | HErase q => Some q | _ => None end.
Definition drained_of (pc : HandlerPc) : list WriteToClient :=
  match pc with HDeliver _ _ ws => ws | _ => [] end.
Definition has_erased (pc : HandlerPc) : bool :=
  match pc with HErase _ | HReturned _ | HThrown => true | _ => false end.

(** The method whose code a point is in. *)
Definition pc_of (call : Call) (pc : HandlerPc) : bool :=
  match pc with
  | HSend _ | HQueue | HWriter _ | HPoll _ _ | HDeliver _ _ _ | HErase _ => is_stream call
  | CWriter | CRead _ | CSend _ => negb (is_stream call)
  | HReturned _ | HThrown => true
  end.

(** What the dispatch has looked up for a queue, or for a stream without one. *)
Definition on_way (d : DispatchPc) (q : nat) : list WriteToClient :=
  match d with DLooked w _ (Some q') _ => if decide (q' = q) then [w] else [] | _ => [] end.
Definition on_way_to (d : DispatchPc) (stream : nat) : list WriteToClient :=
  match d with DLooked w _ None (Some s) => if decide (s = stream) then [w] else [] | _ => [] end.

Definition request_id (call : Call) (n : Z) : string :=
  call_tag call +:+ "-" +:+ to_string_u64 n.

Section invariant.
Context (net : Net) (jwt_at : Z → option (string → string → JwtResult)).

(** What a [SynthesizeStream] client has been written.  Before its queue is registered:
    nothing.  From then on: of the responses looked up since for its request, a first
    part, none of them final but possibly the last; and while the handler polls, the
    rest of them is drained, queued or on its way. *)
Definition stream_heard (since : option (list WriteToClient)) svc d (s : nat) (h : Handler)
    : Prop :=
  match since with
  | None => stream_log s svc = [] ∧ queue_of (h_pc h) = None
  | Some after => ∃ heard rest,
      stream_log s svc = to_proto <$> heard ∧ for_request (h_rid h) after = heard ++ rest ∧
      until_final heard = heard ∧
      (has_erased (h_pc h) = false → has_final heard = false ∧
         ∃ q, queue_of (h_pc h) = Some q ∧
              rest = drained_of (h_pc h) ++ queued_in q svc ++ on_way d q)
  end.

(** What a [SynthesizeClient] client has been written. *)
Definition client_heard (posted : list WriteToClient) svc d (s : nat) (h : Handler) : Prop :=
  ∃ heard, stream_log s svc = to_proto <$> heard ∧
    heard ++ on_way_to d s `sublist_of` for_request (h_rid h) posted.

Record handler_ok (posted : list WriteToClient) (since : option (list WriteToClient)) svc d
    (s : nat) (h : Handler) : Prop := {
  hk_id : ∃ n, (0 ≤ n < ctr svc)%Z ∧ h_rid h = request_id (h_call h) n;
  hk_auth : ∃ now, check_auth (jwt_at now) (h_auth h) = true;
  hk_pc : pc_of (h_call h) (h_pc h) = true;
  hk_queue q : queue_of (h_pc h) = Some q → local_queues_ svc !! h_rid h = Some q;
  hk_heard : if is_stream (h_call h) then stream_heard since svc d s h
             else client_heard posted svc d s h;
  hk_since after : since = Some after → after `suffix_of` posted;
  hk_send r : h_pc h = HSend r → ∃ request,
    h_call h = StreamCall request ∧ parse_unary request (h_rid h) = Ok r;
}.

Record clients_ok (posted : list WriteToClient) (since : gmap nat (list WriteToClient)) svc
    (hs : gmap nat Handler) d : Prop := {
  co_wf : svc_wf svc;
  co_handler s h : hs !! s = Some h → handler_ok posted (since !! s) svc d s h;
  co_inj s1 s2 h1 h2 : hs !! s1 = Some h1 → hs !! s2 = Some h2 → h_rid h1 = h_rid h2 → s1 = s2;
  co_queues rid q : local_queues_ svc !! rid = Some q →
    ∃ s h, hs !! s = Some h ∧ h_rid h = rid ∧ queue_of (h_pc h) = Some q;
  co_writers rid s : writers_ svc !! rid = Some s →
    ∃ h, hs !! s = Some h ∧ h_rid h = rid ∧
         (is_stream (h_call h) = true → is_Some (queue_of (h_pc h)));
  co_dispatch : match d with
    | DLooked w _ (Some q) _ => is_Some (queues svc !! q) ∧
        ∀ s h, hs !! s = Some h → queue_of (h_pc h) = Some q → h_rid h = wc_request_id w
    | DLooked w _ None (Some s) =>
        ∃ h, hs !! s = Some h ∧ is_stream (h_call h) = false ∧ h_rid h = wc_request_id w
    | _ => True
    end;
  co_since s : is_Some (since !! s) → is_Some (hs !! s);
  co_ctr : (1 ≤ ctr svc ≤ 1 + Z.of_nat (size hs))%Z;
  co_written e : e ∈ written svc → is_Some (hs !! e.1.1);
}.

(** What a step of the handler of [s] may change: its own entries, its own queue and
    its own stream. *)
Record handler_frame (s : nat) (rid : string) (own : option nat) svc svc' : Prop := {
  hf_wf : svc_wf svc → svc_wf svc';
  hf_queues r : r ≠ rid → local_queues_ svc' !! r = local_queues_ svc !! r;
  hf_heap q : is_Some (queues svc !! q) → Some q ≠ own → queues svc' !! q = queues svc !! q;
  hf_grow q : is_Some (queues svc !! q) → is_Some (queues svc' !! q);
  hf_log s' : s' ≠ s → stream_log s' svc' = stream_log s' svc;
  hf_ctr : ctr svc' = ctr svc;
  hf_written e : e ∈ written svc' → e ∈ written svc ∨ e.1.1 = s;
  hf_writers r s' : writers_ svc' !! r = Some s' →
    writers_ svc !! r = Some s' ∨ r = rid ∧ s' = s;
}.

Lemma frame_refl s rid own svc svc' :
  writers_ svc' = writers_ svc → local_queues_ svc' = local_queues_ svc →
  queues svc' = queues svc → next_queue svc' = next_queue svc → ctr svc' = ctr svc →
  written svc' = written svc → handler_frame s rid own svc svc'.
Proof.
  intros E1 E2 E3 E4 E5 E6. split; rewrite ?E1, ?E2, ?E3, ?E5, ?E6; auto.
  - intros [W1 W2 W3 W4]. split; rewrite ?E2, ?E3, ?E4; auto.
  - intros s' _. unfold stream_log. by rewrite E6.
Qed.

Lemma frame_write s rid own out svc :
  handler_frame s rid own svc (stream_write net s out svc).2.
Proof.
  cbn. split; cbn; auto.
  - by intros [W1 W2 W3 W4].
  - intros s' Hs. unfold stream_log. cbn. rewrite filter_app, filter_cons_False by (cbn; congruence).
    by rewrite app_nil_r.
  - intros e [?| ->%list_elem_of_singleton]%elem_of_app; auto.
Qed.

Lemma frame_erase s rid own svc : handler_frame s rid own svc (erase_both rid svc).
Proof.
  split; cbn; auto.
  - intros Hw. by apply (erased_wf rid svc); auto.
  - intros r Hr. by rewrite lookup_delete_ne.
  - intros r s' [_ ?]%lookup_delete_Some. auto.
Qed.

Lemma frame_trans s rid own svc1 svc2 svc3 :
  handler_frame s rid own svc1 svc2 → handler_frame s rid own svc2 svc3 →
  handler_frame s rid own svc1 svc3.
Proof.
  intros F G. split.
  - intros H. by apply (hf_wf _ _ _ _ _ G), (hf_wf _ _ _ _ _ F).
  - intros r H. rewrite (hf_queues _ _ _ _ _ G), (hf_queues _ _ _ _ _ F); done.
  - intros q H1 H2. rewrite (hf_heap _ _ _ _ _ G), (hf_heap _ _ _ _ _ F); try done.
    by apply (hf_grow _ _ _ _ _ F).
  - intros q H. by apply (hf_grow _ _ _ _ _ G), (hf_grow _ _ _ _ _ F).
  - intros s' H. rewrite (hf_log _ _ _ _ _ G), (hf_log _ _ _ _ _ F); done.
  - rewrite (hf_ctr _ _ _ _ _ G). apply F.
  - intros e [H|H]%(hf_written _ _ _ _ _ G); [by apply F|by right].
  - intros r s' [H|H]%(hf_writers _ _ _ _ _ G); [by apply F|by right].
Qed.

(** Every step of a handler keeps within its frame. *)
Lemma handler_step_frame s a h ch svc h' ch' svc' :
  handler_step net s a h ch svc = (h', ch', svc') →
  svc_wf svc → (∀ q, queue_of (h_pc h) = Some q → is_Some (queues svc !! q)) →
  handler_frame s (h_rid h) (queue_of (h_pc h')) svc svc'.
Proof.
  intros Hs Hwf Hq. unfold handler_step in Hs. destruct (h_pc h) as [r| |q|q d|q d [|w ws]|q| |f|r|st|] eqn:Ep.
  - destruct (send _ ch); injection Hs as <- <- <-; by apply frame_refl.
  - injection Hs as <- <- <-. split; cbn; auto.
    + intros _. by apply registered_wf.
    + intros r Hr. by rewrite lookup_insert_ne.
    + intros q Hin Hne. rewrite lookup_insert_ne; [done|]. congruence.
    + intros q Hin. rewrite lookup_insert_is_Some'. by right.
  - injection Hs as <- <- <-. split; cbn; auto.
    + by intros [W1 W2 W3 W4].
    + intros r s' [[<- <-]|[_ ?]]%lookup_insert_Some; auto.
  - destruct (a_cancelled a); [injection Hs as <- <- <-; by apply frame_refl|].
    destruct (Hq q eq_refl) as [c Hc]. rewrite swap_out_all_spec, Hc in Hs. cbn in Hs.
    injection Hs as <- <- <-. split; cbn; auto.
    + intros _. apply (emptied_wf q svc (mkChannel [] (closed_ c))); [done|by rewrite Hc|].
      exact (sw_open svc Hwf q c Hc).
    + intros q' _ Hne. rewrite lookup_insert_ne; [done|]. congruence.
    + intros q' Hin. rewrite lookup_insert_is_Some'. by right.
  - injection Hs as <- <- <-. by apply frame_refl.
  - destruct (stream_write net s (to_proto w) svc) as [ok svc1] eqn:Ew. injection Hs as <- <- <-.
    replace svc1 with (stream_write net s (to_proto w) svc).2 by (by rewrite Ew). apply frame_write.
  - injection Hs as <- <- <-. eapply frame_trans; [apply frame_erase|by apply frame_refl].
  - injection Hs as <- <- <-. split; cbn; auto.
    + by intros [W1 W2 W3 W4].
    + intros r s' [[<- <-]|[_ ?]]%lookup_insert_Some; auto.
  - destruct (a_chunk a) as [c|]; [destruct (parse_chunk _ _ _ _) as [r|[what]]|];
      injection Hs as <- <- <-; by apply frame_refl.
  - destruct (send _ ch); injection Hs as <- <- <-; by apply frame_refl.
  - injection Hs as <- <- <-. by apply frame_refl.
  - injection Hs as <- <- <-. by apply frame_refl.
Qed.

(** A step of one handler does not touch another. *)
Lemma handler_ok_frame posted since svc svc' d s rid own s' h :
  handler_ok posted since svc d s' h → handler_frame s rid own svc svc' → s' ≠ s → h_rid h ≠ rid →
  (∀ q, queue_of (h_pc h) = Some q → is_Some (queues svc !! q) ∧ Some q ≠ own) →
  handler_ok posted since svc' d s' h.
Proof.
  intros [K1 K2 K3 K4 K5 K6 K7] F Hs Hr Hq. split; auto.
  - by rewrite (hf_ctr _ _ _ _ _ F).
  - intros q E. rewrite (hf_queues _ _ _ _ _ F) by done. by apply K4.
  - unfold stream_heard, client_heard in *. rewrite (hf_log _ _ _ _ _ F) by done.
    destruct (is_stream (h_call h)); [|done]. destruct since as [after|]; [|done].
    destruct K5 as (heard & rest & E1 & E2 & E3 & E4). exists heard, rest. split_and!; try done.
    intros Hne. destruct (E4 Hne) as (Hf & q & E & Er). split; [done|]. exists q.
    destruct (Hq q E) as [H1 H2]. unfold queued_in in *. by rewrite (hf_heap _ _ _ _ _ F) by done.
Qed.

Lemma stream_log_write s out svc :
  stream_log s (stream_write net s out svc).2 = stream_log s svc ++ [out].
Proof.
  unfold stream_log. cbn. rewrite filter_app, filter_cons_True by done. by rewrite fmap_app.
Qed.

(** What is on its way for a queue exists, so it is not for a new one. *)
Lemma on_way_new posted since svc hs d :
  clients_ok posted since svc hs d → on_way d (next_queue svc) = [].
Proof.
  intros [Hwf _ _ _ _ Hd _ _ _]. destruct d as [|w ws [q|] fn|]; try done. cbn.
  case_decide as E; [|done]. subst q. destruct Hd as [Hq _]. pose proof (sw_heap svc Hwf _ Hq). lia.
Qed.

(** The registration of a queue: nothing was written yet, and nothing is on its way. *)
Lemma stream_heard_register posted since hs d s a h ch svc h' ch' svc' o :
  clients_ok posted since svc hs d → handler_step net s a h ch svc = (h', ch', svc') →
  registers h = true → stream_heard o svc d s h → stream_heard (Some []) svc' d s h'.
Proof.
  intros Hok Hs Hr Hh. unfold handler_step in Hs. unfold registers in Hr.
  destruct (h_pc h) eqn:Ep; try done. injection Hs as <- <- <-. exists [], [].
  assert (stream_log s svc = []) as Hl.
  { destruct o as [after|]; [|by destruct Hh]. destruct Hh as (heard & rest & _ & _ & _ & H).
    rewrite Ep in H. by destruct (H eq_refl) as (_ & q & ? & _). }
  split_and!; [exact Hl|done..|]. intros _. split; [done|]. exists (next_queue svc). split; [done|].
  cbn. rewrite (on_way_new posted since svc hs d Hok), app_nil_r. unfold queued_in. cbn.
  by rewrite lookup_insert_eq.
Qed.

(** The write of a drained response. *)
Lemma stream_heard_write after d s h svc q dl w ws ok :
  h_pc h = HDeliver q dl (w :: ws) → stream_heard (Some after) svc d s h →
  stream_heard (Some after) (stream_write net s (to_proto w) svc).2 d s
    (goto (if negb ok || wc_is_final w then HErase q else HDeliver q dl ws) h).
Proof.
  intros Ep (heard & rest & E1 & E2 & E3 & E4). rewrite Ep in E4.
  destruct (E4 eq_refl) as (Hf & q' & Hq & Hr). injection Hq as <-. cbn [drained_of] in Hr.
  exists (heard ++ [w]), (ws ++ queued_in q svc ++ on_way d q). split_and!.
  - by rewrite stream_log_write, E1, fmap_app.
  - etrans; [exact E2|]. by rewrite Hr, <- app_assoc.
  - rewrite until_final_app, E3, Hf. cbn. by destruct (wc_is_final w).
  - rewrite has_final_app, Hf. cbn. rewrite orb_false_r.
    destruct (negb ok || wc_is_final w) eqn:Eo; cbn; [done|]. intros _.
    apply orb_false_iff in Eo as [_ ->]. split; [done|]. by exists q.
Qed.

(** The handler that steps: what its client has been written. *)
Lemma stream_heard_step posted since hs d s a h ch svc h' ch' svc' o :
  clients_ok posted since svc hs d → handler_step net s a h ch svc = (h', ch', svc') →
  is_stream (h_call h) = true → pc_of (h_call h) (h_pc h) = true →
  (∀ q, queue_of (h_pc h) = Some q → is_Some (queues svc !! q)) →
  stream_heard o svc d s h → stream_heard (if registers h then Some [] else o) svc' d s h'.
Proof.
  intros Hok Hs Hk Hpc Hq Hh. destruct (registers h) eqn:Hr; [by eapply stream_heard_register|].
  unfold registers in Hr. unfold handler_step in Hs. destruct o as [after|].
  - destruct (h_pc h) as [r| |q|q dl|q dl [|w ws]|q| |f|r|st|] eqn:Ep; cbn in Hpc;
      try (rewrite Hk in Hpc; done); try done.
    5: { injection Hs as <- <- <-. by apply (stream_heard_write _ _ _ _ _ _ _ _ _ (write_result net (length (written svc)))). }
    all: destruct Hh as (heard & rest & E1 & E2 & E3 & E4); rewrite Ep in E4.
    1: by destruct (E4 eq_refl) as (_ & q & ? & _).
    2: destruct (a_cancelled a);
      [|destruct (Hq q eq_refl) as [c Hc]; rewrite swap_out_all_spec, Hc in Hs; cbn in Hs].
    all: injection Hs as <- <- <-; exists heard, rest; rewrite ?Ep; split_and!; try done.
    + intros _. destruct (E4 eq_refl) as (Hf & q' & [= <-] & Er). split; [done|]. exists q.
      split; [done|]. rewrite Er. cbn. unfold queued_in. cbn. by rewrite Hc, lookup_insert_eq.
    + intros _. destruct (E4 eq_refl) as (Hf & q' & [= <-] & Er). split; [done|]. exists q.
      by destruct (dl <? a_now a)%Z.
  - destruct Hh as [H1 H2]. destruct (h_pc h) as [r| |q|q dl|q dl ws|q| |f|r|st|] eqn:Ep;
      cbn in Hpc, H2; try (rewrite Hk in Hpc; done); try done.
    + by destruct (send _ ch); injection Hs as <- <- <-.
    + injection Hs as <- <- <-. split; [done|by rewrite Ep].
    + injection Hs as <- <- <-. split; [done|by rewrite Ep].
Qed.

(** The call a step belongs to stays, and its queue is the one registered, if any. *)
Lemma handler_step_call s a h ch svc h' ch' svc' :
  handler_step net s a h ch svc = (h', ch', svc') →
  h_rid h' = h_rid h ∧ h_call h' = h_call h ∧ h_auth h' = h_auth h ∧
  (pc_of (h_call h) (h_pc h) = true → pc_of (h_call h) (h_pc h') = true) ∧
  (∀ r, h_pc h' ≠ HSend r) ∨ h' = h ∧ svc' = svc.
Proof.
  intros Hs. unfold handler_step in Hs.
  destruct (h_pc h) as [r| |q|q d|q d [|w ws]|q| |f|r|st|] eqn:Ep.
  1,10: destruct (send _ ch); injection Hs as <- <- <-; by left.
  1,2,4,6,7: injection Hs as <- <- <-; left; split_and!; try done; by destruct (_ <? _)%Z.
  - destruct (a_cancelled a); [|destruct (swap_out_all _ _)]; injection Hs as <- <- <-; by left.
  - destruct (stream_write _ _ _ _). injection Hs as <- <- <-. left. cbn. by destruct (_ || _).
  - destruct (a_chunk a) as [c|]; [destruct (parse_chunk _ _ _ _) as [r|[what]]|];
      injection Hs as <- <- <-; by left.
  - injection Hs as <- <- <-. by right.
  - injection Hs as <- <- <-. by right.
Qed.

Lemma handler_step_queue s a h ch svc h' ch' svc' :
  handler_step net s a h ch svc = (h', ch', svc') →
  (queue_of (h_pc h') = queue_of (h_pc h) ∧
     local_queues_ svc' !! h_rid h = local_queues_ svc !! h_rid h) ∨
  (queue_of (h_pc h) = None ∧ queue_of (h_pc h') = Some (next_queue svc) ∧
     local_queues_ svc' !! h_rid h = Some (next_queue svc)) ∨
  (queue_of (h_pc h') = None ∧ local_queues_ svc' !! h_rid h = None ∧
   writers_ svc' !! h_rid h = None).
Proof.
  intros Hs. unfold handler_step in Hs.
  destruct (h_pc h) as [r| |q|q d|q d [|w ws]|q| |f|r|st|] eqn:Ep.
  1,10: destruct (send _ ch); injection Hs as <- <- <-; by left.
  - injection Hs as <- <- <-. right. left. cbn. by rewrite lookup_insert_eq.
  - injection Hs as <- <- <-. by left.
  - destruct (a_cancelled a); [|destruct (swap_out_all _ _)]; injection Hs as <- <- <-; by left.
  - injection Hs as <- <- <-. left. by destruct (_ <? _)%Z.
  - destruct (stream_write _ _ _ _) eqn:Ew. injection Ew as _ <-. injection Hs as <- <- <-. left.
    by destruct (_ || _).
  - injection Hs as <- <- <-. right. right. cbn. by rewrite !lookup_delete_eq.
  - injection Hs as <- <- <-. by left.
  - destruct (a_chunk a) as [c|]; [destruct (parse_chunk _ _ _ _) as [r|[what]]|];
      injection Hs as <- <- <-; by left.
  - injection Hs as <- <- <-. rewrite Ep. by left.
  - injection Hs as <- <- <-. rewrite Ep. by left.
Qed.

(** A [SynthesizeClient] handler writes nothing itself. *)
Lemma client_step_log s a h ch svc h' ch' svc' :
  handler_step net s a h ch svc = (h', ch', svc') →
  is_stream (h_call h) = false → pc_of (h_call h) (h_pc h) = true →
  stream_log s svc' = stream_log s svc.
Proof.
  intros Hs Hk Hpc. unfold handler_step in Hs.
  destruct (h_pc h) as [r| |q|q d|q d [|w ws]|q| |f|r|st|] eqn:Ep; cbn in Hpc;
    try (rewrite Hk in Hpc; done).
  - by injection Hs as <- <- <-.
  - destruct (a_chunk a) as [c|]; [destruct (parse_chunk _ _ _ _) as [r|[what]]|];
      by injection Hs as <- <- <-.
  - by destruct (send _ ch); injection Hs as <- <- <-.
  - by injection Hs as <- <- <-.
  - by injection Hs as <- <- <-.
Qed.

Lemma handler_queue_in posted since svc hs d s h q :
  clients_ok posted since svc hs d → hs !! s = Some h → queue_of (h_pc h) = Some q →
  is_Some (queues svc !! q) ∧ q < next_queue svc.
Proof.
  intros Hok Hh Hq. pose proof (hk_queue _ _ _ _ _ _ (co_handler _ _ _ _ _ Hok _ _ Hh) q Hq) as Hl.
  by destruct (sw_queue svc (co_wf _ _ _ _ _ Hok) _ _ Hl).
Qed.

Lemma handler_step_writers s a h ch svc h' ch' svc' :
  handler_step net s a h ch svc = (h', ch', svc') → pc_of (h_call h) (h_pc h) = true →
  writers_ svc' = writers_ svc ∨
  writers_ svc' = delete (h_rid h) (writers_ svc) ∨
  writers_ svc' = <[h_rid h := s]> (writers_ svc) ∧
    (is_stream (h_call h) = true → is_Some (queue_of (h_pc h'))).
Proof.
  intros Hs Hpc. unfold handler_step in Hs.
  destruct (h_pc h) as [r| |q|q d|q d [|w ws]|q| |f|r|st|] eqn:Ep.
  1,10: destruct (send _ ch); injection Hs as <- <- <-; by left.
  1,4,9,10: injection Hs as <- <- <-; by left.
  - injection Hs as <- <- <-. right. right. split; [done|]. by eexists.
  - destruct (a_cancelled a); [|destruct (swap_out_all _ _)]; injection Hs as <- <- <-; by left.
  - destruct (stream_write _ _ _ _) eqn:Ew. injection Ew as _ <-. injection Hs as <- <- <-. by left.
  - injection Hs as <- <- <-. right. by left.
  - injection Hs as <- <- <-. right. right. split; [done|]. cbn in Hpc.
    by destruct (is_stream (h_call h)).
  - destruct (a_chunk a) as [c|]; [destruct (parse_chunk _ _ _ _) as [r|[what]]|];
      injection Hs as <- <- <-; by left.
Qed.

(** Facts about a step of a registered handler, as the lemmas below use them. *)
Section step.
Context (posted : list WriteToClient) (since : gmap nat (list WriteToClient)).
Context (svc : Service) (hs : gmap nat Handler) (d : DispatchPc).
Context (s : nat) (a : Answers) (h : Handler) (ch : CopyChannel Message).
Context (h' : Handler) (ch' : CopyChannel Message) (svc' : Service).
Context (Hok : clients_ok posted since svc hs d) (Hh : hs !! s = Some h).
Context (Hs : handler_step net s a h ch svc = (h', ch', svc')).

Lemma step_framed : handler_frame s (h_rid h) (queue_of (h_pc h')) svc svc'.
Proof.
  eapply handler_step_frame; [exact Hs|by apply Hok|]. intros q Hq. by eapply handler_queue_in.
Qed.

Lemma step_same_call : h_rid h' = h_rid h ∧ h_call h' = h_call h.
Proof.
  destruct (handler_step_call s a h ch svc h' ch' svc' Hs) as [(? & ? & _)|[-> _]]; done.
Qed.

Lemma since_own : since_handler s h since !! s = if registers h then Some [] else since !! s.
Proof. unfold since_handler. destruct (registers h); [apply lookup_insert_eq|done]. Qed.

Lemma since_other s' : s' ≠ s → since_handler s h since !! s' = since !! s'.
Proof. intros Hne. unfold since_handler. destruct (registers h); [by rewrite lookup_insert_ne|done]. Qed.

Lemma own_handler_ok : handler_ok posted (since_handler s h since !! s) svc' d s h'.
Proof.
  destruct (co_handler _ _ _ _ _ Hok s h Hh) as [K1 K2 K3 K4 K5 K6 K7]. pose proof step_framed as F.
  rewrite since_own. assert (∀ after, (if registers h then Some [] else since !! s) = Some after →
    after `suffix_of` posted) as Hsuf.
  { destruct (registers h); [|done]. intros after [= <-]. apply suffix_nil. }
  assert (if is_stream (h_call h) then
            stream_heard (if registers h then Some [] else since !! s) svc' d s h' else True) as Hst.
  { destruct (is_stream (h_call h)) eqn:Ek; [|done]. eapply stream_heard_step; try done.
    intros q Hq. by eapply handler_queue_in. }
  destruct (handler_step_call s a h ch svc h' ch' svc' Hs) as [(E1 & E2 & E3 & E4 & E5)|[-> ->]].
  2: { split; auto. by destruct (is_stream (h_call h)). }
  split; rewrite ?E1, ?E2, ?E3; auto.
  - by rewrite (hf_ctr _ _ _ _ _ F).
  - intros q Hq. destruct (handler_step_queue s a h ch svc h' ch' svc' Hs)
      as [[Q1 Q2]|[(_ & Q1 & Q2)|(Q1 & _)]]; [|congruence..].
    rewrite Q2. apply K4. congruence.
  - destruct (is_stream (h_call h)) eqn:Ek; [done|].
    unfold client_heard in *. rewrite E1. by erewrite client_step_log.
  - intros r Hr. by destruct (E5 r).
Qed.

Lemma step_queue_mine s' k q :
  hs !! s' = Some k → s' ≠ s → queue_of (h_pc k) = Some q → queue_of (h_pc h') ≠ Some q.
Proof.
  intros Hk Hne Hq. destruct (handler_queue_in posted since svc hs d s' k q Hok Hk Hq) as [_ Hq2].
  destruct (handler_step_queue s a h ch svc h' ch' svc' Hs)
    as [[Q1 _]|[(_ & Q1 & _)|(Q1 & _)]]; rewrite Q1; [|intros [= E]; lia|done].
  intros Eq. apply Hne. apply (co_inj _ _ _ _ _ Hok s' s k h Hk Hh).
  eapply (sw_inj svc (co_wf _ _ _ _ _ Hok)).
  - by apply (hk_queue _ _ _ _ _ _ (co_handler _ _ _ _ _ Hok s' k Hk)).
  - by apply (hk_queue _ _ _ _ _ _ (co_handler _ _ _ _ _ Hok s h Hh)).
Qed.

Lemma step_queues rid q :
  local_queues_ svc' !! rid = Some q →
  ∃ s' k, <[s := h']> hs !! s' = Some k ∧ h_rid k = rid ∧ queue_of (h_pc k) = Some q.
Proof.
  destruct step_same_call as [Er Ec]. intros Hq. destruct (decide (rid = h_rid h)) as [->|Hne].
  - destruct (handler_step_queue s a h ch svc h' ch' svc' Hs)
      as [[Q1 Q2]|[(_ & Q1 & Q2)|(_ & Q2 & _)]]; [| |congruence].
    + rewrite Q2 in Hq. destruct (co_queues _ _ _ _ _ Hok _ _ Hq) as (s' & k & Hk & Ek & Hkq).
      assert (s' = s) as -> by (by eapply (co_inj _ _ _ _ _ Hok)). exists s, h'.
      rewrite lookup_insert_eq. replace k with h in Hkq by congruence. by rewrite Q1.
    + exists s, h'. rewrite lookup_insert_eq, Q1. split_and!; [done..|congruence].
  - rewrite (hf_queues _ _ _ _ _ step_framed) in Hq by done.
    destruct (co_queues _ _ _ _ _ Hok _ _ Hq) as (s' & k & Hk & Ek & Hkq).
    exists s', k. rewrite lookup_insert_ne; [done|]. intros <-. congruence.
Qed.

Lemma step_writers rid s' :
  writers_ svc' !! rid = Some s' →
  ∃ k, <[s := h']> hs !! s' = Some k ∧ h_rid k = rid ∧
       (is_stream (h_call k) = true → is_Some (queue_of (h_pc k))).
Proof.
  destruct step_same_call as [Er Ec]. intros Hw.
  pose proof (handler_step_queue s a h ch svc h' ch' svc' Hs) as Hqs.
  assert ((s' = s ∧ rid = h_rid h ∧ (is_stream (h_call h) = true → is_Some (queue_of (h_pc h')))) ∨
          writers_ svc !! rid = Some s') as [(-> & -> & H)|Hw'].
  { destruct (handler_step_writers s a h ch svc h' ch' svc' Hs) as [E|[E|[E H]]].
    - apply (hk_pc _ _ _ _ _ _ (co_handler _ _ _ _ _ Hok s h Hh)).
    - right. by rewrite E in Hw.
    - right. rewrite E in Hw. by apply lookup_delete_Some in Hw as [_ ?].
    - rewrite E in Hw. apply lookup_insert_Some in Hw as [[<- <-]|[_ ?]]; auto. }
  { exists h'. rewrite lookup_insert_eq, Ec. done. }
  destruct (co_writers _ _ _ _ _ Hok _ _ Hw') as (k & Hk & Ek & Hkq).
  destruct (decide (s' = s)) as [->|Hne]; [|by exists k; rewrite lookup_insert_ne].
  exists h'. rewrite lookup_insert_eq, Ec. replace k with h in * by congruence.
  split; [done|]. split; [congruence|]. intros Hst. destruct (Hkq Hst) as [q Hq].
  destruct Hqs as [[-> _]|[(_ & -> & _)|(_ & _ & Q)]]; [by rewrite Hq|done|congruence].
Qed.

Lemma clients_ok_handler : clients_ok posted (since_handler s h since) svc' (<[s := h']> hs) d.
Proof.
  pose proof step_framed as F. destruct step_same_call as [Er Ec].
  split; [by apply F, Hok| | |exact step_queues|exact step_writers| | | |].
  - intros s' k [[<- <-]|[Hne Hk]]%lookup_insert_Some; [apply own_handler_ok|].
    rewrite since_other by done. eapply handler_ok_frame; [by apply (co_handler _ _ _ _ _ Hok)|exact F|done| |].
    + intros E. apply Hne. symmetry. by eapply (co_inj _ _ _ _ _ Hok).
    + intros q Hq. split; [by eapply handler_queue_in|].
      apply not_eq_sym, (step_queue_mine s' k q Hk); [done|done].
  - intros s1 s2 h1 h2 [[<- <-]|[N1 H1]]%lookup_insert_Some [[<- <-]|[N2 H2]]%lookup_insert_Some;
      rewrite ?Er; intros E; try done; by eapply (co_inj _ _ _ _ _ Hok).
  - pose proof (co_dispatch _ _ _ _ _ Hok) as Hd. destruct d as [|w ws [q|] [fn|]|] eqn:Ed; try done.
    1,2: destruct Hd as [Hq Hr]; split; [by apply F|];
      intros s' k [[<- <-]|[Hne Hk]]%lookup_insert_Some Hkq; [|by eapply Hr]; rewrite Er;
      destruct (handler_step_queue s a h ch svc h' ch' svc' Hs) as [[Q1 _]|[(_ & Q1 & _)|(Q1 & _)]];
      [eapply Hr; [exact Hh|congruence]| |congruence];
      pose proof (sw_heap svc (co_wf _ _ _ _ _ Hok) q Hq) as Hlt; rewrite Q1 in Hkq;
      injection Hkq; lia.
    destruct Hd as (k & Hk & Hd1 & Hd2). destruct (decide (fn = s)) as [->|Hne].
    + exists h'. rewrite lookup_insert_eq, Ec, Er. by replace h with k by congruence.
    + exists k. by rewrite lookup_insert_ne.
  - intros s' Hin. rewrite lookup_insert_is_Some'. destruct (decide (s' = s)) as [->|Hne]; [by left|].
    right. apply (co_since _ _ _ _ _ Hok). by rewrite since_other in Hin.
  - rewrite (hf_ctr _ _ _ _ _ F), map_size_insert_Some by eauto. apply Hok.
  - intros e [H| ->]%(hf_written _ _ _ _ _ F); rewrite lookup_insert_is_Some'; [|by left].
    right. by apply (co_written _ _ _ _ _ Hok).
Qed.
End step.

(** ** Calls *)

Lemma request_id_inj c1 c2 n1 n2 :
  request_id c1 n1 = request_id c2 n2 → (0 ≤ n1 < 2 ^ 64)%Z → (0 ≤ n2 < 2 ^ 64)%Z → n1 = n2.
Proof.
  intros E H1 H2. rewrite <- (to_string_u64_value n1), <- (to_string_u64_value n2) by done. f_equal.
  destruct c1, c2; by injection E.
Qed.

(** A handler does not notice new ids, nor a dispatch with nothing for it. *)
Lemma handler_ok_same posted since svc svc' d d' s h :
  handler_ok posted since svc d s h → (ctr svc ≤ ctr svc')%Z →
  local_queues_ svc' = local_queues_ svc → queues svc' = queues svc → written svc' = written svc →
  (∀ q, on_way d' q = on_way d q) → on_way_to d' s = on_way_to d s →
  handler_ok posted since svc' d' s h.
Proof.
  intros [K1 K2 K3 K4 K5 K6 K7] E1 E2 E3 E4 E5 E6. split; auto.
  - destruct K1 as (n & Hn & E). exists n. split; [lia|done].
  - by rewrite E2.
  - unfold stream_heard, client_heard, stream_log, queued_in in *. rewrite E3, E4, E6.
    destruct (is_stream (h_call h)); [|done]. destruct since as [after|]; [|done].
    destruct K5 as (heard & rest & F1 & F2 & F3 & F4). exists heard, rest. split_and!; try done.
    intros Hne. destruct (F4 Hne) as (Hf & q & Hq & Hr). split; [done|]. exists q. by rewrite E5.
Qed.

Lemma new_stream_log posted since svc hs d s :
  clients_ok posted since svc hs d → hs !! s = None →
  stream_log s svc = [] ∧ on_way_to d s = [] ∧ since !! s = None.
Proof.
  intros Hok Hn. split_and!.
  - unfold stream_log. destruct (filter _ (written svc)) as [|e l] eqn:E; [done|].
    assert (e ∈ filter (λ e, e.1.1 = s) (written svc)) as He by (rewrite E; left).
    apply list_elem_of_filter in He as [<- He].
    destruct (co_written _ _ _ _ _ Hok e He) as [h Hh]. congruence.
  - pose proof (co_dispatch _ _ _ _ _ Hok) as Hd. destruct d as [|w ws [q|] [fn|]|]; try done. cbn.
    case_decide; [|done]. subst. destruct Hd as (h & Hh & _). congruence.
  - apply eq_None_not_Some. intros Hin%(co_since _ _ _ _ _ Hok). rewrite Hn in Hin. by destruct Hin.
Qed.

(** A call that was let in: its id is the next number. *)
Lemma call_begin_spec now auth call stream svc h svc' :
  call_begin (jwt_at now) auth call stream svc = (Some h, svc') →
  check_auth (jwt_at now) (h_auth h) = true ∧ h_call h = call ∧
  h_rid h = request_id call (ctr svc) ∧ ctr svc' = u64 (ctr svc + 1) ∧
  writers_ svc' = writers_ svc ∧ local_queues_ svc' = local_queues_ svc ∧
  queues svc' = queues svc ∧ next_queue svc' = next_queue svc ∧ written svc' = written svc ∧
  queue_of (h_pc h) = None ∧ pc_of call (h_pc h) = true ∧
  (∀ r, h_pc h = HSend r → ∃ request,
     call = StreamCall request ∧ parse_unary request (h_rid h) = Ok r) ∧
  (∀ r, h_pc h ≠ CSend r).
Proof.
  unfold call_begin. destruct (check_auth (jwt_at now) auth) eqn:Ea; cbn [negb]; [|done].
  cbn [generate_request_id]. destruct call as [request|]; [|by intros [= <- <-]].
  destruct (parse_unary request _) as [r|[what]] eqn:Er; intros [= <- <-]; [|done].
  cbn. split_and!; try done. intros r' [= <-]. by exists request.
Qed.

Lemma clients_ok_call posted since svc hs d now auth call stream h svc' :
  clients_ok posted since svc hs d → hs !! stream = None →
  (Z.of_nat (size (<[stream := h]> hs)) < 2 ^ 64 - 1)%Z →
  call_begin (jwt_at now) auth call stream svc = (Some h, svc') →
  clients_ok posted since svc' (<[stream := h]> hs) d.
Proof.
  intros Hok Hn Hsz Hb. apply call_begin_spec in Hb
    as (Ba & Bc & Br & Bctr & B1 & B2 & B3 & B4 & B5 & Bq & Bpc & Bs & _).
  rewrite map_size_insert_None in Hsz by done. pose proof (co_ctr _ _ _ _ _ Hok) as Hc.
  rewrite u64_small in Bctr by lia.
  destruct (new_stream_log posted since svc hs d stream Hok Hn) as (Hlog & Hway & Hsince).
  assert (∀ s k, hs !! s = Some k → h_rid k ≠ h_rid h) as Hfresh.
  { intros s k Hk E. destruct (hk_id _ _ _ _ _ _ (co_handler _ _ _ _ _ Hok s k Hk)) as (n & Hn' & Ek).
    rewrite Br, Ek in E. apply request_id_inj in E; lia. }
  split.
  - destruct (co_wf _ _ _ _ _ Hok) as [W1 W2 W3 W4]. split; rewrite ?B2, ?B3, ?B4; auto.
  - intros s k [[<- <-]|[Hne Hk]]%lookup_insert_Some.
    + split; rewrite ?Bc; eauto; [exists (ctr svc); split; [lia|done]|by rewrite Bq|..].
      assert (stream_log stream svc' = []) as Hl by (unfold stream_log in *; by rewrite B5).
      { destruct (is_stream call); [by rewrite Hsince|].
        exists []. rewrite Hl, Hway. split; [done|apply sublist_nil_l]. }
      by rewrite Hsince.
    + eapply handler_ok_same; [by apply (co_handler _ _ _ _ _ Hok)|lia|done..].
  - intros s1 s2 h1 h2 [[<- <-]|[N1 H1]]%lookup_insert_Some [[<- <-]|[N2 H2]]%lookup_insert_Some E;
      [done|by destruct (Hfresh s2 h2 H2)|by destruct (Hfresh s1 h1 H1)|by eapply (co_inj _ _ _ _ _ Hok)].
  - intros rid q. rewrite B2. intros (s & k & Hk & H)%(co_queues _ _ _ _ _ Hok).
    exists s, k. rewrite lookup_insert_ne; [done|]. congruence.
  - intros rid s. rewrite B1. intros (k & Hk & H)%(co_writers _ _ _ _ _ Hok).
    exists k. rewrite lookup_insert_ne; [done|]. congruence.
  - pose proof (co_dispatch _ _ _ _ _ Hok) as Hd. destruct d as [|w ws [q|] [fn|]|]; try done.
    1,2: rewrite B3; destruct Hd as [Hq Hr]; split; [done|];
      intros s k [[<- <-]|[_ Hk]]%lookup_insert_Some Hkq; [congruence|by eapply Hr].
    destruct Hd as (k & Hk & Hd). exists k. rewrite lookup_insert_ne; [done|]. congruence.
  - intros s Hin%(co_since _ _ _ _ _ Hok). rewrite lookup_insert_is_Some'. by right.
  - rewrite map_size_insert_None by done. lia.
  - intros e. rewrite B5, lookup_insert_is_Some'. intros He. right. by apply (co_written _ _ _ _ _ Hok).
Qed.

(** ** Dispatch *)

(** A step that leaves queues and streams alone and has nothing on its way. *)
Lemma clients_ok_idle posted since svc svc' hs d d' :
  clients_ok posted since svc hs d → writers_ svc' ⊆ writers_ svc →
  local_queues_ svc' = local_queues_ svc → queues svc' = queues svc →
  next_queue svc' = next_queue svc → ctr svc' = ctr svc → written svc' = written svc →
  (∀ q, on_way d q = []) → (∀ s, on_way_to d s = []) →
  match d' with DLooked _ _ _ _ => False | _ => True end → clients_ok posted since svc' hs d'.
Proof.
  intros Hok E1 E2 E3 E4 E5 E6 H1 H2 Hd'. split; rewrite ?E5; try apply Hok.
  - destruct (co_wf _ _ _ _ _ Hok) as [W1 W2 W3 W4]. split; rewrite ?E2, ?E3, ?E4; auto.
  - intros s h Hh. eapply handler_ok_same; [by apply (co_handler _ _ _ _ _ Hok)|lia|done..| |].
    + intros q. rewrite H1. by destruct d'.
    + rewrite H2. by destruct d'.
  - rewrite E2. apply Hok.
  - intros rid s Hw. apply (co_writers _ _ _ _ _ Hok). by eapply lookup_weaken.
  - by destruct d'.
  - rewrite E6. apply Hok.
Qed.

Lemma for_request_snoc rid posted w :
  for_request rid (posted ++ [w]) =
  for_request rid posted ++ (if decide (wc_request_id w = rid) then [w] else []).
Proof. unfold for_request. rewrite filter_app. f_equal. Qed.

(** Looking a response up: from now on it is on its way. *)
Lemma lookup_stream after svc w ws s h :
  svc_wf svc → (∀ q, queue_of (h_pc h) = Some q → local_queues_ svc !! h_rid h = Some q) →
  stream_heard (Some after) svc (DNext (w :: ws)) s h →
  stream_heard (Some (after ++ [w])) svc
    (DLooked w ws (local_queues_ svc !! wc_request_id w) (writers_ svc !! wc_request_id w)) s h.
Proof.
  intros Hwf K4 (heard & rest & E2 & E3 & E4 & E5).
  exists heard, (rest ++ (if decide (wc_request_id w = h_rid h) then [w] else [])).
  split_and!; [done|by rewrite for_request_snoc, E3, <- app_assoc|done|].
  intros Hne. destruct (E5 Hne) as (Hf & q & Eq & Hr). split; [done|]. exists q. split; [done|].
  cbn in Hr. rewrite Hr, app_nil_r, <- !app_assoc. do 2 f_equal. pose proof (K4 q Eq) as Hq. cbn.
  case_decide as Er; [rewrite Er, Hq; by rewrite decide_True|].
  destruct (local_queues_ svc !! wc_request_id w) as [q'|] eqn:Eq'; [|done].
  rewrite decide_False; [done|]. intros ->. apply Er. by eapply (sw_inj svc Hwf).
Qed.

Lemma lookup_client posted since svc hs w ws s h :
  clients_ok posted since svc hs (DNext (w :: ws)) → hs !! s = Some h →
  client_heard posted svc (DNext (w :: ws)) s h →
  client_heard (posted ++ [w]) svc
    (DLooked w ws (local_queues_ svc !! wc_request_id w) (writers_ svc !! wc_request_id w)) s h.
Proof.
  intros Hok Hh (heard & E1 & E2). exists heard. split; [done|].
  cbn in E2. rewrite app_nil_r in E2. rewrite for_request_snoc.
  assert (∀ l, heard ++ [] `sublist_of` for_request (h_rid h) posted ++ l) as H0
    by (intros l; rewrite app_nil_r; by apply sublist_inserts_r).
  destruct (local_queues_ svc !! wc_request_id w) as [q|]; [apply H0|].
  destruct (writers_ svc !! wc_request_id w) as [fn|] eqn:Ew; [|apply H0].
  cbn [on_way_to]. destruct (decide (fn = s)) as [->|_]; [|apply H0].
  destruct (co_writers _ _ _ _ _ Hok _ _ Ew) as (k & Hk & Er & _).
  rewrite decide_True by congruence. by apply sublist_app.
Qed.

Lemma clients_ok_lookup posted since svc hs w ws :
  clients_ok posted since svc hs (DNext (w :: ws)) →
  clients_ok (posted ++ [w]) ((λ after, after ++ [w]) <$> since) svc hs
    (DLooked w ws (local_queues_ svc !! wc_request_id w) (writers_ svc !! wc_request_id w)).
Proof.
  intros Hok. split; try apply Hok.
  - intros s h Hh. destruct (co_handler _ _ _ _ _ Hok s h Hh) as [K1 K2 K3 K4 K5 K6 K7].
    rewrite lookup_fmap. split; auto.
    + destruct (is_stream (h_call h)); [|by eapply lookup_client].
      destruct (since !! s) as [after|]; [|done]. by apply lookup_stream; [apply Hok|..].
    + intros after. destruct (since !! s) as [l|]; [|done]. intros [= <-].
      by apply suffix_snoc, K6.
  - destruct (local_queues_ svc !! wc_request_id w) as [q|] eqn:Eq.
    + split; [by apply (sw_queue svc (co_wf _ _ _ _ _ Hok) _ _ Eq)|]. intros s h Hh Hq.
      apply (hk_queue _ _ _ _ _ _ (co_handler _ _ _ _ _ Hok s h Hh)) in Hq.
      by eapply (sw_inj svc (co_wf _ _ _ _ _ Hok)).
    + destruct (writers_ svc !! wc_request_id w) as [s|] eqn:Ew; [|done].
      destruct (co_writers _ _ _ _ _ Hok _ _ Ew) as (h & Hh & Er & Hs). exists h.
      split; [done|]. split; [|done]. destruct (is_stream (h_call h)); [|done].
      destruct (Hs eq_refl) as [q Hq].
      apply (hk_queue _ _ _ _ _ _ (co_handler _ _ _ _ _ Hok s h Hh)) in Hq. congruence.
  - intros s. rewrite lookup_fmap. intros Hin%fmap_is_Some. by apply (co_since _ _ _ _ _ Hok).
Qed.

(** Sending to the queue that was found, even when its handler has gone. *)
Lemma clients_ok_send posted since svc hs w ws q fn c :
  clients_ok posted since svc hs (DLooked w ws (Some q) fn) → queues svc !! q = Some c →
  clients_ok posted since (svc <| queues := <[q := push w c]> (queues svc) |>) hs (DNext ws).
Proof.
  intros Hok Hc. pose proof (co_wf _ _ _ _ _ Hok) as Hwf.
  split; try apply Hok; try done.
  - apply (emptied_wf q svc); [done|by rewrite Hc|exact (sw_open svc Hwf q c Hc)].
  - intros s h Hh. destruct (co_handler _ _ _ _ _ Hok s h Hh) as [K1 K2 K3 K4 K5 K6 K7].
    split; auto. destruct (is_stream (h_call h)); [|exact K5].
    destruct (since !! s) as [after|]; [|exact K5].
    destruct K5 as (heard & rest & E2 & E3 & E4 & E5). exists heard, rest. split_and!; try done.
    intros Hne. destruct (E5 Hne) as (Hf & q' & Hq' & Hr). split; [done|]. exists q'.
    split; [done|]. rewrite Hr. cbn. unfold queued_in. cbn. rewrite app_nil_r. f_equal.
    case_decide as Eq; [subst q'|by rewrite lookup_insert_ne, app_nil_r].
    by rewrite lookup_insert_eq, Hc.
Qed.

(** Writing to the stream that was found: it is one of [SynthesizeClient]. *)
Lemma clients_ok_write posted since svc hs w ws fn d' :
  clients_ok posted since svc hs (DLooked w ws None (Some fn)) →
  match d' with DLooked _ _ _ _ => False | _ => True end →
  clients_ok posted since (stream_write net fn (to_proto w) svc).2 hs d'.
Proof.
  intros Hok Hd'. destruct (co_dispatch _ _ _ _ _ Hok) as (k & Hk & Hst & Hr).
  pose proof (frame_write fn (h_rid k) None (to_proto w) svc) as F. split; try apply Hok.
  - by apply F, Hok.
  - intros s h Hh. destruct (decide (s = fn)) as [->|Hne].
    + assert (k = h) as -> by congruence.
      destruct (co_handler _ _ _ _ _ Hok fn h Hh) as [K1 K2 K3 K4 K5 K6 K7]. split; auto.
      rewrite Hst in *. destruct K5 as (heard & E1 & E2). exists (heard ++ [w]).
      rewrite stream_log_write, E1, fmap_app. split; [done|].
      cbn in E2. rewrite decide_True in E2 by done. destruct d'; cbn; by rewrite ?app_nil_r.
    + eapply handler_ok_same;
        [eapply handler_ok_frame; [by apply (co_handler _ _ _ _ _ Hok)|exact F|done| |]|done..| |].
      * intros E. apply Hne. by eapply (co_inj _ _ _ _ _ Hok).
      * intros q Hq. split; [by eapply handler_queue_in|done].
      * by destruct d'.
      * cbn. rewrite decide_False by done. by destruct d'.
  - by destruct d'.
  - intros e [He| ->]%(hf_written _ _ _ _ _ F); [by apply (co_written _ _ _ _ _ Hok)|by rewrite Hk].
Qed.

Lemma clients_ok_dispatch posted since svc hs d d' svc' :
  clients_ok posted since svc hs d → dispatch_step net d svc = Ok (d', svc') →
  clients_ok (posted ++ looks_up d) (since_dispatch d since) svc' hs d'.
Proof.
  intros Hok Hs. assert (looks_up d = [] → since_dispatch d since = since) as Hsi.
  { intros E. unfold since_dispatch. rewrite E. rewrite <- (map_fmap_id since) at 2.
    apply map_fmap_ext. intros s l _. apply app_nil_r. }
  destruct d as [[|w ws]|w ws [q|] [fn|]|rid ws]; try rewrite (Hsi eq_refl); cbn [looks_up];
    rewrite ?app_nil_r.
  - by injection Hs as <- <-.
  - injection Hs as <- <-. by apply clients_ok_lookup.
  - destruct (co_dispatch _ _ _ _ _ Hok) as [[c Hc] _]. cbn in Hs. rewrite Hc in Hs. cbn in Hs.
    unfold send in Hs. rewrite (sw_open svc (co_wf _ _ _ _ _ Hok) q c Hc) in Hs. cbn in Hs.
    injection Hs as <- <-. by eapply clients_ok_send.
  - destruct (co_dispatch _ _ _ _ _ Hok) as [[c Hc] _]. cbn in Hs. rewrite Hc in Hs. cbn in Hs.
    unfold send in Hs. rewrite (sw_open svc (co_wf _ _ _ _ _ Hok) q c Hc) in Hs. cbn in Hs.
    injection Hs as <- <-. by eapply clients_ok_send.
  - injection Hs as <- <-. eapply clients_ok_write; [exact Hok|]. by destruct (wc_is_final w).
  - injection Hs as <- <-. by eapply clients_ok_idle.
  - injection Hs as <- <-. eapply clients_ok_idle; try done. apply delete_subseteq.
Qed.

(** ** Executions *)

Lemma clients_new_ok : clients_ok [] ∅ service_new ∅ (DNext []).
Proof.
  split; try done; [apply service_new_wf|..]; cbn; try (intros *; by rewrite ?lookup_empty).
  intros e He. by apply not_elem_of_nil in He.
Qed.

Lemma clients_step_size st ws st' :
  clients_step net jwt_at st ws st' → size (cl_handlers st) ≤ size (cl_handlers st').
Proof.
  destruct 1 as [now auth call s svc hs ch d since [h|] svc' Hn _
    |a s h svc hs ch d since h' ch' svc' Hh _| | |];
    cbn; [rewrite map_size_insert_None by done; lia|done|by rewrite map_size_insert_Some by eauto|done..].
Qed.

Lemma clients_exec_ok posted st :
  clients_exec net jwt_at clients_new posted st →
  (Z.of_nat (size (cl_handlers st)) < 2 ^ 64 - 1)%Z →
  clients_ok posted (cl_since st) (cl_service st) (cl_handlers st) (cl_dispatch st).
Proof.
  remember clients_new as st0 eqn:E0. intros He.
  induction He as [st|st posted st1 ws st2 He IH Hs]; subst; intros Hz; [apply clients_new_ok|].
  pose proof (clients_step_size _ _ _ Hs) as Hle. specialize (IH eq_refl ltac:(lia)).
  destruct Hs as [now auth call s svc hs ch d since [h|] svc' Hn Hb
    |a s h svc hs ch d since h' ch' svc' Hh Hs|svc hs ch d since d' svc' Hs|ws svc hs ch since
    |svc hs ch ch' d since]; cbn in *; rewrite ?app_nil_r.
  - by eapply clients_ok_call.
  - unfold call_begin in Hb. destruct (check_auth _ _); cbn in Hb; [|by injection Hb as <-].
    destruct call as [request|]; [destruct (parse_unary _ _) as [|[]]|]; done.
  - by eapply (clients_ok_handler posted since svc hs d s a h ch).
  - by eapply clients_ok_dispatch.
  - by apply (clients_ok_idle posted since svc svc hs (DNext [])).
  - done.
Qed.

End invariant.
