(* ===== verification/HandlersRun.v ===== *)
(** * Schedules of the gRPC service

    Undisturbed, the small steps of Handlers.v are the steps of TtsService.v.  Schedules
    given as lists of moves can be run: two clients served at once, and the two races of
    src/entry/tts_service_impl.h. *)

From S2P Require Import Prelude Messages ChangeSet CopyChannel HexCodec Metrics DataBoard.
From S2P Require Import Proto RequestParser ResponseWriter Jwt TtsService ServiceFacts Handlers.
From S2P Require Import HandlersFacts.

Implicit Types (svc : Service) (w : WriteToClient) (ws : list WriteToClient).

(** ** Undisturbed steps *)

(** The begin of a call followed by its send is [stream_enter]. *)
Lemma begin_enter jwt auth request stream ch svc h svc' a net :
  call_begin jwt auth (StreamCall request) stream svc = (Some h, svc') →
  let '(pc, ch1, svc1) := stream_enter jwt auth request stream ch svc in
  let '(h2, ch2, svc2) := handler_step net stream a h ch svc' in
  ch2 = ch1 ∧ writers_ svc2 = writers_ svc1 ∧ local_queues_ svc2 = local_queues_ svc1 ∧
  queues svc2 = queues svc1 ∧ ctr svc2 = ctr svc1 ∧
  match pc with
  | PcSent rid => h_rid h = rid ∧ h_pc h2 = HQueue
  | PcDone st => h_pc h2 = HReturned st
  | PcThrown => h_pc h2 = HThrown
  | _ => False
  end.
Proof.
  unfold call_begin, stream_enter. destruct (check_auth jwt auth); cbn [negb]; [|done].
  cbn [generate_request_id call_tag].
  destruct (parse_unary request _) as [r|[what]]; intros [= <- <-]; cbn; [|done].
  by destruct (send (MsgRequest r) ch).
Qed.

Section undisturbed.
Context (net : Net) (stream : nat).

(** The handler's steps on the service, alone. *)
Fixpoint handler_run (n : nat) (a : Answers) (h : Handler) svc : Handler * Service :=
  match n with
  | O => (h, svc)
  | S n => let '(h, _, svc) := handler_step net stream a h channel_new svc in handler_run n a h svc
  end.

Lemma deliver_run q d a ws h svc :
  h_pc h = HDeliver q d ws →
  ∃ n, handler_run n a h svc =
    match deliver net (h_rid h) stream ws svc with
    | (Returned, svc') => (goto (HReturned Status_OK) h, stream_exit stream svc')
    | (AllWritten, svc') =>
        if (d <? a_now a)%Z
        then (goto (HReturned Status_OK) h, stream_exit stream (erase_both (h_rid h) svc'))
        else (goto (HPoll q d) h, svc')
    end.
Proof.
  revert h svc. induction ws as [|w ws IH]; intros h svc Hpc.
  - cbn [deliver]. destruct (d <? a_now a)%Z eqn:Ed.
    + exists 2. cbn [handler_run]. unfold handler_step at 1. rewrite Hpc, Ed. by destruct h.
    + exists 1. cbn [handler_run]. unfold handler_step. rewrite Hpc, Ed. done.
  - cbn [deliver]. destruct (stream_write net stream (to_proto w) svc) as [ok svc1] eqn:Ew.
    destruct (negb ok || wc_is_final w) eqn:Er.
    + exists 2. cbn [handler_run]. unfold handler_step at 1. rewrite Hpc, Ew, Er.
      destruct (negb ok); [by destruct h|]. cbn in Er. rewrite Er. by destruct h.
    + destruct ok; [|done]. cbn in Er. cbn [negb]. rewrite Er.
      destruct (IH (goto (HDeliver q d ws) h) svc1 eq_refl) as [n Hn]. exists (S n).
      cbn [handler_run]. unfold handler_step at 1. rewrite Hpc, Ew. cbn [negb orb].
      rewrite Er, Hn. by destruct h.
Qed.

(** A round of the polling loop of [stream_step]. *)
Lemma poll_run q d a h svc :
  h_pc h = HPoll q d →
  ∃ n, let '(h', svc') := handler_run n a h svc in
    match stream_step net stream (a_cancelled a) (a_now a) (PcPolling (h_rid h) q d) svc with
    | (PcDone st, svc1) => h' = goto (HReturned st) h ∧ svc' = stream_exit stream svc1
    | (_, svc1) => h' = goto (HPoll q d) h ∧ svc' = svc1
    end.
Proof.
  intros Hpc. cbn [stream_step]. destruct (a_cancelled a) eqn:Ec.
  - exists 2. cbn [handler_run]. unfold handler_step at 1. rewrite Hpc, Ec. by destruct h.
  - destruct (swap_out_all [] _) as [drained c] eqn:Es.
    set (svc1 := svc <| queues := <[q := c]> (queues svc) |>).
    destruct (deliver_run q d a drained (goto (HDeliver q d drained) h) svc1 eq_refl) as [n Hn].
    exists (S n). cbn [handler_run]. unfold handler_step at 1. rewrite Hpc, Ec, Es. fold svc1.
    rewrite Hn. clear Hn Es. clearbody svc1. destruct h. cbn. destruct (deliver _ _ _ _ svc1) as [[] svc2]; [|done].
    by destruct (d <? a_now a)%Z.
Qed.

Lemma handler_run_plus n m a h svc :
  handler_run (n + m) a h svc = let '(h1, svc1) := handler_run n a h svc in handler_run m a h1 svc1.
Proof.
  revert h svc. induction n as [|n IH]; intros h svc; [done|]. cbn [handler_run Nat.add].
  destruct (handler_step _ _ _ _ _ _) as [[h1 c1] svc1]. apply IH.
Qed.

Context (Hnet : ∀ n, write_result net n = true).

(** Not cancelled, and in time. *)
Definition in_time (a : Answers) (pc : HandlerPc) : Prop :=
  a_cancelled a = false ∧
  match pc with HPoll _ d | HDeliver _ d _ => (a_now a ≤ d)%Z | _ => True end.

Lemma deliver_alone q d a ws h svc :
  h_pc h = HDeliver q d ws → in_time a (h_pc h) →
  ∃ n, let '(h', svc') := handler_run n a h svc in
    stream_log stream svc' = stream_log stream svc ++ (to_proto <$> until_final ws) ∧
    queues svc' = queues svc ∧
    h' = goto (if has_final ws then HReturned Status_OK else HPoll q d) h.
Proof.
  intros Hpc [_ Ht]. rewrite Hpc in Ht. destruct (deliver_run q d a ws h svc Hpc) as [n Hn].
  exists n. rewrite Hn. pose proof (deliver_spec net Hnet (h_rid h) stream ws svc) as Hd.
  destruct (deliver _ _ _ ws svc) as [[] svc1]; destruct Hd as (D1 & D2 & _ & D4 & _); rewrite D4.
  - rewrite (proj2 (Z.ltb_ge d (a_now a))) by done. done.
  - done.
Qed.

Lemma poll_alone q d a h svc :
  h_pc h = HPoll q d → in_time a (h_pc h) → has_final (queued_in q svc) = true →
  ∃ n, let '(h', svc') := handler_run n a h svc in
    stream_log stream svc' = stream_log stream svc ++ (to_proto <$> until_final (queued_in q svc)) ∧
    h' = goto (HReturned Status_OK) h.
Proof.
  intros Hpc [Hc Ht] Hf. rewrite Hpc in Ht. unfold queued_in in *.
  set (c := default channel_new (queues svc !! q)) in *.
  set (svc1 := svc <| queues := <[q := mkChannel [] (closed_ c)]> (queues svc) |>).
  destruct (deliver_alone q d a (buffer_ c) (goto (HDeliver q d (buffer_ c)) h) svc1 eq_refl)
    as [n Hn]; [done|].
  exists (S n). cbn [handler_run]. unfold handler_step at 1. rewrite Hpc, Hc. fold c.
  rewrite swap_out_all_spec. cbn [app]. fold svc1.
  destruct (handler_run n a _ svc1) as [h' svc']. destruct Hn as (H1 & _ & H2). rewrite Hf in H2.
  split; [exact H1|]. rewrite H2. by destruct h.
Qed.

(** A handler that has not given up and is let run writes all that was looked up for its
    request since it registered, up to the first final response, and returns. *)
Lemma finish_alone after a h svc d :
  stream_heard (Some after) svc d stream h → has_erased (h_pc h) = false →
  (∀ q, on_way d q = []) → in_time a (h_pc h) → has_final (for_request (h_rid h) after) = true →
  ∃ n, let '(h', svc') := handler_run n a h svc in
    h' = goto (HReturned Status_OK) h ∧
    stream_log stream svc' = to_proto <$> until_final (for_request (h_rid h) after).
Proof.
  intros (heard & rest & E1 & E2 & _ & E4) Hne Hw Ht Hf. destruct (E4 Hne) as (Hh & q & Hq & Hr).
  rewrite Hw, app_nil_r in Hr. rewrite E2, has_final_app, Hh in Hf. cbn [orb] in Hf.
  rewrite E2, until_final_app, Hh, (until_final_all heard) by done. rewrite fmap_app, <- E1.
  destruct (h_pc h) as [r| |q'|q' dl|q' dl ws|q'| |f|r|st|] eqn:Ep; cbn [queue_of] in Hq; try done;
    injection Hq as ->; cbn [drained_of app] in Hr; subst rest.
  - set (h1 := goto (HPoll q (a_now a + seconds 60)%Z) h).
    set (svc1 := register_writer (h_rid h) stream svc).
    destruct (poll_alone q (a_now a + seconds 60)%Z a h1 svc1 eq_refl) as [n Hn]; [|exact Hf|].
    { split; [apply Ht|]. cbn. unfold seconds. lia. }
    exists (S n). cbn [handler_run]. unfold handler_step at 1. rewrite Ep. fold h1 svc1.
    destruct (handler_run n a h1 svc1) as [h' svc']. destruct Hn as [H1 ->]. split; [by destruct h|].
    exact H1.
  - destruct (poll_alone q dl a h svc Ep) as [n Hn]; [by rewrite Ep|done|]. exists n.
    destruct (handler_run n a h svc) as [h' svc']. by destruct Hn.
  - destruct (deliver_alone q dl a ws h svc Ep) as [n Hn]; [by rewrite Ep|].
    destruct (handler_run n a h svc) as [h1 svc1] eqn:E. destruct Hn as (H1 & H2 & H3).
    rewrite has_final_app in Hf. rewrite until_final_app. destruct (has_final ws) eqn:Ew.
    { exists n. rewrite E, app_nil_r. done. }
    assert (queued_in q svc1 = queued_in q svc) as Hqq by (unfold queued_in; by rewrite H2).
    destruct (poll_alone q dl a h1 svc1) as [m Hm]; [by rewrite H3|rewrite H3; apply Ht|by rewrite Hqq|].
    exists (n + m). rewrite handler_run_plus, E. destruct (handler_run m a h1 svc1) as [h2 svc2].
    destruct Hm as [H4 ->]. split; [rewrite H3; by destruct h|].
    rewrite H4, H1, Hqq, fmap_app. by rewrite app_assoc.
Qed.

(** The dispatch, alone. *)
Fixpoint dispatch_run (n : nat) (d : DispatchPc) svc : result ChannelClosed (DispatchPc * Service) :=
  match n with
  | O => Ok (d, svc)
  | S n => '(d, svc) ← dispatch_step net d svc; dispatch_run n d svc
  end.

Lemma dispatch_one_run w ws svc :
  ∃ n, dispatch_run n (DNext (w :: ws)) svc = (svc' ← dispatch_one net svc w; Ok (DNext ws, svc')).
Proof.
  unfold dispatch_one. destruct (local_queues_ svc !! wc_request_id w) as [q|] eqn:Eq.
  { exists 2. cbn. rewrite Eq. cbn. by destruct (send w _). }
  destruct (writers_ svc !! wc_request_id w) as [s|] eqn:Ew.
  - destruct (wc_is_final w) eqn:Ef; [exists 3|exists 2]; cbn; rewrite Eq, Ew; cbn; by rewrite Ef.
  - exists 2. cbn. rewrite Eq, Ew. done.
Qed.
End undisturbed.

(** ** Schedules *)

(** A schedule as a list of moves that can be run. *)
Inductive ClientMove : Type :=
| MCall (now : Z) (auth : option string) (call : Call) (stream : nat)
| MHandler (a : Answers) (stream : nat)
| MDispatch
| MPost (ws : list WriteToClient).

Section moves.
Context (net : Net) (jwt_at : Z → option (string → string → JwtResult)).

Definition client_move (m : ClientMove) (st : Clients) : option (list WriteToClient * Clients) :=
  match m with
  | MCall now auth call stream =>
      match cl_handlers st !! stream with
      | Some _ => None
      | None =>
          let '(h, svc) := call_begin (jwt_at now) auth call stream (cl_service st) in
          Some ([], mkClients svc (from_option (λ h, <[stream := h]> (cl_handlers st))
                                     (cl_handlers st) h) (cl_channel st) (cl_dispatch st) (cl_since st))
      end
  | MHandler a stream =>
      h ← cl_handlers st !! stream;
      let '(h', ch, svc) := handler_step net stream a h (cl_channel st) (cl_service st) in
      Some ([], mkClients svc (<[stream := h']> (cl_handlers st)) ch (cl_dispatch st)
                  (since_handler stream h (cl_since st)))
  | MDispatch =>
      match dispatch_step net (cl_dispatch st) (cl_service st) with
      | Ok (d, svc) =>
          Some (looks_up (cl_dispatch st), mkClients svc (cl_handlers st) (cl_channel st) d
                  (since_dispatch (cl_dispatch st) (cl_since st)))
      | Throw _ => None
      end
  | MPost ws =>
      match cl_dispatch st with
      | DNext [] =>
          Some ([], mkClients (cl_service st) (cl_handlers st) (cl_channel st) (DNext ws) (cl_since st))
      | _ => None
      end
  end.

Fixpoint client_moves (ms : list ClientMove) (posted : list WriteToClient) (st : Clients)
    : option (list WriteToClient * Clients) :=
  match ms with
  | [] => Some (posted, st)
  | m :: ms => '(ws, st) ← client_move m st; client_moves ms (posted ++ ws) st
  end.

Lemma client_move_step m st ws st' :
  client_move m st = Some (ws, st') → clients_step net jwt_at st ws st'.
Proof.
  destruct st as [svc hs ch d since]. destruct m as [now auth call s|a s| |l]; cbn.
  - destruct (hs !! s) eqn:Hs; [done|]. destruct (call_begin _ _ _ _ _) as [h svc'] eqn:Hb.
    intros [= <- <-]. by eapply ck_call.
  - destruct (hs !! s) as [h|] eqn:Hs; [|done]. cbn.
    destruct (handler_step _ _ _ _ _ _) as [[h' ch'] svc'] eqn:Hb.
    intros [= <- <-]. by eapply ck_handler.
  - destruct (dispatch_step net d svc) as [[d' svc']|] eqn:Hd; [|done]. intros [= <- <-].
    by apply ck_dispatch.
  - destruct d as [[|]| |]; try done. intros [= <- <-]. apply ck_post.
Qed.

Lemma client_moves_exec ms posted st0 st posted' st' :
  clients_exec net jwt_at st0 posted st → client_moves ms posted st = Some (posted', st') →
  clients_exec net jwt_at st0 posted' st'.
Proof.
  revert posted st. induction ms as [|m ms IH]; intros posted st He Hm; cbn in Hm.
  { by injection Hm as <- <-. }
  destruct (client_move m st) as [[ws st1]|] eqn:E; [|done]. cbn in Hm.
  eapply IH; [|exact Hm]. eapply cx_snoc; [exact He|]. by eapply client_move_step.
Qed.
End moves.

(** ** Two clients served at once *)

Definition no_jwt (now : Z) : option (string → string → JwtResult) := None.
Definition idle_at (now : TimePoint) : Answers := mkAnswers false now None.

(** The settings of a client that sets none. *)
Definition demo_text (text : string) : PbSynthesizeRequest :=
  mkPbRequest text 0 (mkPbVoice "" f32_zero f32_zero 0 0 false) (mkPbAudio 0 0 0 0) 0.

Definition demo_calls : list ClientMove :=
  [MCall 0 None (StreamCall (demo_text "a")) 7; MCall 0 None (StreamCall (demo_text "b")) 8;
   MHandler (idle_at 1) 8; MHandler (idle_at 1) 7; MHandler (idle_at 2) 7; MHandler (idle_at 2) 8;
   MHandler (idle_at 3) 8; MHandler (idle_at 3) 7].

(** The second response is looked up while the first client is being served. *)
Definition demo_served : list ClientMove :=
  demo_calls ++
  [MPost [demo_write "strm-1" true; demo_write "strm-2" true]; MDispatch; MDispatch; MDispatch;
   MHandler (idle_at 4) 7; MDispatch; MHandler (idle_at 4) 8; MHandler (idle_at 4) 7;
   MHandler (idle_at 4) 8; MHandler (idle_at 4) 7; MHandler (idle_at 4) 8].

Definition run_demo (ms : list ClientMove) : list WriteToClient * Clients :=
  default ([], clients_new) (client_moves demo_net no_jwt ms [] clients_new).

Lemma run_demo_exec ms :
  is_Some (client_moves demo_net no_jwt ms [] clients_new) →
  clients_exec demo_net no_jwt clients_new (run_demo ms).1 (run_demo ms).2.
Proof.
  unfold run_demo. intros [[posted st] E]. rewrite E. cbn.
  eapply client_moves_exec; [apply cx_nil|exact E].
Qed.


(** ** Races *)

(** The response is dispatched between the send of the request and the registration of
    its queue, and the client polls for a minute. *)
Definition demo_late : list ClientMove :=
  [MCall 0 None (StreamCall (demo_text "a")) 7; MHandler (idle_at 1) 7;
   MPost [demo_write "strm-1" true]; MDispatch; MDispatch;
   MHandler (idle_at 2) 7; MHandler (idle_at 3) 7; MHandler (idle_at 4) 7;
   MHandler (idle_at (seconds 61)) 7; MHandler (idle_at (seconds 61)) 7].

(** A client half-closes before its response is there. *)
Definition demo_gone : list ClientMove :=
  [MCall 0 None ClientCall 9; MHandler (idle_at 1) 9; MHandler (idle_at 2) 9;
   MPost [demo_write "cli-1" true]; MDispatch].

(** Two races of the service.  A response dispatched after its request was sent and
    before its queue is registered is lost: the handler returns OK after its timeout, and
    its client has been written nothing.  A [SynthesizeClient] handler that returns leaves
    its writer behind: the heartbeat thread then writes to a stream that is gone. *)
Lemma service_races :
  (∃ st, clients_exec demo_net no_jwt clients_new [demo_write "strm-1" true] st ∧
     h_rid <$> (cl_handlers st !! 7) = Some "strm-1" ∧
     h_pc <$> (cl_handlers st !! 7) = Some (HReturned Status_OK) ∧
     stream_log 7 (cl_service st) = []) ∧
  (∃ st w ws, clients_exec demo_net no_jwt clients_new [w] st ∧
     cl_dispatch st = DLooked w ws None (Some 9) ∧
     h_pc <$> (cl_handlers st !! 9) = Some (HReturned Status_OK) ∧ 9 ∉ alive (cl_service st)).
Proof.
  split.
  - exists (run_demo demo_late).2. split.
    + apply (run_demo_exec demo_late). vm_compute. by eexists.
    + vm_compute. done.
  - exists (run_demo demo_gone).2, (demo_write "cli-1" true), []. split.
    + apply (run_demo_exec demo_gone). vm_compute. by eexists.
    + split; [reflexivity|]. split; [reflexivity|]. by apply (bool_decide_unpack _).
Qed.
