(* ===== verification/System.v ===== *)
(** * The assembled server (src/main.cpp)

    The loop of the heartbeat thread: tick, hand the responses to the service, run
    the local synthesis jobs and send their results back through the request
    channel.  Frames for the upstream service and session closes in the change set
    are not used by [main], so nothing ever arrives on the upstream event channel. *)

From S2P Require Import Prelude Messages ChangeSet CopyChannel HexCodec Metrics SessionPool.
From S2P Require Import PendingStore DataBoard Events EventBus LocalEngine WsFrameCodec.
From S2P Require Import Observability Backpressure Evolution World MessageProcessor Heartbeat.
From S2P Require Import Demo HeartbeatSteps HeartbeatFacts RequestFacts Server.
From S2P Require Import Proto RequestParser ResponseWriter Jwt TtsService ServiceFacts.

Implicit Types (w : World) (svc : Service).

(** ** Local synthesis *)

(** The message made from the result of a job. *)
Definition job_message (job : LocalSynthJob) (r : LocalTtsResult) : Message :=
  if negb (lr_status_code r =? 0)%Z then
    MsgLocalFailed {|
      lf_request_id := lj_request_id job;
      lf_session_id := "";
      lf_status_code := lr_status_code r;
      lf_status_msg := lr_status_msg r;
    |}
  else
    MsgLocalComplete {|
      lc_request_id := lj_request_id job;
      lc_session_id := "";
      lc_audio := sample_bytes (lr_samples r);
      lc_sample_rate := lr_sample_rate r;
      lc_channels := lr_channels r;
      lc_format := AF.Pcm;
      lc_usage_ms := lr_duration_ms r;
      lc_status_code := lr_status_code r;
      lc_status_msg := lr_status_msg r;
    |}.

Section system.
Context {J : NlohmannJson} (env : Env) (hb : HeartbeatConfig) (net : Net).

(** The result of a job with an engine. *)
Definition job_result (e : ILocalTtsEngine) (job : LocalSynthJob) : Message :=
  job_message job (Synthesize e (lj_text job) (lj_voice_id job) (lj_speed job)).

(** The loop over [cs.local_jobs]. *)
Fixpoint run_jobs (jobs : list LocalSynthJob) (ch : CopyChannel Message)
    : result ChannelClosed (CopyChannel Message) :=
  match jobs with
  | [] => Ok ch
  | job :: jobs =>
      match local_engine_ hb with
      | None => run_jobs jobs ch
      | Some e => ch ← send (job_result e job) ch; run_jobs jobs ch
      end
  end.

(** A round up to its jobs: the tick, and the responses handed to the service. *)
Definition heartbeat_tick {Ord : UMapOrder} w svc
    : result ChannelClosed (ChangeSet * World * Service) :=
  let '(cs, w) := tick env hb w in
  svc ← (if bool_decide (client_writes cs = []) then Ok svc
         else dispatch_to_writers net (client_writes cs) svc);
  Ok (cs, w, svc).

(** One round of the heartbeat thread. *)
Definition heartbeat_iteration {Ord : UMapOrder} w svc
    : result ChannelClosed (ChangeSet * World * Service) :=
  '(cs, w, svc) ← heartbeat_tick w svc;
  ch ← run_jobs (local_jobs cs) (request_channel_ w);
  Ok (cs, w <| request_channel_ := ch |>, svc).

(** ** Executions *)

(** The shared objects, and the jobs the heartbeat thread has still to run before
    its next tick. *)
Record SysState := mkSys { sys_world : World; sys_service : Service;
                           sys_jobs : list LocalSynthJob }.

(** A gRPC handler sends a request; a handler works on the service's tables, in any
    way that keeps them consistent; a bus worker delivers an event; the heartbeat
    thread ticks, or runs one job.  Other threads may come between the jobs. *)
Inductive sys_step : SysState → list ChangeSet → SysState → Prop :=
| sy_request r w svc jobs ch :
    send (MsgRequest r) (request_channel_ w) = Ok ch →
    sys_step (mkSys w svc jobs) [] (mkSys (w <| request_channel_ := ch |>) svc jobs)
| sy_service w svc svc' jobs :
    (svc_wf svc → svc_wf svc') → sys_step (mkSys w svc jobs) [] (mkSys w svc' jobs)
| sy_worker ev b w svc jobs :
    inbox_try_pop (bus_ w) = Some (ev, b) →
    sys_step (mkSys w svc jobs) []
      (mkSys (world_publish_sync ev (w <| bus_ := b |>)) svc jobs)
| sy_tick (Ord : UMapOrder) cs w svc w' svc' :
    heartbeat_tick w svc = Ok (cs, w', svc') →
    sys_step (mkSys w svc []) [cs] (mkSys w' svc' (local_jobs cs))
| sy_job job w svc jobs ch :
    run_jobs [job] (request_channel_ w) = Ok ch →
    sys_step (mkSys w svc (job :: jobs)) [] (mkSys (w <| request_channel_ := ch |>) svc jobs).

Inductive sys_exec : SysState → list ChangeSet → SysState → Prop :=
| sx_nil st : sys_exec st [] st
| sx_snoc st css st1 css' st2 :
    sys_exec st css st1 → sys_step st1 css' st2 → sys_exec st (css ++ css') st2.

(** ** Jobs and their results *)

(** The results sent back for a list of jobs. *)
Definition job_results (jobs : list LocalSynthJob) : list Message :=
  match local_engine_ hb with None => [] | Some e => job_result e <$> jobs end.

Lemma run_jobs_spec jobs ch ch' :
  run_jobs jobs ch = Ok ch' →
  buffer_ ch' = buffer_ ch ++ job_results jobs ∧ closed_ ch' = closed_ ch.
Proof.
  unfold job_results. revert ch. induction jobs as [|job jobs IH]; intros ch; simpl.
  - intros [= <-]. destruct (local_engine_ hb); by rewrite app_nil_r.
  - destruct (local_engine_ hb) as [e|].
    + destruct (send (job_result e job) ch) as [ch1|] eqn:E; simpl; [|done].
      intros H. apply IH in H as [H1 H2]. unfold send in E.
      destruct (closed_ ch) eqn:Ec; [done|]. injection E as <-. simpl in *.
      split; [by rewrite H1, <- app_assoc|congruence].
    + intros H. by apply IH in H.
Qed.

Lemma job_result_local e job : ∃ x, local_write (job_result e job) = Some x.
Proof. unfold job_result, job_message. destruct (negb _); simpl; eauto. Qed.

(** The response to a job: final, with the request's id and the engine's status. *)
Definition job_write (e : ILocalTtsEngine) (job : LocalSynthJob) : WriteToClient :=
  default (local_failed_write (Build_LocalSynthFailedMsg "" "" 0 ""))
    (local_write (job_result e job)).

Lemma omap_local_results e (jobs : list LocalSynthJob) :
  omap local_write (job_result e <$> jobs) = job_write e <$> jobs.
Proof.
  induction jobs as [|job jobs IH]; [done|]. rewrite !fmap_cons, omap_cons_eq.
  unfold job_write at 1. destruct (job_result_local e job) as [x ->]. simpl. by rewrite IH.
Qed.

Lemma job_write_fields e job :
  wc_request_id (job_write e job) = lj_request_id job ∧ wc_is_final (job_write e job) = true ∧
  wc_status_code (job_write e job) =
    lr_status_code (Synthesize e (lj_text job) (lj_voice_id job) (lj_speed job)) ∧
  wc_audio (job_write e job) =
    (let r := Synthesize e (lj_text job) (lj_voice_id job) (lj_speed job) in
     if (lr_status_code r =? 0)%Z then sample_bytes (lr_samples r) else []).
Proof.
  unfold job_write, job_result, job_message. cbv zeta.
  destruct (lr_status_code _ =? 0)%Z; simpl; done.
Qed.

Lemma for_request_jobs e rid (jobs : list LocalSynthJob) :
  for_request rid (job_write e <$> jobs) = job_write e <$> filter (λ j, lj_request_id j = rid) jobs.
Proof.
  unfold for_request. rewrite filter_fmap. f_equal. apply list_filter_iff. intros j.
  by rewrite (proj1 (job_write_fields e j)).
Qed.

Lemma heartbeat_tick_spec (Ord : UMapOrder) w svc :
  svc_wf svc →
  ∃ cs w' svc', heartbeat_tick w svc = Ok (cs, w', svc') ∧ tick env hb w = (cs, w') ∧
    svc_wf svc' ∧
    ∀ rid q, local_queues_ svc !! rid = Some q →
      queued_in q svc' = queued_in q svc ++ for_request rid (client_writes cs).
Proof.
  intros Hwf. unfold heartbeat_tick. destruct (tick env hb w) as [cs w'].
  exists cs, w'. case_bool_decide as Hw.
  - exists svc. split; [done|]. split; [done|]. split; [done|]. intros rid q _.
    by rewrite Hw, app_nil_r.
  - destruct (dispatch_spec net (client_writes cs) svc Hwf) as (s' & -> & W & _ & Q & _).
    by exists s'.
Qed.

Lemma run_job_spec job ch ch' :
  run_jobs [job] ch = Ok ch' →
  buffer_ ch' = buffer_ ch ++ job_results [job] ∧ closed_ ch' = closed_ ch.
Proof. apply run_jobs_spec. Qed.

Lemma run_jobs_total jobs ch : closed_ ch = false → ∃ ch', run_jobs jobs ch = Ok ch'.
Proof.
  revert ch. induction jobs as [|job jobs IH]; intros ch Hc; simpl; [by eexists|].
  destruct (local_engine_ hb) as [e|]; [|by apply IH].
  unfold send. rewrite Hc. simpl. by apply IH.
Qed.

(** An undisturbed round is a tick followed by its jobs. *)
Lemma jobs_exec st css w svc jobs ch ch' :
  sys_exec st css (mkSys (w <| request_channel_ := ch |>) svc jobs) →
  run_jobs jobs ch = Ok ch' →
  sys_exec st css (mkSys (w <| request_channel_ := ch' |>) svc []).
Proof.
  revert ch. induction jobs as [|job jobs IH]; intros ch He Hr; simpl in Hr.
  { by injection Hr as <-. }
  assert (∃ ch1, run_jobs [job] ch = Ok ch1 ∧ run_jobs jobs ch1 = Ok ch') as (ch1 & E1 & E2).
  { simpl. destruct (local_engine_ hb) as [e|]; [|by eexists].
    destruct (send _ ch) as [c1|] eqn:E; [|done]. by exists c1. }
  eapply IH; [|exact E2]. rewrite <- (app_nil_r css). eapply sx_snoc; [exact He|].
  exact (sy_job job (w <| request_channel_ := ch |>) svc jobs ch1 E1).
Qed.

Lemma iteration_exec (Ord : UMapOrder) st css w svc cs w' svc' :
  sys_exec st css (mkSys w svc []) → heartbeat_iteration w svc = Ok (cs, w', svc') →
  sys_exec st (css ++ [cs]) (mkSys w' svc' []).
Proof.
  intros He. unfold heartbeat_iteration.
  destruct (heartbeat_tick w svc) as [[[cs1 w1] svc1]|] eqn:Et; [|done]. cbn [mbind result_bind].
  destruct (run_jobs (local_jobs cs1) (request_channel_ w1)) as [ch|] eqn:Er; [|done].
  intros [= <- <- <-]. eapply jobs_exec; [|exact Er].
  replace (w1 <| request_channel_ := request_channel_ w1 |>) with w1 by (by destruct w1).
  eapply sx_snoc; [exact He|]. by eapply sy_tick.
Qed.

(** Executions of the assembled server are executions of the server, so what holds
    of the latter holds of the former. *)
Lemma sys_exec_server st css st' :
  sys_exec st css st' → svc_wf (sys_service st) →
  svc_wf (sys_service st') ∧ ∃ ms, server_exec env hb (sys_world st) ms css (sys_world st').
Proof.
  intros He Hwf. induction He as [st|st css st1 css' st2 He IH Hs].
  { split; [done|]. exists []. apply se_nil. }
  destruct (IH Hwf) as (Hw1 & ms & Hx). clear IH.
  destruct Hs as [r w svc jobs ch Hch|w svc svc' jobs Hk|ev b w svc jobs Hb
                 |Ord cs w svc w' svc' Ht|job w svc jobs ch Hj]; cbn [sys_service sys_world] in *.
  - split; [done|]. eexists. eapply se_snoc; [exact Hx|]. by apply sv_request.
  - split; [by apply Hk|]. exists ms. by rewrite app_nil_r.
  - split; [done|]. eexists. eapply se_snoc; [exact Hx|]. by apply sv_worker.
  - destruct (heartbeat_tick_spec Ord w svc Hw1) as (cs1 & w1 & s1 & E & Etk & W & _).
    rewrite Ht in E. injection E as <- <- <-. split; [done|].
    eexists. eapply se_snoc; [exact Hx|]. by eapply sv_tick.
  - split; [done|]. simpl in Hj. destruct (local_engine_ hb) as [e|].
    + destruct (send _ _) as [c1|] eqn:E; [|done]. injection Hj as <-.
      eexists. eapply se_snoc; [exact Hx|]. by eapply sv_request.
    + injection Hj as <-. exists ms. rewrite app_nil_r.
      by replace (w <| request_channel_ := request_channel_ w |>) with w by (by destruct w).
Qed.
End system.

(** ** The invariant of the assembled server *)

(** The jobs of the last round. *)
Definition last_jobs (css : list ChangeSet) : list LocalSynthJob :=
  match last css with Some cs => local_jobs cs | None => [] end.

(** Upstream requests ever sent. *)
Definition upstream_sent (css : list ChangeSet) : Z :=
  foldr Z.add 0%Z ((λ cs, Z.of_nat (continues cs)) <$> css).

Definition no_final (p : PendingRequest) : Prop := pr_final_received p = false.

Lemma upstream_sent_snoc css cs :
  upstream_sent (css ++ [cs]) = (upstream_sent css + Z.of_nat (continues cs))%Z.
Proof.
  unfold upstream_sent. rewrite fmap_app, foldr_app. simpl.
  induction ((λ cs, Z.of_nat (continues cs)) <$> css); simpl; lia.
Qed.

Lemma no_final_inv hb : request_inv_if False hb no_final.
Proof. by split. Qed.

Section gauge.
Context {J : NlohmannJson} (env : Env) (hb : HeartbeatConfig) (net : Net).

(** Results waiting in a batch, and work recorded in the change set. *)
Definition results (batch : list Message) : Z := Z.of_nat (length (omap local_write batch)).
Definition work (cs : ChangeSet) : Z :=
  (Z.of_nat (length (local_jobs cs)) + Z.of_nat (continues cs))%Z.

(** What a request does to gauge and change set: nothing, or one unit of work if
    the gauge was below the high watermark. *)
Lemma request_effect req w :
  let w' := handle_request env hb req w in
  (inflight_of w' = inflight_of w ∧ work (changeset_ w') = work (changeset_ w)) ∨
  (inflight_of w < high_watermark_ (backpressure_cfg hb))%Z ∧
  inflight_of w' = u64 (inflight_of w + 1) ∧
  work (changeset_ w') = (work (changeset_ w) + 1)%Z.
Proof.
  cbv zeta. destruct (evaluated_frame hb w) as (_ & _ & H3 & H4 & _).
  destruct (handle_request_cases env hb req w) as [[[Ha _] E]|[_ E]]; rewrite E.
  - destruct (should_use_local hb req).
    + right. split; [done|]. rewrite <- H3, <- H4. generalize (evaluated hb w) as v. intros v.
      unfold handle_request_local, store_get.
      destruct (pending_ (board_ v) !! rq_request_id req); (split; [done|]);
        unfold work, continues; simpl; rewrite length_app; simpl; lia.
    + rewrite <- H3, <- H4. rewrite <- H3 in Ha.
      clear H3 H4 E. generalize dependent (evaluated hb w). intros v Ha.
      rewrite handle_request_upstream_eq.
      destruct (acquire_frame env req v) as (F1 & F2 & _).
      destruct (acquire_or_create_session env req v) as [h v1]. cbn [snd] in F1, F2.
      assert (inflight_of v1 = inflight_of v) as F3 by (unfold inflight_of; by rewrite F1).
      rewrite <- F3, <- F2. rewrite <- F3 in Ha.
      destruct (String.eqb _ _); [left; split; reflexivity|]. right. split; [done|].
      destruct (send_on_spec env h req v1) as [(-> & -> & _) _]. split; [done|].
      unfold work. rewrite continues_add, is_continue_continue. simpl.
      destruct (sh_reused h); [lia|]. rewrite continues_add, is_continue_start. simpl. lia.
  - left. by rewrite <- H3, <- H4.
Qed.

(** Messages of the assembled server. *)
Definition from_main (m : Message) : Prop :=
  (∃ r, m = MsgRequest r) ∨ is_Some (local_write m).

Context (Hhigh : (0 ≤ high_watermark_ (backpressure_cfg hb) < 2 ^ 64)%Z).
Abbreviation high := (high_watermark_ (backpressure_cfg hb)).

(** Requests in flight are results still to be handled, work recorded in this tick
    and upstream requests [U]; there are never more than the high watermark. *)
Definition gauge_ok (U : Z) (rest : list Message) w : Prop :=
  inflight_of w = (results rest + work (changeset_ w) + U)%Z ∧ (0 ≤ U)%Z ∧
  (inflight_of w ≤ high)%Z.

Lemma gauge_message {Ord : UMapOrder} U m rest w :
  from_main m → gauge_ok U (m :: rest) w → gauge_ok U rest (handle_message env hb w m).
Proof.
  intros Hm (Hg & HU & Hh). unfold gauge_ok in *. unfold results in *.
  rewrite omap_cons_eq in Hg.
  assert (0 ≤ work (changeset_ w))%Z as Hw by (unfold work; lia).
  destruct m as [r|r|c|c|f]; simpl handle_message.
  - simpl in Hg. destruct (request_effect r w) as [[H1 H2]|(H1 & H2 & H3)].
    + rewrite H1, H2. split_and!; lia.
    + rewrite H2, H3, u64_small by lia. split_and!; lia.
  - destruct Hm as [[? ?]|[? ?]]; done.
  - destruct Hm as [[? ?]|[? ?]]; done.
  - cbn [local_write] in Hg. cbn [length] in Hg.
    assert (inflight_of (handle_local_complete c w) = u64 (inflight_of w - 1)) as -> by done.
    assert (work (changeset_ (handle_local_complete c w)) = work (changeset_ w)) as -> by done.
    rewrite u64_small by lia. split_and!; lia.
  - cbn [local_write] in Hg. cbn [length] in Hg.
    assert (inflight_of (handle_local_failed f w) = u64 (inflight_of w - 1)) as -> by done.
    assert (work (changeset_ (handle_local_failed f w)) = work (changeset_ w)) as -> by done.
    rewrite u64_small by lia. split_and!; lia.
Qed.

Lemma gauge_messages {Ord : UMapOrder} U batch w :
  Forall from_main batch → gauge_ok U batch w →
  gauge_ok U [] (foldl (handle_message env hb) w batch).
Proof.
  intros HA. revert w. induction HA as [|m l Hm _ IH]; intros w Hg; simpl; [done|].
  by apply IH, gauge_message.
Qed.
End gauge.

Section invariant.
Context {J : NlohmannJson} (env : Env) (hb : HeartbeatConfig) (net : Net).
Context (e : ILocalTtsEngine) (Heng : local_engine_ hb = Some e).
Context (Hhigh : (0 ≤ high_watermark_ (backpressure_cfg hb) < 2 ^ 64)%Z).

Lemma from_main_quiet batch : Forall from_main batch → Forall (λ m, is_response m → False) batch.
Proof. intros H. eapply Forall_impl; [exact H|]. by intros m [[r ->]|[x Hx]] [q ?]; subst. Qed.

(** With messages of the assembled server only, no request completes upstream. *)
Lemma tick_mid_quiet (Ord : UMapOrder) w :
  Forall from_main (tick_batch w) → pend_inv no_final (pending_of w) →
  let w2 := foldl (handle_message env hb) (tick_start env w) (tick_batch w) in
  tick_mid env hb w = w2 ∧ pend_inv no_final (pending_of w2) ∧
  find_ready_to_emit (pending_of w2) = [].
Proof.
  intros HA Hp w2. pose proof (from_main_quiet _ HA) as HQ.
  destruct (tick_start_frame env w) as (Hb & _).
  assert (pend_inv no_final (pending_of w2)) as Hp2.
  { eapply micros_pending; [by eapply steps_messages_if; [apply no_final_inv|]|].
    unfold pending_of. by rewrite Hb. }
  assert (find_ready_to_emit (pending_of w2) = []) as Hready.
  { apply um_collect_nil. intros rid p Hr. apply Hp2 in Hr as [_ Hr].
    unfold ready_to_emit. rewrite Hr. apply andb_false_r. }
  split; [|done]. unfold tick_mid, process_batch. fold w2. unfold pending_of in Hready.
  by rewrite Hready.
Qed.

(** A tick over messages of the assembled server. *)
Lemma tick_quiet (Ord : UMapOrder) w cs w1 :
  Forall from_main (tick_batch w) → tick env hb w = (cs, w1) → changeset_ w = cs_empty →
  pend_inv no_final (pending_of w) →
  client_writes cs = omap local_write (tick_batch w) ∧ pend_inv no_final (pending_of w1) ∧
  (∀ U, gauge_ok hb U (tick_batch w) (tick_start env w) →
        (0 ≤ U)%Z ∧ inflight_of w1 = (work cs + U)%Z ∧
        (inflight_of w1 ≤ high_watermark_ (backpressure_cfg hb))%Z).
Proof.
  intros HA Ht Hcs Hp. destruct (tick_mid_quiet Ord w HA Hp) as (Hmid & Hp2 & Hready).
  set (w2 := foldl (handle_message env hb) (tick_start env w) (tick_batch w)) in *.
  pose proof (tick_writes env hb w cs w1 Ht Hcs) as Hwr. cbv zeta in Hwr. fold w2 in Hwr.
  rewrite Hready, app_nil_r in Hwr. split; [done|].
  pose proof (tick_spec env hb w cs w1 Ht) as Hsp. cbv zeta in Hsp. rewrite Hmid in Hsp.
  destruct (evolve _ _ _) as [closes b] eqn:Ee. apply (f_equal snd) in Ee. cbn [snd] in Ee.
  destruct Hsp as (-> & _ & Hr & Hi & _). split.
  - intros rid p. rewrite Hr, <- Ee, evolve_pending_lookup.
    destruct (pending_ (board_ w2) !! rid) as [q|] eqn:E; simpl; [|done].
    destruct (terminal q); [done|]. intros [= <-]. by apply Hp2 in E.
  - intros U Hg. apply (gauge_messages env hb Hhigh) in Hg as (G1 & G2 & G3); [|done].
    fold w2 in G1, G3. rewrite Hi. split; [done|]. split; [|done].
    rewrite G1, add_closes_spec. unfold results, work, continues. simpl. lia.
Qed.

(** What the buffer of the request channel holds besides requests: the results of
    the jobs of the last tick that the heartbeat thread has already run. *)
Definition sys_inv (css : list ChangeSet) (st : SysState) : Prop :=
  let w := sys_world st in
  svc_wf (sys_service st) ∧
  changeset_ w = cs_empty ∧ closed_ (request_channel_ w) = false ∧
  buffer_ (ws_event_channel_ w) = [] ∧
  Forall from_main (buffer_ (request_channel_ w)) ∧
  omap local_write (buffer_ (request_channel_ w)) ++ (job_write e <$> sys_jobs st) =
    job_write e <$> last_jobs css ∧
  pend_inv no_final (pending_of w) ∧ (0 ≤ upstream_sent css)%Z ∧
  inflight_of w = (Z.of_nat (length (last_jobs css)) + upstream_sent css)%Z ∧
  (inflight_of w ≤ high_watermark_ (backpressure_cfg hb))%Z.

Lemma sys_batch css w svc :
  sys_inv css (mkSys w svc []) →
  Forall from_main (tick_batch w) ∧
  omap local_write (tick_batch w) = job_write e <$> last_jobs css.
Proof.
  intros (_ & _ & _ & Hws & HA & Hb & _). unfold tick_batch. cbn [sys_world sys_jobs] in *.
  rewrite Hws, app_nil_r. split; [done|]. by rewrite app_nil_r in Hb.
Qed.

Lemma sys_gauge css w svc :
  sys_inv css (mkSys w svc []) →
  gauge_ok hb (upstream_sent css) (tick_batch w) (tick_start env w).
Proof.
  intros Hi. destruct (sys_batch css w svc Hi) as [_ Hr].
  destruct Hi as (_ & Hc & _ & _ & _ & _ & _ & HU & Hg & Hh). cbn [sys_world] in *.
  destruct (tick_start_frame env w) as (Hb & Hcs & _).
  unfold gauge_ok, results. unfold inflight_of. rewrite Hb, Hcs, Hr, Hc, length_fmap.
  fold (inflight_of w). split; [|done]. rewrite Hg. unfold work, continues. simpl. lia.
Qed.

Lemma sys_tick_inv (Ord : UMapOrder) css w svc :
  sys_inv css (mkSys w svc []) →
  ∃ cs w' svc', heartbeat_tick env hb net w svc = Ok (cs, w', svc') ∧
    client_writes cs = job_write e <$> last_jobs css ∧
    (∀ rid q, local_queues_ svc !! rid = Some q →
       queued_in q svc' = queued_in q svc ++ for_request rid (client_writes cs)) ∧
    sys_inv (css ++ [cs]) (mkSys w' svc' (local_jobs cs)).
Proof.
  intros Hi. destruct (sys_batch css w svc Hi) as [HA Hr].
  pose proof (sys_gauge css w svc Hi) as Hg.
  destruct Hi as (Hwf & Hc & Hcl & Hws & _ & _ & Hp & HU & _). cbn [sys_world sys_service] in *.
  destruct (heartbeat_tick_spec env hb net Ord w svc Hwf) as (cs & w1 & s1 & E & Ht & W & Q).
  exists cs, w1, s1. split; [done|].
  destruct (tick_quiet Ord w cs w1 HA Ht Hc Hp) as (Hw & Hp1 & Hg1).
  destruct (Hg1 _ Hg) as (_ & G1 & G2).
  destruct (tick_channels env hb w cs w1 Ht) as (Hrc & Hws1 & _).
  pose proof (tick_spec env hb w cs w1 Ht) as Hsp. cbv zeta in Hsp.
  destruct (evolve _ _ _) as [closes b]. destruct Hsp as (_ & _ & _ & _ & Hcs1 & _).
  split; [by rewrite Hw|]. split; [done|].
  assert (last_jobs (css ++ [cs]) = local_jobs cs) as Hl by (unfold last_jobs; by rewrite last_snoc).
  unfold sys_inv. cbn [sys_world sys_service sys_jobs]. rewrite Hl, upstream_sent_snoc, Hrc, Hws1.
  split_and!; try done; [lia|]. rewrite G1. unfold work. lia.
Qed.

Lemma sys_job_inv css job w svc jobs ch :
  sys_inv css (mkSys w svc (job :: jobs)) → run_jobs hb [job] (request_channel_ w) = Ok ch →
  sys_inv css (mkSys (w <| request_channel_ := ch |>) svc jobs).
Proof.
  intros (H1 & H2 & H3 & H4 & H5 & H6 & H7) Hj.
  apply run_job_spec in Hj as [Hb Hc]. unfold job_results in Hb. rewrite Heng in Hb.
  unfold sys_inv. cbn in *. rewrite Hb, Hc. split_and!; try done; try apply H7.
  - apply Forall_app. split; [done|]. apply Forall_singleton. right.
    destruct (job_result_local e job) as [x ->]. by eexists.
  - rewrite omap_app. change [job_result e job] with (job_result e <$> [job]).
    by rewrite omap_local_results, <- app_assoc.
Qed.

Lemma sys_step_inv css st css' st' :
  sys_inv css st → sys_step env hb net st css' st' → sys_inv (css ++ css') st'.
Proof.
  intros IH Hs. destruct Hs as [r w svc jobs ch Hch|w svc svc' jobs Hk|ev b w svc jobs Hb
    |Ord cs w svc w' svc' Ht|job w svc jobs ch Hj]; rewrite ?app_nil_r.
  - destruct IH as (H1 & H2 & H3 & H4 & H5 & H6 & H7). unfold send in Hch. cbn in *.
    rewrite H3 in Hch. injection Hch as <-. unfold sys_inv. cbn.
    split_and!; try done; try apply H7.
    + apply Forall_app. split; [done|]. apply Forall_singleton. left. by eexists.
    + by rewrite omap_app, app_nil_r.
  - destruct IH as (H1 & H2). split; [by apply Hk|done].
  - unfold sys_inv in *. cbn [sys_world sys_service sys_jobs] in *.
    by rewrite publish_sync_inflight.
  - destruct (sys_tick_inv Ord css w svc IH) as (cs1 & w1 & s1 & E & _ & _ & Hi).
    rewrite Ht in E. by injection E as <- <- <-.
  - by eapply sys_job_inv.
Qed.

Lemma sys_exec_inv svc0 css st :
  svc_wf svc0 →
  sys_exec env hb net (mkSys (world_new SystemClock) svc0 []) css st → sys_inv css st.
Proof.
  intros Hwf He. remember (mkSys (world_new SystemClock) svc0 []) as st0 eqn:E0.
  induction He as [st|st css st1 css' st2 He IH Hs]; [|by eapply sys_step_inv; eauto].
  subst st. split_and!; try done; apply Hhigh.
Qed.

(** End to end, every local job is answered exactly once.  In every execution of
    the assembled server, when the heartbeat thread is about to tick, the tick and the
    dispatch complete without an exception, and the responses of the tick are exactly
    the results of the jobs of the tick before, one per job in job order, each
    appended to the queue of its request if one is registered.  Each is final, carries
    the request id of its job, the engine's status, and on success the bytes of the
    samples the engine produced for the job's text, voice and speed. *)
Theorem local_jobs_answered (Ord : UMapOrder) svc0 css w svc :
  svc_wf svc0 →
  sys_exec env hb net (mkSys (world_new SystemClock) svc0 []) css (mkSys w svc []) →
  ∃ cs w' svc', heartbeat_tick env hb net w svc = Ok (cs, w', svc') ∧
  client_writes cs = job_write e <$> last_jobs css ∧
  (∀ rid q, local_queues_ svc !! rid = Some q →
     queued_in q svc' = queued_in q svc ++ for_request rid (job_write e <$> last_jobs css)) ∧
  Forall (λ job,
    let r := Synthesize e (lj_text job) (lj_voice_id job) (lj_speed job) in
    wc_request_id (job_write e job) = lj_request_id job ∧
    wc_is_final (job_write e job) = true ∧
    wc_status_code (job_write e job) = lr_status_code r ∧
    wc_audio (job_write e job) =
      if (lr_status_code r =? 0)%Z then sample_bytes (lr_samples r) else [])
    (last_jobs css).
Proof.
  intros Hwf He. apply sys_exec_inv in He as Hi; [|done].
  destruct (sys_tick_inv Ord css w svc Hi) as (cs & w1 & s1 & E & Hw & Hq & _).
  exists cs, w1, s1. split; [done|]. split; [done|]. split; [by rewrite <- Hw|].
  apply Forall_true. intros job. apply job_write_fields.
Qed.

(** C7: Admission control.  In every execution of the assembled server the in-flight
    gauge never wraps: it is the number of local jobs whose results are not yet
    handled plus the number of upstream requests ever sent, and it never exceeds the
    high watermark.  Upstream requests are therefore never released: they use up the
    admission capacity for good. *)
Theorem gauge_exact svc0 css st :
  svc_wf svc0 →
  sys_exec env hb net (mkSys (world_new SystemClock) svc0 []) css st →
  inflight_of (sys_world st) = (Z.of_nat (length (last_jobs css)) + upstream_sent css)%Z ∧
  (0 ≤ upstream_sent css ≤ inflight_of (sys_world st))%Z ∧
  (inflight_of (sys_world st) ≤ high_watermark_ (backpressure_cfg hb))%Z.
Proof.
  intros Hwf He. apply sys_exec_inv in He as (_ & _ & _ & _ & _ & _ & _ & HU & Hg & Hh); [|done].
  split; [done|]. split; [lia|done].
Qed.

End invariant.

(** ** Instances *)

(** A request is sent, one round runs. *)
Definition it_default (r : result ChannelClosed (ChangeSet * World * Service))
    : ChangeSet * World * Service :=
  match r with Ok x => x | Throw _ => (cs_empty, demo_world, service_new) end.
Definition demo_sent : World :=
  demo_world <| request_channel_ :=
    mkChannel [MsgRequest (demo_request "strm-1" "hello")] false |>.
Definition demo_round1 : ChangeSet * World * Service :=
  it_default (heartbeat_iteration (Ord:=um_default) (J:=demo_json) (demo_env 10) demo_local
    demo_net demo_sent service_new).

Lemma demo_exec1 :
  sys_exec (J:=demo_json) (demo_env 10) demo_local demo_net
    (mkSys (world_new SystemClock) service_new []) [demo_round1.1.1]
    (mkSys demo_round1.1.2 demo_round1.2 []).
Proof.
  apply (iteration_exec (J:=demo_json) _ _ _ um_default _ [] demo_sent service_new).
  - apply (sx_snoc _ _ _ _ [] (mkSys (world_new SystemClock) service_new []) []); [apply sx_nil|].
    by apply (sy_request _ _ _ (demo_request "strm-1" "hello")).
  - vm_compute. reflexivity.
Qed.

Lemma demo_high : (0 ≤ high_watermark_ (backpressure_cfg demo_local) < 2 ^ 64)%Z.
Proof. vm_compute. split; congruence. Qed.

Lemma local_jobs_answered_witness :
  ∃ cs w' svc',
    heartbeat_tick (Ord:=um_default) (J:=demo_json) (demo_env 10) demo_local demo_net
      demo_round1.1.2 demo_round1.2 = Ok (cs, w', svc') ∧
    client_writes cs = job_write demo_engine <$> last_jobs [demo_round1.1.1] ∧
    length (client_writes cs) = 1.
Proof.
  destruct (local_jobs_answered (J:=demo_json) (demo_env 10) demo_local demo_net demo_engine
    eq_refl demo_high um_default service_new [demo_round1.1.1] demo_round1.1.2 demo_round1.2
    service_new_wf demo_exec1) as (cs & w' & svc' & H1 & H2 & _).
  exists cs, w', svc'. split; [exact H1|]. split; [exact H2|]. rewrite H2.
  vm_compute. reflexivity.
Defined.

Lemma gauge_exact_witness :
  inflight_of demo_round1.1.2 =
    (Z.of_nat (length (last_jobs [demo_round1.1.1])) + upstream_sent [demo_round1.1.1])%Z ∧
  inflight_of demo_round1.1.2 = 1%Z.
Proof.
  split; [|vm_compute; reflexivity].
  apply (gauge_exact (J:=demo_json) (demo_env 10) demo_local demo_net demo_engine
    eq_refl demo_high service_new [demo_round1.1.1]
    (mkSys demo_round1.1.2 demo_round1.2 []) service_new_wf demo_exec1).
Defined.

