(* ===== verification/PriorityTimer.v ===== *)
(** * PriorityTimer (src/framework/priority_timer.h)

    The timer queue: entries ordered by deadline, then by scheduling order.
    [std::priority_queue] with [std::greater] is a bag whose [top] is a minimum of
    the order; here the bag is a list in no particular order from which the minimum
    is selected, so nothing depends on the layout of the heap.  The callbacks are
    values of a type [F]. *)

From S2P Require Import Prelude.

Section timer.
Context {F : Type}.

Record TimerEntry := mkEntry {
  te_deadline : TimePoint;
  te_skippable : bool;
  te_fn : F;
  te_seq : Z;
}.

Record PriorityTimer := mkTimer { heap_ : list TimerEntry; next_seq_ : Z }.

Definition timer_new : PriorityTimer := mkTimer [] 0.

Implicit Types (e : TimerEntry) (t : PriorityTimer) (h : list TimerEntry).

(** [TimerEntry::operator>]. *)
Definition entry_gt e e' : bool :=
  if negb (te_deadline e =? te_deadline e')%Z then (te_deadline e' <? te_deadline e)%Z
  else (te_seq e' <? te_seq e)%Z.

(** [schedule_at], and [schedule_in] with the reading [now] of the clock. *)
Definition schedule_at (tp : TimePoint) (skippable : bool) (fn : F) t : PriorityTimer :=
  mkTimer (mkEntry tp skippable fn (next_seq_ t) :: heap_ t) (u64 (next_seq_ t + 1)).

Definition schedule_in (now d : Z) (skippable : bool) (fn : F) t : PriorityTimer :=
  schedule_at (now + d) skippable fn t.

(** [top()] together with what [pop()] leaves. *)
Fixpoint extract_top e h : TimerEntry * list TimerEntry :=
  match h with
  | [] => (e, [])
  | e' :: h => let '(m, r) := if entry_gt e e' then extract_top e' h else extract_top e h in
               (m, (if entry_gt e e' then e else e') :: r)
  end.

Definition heap_top h : option (TimerEntry * list TimerEntry) :=
  match h with [] => None | e :: h => Some (extract_top e h) end.

(** [duration_cast<seconds>(now - deadline) > skip_threshold], for skippable entries. *)
Definition skipped (now skip_threshold : Z) e : bool :=
  te_skippable e && (skip_threshold <? Z.quot (now - te_deadline e) 1000000000)%Z.

(** The loop of [pop_expired]; every round pops one entry, so the size of the heap
    bounds the rounds. *)
Fixpoint pop_loop (fuel : nat) (now skip_threshold : Z) h (out : list TimerEntry)
    : list TimerEntry * list TimerEntry :=
  match fuel with
  | O => (out, h)
  | S fuel =>
      match heap_top h with
      | None => (out, h)
      | Some (e, r) =>
          if (te_deadline e <=? now)%Z then
            if skipped now skip_threshold e then pop_loop fuel now skip_threshold r out
            else pop_loop fuel now skip_threshold r (out ++ [e])
          else (out, h)
      end
  end.

Definition pop_expired (now skip_threshold : Z) t : list TimerEntry * PriorityTimer :=
  let '(out, h) := pop_loop (length (heap_ t)) now skip_threshold (heap_ t) [] in
  (out, mkTimer h (next_seq_ t)).

Definition timer_empty t : bool := bool_decide (heap_ t = []).
Definition timer_size t : nat := length (heap_ t).

(** ** The order *)

(** Not after: the order of firing. *)
Definition entry_le e e' : Prop := entry_gt e e' = false.

#[global] Instance entry_le_dec : RelDecision entry_le.
Proof. intros e e'. unfold entry_le. apply _. Defined.

Lemma entry_le_spec e e' :
  entry_le e e' ↔
  (te_deadline e < te_deadline e')%Z ∨
  te_deadline e = te_deadline e' ∧ (te_seq e ≤ te_seq e')%Z.
Proof.
  unfold entry_le, entry_gt. destruct (Z.eqb_spec (te_deadline e) (te_deadline e')); simpl;
    [rewrite Z.ltb_ge|rewrite Z.ltb_ge]; lia.
Qed.

#[local] Instance entry_le_trans : Transitive entry_le.
Proof. intros a b c. rewrite !entry_le_spec. lia. Qed.

Lemma entry_le_refl e : entry_le e e.
Proof. rewrite entry_le_spec. lia. Qed.

Lemma entry_le_total e e' : entry_gt e e' = true → entry_le e' e.
Proof.
  unfold entry_gt. rewrite entry_le_spec.
  destruct (Z.eqb_spec (te_deadline e) (te_deadline e')); simpl; rewrite Z.ltb_lt; lia.
Qed.

Lemma extract_top_spec e h m r :
  extract_top e h = (m, r) → m :: r ≡ₚ e :: h ∧ Forall (entry_le m) (m :: r).
Proof.
  revert e m r. induction h as [|e' h IH]; intros e m r; cbn [extract_top].
  { intros [= <- <-]. split; [done|]. repeat constructor. apply entry_le_refl. }
  destruct (entry_gt e e') eqn:E.
  - destruct (extract_top e' h) as [m' r'] eqn:Ex. intros [= <- <-].
    destruct (IH _ _ _ Ex) as [Hp Hf]. split; [|].
    + rewrite (Permutation_swap e m' r'), Hp. done.
    + inversion_clear Hf as [|? ? H1 H2]. constructor; [done|]. constructor; [|done].
      trans e'; [|by apply entry_le_total].
      assert (e' ∈ m' :: r') as Hin by (rewrite Hp; left).
      apply elem_of_cons in Hin as [->|Hin]; [done|]. by eapply Forall_forall in H2.
  - destruct (extract_top e h) as [m' r'] eqn:Ex. intros [= <- <-].
    destruct (IH _ _ _ Ex) as [Hp Hf]. split; [|].
    + rewrite (Permutation_swap e' m' r'), Hp. apply Permutation_swap.
    + inversion_clear Hf as [|? ? H1 H2]. constructor; [done|]. constructor; [|done].
      trans e; [|done].
      assert (e ∈ m' :: r') as Hin by (rewrite Hp; left).
      apply elem_of_cons in Hin as [->|Hin]; [done|]. by eapply Forall_forall in H2.
Qed.

Lemma heap_top_spec h :
  match heap_top h with
  | None => h = []
  | Some (m, r) => m :: r ≡ₚ h ∧ Forall (entry_le m) h
  end.
Proof.
  destruct h as [|e h]; [done|]. simpl. destruct (extract_top e h) as [m r] eqn:E.
  apply extract_top_spec in E as [Hp Hf]. split; [done|]. by rewrite <- Hp.
Qed.

(** ** Popping *)

Definition due (now : Z) e : Prop := (te_deadline e ≤ now)%Z.
Definition fires (now thr : Z) e : Prop := due now e ∧ skipped now thr e = false.
Definition drops (now thr : Z) e : Prop := due now e ∧ skipped now thr e = true.
#[global] Instance due_dec now e : Decision (due now e).
Proof. unfold due. apply _. Defined.
#[global] Instance fires_dec now thr e : Decision (fires now thr e).
Proof. unfold fires. apply _. Defined.
#[global] Instance drops_dec now thr e : Decision (drops now thr e).
Proof. unfold drops. apply _. Defined.

Lemma pop_loop_spec fuel now thr h out :
  length h ≤ fuel →
  ∃ l h', pop_loop fuel now thr h out = (out ++ l, h') ∧
    l ≡ₚ filter (fires now thr) h ∧ StronglySorted entry_le l ∧
    h' ≡ₚ filter (λ e, ¬ due now e) h.
Proof.
  revert h out. induction fuel as [|fuel IH]; intros h out Hl.
  { destruct h; [|simpl in Hl; lia]. exists [], []. rewrite app_nil_r. repeat constructor. }
  cbn [pop_loop]. pose proof (heap_top_spec h) as Ht. destruct (heap_top h) as [[m r]|] eqn:Et.
  2:{ subst h. exists [], []. rewrite app_nil_r. repeat constructor. }
  destruct Ht as [Hp Hf]. pose proof (Permutation_length Hp) as Hlen. simpl in Hlen.
  enough (∃ l h', pop_loop (S fuel) now thr h out = (out ++ l, h') ∧
    l ≡ₚ filter (fires now thr) (m :: r) ∧ StronglySorted entry_le l ∧
    h' ≡ₚ filter (λ e, ¬ due now e) (m :: r)) as (l & h' & E & H1 & H2 & H3).
  { exists l, h'. cbn [pop_loop] in E. rewrite Et in E. split; [done|].
    split; [by rewrite H1, Hp|]. split; [done|]. by rewrite H3, Hp. }
  cbn [pop_loop]. rewrite Et. rewrite <- Hp in Hf. inversion_clear Hf as [|? ? _ Hr].
  destruct (Z.leb_spec (te_deadline m) now) as [Hd|Hd].
  - rewrite (filter_cons_False (λ e, ¬ due now e)) by (unfold due; tauto).
    destruct (skipped now thr m) eqn:Es.
    + rewrite filter_cons_False by (unfold fires; rewrite Es; naive_solver). apply IH. lia.
    + rewrite filter_cons_True by done.
      destruct (IH r (out ++ [m]) ltac:(lia)) as (l & h' & E & H1 & H2 & H3).
      exists (m :: l), h'. rewrite E, <- app_assoc. split; [done|]. split; [by rewrite H1|].
      split; [|done]. constructor; [done|]. rewrite H1.
      eapply Forall_forall. intros x [_ Hx]%list_elem_of_filter. by eapply Forall_forall in Hr.
  - assert (∀ x, x ∈ m :: r → ¬ due now x) as Hn.
    { intros x [->|Hx]%elem_of_cons; unfold due; [lia|].
      eapply Forall_forall in Hr; [|exact Hx]. rewrite entry_le_spec in Hr. lia. }
    exists [], h. rewrite app_nil_r. split; [done|]. split; [|split; [constructor|]].
    + rewrite list_filter_none; [done|]. intros x Hx [? _]. by eapply Hn.
    + rewrite list_filter_all; [by rewrite Hp|done].
Qed.
Lemma pop_expired_fates (now thr : Z) t :
  ∃ out t', pop_expired now thr t = (out, t') ∧
  out ≡ₚ filter (fires now thr) (heap_ t) ∧ StronglySorted entry_le out ∧
  heap_ t' ≡ₚ filter (λ e, ¬ due now e) (heap_ t) ∧ next_seq_ t' = next_seq_ t.
Proof.
  unfold pop_expired.
  destruct (pop_loop_spec (length (heap_ t)) now thr (heap_ t) [] (le_n _)) as (l & h' & -> & H).
  eexists _, _. split; [done|]. simpl. naive_solver.
Qed.

(** The three fates of an entry. *)
Lemma fates_split now thr h :
  filter (fires now thr) h ++ filter (drops now thr) h ++ filter (λ e, ¬ due now e) h ≡ₚ h.
Proof.
  induction h as [|e h IH]; [done|].
  destruct (decide (due now e)) as [Hd|Hd]; [destruct (skipped now thr e) eqn:Es|].
  - rewrite filter_cons_False by (unfold fires; rewrite Es; naive_solver).
    rewrite filter_cons_True by done. rewrite filter_cons_False by tauto.
    cbn [app]. rewrite <- Permutation_middle. by constructor.
  - rewrite filter_cons_True by done.
    rewrite (filter_cons_False (drops now thr)) by (unfold drops; rewrite Es; naive_solver).
    rewrite filter_cons_False by tauto. by constructor.
  - rewrite filter_cons_False by (unfold fires; tauto).
    rewrite (filter_cons_False (drops now thr)) by (unfold drops; tauto).
    rewrite filter_cons_True by done.
    rewrite app_assoc, <- Permutation_middle, <- app_assoc. by constructor.
Qed.

(** Popping what is due, for every timer: [pop_expired] returns exactly the due
    entries that are not skipped (a skippable entry late by more than the threshold,
    in whole seconds, is skipped), each once, ordered by deadline and, for equal
    deadlines, by scheduling order; it keeps exactly the entries that are not due;
    returned, skipped and kept entries make up the heap it started from. *)
Theorem pop_expired_spec (now thr : Z) t :
  let '(out, t') := pop_expired now thr t in
  out ≡ₚ filter (fires now thr) (heap_ t) ∧ StronglySorted entry_le out ∧
  heap_ t' ≡ₚ filter (λ e, ¬ due now e) (heap_ t) ∧ next_seq_ t' = next_seq_ t ∧
  out ++ filter (drops now thr) (heap_ t) ++ heap_ t' ≡ₚ heap_ t.
Proof.
  destruct (pop_expired_fates now thr t) as (out & t' & -> & H1 & H2 & H3 & H4).
  split_and!; try done. rewrite H1, H3. apply fates_split.
Qed.

(** ** Histories *)

Inductive TimerOp : Type :=
| OpSchedule (tp : TimePoint) (skippable : bool) (fn : F)
| OpPop (now skip_threshold : Z).

(** Entries scheduled so far, batches returned so far, the timer. *)
Record History := mkHistory {
  scheduled : list TimerEntry; batches : list (list TimerEntry); timer : PriorityTimer }.

Definition timer_exec (x : History) (op : TimerOp) : History :=
  match op with
  | OpSchedule tp sk fn =>
      mkHistory (scheduled x ++ [mkEntry tp sk fn (next_seq_ (timer x))]) (batches x)
        (schedule_at tp sk fn (timer x))
  | OpPop now thr =>
      let '(out, t) := pop_expired now thr (timer x) in
      mkHistory (scheduled x) (batches x ++ [out]) t
  end.

Definition timer_run (ops : list TimerOp) : History :=
  foldl timer_exec (mkHistory [] [] timer_new) ops.

(** Strictly before in firing order. *)
Definition entry_lt e e' : Prop :=
  (te_deadline e < te_deadline e')%Z ∨
  te_deadline e = te_deadline e' ∧ (te_seq e < te_seq e')%Z.

Lemma sorted_strict l :
  StronglySorted entry_le l → NoDup (te_seq <$> l) → StronglySorted entry_lt l.
Proof.
  induction 1 as [|e l Hs IH Hf]; [constructor|].
  rewrite fmap_cons. intros [Hni Hnd]%NoDup_cons. constructor; [by apply IH|].
  rewrite Forall_forall in Hf. apply Forall_forall. intros x Hx.
  specialize (Hf x Hx). rewrite entry_le_spec in Hf. unfold entry_lt.
  assert (te_seq e ≠ te_seq x); [|lia].
  intros E. apply Hni. rewrite E. by apply list_elem_of_fmap_2.
Qed.

(** Sequence numbers are positions in the history; every scheduled entry was
    returned, dropped as too late, or still waits. *)
Definition history_inv (x : History) (dropped : list TimerEntry) : Prop :=
  te_seq <$> scheduled x = Z.of_nat <$> seq 0 (length (scheduled x)) ∧
  next_seq_ (timer x) = u64 (Z.of_nat (length (scheduled x))) ∧
  concat (batches x) ++ dropped ++ heap_ (timer x) ≡ₚ scheduled x ∧
  Forall (λ e, te_skippable e = true) dropped ∧
  Forall (StronglySorted entry_le) (batches x).

Lemma timer_exec_inv x dropped op :
  history_inv x dropped → (Z.of_nat (length (scheduled x)) < 2 ^ 64)%Z →
  ∃ dropped', history_inv (timer_exec x op) dropped'.
Proof.
  intros (H1 & H2 & H3 & H4 & H5) Hlt. destruct op as [tp sk fn|now thr]; simpl.
  - exists dropped. rewrite u64_small in H2 by lia. split_and!; simpl; try done.
    + rewrite fmap_app, length_app, seq_app, fmap_app, H1. simpl. by rewrite H2.
    + rewrite length_app, H2. simpl. f_equal. lia.
    + rewrite <- Permutation_middle, <- Permutation_middle, H3. apply Permutation_cons_append.
  - destruct (pop_expired_fates now thr (timer x)) as (out & t & -> & P1 & P2 & P3 & P4).
    exists (dropped ++ filter (drops now thr) (heap_ (timer x))).
    split_and!; simpl; try done; [by rewrite P4| | |].
    + rewrite <- H3, concat_app. simpl. rewrite app_nil_r, P1, P3, <- !app_assoc.
      apply Permutation_app_head. rewrite <- (fates_split now thr (heap_ (timer x))) at 4.
      by rewrite !(app_assoc _ dropped), (Permutation_app_comm _ dropped), <- !app_assoc.
    + apply Forall_app. split; [done|]. apply Forall_forall.
      intros e [[_ He] _]%list_elem_of_filter. unfold skipped in He.
      by destruct (te_skippable e).
    + apply Forall_app. split; [done|]. by constructor.
Qed.

Lemma timer_exec_length x op :
  length (scheduled (timer_exec x op)) ≤ S (length (scheduled x)).
Proof.
  destruct op; simpl; [rewrite length_app; simpl; lia|].
  destruct (pop_expired _ _ _). simpl. lia.
Qed.

Lemma timer_run_inv ops :
  (Z.of_nat (length ops) ≤ 2 ^ 64)%Z →
  length (scheduled (timer_run ops)) ≤ length ops ∧
  ∃ dropped, history_inv (timer_run ops) dropped.
Proof.
  induction ops as [|op ops IH] using rev_ind; intros Hl.
  { split; [done|]. exists []. repeat constructor. }
  rewrite length_app in Hl. simpl in Hl. destruct IH as (H1 & dropped & H2); [lia|].
  unfold timer_run. rewrite foldl_app. fold (timer_run ops). cbn [foldl]. split.
  - rewrite length_app. simpl. pose proof (timer_exec_length (timer_run ops) op). lia.
  - eapply timer_exec_inv; [exact H2|lia].
Qed.

(** Over every history of fewer than 2^64 operations on a fresh timer, every
    scheduled entry is returned exactly once, dropped once (only if it is
    skippable) or still waits; sequence numbers are scheduling positions, and
    every batch [pop_expired] returned is strictly ordered by deadline, entries with
    equal deadlines by scheduling order. *)
Theorem timer_exactly_once ops :
  (Z.of_nat (length ops) ≤ 2 ^ 64)%Z →
  let x := timer_run ops in
  te_seq <$> scheduled x = Z.of_nat <$> seq 0 (length (scheduled x)) ∧
  (∃ dropped, concat (batches x) ++ dropped ++ heap_ (timer x) ≡ₚ scheduled x ∧
              Forall (λ e, te_skippable e = true) dropped) ∧
  Forall (StronglySorted entry_lt) (batches x).
Proof.
  intros Hl x. destruct (timer_run_inv ops Hl) as (_ & dropped & H1 & _ & H3 & H4 & H5).
  fold x in H1, H3, H5. split; [done|]. split; [by exists dropped|].
  rewrite Forall_forall in H5. apply Forall_forall. intros b Hb.
  apply sorted_strict; [by apply H5|].
  assert (NoDup (te_seq <$> scheduled x)) as Hnd.
  { rewrite H1. apply NoDup_fmap_2; [intros ? ? ?; lia|apply NoDup_seq]. }
  rewrite <- H3, fmap_app in Hnd. apply NoDup_app in Hnd as (Hnd & _).
  apply list_elem_of_split in Hb as (l1 & l2 & E). rewrite E, concat_app in Hnd. simpl in Hnd.
  rewrite !fmap_app in Hnd. apply NoDup_app in Hnd as (_ & _ & Hnd).
  by apply NoDup_app in Hnd as (Hnd & _).
Qed.
End timer.
Arguments TimerEntry F : clear implicits.
Arguments PriorityTimer F : clear implicits.
Arguments TimerOp F : clear implicits.

(** Two entries for the same instant, one for an earlier one, one long overdue. *)
Lemma timer_exactly_once_witness :
  let ops := [OpSchedule (seconds 5) false "a"; OpSchedule (seconds 5) false "b";
              OpSchedule (seconds 3) false "c"; OpSchedule 0 true "late";
              OpPop (seconds 9) 2] in
  Forall (StronglySorted entry_lt) (batches (timer_run ops)) ∧
  map te_fn (concat (batches (timer_run ops))) = ["c"; "a"; "b"].
Proof.
  split; [|vm_compute; reflexivity].
  apply (timer_exactly_once [OpSchedule (seconds 5) false "a"; OpSchedule (seconds 5) false "b";
    OpSchedule (seconds 3) false "c"; OpSchedule 0 true "late"; OpPop (seconds 9) 2]).
  vm_compute. discriminate.
Defined.
