(* ===== verification/Config.v ===== *)
(** * Config (src/config.h, src/config.cpp)

    The settings read from the environment and their validation.  The process
    environment ([std::getenv]), the number of processors
    ([std::thread::hardware_concurrency]) and the file system
    ([std::filesystem::exists]) are inputs. *)

From S2P Require Import Prelude HexCodec Jwt TtsService ServiceFacts.

Local Open Scope string_scope.

(** ** Numbers in the environment *)

Inductive ConfigError : Type :=
| invalid_argument | out_of_range | runtime_error (what : string).

(** [std::stoull]: white space, sign, decimal digits; what follows is ignored; a
    negative number is negated modulo 2^64, as [strtoull] does. *)
Definition stoull (s : string) : result ConfigError Z :=
  let value (neg : bool) (s : string) :=
    match digits_value s with
    | None => Throw invalid_argument
    | Some z => if (2 ^ 64 <=? z)%Z then Throw out_of_range
                else Ok (if neg then u64 (- z) else z)
    end in
  match skip_space s with
  | String c s' =>
      if Ascii.eqb c ch_minus then value true s'
      else if Ascii.eqb c ch_plus then value false s'
      else value false (String c s')
  | "" => Throw invalid_argument
  end.

(** [std::stoi]: [strtol], then the range of [int]. *)
Definition stoi (s : string) : option Z :=
  z ← stoll s; if ((- 2 ^ 31 <=? z) && (z <? 2 ^ 31))%Z then Some z else None.

(** ** The settings *)

Record LocalConfig := mkLocalConfig {
  cl_enabled : bool;
  cl_prefer_local : bool;
  cl_backend : string;
  cl_model_dir : string;
  cl_model_file : string;
  cl_detokenizer_file : string;
  cl_tokenizer_file : string;
  cl_target_sample_rate : Z;
  cl_target_channels : Z;
  cl_num_threads : Z;
  cl_max_decode_steps : Z;
}.
#[global] Instance LocalConfig_eta : Eta LocalConfig := {|
  eta_expand c := mkLocalConfig (cl_enabled c) (cl_prefer_local c) (cl_backend c)
    (cl_model_dir c) (cl_model_file c) (cl_detokenizer_file c) (cl_tokenizer_file c)
    (cl_target_sample_rate c) (cl_target_channels c) (cl_num_threads c)
    (cl_max_decode_steps c) |}.

Definition LocalConfig_default : LocalConfig :=
  mkLocalConfig true true "sherpa" "" "model.onnx" "detokenizer.onnx" "tokens.txt" 16000 1 0 512.

Record Config := mkConfig {
  cf_grpc_bind : string;
  cf_upstream_url : string;
  cf_minimax_api_key : string;
  cf_jwt_public_key_file : string;
  cf_jwt_issuer : string;
  cf_auth_enabled : bool;
  cf_heartbeat_interval : Z;
  cf_pool_idle_timeout : Z;
  cf_pool_max_lifetime : Z;
  cf_pool_max_size : Z;
  cf_cpu_workers : Z;
  cf_io_workers : Z;
  cf_bus_workers : Z;
  cf_local : LocalConfig;
}.
#[global] Instance Config_eta : Eta Config := {|
  eta_expand c := mkConfig (cf_grpc_bind c) (cf_upstream_url c) (cf_minimax_api_key c)
    (cf_jwt_public_key_file c) (cf_jwt_issuer c) (cf_auth_enabled c) (cf_heartbeat_interval c)
    (cf_pool_idle_timeout c) (cf_pool_max_lifetime c) (cf_pool_max_size c)
    (cf_cpu_workers c) (cf_io_workers c) (cf_bus_workers c) (cf_local c) |}.

Definition Config_default : Config :=
  mkConfig "0.0.0.0:50061" "wss://api.minimaxi.com/ws/v1/t2a_v2" "" "" "tts-service" false
    50 60 3600 16 0 0 1 LocalConfig_default.

(** ** Reading the environment *)

Section from_env.
Context (getenv : string → option string) (hardware_concurrency : Z).

Definition env_or (k def : string) : string := default def (getenv k).

Definition env_size (k : string) (def : Z) : Z :=
  match getenv k with
  | None | Some "" => def
  | Some v => match stoull v with Ok z => z | Throw _ => def end
  end.

(** [if (auto v = std::getenv(k)) member = f(std::stoull(v));] *)
Definition env_number (k : string) (f : Z → Config → Config) (c : Config)
    : result ConfigError Config :=
  match getenv k with
  | None => Ok c
  | Some v => z ← stoull v; Ok (f z c)
  end.

(** Arithmetic on [unsigned int]. *)
Definition u32 (z : Z) : Z := (z mod 2 ^ 32)%Z.

Definition from_env : result ConfigError Config :=
  let c := Config_default in
  let c := c <| cf_grpc_bind := env_or "GRPC_BIND" (cf_grpc_bind c) |> in
  let c := c <| cf_upstream_url := env_or "MINIMAX_WS_URL" (cf_upstream_url c) |> in
  let c := c <| cf_minimax_api_key := env_or "MINIMAX_API_KEY" "" |> in
  let pk := env_or "GRPC_JWT_PUBLIC_KEY_FILE" "" in
  let c := if negb (String.eqb pk "") then c <| cf_jwt_public_key_file := pk |> else c in
  let c := c <| cf_jwt_issuer := env_or "GRPC_JWT_ISSUER" (cf_jwt_issuer c) |> in
  let c := c <| cf_auth_enabled := String.eqb (env_or "GRPC_AUTH_ENABLED" "false") "true" |> in
  c ← env_number "TTS_POOL_MAX" (λ z c, c <| cf_pool_max_size := z |>) c;
  c ← env_number "TTS_POOL_IDLE_MS" (λ z c, c <| cf_pool_idle_timeout := i64 (z / 1000) |>) c;
  c ← env_number "TTS_POOL_LIFETIME_S" (λ z c, c <| cf_pool_max_lifetime := i64 z |>) c;
  c ← env_number "TTS_HEARTBEAT_MS" (λ z c, c <| cf_heartbeat_interval := i64 z |>) c;
  let c := c <| cf_cpu_workers :=
    env_size "TTS_CPU_WORKERS" (Z.max 1 (u32 (hardware_concurrency * 3) / 2)) |> in
  let c := c <| cf_io_workers :=
    env_size "TTS_IO_WORKERS" (Z.max 2 (u32 (hardware_concurrency * 2))) |> in
  let c := c <| cf_bus_workers := env_size "TTS_BUS_WORKERS" 1 |> in
  let l := cf_local c in
  let l := l <| cl_enabled := negb (String.eqb (env_or "TTS_LOCAL_ENABLED" "true") "false") |> in
  let l := l <| cl_prefer_local :=
    negb (String.eqb (env_or "TTS_LOCAL_PREFER" "true") "false") |> in
  let l := l <| cl_backend := env_or "TTS_LOCAL_BACKEND" "sherpa" |> in
  let l := match getenv "TTS_LOCAL_MODEL_DIR" with
           | Some v => l <| cl_model_dir := v |> | None => l end in
  let l := match getenv "TTS_LOCAL_NUM_THREADS" with
           | Some v => match stoi v with Some n => l <| cl_num_threads := n |> | None => l end
           | None => l
           end in
  Ok (c <| cf_local := l |>).
End from_env.

(** ** Validation *)

Definition validate (file_exists : string → bool) (c : Config) : result ConfigError unit :=
  let l := cf_local c in
  _ ← (if cf_auth_enabled c then
         if String.eqb (cf_jwt_public_key_file c) "" then
           Throw (runtime_error
             "GRPC_JWT_PUBLIC_KEY_FILE is empty (required when GRPC_AUTH_ENABLED=true)")
         else if negb (file_exists (cf_jwt_public_key_file c)) then
           Throw (runtime_error "GRPC_JWT_PUBLIC_KEY_FILE does not exist")
         else Ok tt
       else Ok tt);
  _ ← (if (cf_pool_max_size c =? 0)%Z then Throw (runtime_error "TTS_POOL_MAX must be > 0")
       else Ok tt);
  _ ← (if cl_enabled l && String.eqb (cl_backend l) "sherpa" then
         if String.eqb (cl_model_dir l) "" then
           Throw (runtime_error
             "TTS_LOCAL_MODEL_DIR is empty (required when local is enabled)")
         else if negb (file_exists (cl_model_dir l)) then
           Throw (runtime_error ("TTS_LOCAL_MODEL_DIR does not exist: " +:+ cl_model_dir l))
         else Ok tt
       else Ok tt);
  if negb (cl_enabled l) then
    if String.eqb (cf_minimax_api_key c) "" then
      Throw (runtime_error "MINIMAX_API_KEY is empty (required when local is disabled)")
    else Ok tt
  else Ok tt.

(** ** Properties *)

Lemma decimal_loop_head fuel z out :
  ∃ d s, (0 ≤ d < 10)%Z ∧ decimal_loop (S fuel) z out = String (to_char (48 + d)) s.
Proof.
  revert z out. induction fuel as [|fuel IH]; intros z out; rewrite decimal_loop_S.
  - destruct (z <? 10)%Z; simpl; eexists (z mod 10)%Z, _;
      (split; [by apply Z.mod_pos_bound|done]).
  - destruct (z <? 10)%Z; [|apply IH]. eexists (z mod 10)%Z, _.
    split; [by apply Z.mod_pos_bound|done].
Qed.

Lemma digit_plain d :
  (0 ≤ d < 10)%Z →
  is_space (to_char (48 + d)) = false ∧ Ascii.eqb (to_char (48 + d)) ch_minus = false ∧
  Ascii.eqb (to_char (48 + d)) ch_plus = false.
Proof.
  intros Hz. assert (∃ n, d = Z.of_nat n ∧ n < 10) as (n & -> & Hn) by (exists (Z.to_nat d); lia).
  clear Hz. do 10 (destruct n as [|n]; [done|]). lia.
Qed.

(** Printing a number and reading it back. *)
Lemma stoull_to_string z : (0 ≤ z < 2 ^ 64)%Z → stoull (to_string_u64 z) = Ok z.
Proof.
  intros Hz. pose proof (to_string_u64_value z Hz) as Hv. unfold to_string_u64 in *.
  destruct (decimal_loop_head 19 z "") as (d & s & Hd & E). rewrite E in *.
  destruct (digit_plain d Hd) as (H1 & H2 & H3). unfold stoull. cbn [skip_space].
  rewrite H1, H2, H3. cbn [digits_value digits_loop] in *. rewrite digit_of_to_char in * by done.
  cbn [mbind option_bind]. replace (10 * 0 + d)%Z with d in Hv by lia. rewrite Hv.
  by rewrite (proj2 (Z.leb_gt (2 ^ 64) z)) by lia.
Qed.

Section env.
Context (getenv : string → option string) (hw : Z).

(** A variable that is unset or holds a number. *)
Definition readable (k : string) : Prop :=
  match getenv k with None => True | Some v => is_ok (stoull v) = true end.

Lemma env_number_cases k f c :
  (readable k ∧ ∃ c', env_number getenv k f c = Ok c' ∧
     c' = match getenv k with
          | Some v => match stoull v with Ok z => f z c | Throw _ => c end
          | None => c
          end) ∨
  (¬ readable k ∧ ∃ e, env_number getenv k f c = Throw e).
Proof.
  unfold readable, env_number. destruct (getenv k) as [v|]; [|left; eauto].
  destruct (stoull v) as [z|e]; simpl; [left|right]; eauto.
Qed.

(** Which environments are rejected.  [from_env] throws exactly when one of the four
    numeric settings TTS_POOL_MAX, TTS_POOL_IDLE_MS, TTS_POOL_LIFETIME_S and
    TTS_HEARTBEAT_MS is set to a text that does not start with a 64-bit number; the
    worker counts and the thread count fall back to their defaults instead. *)
Theorem from_env_throws :
  is_ok (from_env getenv hw) = true ↔
  Forall readable ["TTS_POOL_MAX"; "TTS_POOL_IDLE_MS"; "TTS_POOL_LIFETIME_S";
                   "TTS_HEARTBEAT_MS"].
Proof.
  unfold from_env. rewrite !Forall_cons, Forall_nil.
  repeat match goal with
  | |- context [env_number ?g ?k ?f ?c] =>
      destruct (env_number_cases k f c) as [(? & ? & -> & _)|(? & ? & ->)];
      cbn [mbind result_bind is_ok]; try tauto
  end; split; try done; tauto.
Qed.

(** Numbers in the environment are read back as written, for all 64-bit values: the
    pool size as it is, the idle timeout in whole seconds, the lifetime and the
    heartbeat period as signed 64-bit counts. *)
Theorem config_reads_numbers (pool idle life beat : Z) :
  (0 ≤ pool < 2 ^ 64)%Z → (0 ≤ idle < 2 ^ 64)%Z → (0 ≤ life < 2 ^ 64)%Z →
  (0 ≤ beat < 2 ^ 64)%Z →
  getenv "TTS_POOL_MAX" = Some (to_string_u64 pool) →
  getenv "TTS_POOL_IDLE_MS" = Some (to_string_u64 idle) →
  getenv "TTS_POOL_LIFETIME_S" = Some (to_string_u64 life) →
  getenv "TTS_HEARTBEAT_MS" = Some (to_string_u64 beat) →
  ∃ c, from_env getenv hw = Ok c ∧ cf_pool_max_size c = pool ∧
    cf_pool_idle_timeout c = (idle / 1000)%Z ∧ cf_pool_max_lifetime c = i64 life ∧
    cf_heartbeat_interval c = i64 beat.
Proof.
  intros Hp Hi Hl Hb E1 E2 E3 E4. unfold from_env, env_number at 1 2 3 4.
  rewrite E1, E2, E3, E4, !stoull_to_string by done. cbn [mbind result_bind].
  eexists. split; [done|]. cbn. split; [done|]. split; [|done].
  apply i64_small. split; [|apply Z.div_lt_upper_bound; lia].
  pose proof (Z.div_pos idle 1000). lia.
Qed.
End env.

(** What a validated configuration guarantees, and that validation refuses nothing
    else: with authentication a key file that exists, a non-empty pool, with the
    sherpa backend a model directory that exists, and without the local backend an
    API key. *)
Theorem validate_spec (file_exists : string → bool) (c : Config) :
  validate file_exists c = Ok tt ↔
  (cf_auth_enabled c = true →
     cf_jwt_public_key_file c ≠ "" ∧ file_exists (cf_jwt_public_key_file c) = true) ∧
  cf_pool_max_size c ≠ 0%Z ∧
  (cl_enabled (cf_local c) = true → cl_backend (cf_local c) = "sherpa" →
     cl_model_dir (cf_local c) ≠ "" ∧ file_exists (cl_model_dir (cf_local c)) = true) ∧
  (cl_enabled (cf_local c) = false → cf_minimax_api_key c ≠ "").
Proof.
  unfold validate.
  destruct (cf_auth_enabled c), (cl_enabled (cf_local c)),
    (Z.eqb_spec (cf_pool_max_size c) 0), (String.eqb_spec (cf_jwt_public_key_file c) ""),
    (String.eqb_spec (cl_backend (cf_local c)) "sherpa"),
    (String.eqb_spec (cl_model_dir (cf_local c)) ""),
    (String.eqb_spec (cf_minimax_api_key c) ""),
    (file_exists (cf_jwt_public_key_file c)), (file_exists (cl_model_dir (cf_local c)));
    simpl; naive_solver.
Qed.

Lemma config_reads_numbers_witness :
  let env k := if String.eqb k "TTS_HEARTBEAT_MS" then Some "20"
               else if String.eqb k "TTS_POOL_MAX" then Some "8"
               else if String.eqb k "TTS_POOL_IDLE_MS" then Some "2500"
               else if String.eqb k "TTS_POOL_LIFETIME_S" then Some "900" else None in
  ∃ c, from_env env 4 = Ok c ∧ cf_pool_max_size c = 8%Z ∧ cf_pool_idle_timeout c = 2%Z ∧
    cf_pool_max_lifetime c = 900%Z ∧ cf_heartbeat_interval c = 20%Z.
Proof.
  intros env. apply (config_reads_numbers env 4 8 2500 900 20);
    try (split; [discriminate|reflexivity]); vm_compute; reflexivity.
Defined.
