(* ===== verification/Ieee.v ===== *)
(** * IEEE 754 arithmetic and conversions

    [double] is binary64 of [SpecFloat], rounded to nearest even.  The operations
    the sources use beside the four arithmetic ones: conversion from [float] and from
    integers, [fmod] (exact), [floor], [ceil], truncation and [lrint].  Converting a
    value that does not fit the integer type is undefined in C++; the result is an
    input of the functions that need it. *)

From Stdlib Require Import SpecFloat.
From S2P Require Import Prelude Metrics.

Local Open Scope Z_scope.

Definition f64_add : spec_float → spec_float → spec_float := SFadd 53 1024.
Definition f64_sub : spec_float → spec_float → spec_float := SFsub 53 1024.
Definition f64_div : spec_float → spec_float → spec_float := SFdiv 53 1024.

(** Signed mantissa. *)
Definition signed (s : bool) (m : positive) : Z := if s then Zneg m else Zpos m.

(** [static_cast<double>(x)] of a [float]: exact. *)
Definition f64_of_f32 (x : spec_float) : spec_float :=
  match x with
  | S754_finite s m e => binary_normalize 53 1024 (signed s m) e s
  | _ => x
  end.

(** [std::fmod]: the exact remainder with the sign of [x]. *)
Definition f64_fmod (x y : spec_float) : spec_float :=
  match x, y with
  | S754_nan, _ | _, S754_nan => S754_nan
  | S754_infinity _, _ | _, S754_zero _ => S754_nan
  | S754_zero _, _ | _, S754_infinity _ => x
  | S754_finite sx mx ex, S754_finite _ my ey =>
      let e := Z.min ex ey in
      let r := (Zpos mx * 2 ^ (ex - e)) mod (Zpos my * 2 ^ (ey - e)) in
      binary_normalize 53 1024 (if sx then - r else r) e sx
  end.

(** Rounding to an integer: toward zero, and to nearest even ([lrint]). *)
Definition f64_truncate (x : spec_float) : option Z :=
  match x with
  | S754_zero _ => Some 0
  | S754_finite s m e =>
      Some (let a := if 0 <=? e then Zpos m * 2 ^ e else Zpos m / 2 ^ (- e) in
            if s then - a else a)
  | _ => None
  end.

(** [std::floor] and [std::ceil]; their results are exact. *)
Definition f64_floor (x : spec_float) : option Z :=
  match x with
  | S754_zero _ => Some 0
  | S754_finite s m e =>
      Some (if 0 <=? e then signed s m * 2 ^ e else signed s m / 2 ^ (- e))
  | _ => None
  end.
Definition f64_ceil (x : spec_float) : option Z :=
  match x with
  | S754_zero _ => Some 0
  | S754_finite s m e =>
      Some (if 0 <=? e then signed s m * 2 ^ e else - (- signed s m / 2 ^ (- e)))
  | _ => None
  end.

Definition round_half_even (m d : Z) : Z :=
  let q := m / d in
  let r := m mod d in
  if 2 * r <? d then q else if d <? 2 * r then q + 1 else if Z.even q then q else q + 1.

Definition f64_lrint (x : spec_float) : option Z :=
  match x with
  | S754_zero _ => Some 0
  | S754_finite s m e =>
      Some (let a := if 0 <=? e then Zpos m * 2 ^ e else round_half_even (Zpos m) (2 ^ (- e)) in
            if s then - a else a)
  | _ => None
  end.

(** A conversion to an integer type with the given range; [undef] is what an
    undefined conversion happens to yield. *)
Definition cast (lo hi : Z) (undef : Z) (v : option Z) : Z :=
  match v with
  | Some z => if (lo <=? z) && (z <? hi) then z else lo + undef mod (hi - lo)
  | None => lo + undef mod (hi - lo)
  end.
Definition cast_size : Z → option Z → Z := cast 0 (2 ^ 64).
Definition cast_int : Z → option Z → Z := cast (- 2 ^ 31) (2 ^ 31).
Definition cast_long : Z → option Z → Z := cast (- 2 ^ 63) (2 ^ 63).

(** [static_cast<std::int16_t>] of an integer. *)
Definition i16 (z : Z) : Z := (z + 2 ^ 15) mod 2 ^ 16 - 2 ^ 15.

Lemma i16_range z : - 2 ^ 15 ≤ i16 z < 2 ^ 15.
Proof. unfold i16. pose proof (Z.mod_pos_bound (z + 2 ^ 15) (2 ^ 16)). lia. Qed.

Lemma i16_small z : - 2 ^ 15 ≤ z < 2 ^ 15 → i16 z = z.
Proof. intros. unfold i16. rewrite Z.mod_small; lia. Qed.

Lemma cast_range lo hi undef v : lo < hi → lo ≤ cast lo hi undef v < hi.
Proof.
  intros H. pose proof (Z.mod_pos_bound undef (hi - lo)). destruct v as [z|]; simpl; [|lia].
  destruct (Z.leb_spec lo z), (Z.ltb_spec z hi); simpl; lia.
Qed.
