(* ===== verification/MockEngine.v ===== *)
(** * MockLocalTts and the engine factory
      (src/local/mock_local_tts.cpp, src/local/local_tts_factory.cpp)

    The engine that produces tones instead of speech, and the function that chooses
    the engine of the server.  The values of [std::exp] and [std::sin] are inputs, as
    are the results of conversions that C++ leaves undefined; [char] is signed. *)

From Stdlib Require Import SpecFloat.
From S2P Require Import Prelude Messages HexCodec Metrics LocalEngine Ieee.

(** ** Literals *)

Definition d_0_1 : spec_float := S754_finite false 7205759403792794 (-56).
Definition d_0_25 : spec_float := S754_finite false 4503599627370496 (-54).
Definition d_0_45 : spec_float := S754_finite false 8106479329266893 (-54).
Definition d_0_5 : spec_float := S754_finite false 4503599627370496 (-53).
Definition d_pi : spec_float := S754_finite false 7074237752028440 (-51).
Definition d (z : Z) : spec_float := f64_of_Z z.

(** [std::max] and the comparison operators on [double]. *)
Definition f64_max (a b : spec_float) : spec_float := if SFltb a b then b else a.

(** The C library. *)
Record Libm := mkLibm {
  libm_exp : spec_float → spec_float;
  libm_sin : spec_float → spec_float;
  undefined : spec_float → Z;
}.

Section mock.
Context (libm : Libm).

(** The constructor. *)
Definition mock_new (cfg : LocalTtsConfig) : LocalTtsConfig :=
  let cfg := if (le_target_sample_rate cfg <=? 0)%Z
             then cfg <| le_target_sample_rate := 16000%Z |> else cfg in
  if (le_target_channels cfg <=? 0)%Z then cfg <| le_target_channels := 1%Z |> else cfg.

(** Duration in seconds before and after the speed is applied. *)
Definition base_duration (text : string) : spec_float :=
  if String.eqb text "" then d_0_5
  else f64_max d_0_1 (f64_div (d (Z.of_nat (String.length text))) (d 16)).

Definition actual_duration (text : string) (speed : spec_float) : spec_float :=
  let speed := if SFleb speed f32_zero then f32_one else speed in
  f64_div (base_duration text) (f64_of_f32 speed).

(** The number of samples: at least a quarter of a second, at most 30 seconds. *)
Definition mock_total (sample_rate : Z) (duration : spec_float) : Z :=
  let x := f64_mul duration (d sample_rate) in
  let total := cast_size (undefined libm x) (f64_truncate x) in
  let total := if (total <? u64 (Z.quot sample_rate 4))%Z
               then u64 (Z.quot sample_rate 4) else total in
  if (u64 (i32 (sample_rate * 30)) <? total)%Z then u64 (i32 (sample_rate * 30)) else total.

(** [static_cast<double>(c)] for a signed and an unsigned character. *)
Definition signed_char (c : Ascii.ascii) : Z :=
  let v := char_code c in if (v <? 128)%Z then v else (v - 256)%Z.

Fixpoint add_chars (value : Ascii.ascii → Z) (s : string) (acc : spec_float) : spec_float :=
  match s with
  | "" => acc
  | String c s => add_chars value s (f64_add acc (d (value c)))
  end.

Definition base_freq (text voice_id : string) : spec_float :=
  let voice_offset := add_chars signed_char voice_id (S754_zero false) in
  let voice_offset := add_chars char_code text voice_offset in
  f64_add (d 180) (f64_fmod voice_offset (d 240)).

(** The i-th sample. *)
Definition mock_sample (sample_rate : Z) (freq : spec_float) (i : Z) : Z :=
  let t := f64_div (d i) (d sample_rate) in
  let env := libm_exp libm (f64_mul (d (-2)) (f64_fmod t d_0_25)) in
  let phase := f64_mul (f64_mul (f64_mul (d 2) d_pi) freq) t in
  let s := f64_mul (f64_mul d_0_45 env) (libm_sin libm phase) in
  let s := if SFltb (d 1) s then d 1 else s in
  let s := if SFltb s (d (-1)) then d (-1) else s in
  let x := f64_mul s (d 32767) in
  i16 (cast_long (undefined libm x) (f64_lrint x)).

(** [MockLocalTts::Synthesize]. *)
Definition mock_synthesize (cfg : LocalTtsConfig) (text voice_id : string) (speed : spec_float)
    : LocalTtsResult :=
  let rate := le_target_sample_rate cfg in
  let duration := actual_duration text speed in
  let total := mock_total rate duration in
  let freq := base_freq text voice_id in
  let ms := f64_mul duration (d 1000) in
  {| lr_samples := mock_sample rate freq ∘ Z.of_nat <$> seq 0 (Z.to_nat total);
     lr_sample_rate := rate;
     lr_channels := le_target_channels cfg;
     lr_duration_ms := cast_int (undefined libm ms) (f64_truncate ms);
     lr_usage_ms := 0;
     lr_status_code := 0;
     lr_status_msg := "ok_mock" |}.

(** ** The factory *)

Definition CreateMockLocalTts (cfg : LocalTtsConfig) : ILocalTtsEngine :=
  mkEngine true (mock_synthesize (mock_new cfg)).

(** [sherpa] is the engine around the inference library, present when the server is
    built with it. *)
Context (sherpa : option (LocalTtsConfig → ILocalTtsEngine)).

Definition CreateOnnxLocalTts (cfg : LocalTtsConfig) : option ILocalTtsEngine :=
  make ← sherpa; Some (make cfg).

Definition CreateLocalTts (cfg : LocalTtsConfig) : ILocalTtsEngine :=
  match le_backend cfg with
  | Mock => CreateMockLocalTts cfg
  | Onnx =>
      match CreateOnnxLocalTts cfg with
      | Some e => if IsReady e then e
                  else CreateMockLocalTts (cfg <| le_backend := Mock |>)
      | None => CreateMockLocalTts (cfg <| le_backend := Mock |>)
      end
  end.

(** ** Properties *)

Lemma factory_ready cfg : IsReady (CreateLocalTts cfg) = true.
Proof.
  unfold CreateLocalTts. destruct (le_backend cfg); [|done].
  destruct (CreateOnnxLocalTts cfg) as [e|]; [|done]. by destruct (IsReady e) eqn:E.
Qed.

Lemma mock_total_bounds rate duration :
  (0 < rate ≤ 71582788)%Z → (rate / 4 ≤ mock_total rate duration ≤ rate * 30)%Z.
Proof.
  intros Hr. unfold mock_total. rewrite Z.quot_div_nonneg by lia.
  pose proof (Z.div_pos rate 4). pose proof (Z.div_le_upper_bound rate 4 rate).
  rewrite (u64_small (rate / 4)), i32_small, u64_small by lia.
  repeat match goal with
  | |- context [(?a <? ?b)%Z] => destruct (Z.ltb_spec a b)
  end; lia.
Qed.

(** The mock engine, whatever the C library and the undefined conversions yield:
    every synthesis succeeds, at the configured rate (16000 if it was not positive)
    and channel count, with between a quarter of a second and thirty seconds of
    16-bit samples, for every text, voice and speed. *)
Theorem mock_synthesize_spec cfg text voice_id speed :
  (le_target_sample_rate cfg ≤ 71582788)%Z →
  let r := Synthesize (CreateMockLocalTts cfg) text voice_id speed in
  let rate := lr_sample_rate r in
  lr_status_code r = 0%Z ∧ (0 < rate)%Z ∧ (0 < lr_channels r)%Z ∧
  (0 < le_target_sample_rate cfg → rate = le_target_sample_rate cfg)%Z ∧
  (rate / 4 ≤ Z.of_nat (length (lr_samples r)) ≤ rate * 30)%Z ∧
  Forall (λ z, - 2 ^ 15 ≤ z < 2 ^ 15)%Z (lr_samples r).
Proof.
  intros Hr. cbn.
  assert (0 < le_target_sample_rate (mock_new cfg) ≤ 71582788 ∧
    0 < le_target_channels (mock_new cfg) ∧
    (0 < le_target_sample_rate cfg →
     le_target_sample_rate (mock_new cfg) = le_target_sample_rate cfg))%Z as (H1 & H2 & H3).
  { unfold mock_new. destruct (Z.leb_spec (le_target_sample_rate cfg) 0);
      case_match; simpl in *; rewrite ?Z.leb_le, ?Z.leb_gt in *; lia. }
  pose proof (mock_total_bounds (le_target_sample_rate (mock_new cfg))
    (actual_duration text speed) H1) as Hb.
  rewrite length_fmap, length_seq. pose proof (Z.div_pos (le_target_sample_rate (mock_new cfg)) 4).
  split_and!; try done; try lia.
  apply Forall_fmap, Forall_true. intros i. apply i16_range.
Qed.
End mock.

(** The duration the mock engine reports is computed before the number of samples is
    limited, so it is not the duration of the audio: a one-letter text is reported
    as 100 ms and comes with 4000 samples at 16 kHz, 250 ms. *)
Lemma mock_duration_disagrees (libm : Libm) :
  let r := Synthesize (CreateMockLocalTts libm LocalTtsConfig_default) "a" "" f32_one in
  lr_sample_rate r = 16000%Z ∧ lr_duration_ms r = 100%Z ∧ length (lr_samples r) = 4000.
Proof.
  cbn [Synthesize CreateMockLocalTts mock_synthesize lr_samples lr_duration_ms lr_sample_rate].
  rewrite length_fmap, length_seq. split_and!; vm_compute; reflexivity.
Qed.

Lemma mock_synthesize_spec_witness :
  let r := Synthesize (CreateMockLocalTts (mkLibm id id (λ _, 0%Z)) LocalTtsConfig_default)
             "hello" "" f32_one in
  lr_status_code r = 0%Z ∧ (4000 ≤ Z.of_nat (length (lr_samples r)) ≤ 480000)%Z.
Proof.
  destruct (mock_synthesize_spec (mkLibm id id (λ _, 0%Z)) LocalTtsConfig_default "hello" ""
    f32_one) as (H1 & _ & _ & _ & H2 & _).
  - vm_compute. discriminate.
  - split; [exact H1|exact H2].
Defined.
