(* ===== verification/Mediator.v ===== *)
(** * MediatorTtsServiceImpl (src/entry/mediator_tts_service_impl.h)

    The unary synthesis of the gateway protocol: the local engine is called
    directly, without the heartbeat. *)

From Stdlib Require Import SpecFloat.
From S2P Require Import Prelude Messages LocalEngine Ieee MockEngine Proto.

Local Open Scope string_scope.

(** [Synth]: the status, and the [pcm] field of the response when it was set. *)
Definition Synth (engine : option ILocalTtsEngine) (request : PbMediatorRequest)
    : Status * option (list Byte.byte) :=
  match engine with
  | None => (mkStatus UNAVAILABLE "local tts engine not ready", None)
  | Some e =>
      if negb (IsReady e) then (mkStatus UNAVAILABLE "local tts engine not ready", None)
      else
        let r := Synthesize e (pt_text request) "" f32_one in
        if negb (lr_status_code r =? 0)%Z then
          (mkStatus INTERNAL ("synthesis failed: " +:+ lr_status_msg r), None)
        else (Status_OK, Some (sample_bytes (lr_samples r)))
  end.

(** C40: The gateway's view of [Synth].  With a ready engine whose samples are 16-bit, a
    call succeeds iff the engine does, and then the bytes of the response, read as
    little-endian 16-bit numbers, are exactly the engine's samples for the text (two
    bytes each); otherwise the status is INTERNAL with the engine's message, and
    without a ready engine UNAVAILABLE, and there is no audio. *)
Theorem synth_roundtrip (engine : option ILocalTtsEngine) (request : PbMediatorRequest) :
  (∀ e, engine = Some e →
     Forall (λ z, - 2 ^ 15 ≤ z < 2 ^ 15)%Z
       (lr_samples (Synthesize e (pt_text request) "" f32_one))) →
  match engine with
  | Some e =>
      let r := Synthesize e (pt_text request) "" f32_one in
      if negb (IsReady e) then (Synth engine request).1.(st_code) = UNAVAILABLE ∧
                               (Synth engine request).2 = None
      else if decide (lr_status_code r = 0%Z) then
        ∃ pcm, Synth engine request = (Status_OK, Some pcm) ∧
          samples_of_bytes pcm = lr_samples r ∧ length pcm = 2 * length (lr_samples r)
      else Synth engine request =
             (mkStatus INTERNAL ("synthesis failed: " +:+ lr_status_msg r), None)
  | None => (Synth engine request).1.(st_code) = UNAVAILABLE ∧ (Synth engine request).2 = None
  end.
Proof.
  intros Hs. destruct engine as [e|]; [|done]. specialize (Hs e eq_refl). simpl.
  destruct (IsReady e); [|done]. simpl.
  destruct (Z.eqb_spec (lr_status_code (Synthesize e (pt_text request) "" f32_one)) 0);
    case_decide; try done.
  eexists. split; [done|]. split; [by apply samples_of_sample_bytes|apply length_sample_bytes].
Qed.

Lemma synth_roundtrip_witness :
  let e := mkEngine true (λ _ _ _, mkResult [5; -7; 32767]%Z 16000 1 1 0 0 "ok") in
  ∃ pcm, Synth (Some e) (mkPbMediator "hi" "s" 2) = (Status_OK, Some pcm) ∧
    samples_of_bytes pcm = [5; -7; 32767]%Z ∧ length pcm = 6.
Proof.
  intros e. apply (synth_roundtrip (Some e) (mkPbMediator "hi" "s" 2)).
  intros e' [= <-]. repeat constructor; vm_compute; congruence.
Defined.
