(* ===== verification/Startup.v ===== *)
(** * Start-up (src/main.cpp, first half)

    From the environment to the objects the server runs with, or an exit code.  The
    environment, the file system, the key loader and the success of starting the
    gRPC server are inputs. *)

From Stdlib Require Import SpecFloat.
From S2P Require Import Prelude Messages ChangeSet CopyChannel HexCodec Metrics DataBoard.
From S2P Require Import LocalEngine Ieee MockEngine WsFrameCodec Backpressure World Heartbeat.
From S2P Require Import Proto RequestParser Jwt TtsService Config Mediator.

(** The engine configuration copied from the settings. *)
Definition local_tts_config (cfg : Config) : LocalTtsConfig :=
  let l := cf_local cfg in
  LocalTtsConfig_default
    <| le_enabled := cl_enabled l |>
    <| le_model_dir := cl_model_dir l |>
    <| le_model_file := cl_model_file l |>
    <| le_tokenizer_file := cl_tokenizer_file l |>
    <| le_detokenizer_file := cl_detokenizer_file l |>
    <| le_target_sample_rate := cl_target_sample_rate l |>
    <| le_target_channels := cl_target_channels l |>
    <| le_num_threads := cl_num_threads l |>
    <| le_max_decode_steps := cl_max_decode_steps l |>
    <| le_backend := if String.eqb (cl_backend l) "mock" then Mock else Onnx |>.

(** [JwtVerifier::from_rsa256_public_key_file]: a verifier around the key, if the
    key can be read. *)
Definition from_rsa256_public_key_file (load_public_key_pem : string → option OpenSsl)
    (path : string) : option OpenSsl := load_public_key_pem path.

Inductive Startup : Type :=
| Exit (code : Z)
| Running (cfg : Config) (hb : HeartbeatConfig) (jwt : option OpenSsl).

Section startup.
Context (libm : Libm) (sherpa : option (LocalTtsConfig → ILocalTtsEngine)).
Context (getenv : string → option string) (hw : Z) (file_exists : string → bool).
Context (load_public_key_pem : string → option OpenSsl) (grpc_starts : Config → bool).

Definition startup : Startup :=
  match (cfg ← from_env getenv hw; _ ← validate file_exists cfg; Ok cfg) with
  | Throw _ => Exit 1
  | Ok cfg =>
      let engine := CreateLocalTts libm sherpa (local_tts_config cfg) in
      let hb := mkHeartbeatConfig (Some engine) (cl_prefer_local (cf_local cfg))
                  backpressure_default in
      let finish jwt := if negb (grpc_starts cfg) then Exit 3 else Running cfg hb jwt in
      if cf_auth_enabled cfg then
        match from_rsa256_public_key_file load_public_key_pem (cf_jwt_public_key_file cfg) with
        | None => Exit 2
        | Some ssl => finish (Some ssl)
        end
      else finish None
  end.

(** The verifier of the service at a time of the system clock. *)
Definition verifier (jwt : option OpenSsl) (now : Z) : option (string → string → JwtResult) :=
  ssl ← jwt; Some (verify (Ssl:=ssl) now).

Lemma startup_running cfg hb jwt :
  startup = Running cfg hb jwt →
  from_env getenv hw = Ok cfg ∧ validate file_exists cfg = Ok tt ∧
  hb = mkHeartbeatConfig (Some (CreateLocalTts libm sherpa (local_tts_config cfg)))
         (cl_prefer_local (cf_local cfg)) backpressure_default ∧
  jwt = (if cf_auth_enabled cfg then load_public_key_pem (cf_jwt_public_key_file cfg) else None) ∧
  (cf_auth_enabled cfg = true → is_Some jwt).
Proof.
  unfold startup, from_rsa256_public_key_file.
  destruct (from_env getenv hw) as [c|] eqn:E; [|done]. cbn [mbind result_bind].
  destruct (validate file_exists c) as [[]|] eqn:V; [|done]. cbn [mbind result_bind].
  destruct (cf_auth_enabled c) eqn:A.
  - destruct (load_public_key_pem _) as [ssl|] eqn:L; [|done].
    destruct (negb _); [done|]. intros [= <- <- <-]. rewrite A. split_and!; eauto.
  - destruct (negb _); [done|]. intros [= <- <- <-]. rewrite A. split_and!; try done.
Qed.
End startup.

(** ** Authentication *)

Lemma substring_all (s : string) : String.substring 0 (String.length s) s = s.
Proof. induction s as [|c s IH]; [done|]. simpl. by rewrite IH. Qed.

Lemma prefix_append (p v : string) :
  String.prefix p v = true → ∃ t, v = p +:+ t.
Proof.
  revert v. induction p as [|c p IH]; intros v H; [by exists v|].
  destruct v as [|c' v]; [done|]. cbn in H. destruct (Ascii.ascii_dec c c') as [<-|]; [|done].
  destruct (IH v H) as (t & ->). by exists t.
Qed.

Lemma bearer_token (token : string) :
  String.prefix "Bearer " ("Bearer " +:+ token) = true ∧
  String.substring 7 (String.length ("Bearer " +:+ token) - 7) ("Bearer " +:+ token) = token.
Proof. split; [by destruct token|]. cbn. rewrite Nat.sub_0_r. apply substring_all. Qed.

(** A caller is authorised when the header carries an acceptable token. *)
Definition authorised (ssl : OpenSsl) (now : Z) (authorization : option string) : Prop :=
  ∃ token, authorization = Some ("Bearer " +:+ token) ∧
           token_ok (Ssl:=ssl) now token "tts-service".

Lemma check_auth_spec ssl now authorization :
  check_auth (verifier (Some ssl) now) authorization = true ↔ authorised ssl now authorization.
Proof.
  unfold check_auth, verifier, authorised. cbn [mbind option_bind].
  destruct authorization as [v|]; [|naive_solver].
  destruct (String.prefix "Bearer " v) eqn:Ep; cbn [negb].
  - apply prefix_append in Ep as (t & ->). destruct (bearer_token t) as [_ ->].
    rewrite bool_decide_eq_true, verify_ok_iff. split; [by eauto|].
    intros (t' & [= E] & Hok). by rewrite E.
  - split; [done|]. intros (t & Ev & _). apply (inj Some) in Ev. subst v.
    rewrite (proj1 (bearer_token t)) in Ep. done.
Qed.

Section started.
Context (libm : Libm) (sherpa : option (LocalTtsConfig → ILocalTtsEngine)).
Context (getenv : string → option string) (hw : Z) (file_exists : string → bool).
Context (load_public_key_pem : string → option OpenSsl) (grpc_starts : Config → bool).
Abbreviation start :=
  (startup libm sherpa getenv hw file_exists load_public_key_pem grpc_starts).

(** C12: Authentication is enforced.  A server that starts with GRPC_AUTH_ENABLED=true
    has loaded the configured key, and then on every call of the three methods of
    the TTS service: without the header "Bearer <token>" with a token acceptable to
    that key at that time, the method returns UNAUTHENTICATED, sends nothing to the
    heartbeat, registers no writer and reveals no metrics; with it, the check passes. *)
Theorem auth_enforced cfg hb jwt (now : Z) authorization :
  start = Running cfg hb jwt → cf_auth_enabled cfg = true →
  ∃ ssl, load_public_key_pem (cf_jwt_public_key_file cfg) = Some ssl ∧ jwt = Some ssl ∧
  (authorised ssl now authorization → check_auth (verifier jwt now) authorization = true) ∧
  (¬ authorised ssl now authorization →
   ∀ request chunks stream ch svc board,
     (∃ svc', stream_enter (verifier jwt now) authorization request stream ch svc =
                (PcDone unauth, ch, svc') ∧ writers_ svc' = writers_ svc) ∧
     (∃ svc', SynthesizeClient (verifier jwt now) authorization stream chunks ch svc =
                Ok (unauth, ch, svc') ∧ writers_ svc' = writers_ svc) ∧
     GetMetrics (verifier jwt now) authorization board = (unauth, None)).
Proof.
  intros Hs Ha. apply startup_running in Hs as (_ & _ & _ & Hj & Hk).
  rewrite Ha in Hj. destruct (Hk Ha) as [ssl ->]. exists ssl.
  split; [done|]. split; [done|]. rewrite <- check_auth_spec. split; [done|].
  intros Hn%not_true_is_false request chunks stream ch svc board.
  unfold stream_enter, SynthesizeClient, GetMetrics. rewrite Hn. simpl. eauto 10.
Qed.

(** C39: Which backend serves a request.  Every server that starts has a ready local
    engine, also with TTS_LOCAL_ENABLED=false (the tone generator stands in), so a
    request goes upstream only if it asks for it, or leaves the choice open while
    TTS_LOCAL_PREFER=false; the gateway's [Synth] never answers UNAVAILABLE. *)
Theorem startup_routing cfg hb jwt :
  startup libm sherpa getenv hw file_exists load_public_key_pem grpc_starts = Running cfg hb jwt →
  (∀ req, should_use_local hb req =
     match rq_backend req with
     | BK.Upstream => false
     | BK.Local => true
     | BK.Auto => cl_prefer_local (cf_local cfg)
     end) ∧
  (∀ request, st_code (Synth (local_engine_ hb) request).1 ≠ UNAVAILABLE).
Proof.
  intros Hs. apply startup_running in Hs as (_ & _ & -> & _).
  pose proof (factory_ready libm sherpa (local_tts_config cfg)) as Hr. split.
  - intros req. unfold should_use_local. cbn [local_engine_ prefer_local_]. by rewrite Hr.
  - intros request. unfold Synth. cbn [local_engine_]. rewrite Hr. simpl. by destruct (negb _).
Qed.

(** When the server exits instead of serving: 1 if the environment is unreadable or
    invalid, 2 if authentication is on and the key cannot be loaded, 3 if the gRPC
    server does not start; in this order, and never otherwise. *)
Theorem startup_exits :
  match start with
  | Exit code =>
      code = 1%Z ∧ (∀ cfg, from_env getenv hw = Ok cfg → validate file_exists cfg ≠ Ok tt) ∨
      ∃ cfg, from_env getenv hw = Ok cfg ∧ validate file_exists cfg = Ok tt ∧
        (code = 2%Z ∧ cf_auth_enabled cfg = true ∧
           load_public_key_pem (cf_jwt_public_key_file cfg) = None ∨
         code = 3%Z ∧ grpc_starts cfg = false)
  | Running cfg _ _ =>
      from_env getenv hw = Ok cfg ∧ validate file_exists cfg = Ok tt ∧ grpc_starts cfg = true
  end.
Proof.
  unfold startup, from_rsa256_public_key_file.
  destruct (from_env getenv hw) as [c|]; [|by left]. cbn [mbind result_bind].
  destruct (validate file_exists c) as [[]|] eqn:V; [|left; split; congruence].
  cbn [mbind result_bind].
  destruct (cf_auth_enabled c) eqn:A, (load_public_key_pem (cf_jwt_public_key_file c)) eqn:L,
    (grpc_starts c) eqn:G; simpl; naive_solver.
Qed.
End started.

(** ** Instances *)

Definition demo_libm : Libm := mkLibm (λ x, x) (λ x, x) (λ _, 0%Z).
Definition demo_ssl : OpenSsl := {| bio_base64 := Some; rsa_sha256 := λ _ _, false |}.

(** Authentication on, local backend off, an API key. *)
Definition demo_getenv (k : string) : option string :=
  if String.eqb k "GRPC_AUTH_ENABLED" then Some "true"
  else if String.eqb k "GRPC_JWT_PUBLIC_KEY_FILE" then Some "k.pem"
  else if String.eqb k "TTS_LOCAL_ENABLED" then Some "false"
  else if String.eqb k "MINIMAX_API_KEY" then Some "key" else None.
Definition demo_config : Config :=
  match from_env demo_getenv 4 with Ok c => c | Throw _ => Config_default end.
Definition demo_hb : HeartbeatConfig :=
  mkHeartbeatConfig (Some (CreateLocalTts demo_libm None (local_tts_config demo_config))) true
    backpressure_default.

Lemma demo_started :
  startup demo_libm None demo_getenv 4 (λ _, true) (λ _, Some demo_ssl) (λ _, true) =
  Running demo_config demo_hb (Some demo_ssl).
Proof.
  unfold startup, from_rsa256_public_key_file.
  assert (from_env demo_getenv 4 = Ok demo_config) as -> by (vm_compute; reflexivity).
  cbn [mbind result_bind].
  assert (validate (λ _, true) demo_config = Ok tt) as -> by (vm_compute; reflexivity).
  cbn [mbind result_bind].
  assert (cf_auth_enabled demo_config = true) as -> by (vm_compute; reflexivity).
  assert (cl_prefer_local (cf_local demo_config) = true) as -> by (vm_compute; reflexivity).
  done.
Qed.

Lemma demo_auth : cf_auth_enabled demo_config = true.
Proof. vm_compute. reflexivity. Qed.

Lemma auth_enforced_witness :
  ∃ ssl, Some demo_ssl = Some ssl ∧
    (¬ authorised ssl 0 None →
     GetMetrics (verifier (Some demo_ssl) 0) None board_new = (unauth, None)).
Proof.
  destruct (auth_enforced demo_libm None demo_getenv 4 (λ _, true) (λ _, Some demo_ssl)
    (λ _, true) demo_config demo_hb (Some demo_ssl) 0 None demo_started demo_auth)
    as (ssl & _ & E & _ & H).
  exists ssl. split; [exact E|]. intros Hn.
  apply (H Hn PbSynthesizeRequest_default [] 0 channel_new service_new board_new).
Defined.

Lemma startup_routing_witness :
  should_use_local demo_hb (TtsRequestMsg_default) = true ∧
  cl_enabled (cf_local demo_config) = false.
Proof.
  split; [|vm_compute; reflexivity].
  rewrite (proj1 (startup_routing demo_libm None demo_getenv 4 (λ _, true) (λ _, Some demo_ssl)
    (λ _, true) demo_config demo_hb (Some demo_ssl) demo_started) TtsRequestMsg_default).
  vm_compute. reflexivity.
Defined.
