(* ===== verification/OpenSslCalls.v ===== *)
(** * The OpenSSL and file handles of the JWT verifier (src/entry/jwt_auth_interceptor.cpp)

    [Jwt] takes base64 decoding and signature verification as functions.  Here the code
    around them is modelled call by call: contexts, BIO chains, the key file and the
    key are handles, made and released by the calls; using a handle that is not live,
    or a null one where the library needs an object, has no result.  The outcomes of the
    library's work are parameters ([OpenSslApi]).  The theorems show that the calls
    implement the functions [Jwt] takes, that no handle is misused and none leaks. *)

From S2P Require Import Prelude HexCodec Jwt Startup.

(** ** The library *)

(** [K]: the contents of a key.  [ctx_alloc] and [bio_alloc] say which allocations
    succeed; [base64_read] is what [BIO_read] delivers through the base64 filter ([None]:
    a negative count); the others are the return codes of the calls, and what [fopen]
    and [PEM_read_PUBKEY] find. *)
Class OpenSslApi (K : Type) := {
  ctx_alloc : nat → bool;
  bio_alloc : nat → bool;
  digest_init : K → Z;
  digest_update : K → string → Z;
  digest_final : K → string → string → Z;
  base64_read : string → option string;
  fopen_ok : string → bool;
  pem_read : string → option K;
}.

Inductive Resource (K : Type) : Type :=
| RCtx (key : option K) (data : string)       (* [EVP_MD_CTX], once initialised with its key *)
| RFilter (next : option nat)                 (* the base64 BIO and the BIO behind it *)
| RMem (s : string)                           (* a memory BIO *)
| RFile (path : string)
| RKey (k : K).
Arguments RCtx {K} key data.
Arguments RFilter {K} next.
Arguments RMem {K} s.
Arguments RFile {K} path.
Arguments RKey {K} k.

Section calls.
Context {K : Type} {Api : OpenSslApi K}.

(** Live handles, and the number of handles made so far. *)
Record Handles := mkHandles { hs_live : gmap nat (Resource K); hs_next : nat }.
Implicit Types (hs : Handles) (h : nat).

(** A computation on the handles; [None]: a handle was misused. *)
Definition Calls (A : Type) : Type := Handles → option (A * Handles).
#[global] Instance calls_ret : MRet Calls := λ A a hs, Some (a, hs).
#[global] Instance calls_bind : MBind Calls := λ A B f m hs,
  match m hs with Some (a, hs) => f a hs | None => None end.

(** A new handle. *)
Definition make (r : Resource K) : Calls nat := λ hs,
  Some (hs_next hs, mkHandles (<[hs_next hs := r]> (hs_live hs)) (S (hs_next hs))).
Definition get h : Calls (Resource K) := λ hs, r ← hs_live hs !! h; Some (r, hs).
Definition put h (r : Resource K) : Calls () := λ hs,
  _ ← hs_live hs !! h; Some (tt, mkHandles (<[h := r]> (hs_live hs)) (hs_next hs)).
Definition release h : Calls () := λ hs,
  _ ← hs_live hs !! h; Some (tt, mkHandles (delete h (hs_live hs)) (hs_next hs)).
Definition misuse {A} : Calls A := λ _, None.
Definition made : Calls nat := λ hs, Some (hs_next hs, hs).

Definition EVP_MD_CTX_new : Calls (option nat) :=
  n ← made; if ctx_alloc n then h ← make (RCtx None ""); mret (Some h) else mret None.

Definition EVP_DigestVerifyInit (ctx pkey : nat) : Calls Z :=
  r ← get ctx; k ← get pkey;
  match r, k with
  | RCtx None _, RKey k => _ ← put ctx (RCtx (Some k) ""); mret (digest_init k)
  | _, _ => misuse
  end.

Definition EVP_DigestVerifyUpdate (ctx : nat) (data : string) : Calls Z :=
  r ← get ctx;
  match r with
  | RCtx (Some k) d => _ ← put ctx (RCtx (Some k) (d +:+ data)); mret (digest_update k data)
  | _ => misuse
  end.

Definition EVP_DigestVerifyFinal (ctx : nat) (sig : string) : Calls Z :=
  r ← get ctx;
  match r with RCtx (Some k) d => mret (digest_final k d sig) | _ => misuse end.

Definition EVP_MD_CTX_free (ctx : nat) : Calls () :=
  r ← get ctx; match r with RCtx _ _ => release ctx | _ => misuse end.

Definition BIO_new_base64 : Calls (option nat) :=
  n ← made; if bio_alloc n then h ← make (RFilter None); mret (Some h) else mret None.

Definition BIO_set_flags (b : option nat) : Calls () :=
  match b with Some h => _ ← get h; mret tt | None => misuse end.

Definition BIO_new_mem_buf (s : string) : Calls (option nat) :=
  n ← made; if bio_alloc n then h ← make (RMem s); mret (Some h) else mret None.

(** [BIO_push(b, next)] returns [b], or [next] when [b] is null. *)
Definition BIO_push (b next : option nat) : Calls (option nat) :=
  match b with
  | None => mret next
  | Some h => _ ← put h (RFilter next); mret (Some h)
  end.

(** Reading through the filter; with nothing behind it there is nothing to read. *)
Definition BIO_read (b : option nat) : Calls (option string) :=
  match b with
  | None => misuse
  | Some h =>
      r ← get h;
      match r with
      | RFilter (Some m) =>
          r ← get m; match r with RMem s => mret (base64_read s) | _ => misuse end
      | RFilter None => mret (Some "")
      | _ => misuse
      end
  end.

Definition BIO_free_all (b : option nat) : Calls () :=
  match b with
  | None => mret tt
  | Some h =>
      r ← get h;
      match r with
      | RFilter (Some m) => _ ← release h; release m
      | RFilter None | RMem _ => release h
      | _ => misuse
      end
  end.

Definition fopen (path : string) : Calls (option nat) :=
  if fopen_ok path then h ← make (RFile path); mret (Some h) else mret None.

Definition PEM_read_PUBKEY (fp : nat) : Calls (option nat) :=
  r ← get fp;
  match r with
  | RFile path => match pem_read path with
                  | Some k => h ← make (RKey k); mret (Some h)
                  | None => mret None
                  end
  | _ => misuse
  end.

Definition fclose (fp : nat) : Calls () :=
  r ← get fp; match r with RFile _ => release fp | _ => misuse end.

Definition EVP_PKEY_free (pkey : nat) : Calls () :=
  r ← get pkey; match r with RKey _ => release pkey | _ => misuse end.

(** ** The code *)

Definition verify_rsa_sha256 (pkey : nat) (signed_data signature : string) : Calls bool :=
  ctx ← EVP_MD_CTX_new;
  match ctx with
  | None => mret false
  | Some ctx =>
      rc ← EVP_DigestVerifyInit ctx pkey;
      ok ← (if (rc =? 1)%Z then
              rc ← EVP_DigestVerifyUpdate ctx signed_data;
              if (rc =? 1)%Z then
                rc ← EVP_DigestVerifyFinal ctx signature; mret (rc =? 1)%Z
              else mret false
            else mret false);
      _ ← EVP_MD_CTX_free ctx;
      mret ok
  end.

(** The part of [base64url_decode] after the padding; [None] is the exception. *)
Definition decode_calls (s : string) : Calls (option string) :=
  let input := base64url_input s in
  b64 ← BIO_new_base64;
  _ ← BIO_set_flags b64;
  mem ← BIO_new_mem_buf input;
  mem ← BIO_push b64 mem;
  out ← BIO_read mem;
  _ ← BIO_free_all mem;
  mret out.

Definition load_public_key_pem (path : string) : Calls (option nat) :=
  fp ← fopen path;
  match fp with
  | None => mret None
  | Some fp => pkey ← PEM_read_PUBKEY fp; _ ← fclose fp; mret pkey
  end.

(** [from_rsa256_public_key_file]: the verifier is the key it owns. *)
Definition from_rsa256_public_key_file (path : string) : Calls (option nat) :=
  pkey ← load_public_key_pem path;
  match pkey with None => mret None | Some pkey => mret (Some pkey) end.

(** [~Rsa256Verifier]. *)
Definition verifier_destroy (pkey_ : option nat) : Calls () :=
  match pkey_ with Some pkey => EVP_PKEY_free pkey | None => mret tt end.

(** [Rsa256Verifier::verify], after the signature. *)
Definition verify_claims (header_json payload_json : string) (now : Z) (required_issuer : string)
    : JwtResult :=
  if bool_decide (String.index 0 (quoted "alg" +:+ ":" +:+ quoted "RS256") header_json = None)
  then InvalidSignature
  else if expired payload_json now then Expired
  else if negb (String.eqb required_issuer "") &&
          negb (constant_time_eq (find_value payload_json "iss") required_issuer)
  then IssuerMismatch
  else JwtOk.

(** [Rsa256Verifier::verify]; the payload is decoded only if the header could be. *)
Definition verify_calls (pkey : nat) (now : Z) (token required_issuer : string) : Calls JwtResult :=
  if String.eqb token "" then mret MissingHeader
  else match split_dot token with
  | [h; p; s] =>
      header_json ← decode_calls h;
      match header_json with
      | None => mret Malformed
      | Some header_json =>
          payload_json ← decode_calls p;
          match payload_json with
          | None => mret Malformed
          | Some payload_json =>
              sig_bytes ← decode_calls s;
              match sig_bytes with
              | None => mret Malformed
              | Some sig_bytes =>
                  ok ← verify_rsa_sha256 pkey (h +:+ "." +:+ p) sig_bytes;
                  if negb ok then mret InvalidSignature
                  else mret (verify_claims header_json payload_json now required_issuer)
              end
          end
      end
  | _ => mret Malformed
  end.
(** ** Specification *)

(** The functions [Jwt] takes, for a key. *)
Definition signature_ok (k : K) (data sig : string) : bool :=
  (digest_init k =? 1)%Z && (digest_update k data =? 1)%Z && (digest_final k data sig =? 1)%Z.
Definition ssl_of (k : K) : OpenSsl := {| bio_base64 := base64_read; rsa_sha256 := signature_ok k |}.

(** The key loader [Startup] takes. *)
Definition load_ssl (path : string) : option OpenSsl :=
  if fopen_ok path then ssl_of <$> pem_read path else None.

(** Handles not yet made are not live. *)
Definition handles_wf hs : Prop := ∀ h, hs_next hs ≤ h → hs_live hs !! h = None.

(** [m] returns [a] and leaves the live handles as they were. *)
Definition balanced {A} (m : Calls A) hs (a : A) : Prop :=
  ∃ n, m hs = Some (a, mkHandles (hs_live hs) n) ∧ hs_next hs ≤ n.

Lemma balanced_ret {A} (a : A) hs : balanced (mret a) hs a.
Proof. exists (hs_next hs). by destruct hs. Qed.

Lemma balanced_bind {A B} (m : Calls A) (f : A → Calls B) hs a c :
  handles_wf hs → balanced m hs a →
  (∀ hs', hs_live hs' = hs_live hs → handles_wf hs' → balanced (f a) hs' c) →
  balanced (m ≫= f) hs c.
Proof.
  intros Hwf (n & E & Hn) Hf. set (hs' := mkHandles (hs_live hs) n).
  destruct (Hf hs') as (n' & E' & Hn'); [done| |].
  { intros h Hh. apply Hwf. cbn in Hh. lia. }
  exists n'. unfold mbind, calls_bind. rewrite E. split; [exact E'|]. cbn in Hn'. lia.
Qed.

(** Lookups in the handles after a step. *)
Ltac handles := unfold mbind, calls_bind, mret, calls_ret, get, put, release, make, made; cbn;
  repeat first [ rewrite lookup_insert_eq | rewrite lookup_delete_eq
               | rewrite lookup_insert_ne by lia | rewrite lookup_delete_ne by lia
               | rewrite insert_insert_eq | progress cbn ].

Lemma verify_rsa_sha256_spec pkey k data sig hs :
  handles_wf hs → hs_live hs !! pkey = Some (RKey k) →
  balanced (verify_rsa_sha256 pkey data sig) hs
    (ctx_alloc (hs_next hs) && signature_ok k data sig).
Proof.
  intros Hwf Hk. assert (pkey ≠ hs_next hs) as Hne by (intros ->; rewrite Hwf in Hk by lia; done).
  unfold verify_rsa_sha256, EVP_MD_CTX_new, EVP_DigestVerifyInit, EVP_DigestVerifyUpdate,
    EVP_DigestVerifyFinal, EVP_MD_CTX_free, signature_ok, balanced.
  pose proof (Hwf (hs_next hs) (le_n _)) as Hf. destruct hs as [live n]. cbn in *. handles.
  destruct (ctx_alloc n); [|by exists n].
  exists (S n). split; [|lia]. cbn. handles. rewrite Hk. handles.
  destruct (digest_init k =? 1)%Z; handles; [|by rewrite delete_insert_id].
  destruct (digest_update k data =? 1)%Z; handles; by rewrite delete_insert_id.
Qed.
Hypothesis bio_allocates : ∀ n, bio_alloc n = true.

Lemma decode_calls_spec s hs :
  handles_wf hs →
  decode_calls s hs =
    Some (base64_read (base64url_input s), mkHandles (hs_live hs) (S (S (hs_next hs)))).
Proof.
  intros Hwf. pose proof (Hwf (hs_next hs) (le_n _)) as H1.
  pose proof (Hwf (S (hs_next hs)) (le_S _ _ (le_n _))) as H2.
  unfold decode_calls. generalize (base64url_input s) as input. intros input.
  unfold BIO_new_base64, BIO_set_flags, BIO_new_mem_buf, BIO_push, BIO_read, BIO_free_all.
  destruct hs as [live n]. cbn in *. handles. rewrite !bio_allocates. handles.
  rewrite !bio_allocates. handles.
  rewrite delete_insert_eq, delete_insert_ne, (delete_insert_id live) by (lia || done).
  by rewrite delete_insert_id.
Qed.

(** Continuing after a decoding. *)
Lemma balanced_decode {B} s (f : option string → Calls B) hs (P : B → Prop) :
  handles_wf hs →
  (∀ hs', hs_live hs' = hs_live hs → handles_wf hs' →
     ∃ r, balanced (f (base64_read (base64url_input s))) hs' r ∧ P r) →
  ∃ r, balanced (decode_calls s ≫= f) hs r ∧ P r.
Proof.
  intros Hwf Hf. set (hs' := mkHandles (hs_live hs) (S (S (hs_next hs)))).
  destruct (Hf hs') as (r & (n & E & Hn) & HP); [done|intros h Hh; apply Hwf; cbn in Hh; lia|].
  exists r. split; [|done]. exists n. unfold mbind, calls_bind.
  rewrite decode_calls_spec by done. split; [exact E|]. cbn in Hn. lia.
Qed.

(** The outcome of one verification: that of [Jwt], or a refusal for want of memory. *)
Definition outcome (k : K) (now : Z) (token issuer : string) (r : JwtResult) : Prop :=
  r = verify (Ssl:=ssl_of k) now token issuer ∨
  (r = InvalidSignature ∧ ∃ n, ctx_alloc n = false).

Lemma verify_calls_spec pkey k now token issuer hs :
  handles_wf hs → hs_live hs !! pkey = Some (RKey k) →
  ∃ r, balanced (verify_calls pkey now token issuer) hs r ∧ outcome k now token issuer r.
Proof.
  intros Hwf Hk. unfold verify_calls, outcome, verify, base64url_decode.
  destruct (String.eqb token ""); [eauto using balanced_ret|].
  destruct (split_dot token) as [|h [|p [|s [|? ?]]]]; eauto using balanced_ret.
  cbn [bio_base64 rsa_sha256 ssl_of].
  apply balanced_decode; [done|]. intros hs1 E1 W1.
  destruct (base64_read (base64url_input h)) as [hj|]; [|eauto using balanced_ret].
  apply balanced_decode; [done|]. intros hs2 E2 W2.
  destruct (base64_read (base64url_input p)) as [pj|]; [|eauto using balanced_ret].
  apply balanced_decode; [done|]. intros hs3 E3 W3.
  destruct (base64_read (base64url_input s)) as [sg|]; [|eauto using balanced_ret].
  assert (hs_live hs3 !! pkey = Some (RKey k)) as Hk3 by by rewrite E3, E2, E1.
  pose proof (verify_rsa_sha256_spec pkey k (h +:+ "." +:+ p) sg hs3 W3 Hk3) as Hv.
  eexists. split.
  - eapply balanced_bind; [done|exact Hv|]. intros hs4 _ _.
    instantiate (1 := if negb (ctx_alloc (hs_next hs3) && signature_ok k (h +:+ "." +:+ p) sg)
                      then InvalidSignature else verify_claims hj pj now issuer).
    destruct (_ && _); apply balanced_ret.
  - unfold verify_claims. destruct (ctx_alloc (hs_next hs3)) eqn:Ea; cbn [andb]; [by left|].
    right. eauto.
Qed.

(** ** The life of a verifier *)

Fixpoint verify_all (pkey : nat) (tokens : list (Z * string * string)) : Calls (list JwtResult) :=
  match tokens with
  | [] => mret []
  | (now, token, issuer) :: tokens =>
      r ← verify_calls pkey now token issuer; rs ← verify_all pkey tokens; mret (r :: rs)
  end.

(** Load the key, verify tokens, destroy the verifier. *)
Definition verifier_life (path : string) (tokens : list (Z * string * string))
    : Calls (option (list JwtResult)) :=
  v ← from_rsa256_public_key_file path;
  match v with
  | None => mret None
  | Some pkey => rs ← verify_all pkey tokens; _ ← verifier_destroy (Some pkey); mret (Some rs)
  end.

Lemma verify_all_spec pkey k tokens hs :
  handles_wf hs → hs_live hs !! pkey = Some (RKey k) →
  ∃ rs, balanced (verify_all pkey tokens) hs rs ∧
        Forall2 (λ t r, outcome k t.1.1 t.1.2 t.2 r) tokens rs.
Proof.
  revert hs. induction tokens as [|[[now token] issuer] tokens IH]; intros hs Hwf Hk; cbn.
  { exists []. split; [apply balanced_ret|constructor]. }
  destruct (verify_calls_spec pkey k now token issuer hs Hwf Hk) as (r & (n & E & Hn) & Ho).
  destruct (IH (mkHandles (hs_live hs) n)) as (rs & (n' & E' & Hn') & Ho'); [|done|].
  { intros h Hh. apply Hwf. cbn in Hh. lia. }
  exists (r :: rs). split; [|by constructor]. exists n'.
  unfold mbind, calls_bind. rewrite E, E'. split; [done|]. cbn in Hn'. lia.
Qed.

(** Loading a key leaves the file closed and, on success, one more live handle. *)
Lemma load_spec path hs :
  handles_wf hs →
  match load_public_key_pem path hs with
  | Some (None, hs') => load_ssl path = None ∧ hs_live hs' = hs_live hs ∧ hs_next hs ≤ hs_next hs'
  | Some (Some pkey, hs') =>
      ∃ k, load_ssl path = Some (ssl_of k) ∧ hs_live hs' = <[pkey := RKey k]> (hs_live hs) ∧
           hs_live hs !! pkey = None ∧ handles_wf hs' ∧ hs_next hs ≤ hs_next hs'
  | None => False
  end.
Proof.
  intros Hwf. pose proof (Hwf (hs_next hs) (le_n _)) as H1.
  pose proof (Hwf (S (hs_next hs)) (le_S _ _ (le_n _))) as H2.
  unfold load_public_key_pem, load_ssl, fopen, PEM_read_PUBKEY, fclose.
  destruct hs as [live n]. cbn in *. destruct (fopen_ok path); handles; [|by split_and!].
  destruct (pem_read path) as [k|]; handles.
  - exists k. rewrite insert_insert_ne, delete_insert_id by (lia || by rewrite lookup_insert_ne by lia).
    split_and!; [done..| |lia]. intros h Hh. cbn in *. rewrite lookup_insert_ne by lia.
    apply Hwf. cbn. lia.
  - rewrite delete_insert_id by done. split_and!; [done..|lia].
Qed.

End calls.
Arguments Handles K : clear implicits.
Arguments Calls K A : clear implicits.

(** ** Instances *)

(** A library whose keys are strings, and a signature is the key itself. *)
Definition demo_api (bio : nat → bool) : OpenSslApi string := {|
  ctx_alloc := λ _, true;
  bio_alloc := bio;
  digest_init := λ _, 1%Z;
  digest_update := λ _ _, 1%Z;
  digest_final := λ k _ sig, if String.eqb k sig then 1%Z else 0%Z;
  base64_read := Some;
  fopen_ok := λ _, true;
  pem_read := λ path, if String.eqb path "k.pem" then Some "good" else None;
|}.

(** A token of the demonstration library. *)
Definition demo_token (sig : string) : string :=
  quoted "alg" +:+ ":" +:+ quoted "RS256" +:+ ".e30=." +:+ sig.


(** A BIO that is not allocated is used nevertheless. *)
Lemma bio_unchecked :
  decode_calls (Api:=demo_api (λ _, false)) "e30" (mkHandles ∅ 0) = None.
Proof. reflexivity. Qed.
