(* ===== verification/Upstream.v ===== *)
(** * Upstream connection
      (src/upstream/upstream_client.h, src/upstream/ws_task_scheduler.h)

    The transport interface with its mock, the client that owns a transport, and the
    scheduler that sends the frames of change sets through the clients.

    A transport calls back into its client; an operation of a transport therefore
    returns, with the new state, the callbacks it makes, in order, and the client
    runs them. *)

From S2P Require Import Prelude ChangeSet CopyChannel.

Local Open Scope string_scope.

(** ** Interface *)

Record WsEndpointConfig := mkEndpoint {
  ep_url : string; ep_api_key : string; ep_max_payload_bytes : Z;
  ep_connect_timeout_ms : Z; ep_idle_ping_ms : Z }.

Definition WsEndpointConfig_default : WsEndpointConfig :=
  mkEndpoint "wss://api.minimaxi.com/ws/v1/t2a_v2" "" 4194304 5000 15000.

Inductive WsRawKind : Type := RawText | RawBinary | RawClose | RawError | RawOpen.

Record WsRawFrame := mkRaw {
  raw_kind : WsRawKind; raw_payload : string; raw_close_code : Z;
  raw_close_reason : string; raw_error : string }.

Inductive WsCallback : Type :=
| OnOpen (session_id : string)
| OnFrame (f : WsRawFrame)
| OnClose (code : Z) (reason : string).

Class IWsTransport (T : Type) := {
  tr_open : WsEndpointConfig → T → T * list WsCallback;
  tr_send_text : string → T → bool * T * list WsCallback;
  tr_close : Z → string → T → T * list WsCallback;
  tr_is_open : T → bool;
}.

(** ** MockWsTransport *)

(** Whether the callbacks are set, and [open_]. *)
Record MockWsTransport := mkMock { mt_callbacks : bool; mt_open : bool }.

Definition mock_transport_new : MockWsTransport := mkMock false false.

Definition mock_open (_ : WsEndpointConfig) (_ : MockWsTransport)
    : MockWsTransport * list WsCallback := (mkMock true true, []).
Definition mock_send_text (_ : string) (t : MockWsTransport)
    : bool * MockWsTransport * list WsCallback := (true, t, []).
Definition mock_close (code : Z) (reason : string) (t : MockWsTransport)
    : MockWsTransport * list WsCallback :=
  (mkMock (mt_callbacks t) false, if mt_callbacks t then [OnClose code reason] else []).

#[global] Instance mock_transport : IWsTransport MockWsTransport := {|
  tr_open := mock_open;
  tr_send_text := mock_send_text;
  tr_close := mock_close;
  tr_is_open := mt_open;
|}.

Definition inject_open (session_id : string) (t : MockWsTransport)
    : MockWsTransport * list WsCallback :=
  (t, if mt_callbacks t then [OnOpen session_id] else []).
Definition inject_text (text : string) (t : MockWsTransport)
    : MockWsTransport * list WsCallback :=
  (t, if mt_callbacks t then [OnFrame (mkRaw RawText text 0 "" "")] else []).
Definition inject_close (code : Z) (reason : string) (t : MockWsTransport)
    : MockWsTransport * list WsCallback :=
  (mkMock (mt_callbacks t) false,
   if mt_callbacks t
   then [OnFrame (mkRaw RawClose "" code reason ""); OnClose code reason] else []).

(** ** UpstreamClient *)

Record UpstreamClient (T : Type) := mkClient { transport_ : T; session_id_ : string }.
Arguments mkClient {T} _ _.
Arguments transport_ {T} _.
Arguments session_id_ {T} _.

Section client.
Context {T : Type} {Tr : IWsTransport T}.
Implicit Types (c : UpstreamClient T).

Definition client_new (t : T) : UpstreamClient T := mkClient t "".

(** The three lambdas the client hands to [open]; [handle_frame] does nothing. *)
Definition on_callback c (cb : WsCallback) : UpstreamClient T :=
  match cb with
  | OnOpen sid => mkClient (transport_ c) sid
  | OnFrame _ => c
  | OnClose _ _ => mkClient (transport_ c) ""
  end.

(** The transport moved to a new state and made the callbacks. *)
Definition after (r : T * list WsCallback) c : UpstreamClient T :=
  foldl on_callback (mkClient r.1 (session_id_ c)) r.2.

Definition client_open (cfg : WsEndpointConfig) c : UpstreamClient T :=
  after (tr_open cfg (transport_ c)) c.

Definition client_send (text : string) c : UpstreamClient T :=
  if tr_is_open (transport_ c) then
    let '(_, t, cbs) := tr_send_text text (transport_ c) in after (t, cbs) c
  else c.

Definition client_close c : UpstreamClient T :=
  after (tr_close 1000 "client_close" (transport_ c)) c.

(** The destructor. *)
Definition client_destroy c : UpstreamClient T :=
  after (tr_close 1000 "shutdown" (transport_ c)) c.

Definition client_is_open c : bool := tr_is_open (transport_ c).
End client.

(** ** WsTaskScheduler *)

Record WsOutbound := mkOutbound { wo_session_id : string; wo_frame : OutWsFrame }.

Section scheduler.
Context {T : Type} {Tr : IWsTransport T}.
Implicit Types (clients : gmap string (UpstreamClient T)) (ch : CopyChannel WsOutbound).

Fixpoint pump (frames : list OutWsFrame) ch
    : result ChannelClosed (CopyChannel WsOutbound) :=
  match frames with
  | [] => Ok ch
  | f :: frames => ch ← send (mkOutbound (of_session_id f) f) ch; pump frames ch
  end.

(** One round of the loop in [dispatch_pending]. *)
Definition dispatch_outbound clients (o : WsOutbound) : gmap string (UpstreamClient T) :=
  match clients !! wo_session_id o with
  | None => clients
  | Some c =>
      match of_op (wo_frame o) with
      | TaskStart | TaskContinue | TaskFinish =>
          <[wo_session_id o := client_send (of_payload_json (wo_frame o)) c]> clients
      end
  end.

Definition dispatch_pending clients ch
    : gmap string (UpstreamClient T) * CopyChannel WsOutbound :=
  let '(drained, ch) := swap_out_all [] ch in
  (foldl dispatch_outbound clients drained, ch).

(** ** Histories of the scheduler *)

Inductive SchedOp : Type := OpPump (frames : list OutWsFrame) | OpDispatch.

Fixpoint sched_run (ops : list SchedOp) ch clients
    : result ChannelClosed (CopyChannel WsOutbound * gmap string (UpstreamClient T)) :=
  match ops with
  | [] => Ok (ch, clients)
  | OpPump frames :: ops => ch ← pump frames ch; sched_run ops ch clients
  | OpDispatch :: ops =>
      let '(clients, ch) := dispatch_pending clients ch in sched_run ops ch clients
  end.

(** The frames pumped, and the texts for one session among some frames. *)
Definition pumped (ops : list SchedOp) : list OutWsFrame :=
  ops ≫= λ op, match op with OpPump frames => frames | OpDispatch => [] end.
Definition payloads (sid : string) (fs : list OutWsFrame) : list string :=
  of_payload_json <$> filter (λ f, of_session_id f = sid) fs.
Definition send_all (c : UpstreamClient T) (texts : list string) : UpstreamClient T :=
  foldl (λ c text, client_send text c) c texts.

Definition outbound_of (f : OutWsFrame) : WsOutbound := mkOutbound (of_session_id f) f.

Lemma pump_spec frames ch :
  closed_ ch = false →
  pump frames ch = Ok (mkChannel (buffer_ ch ++ (outbound_of <$> frames))%list false).
Proof.
  revert ch. induction frames as [|f frames IH]; intros [b cl] Hc; simpl in *; subst cl.
  { by rewrite app_nil_r. }
  cbn. rewrite IH by done. cbn. by rewrite <- app_assoc.
Qed.

Lemma dispatch_frames fs clients sid :
  foldl dispatch_outbound clients (outbound_of <$> fs) !! sid =
  (λ c, send_all c (payloads sid fs)) <$> clients !! sid.
Proof.
  revert clients. induction fs as [|f fs IH]; intros clients; simpl.
  { unfold send_all. simpl. by destruct (clients !! sid). }
  rewrite IH. unfold dispatch_outbound, payloads. cbn [wo_session_id wo_frame outbound_of].
  destruct (decide (of_session_id f = sid)) as [<-|Hne].
  - rewrite filter_cons_True by done.
    destruct (clients !! of_session_id f) as [c|] eqn:E.
    + destruct (of_op f); rewrite lookup_insert_eq; done.
    + by rewrite E.
  - rewrite filter_cons_False by done.
    destruct (clients !! of_session_id f) as [c|]; [|done].
    by destruct (of_op f); rewrite lookup_insert_ne.
Qed.

Lemma send_all_app c (l1 l2 : list string) : send_all c (l1 ++ l2)%list = send_all (send_all c l1) l2.
Proof. apply foldl_app. Qed.

Lemma sched_run_spec ops (waiting : list OutWsFrame) clients :
  ∃ (sent rest : list OutWsFrame) clients',
    sched_run ops (mkChannel (outbound_of <$> waiting) false) clients =
      Ok (mkChannel (outbound_of <$> rest) false, clients') ∧
    (waiting ++ pumped ops)%list = (sent ++ rest)%list ∧ (last ops = Some OpDispatch → rest = []) ∧
    ∀ sid, clients' !! sid = (λ c, send_all c (payloads sid sent)) <$> clients !! sid.
Proof.
  revert waiting clients. induction ops as [|[frames|] ops IH]; intros waiting clients.
  - exists [], waiting, clients. rewrite app_nil_r. split_and!; try done.
    intros sid. by destruct (clients !! sid).
  - cbn [sched_run]. rewrite pump_spec by done. cbn [mbind result_bind buffer_].
    rewrite <- fmap_app. destruct (IH (waiting ++ frames)%list clients)
      as (sent & rest & cl & H1 & H2 & H3 & H4).
    exists sent, rest, cl. split; [done|].
    split; [by unfold pumped in *; cbn; rewrite app_assoc|]. split; [|done].
    destruct ops; [done|]. exact H3.
  - cbn [sched_run]. unfold dispatch_pending. rewrite swap_out_all_spec, app_nil_l.
    cbn [buffer_ closed_].
    destruct (IH [] (foldl dispatch_outbound clients (outbound_of <$> waiting)))
      as (sent & rest & cl & H1 & H2 & H3 & H4).
    exists (waiting ++ sent)%list, rest, cl. split; [done|]. split; [|split].
    + unfold pumped in *. cbn. cbn in H2. by rewrite H2, app_assoc.
    + destruct ops as [|op ops]; [|exact H3]. intros _. cbn in H2.
      by apply (eq_sym) in H2; apply app_eq_nil in H2 as [_ ?].
    + intros sid. rewrite H4, dispatch_frames. destruct (clients !! sid) as [c|]; [|done]. simpl.
      unfold payloads. by rewrite filter_app, fmap_app, send_all_app.
Qed.

(** C38: The scheduler, for every transport and every sequence of [pump] and
    [dispatch_pending]: nothing is ever thrown; the frames pumped are, in order, those
    dispatched followed by those still queued (none right after a dispatch); and the
    client of every session has been sent exactly the texts of the dispatched
    frames for its session, in order, each once, while frames for sessions without a
    client are dropped. *)
Theorem scheduler_delivers ops clients :
  ∃ (sent rest : list OutWsFrame) clients',
    sched_run ops channel_new clients = Ok (mkChannel (outbound_of <$> rest) false, clients') ∧
    pumped ops = (sent ++ rest)%list ∧ (last ops = Some OpDispatch → rest = []) ∧
    ∀ sid, clients' !! sid = (λ c, send_all c (payloads sid sent)) <$> clients !! sid.
Proof. exact (sched_run_spec ops [] clients). Qed.
End scheduler.
