(* ===== verification/ThreadPool.v ===== *)
(** * ThreadPool (src/framework/thread_pool.h)

    A queue of tasks, a stop flag and worker threads.  Each step of a thread that
    other threads can observe is one step of the relation below: the test of the stop
    flag, the wait on the condition variable (evaluating its predicate under the
    mutex, and going to sleep, are two steps, because [shutdown] sets the flag without
    the mutex), running a task, [submit] and its notification, [shutdown] and its
    notification. *)

From S2P Require Import Prelude.

(** An empty [std::function] is [None]. *)
Inductive WorkerPc (F : Type) : Type :=
| AtLoop                       (* about to test [while (!stop_ ...)] *)
| AtWait                       (* about to lock and evaluate the predicate *)
| Sleepy                       (* predicate false, mutex held, not yet asleep *)
| Asleep                       (* blocked on the condition variable *)
| Running (fn : option F)      (* outside the lock, task taken *)
| Exited.
Arguments AtLoop {F}.
Arguments AtWait {F}.
Arguments Sleepy {F}.
Arguments Asleep {F}.
Arguments Running {F} fn.
Arguments Exited {F}.

Section pool.
Context {F : Type}.

Record ThreadPool := mkPool {
  queue_ : list (option F);
  stop_ : bool;
  workers_ : list (WorkerPc F);
  notify_one_ : nat;           (* submits that have still to notify *)
  notify_all_ : bool;          (* a shutdown has still to notify *)
}.
#[global] Instance ThreadPool_eta : Eta ThreadPool := {|
  eta_expand p := mkPool (queue_ p) (stop_ p) (workers_ p) (notify_one_ p) (notify_all_ p) |}.

Implicit Types (p : ThreadPool) (pc : WorkerPc F).

(** The constructor: at least one worker. *)
Definition pool_start (n_threads : nat) : ThreadPool :=
  mkPool [] false (replicate (if decide (n_threads = 0) then 1 else n_threads) AtLoop) 0 false.

(** The mutex is held by a worker that is about to sleep. *)
Definition is_sleepy pc : bool := match pc with Sleepy => true | _ => false end.
Definition mutex_free p : bool := negb (existsb is_sleepy (workers_ p)).

(** [submit]: the push under the mutex. *)
Definition submit (fn : option F) p : ThreadPool :=
  p <| queue_ := queue_ p ++ [fn] |> <| notify_one_ := S (notify_one_ p) |>.

(** [shutdown] up to its notification: [if (stop_.exchange(true)) return;]. *)
Definition shutdown p : ThreadPool :=
  if stop_ p then p else p <| stop_ := true |> <| notify_all_ := true |>.

Definition wake pc : WorkerPc F := match pc with Asleep => AtWait | _ => pc end.

(** [cv_.notify_all()]. *)
Definition notify_all p : ThreadPool :=
  p <| workers_ := wake <$> workers_ p |> <| notify_all_ := false |>.

(** The locked part of [worker_loop]: the next point, the queue after it. *)
Definition worker_locked (stop : bool) (queue : list (option F))
    : WorkerPc F * list (option F) :=
  if stop || negb (bool_decide (queue = [])) then
    match queue with
    | [] => if stop then (Exited, []) else (AtLoop, [])
    | fn :: queue => (Running fn, queue)
    end
  else (Sleepy, queue).

(** Set the point of worker [i]. *)
Definition goto (i : nat) pc p : ThreadPool := p <| workers_ := <[i := pc]> (workers_ p) |>.

(** Tasks submitted, taken and run, in order. *)
Record Log := mkLog { submitted : list (option F); taken : list (option F);
                      run : list (option F) }.
#[global] Instance Log_eta : Eta Log := {|
  eta_expand l := mkLog (submitted l) (taken l) (run l) |}.
Implicit Types l : Log.

Inductive pool_step : ThreadPool * Log → ThreadPool * Log → Prop :=
| ps_submit fn p l :
    mutex_free p = true →
    pool_step (p, l) (submit fn p, l <| submitted := submitted l ++ [fn] |>)
| ps_notify_none p l n :
    notify_one_ p = S n → Forall (λ pc, pc ≠ Asleep) (workers_ p) →
    pool_step (p, l) (p <| notify_one_ := n |>, l)
| ps_notify_one i p l n :
    notify_one_ p = S n → workers_ p !! i = Some Asleep →
    pool_step (p, l) (goto i AtWait (p <| notify_one_ := n |>), l)
| ps_shutdown p l : pool_step (p, l) (shutdown p, l)
| ps_notify_all p l : notify_all_ p = true → pool_step (p, l) (notify_all p, l)
| ps_loop i p l :
    workers_ p !! i = Some AtLoop →
    pool_step (p, l) (goto i (if stop_ p then Exited else AtWait) p, l)
| ps_locked i pc q p l :
    workers_ p !! i = Some AtWait → mutex_free p = true →
    worker_locked (stop_ p) (queue_ p) = (pc, q) →
    pool_step (p, l)
      (goto i pc (p <| queue_ := q |>),
       match pc with Running fn => l <| taken := taken l ++ [fn] |> | _ => l end)
| ps_sleep i p l :
    workers_ p !! i = Some Sleepy → pool_step (p, l) (goto i Asleep p, l)
| ps_run i fn p l :
    workers_ p !! i = Some (Running fn) →
    pool_step (p, l) (goto i AtLoop p, l <| run := run l ++ [fn] |>).

(** A wake-up without a notification, which the standard permits. *)
Inductive spurious_wakeup : ThreadPool * Log → ThreadPool * Log → Prop :=
| sw_wake i p l :
    workers_ p !! i = Some Asleep → spurious_wakeup (p, l) (goto i AtWait p, l).

Definition pool_any (x y : ThreadPool * Log) : Prop := pool_step x y ∨ spurious_wakeup x y.

(** ** Tasks are taken in order, each once *)

Definition task_of pc : list (option F) := match pc with Running fn => [fn] | _ => [] end.
Definition in_hand p : list (option F) := workers_ p ≫= task_of.

Lemma in_hand_goto i pc pc' p :
  workers_ p !! i = Some pc →
  task_of pc ++ in_hand (goto i pc' p) ≡ₚ task_of pc' ++ in_hand p.
Proof.
  intros Hi. unfold in_hand, goto. cbn. by apply (bind_insert task_of).
Qed.

Definition pool_inv (x : ThreadPool * Log) : Prop :=
  let '(p, l) := x in
  submitted l = taken l ++ queue_ p ∧ run l ++ in_hand p ≡ₚ taken l.

(** Moves of a worker that neither take nor finish a task. *)
Lemma pool_inv_goto i pc pc' p l :
  workers_ p !! i = Some pc → task_of pc = [] → task_of pc' = [] →
  pool_inv (p, l) → pool_inv (goto i pc' p, l).
Proof.
  intros Hi H1 H2 [Hs Hr]. split; [done|].
  pose proof (in_hand_goto i pc pc' p Hi) as Hp. rewrite H1, H2 in Hp. simpl in Hp.
  by rewrite Hp.
Qed.

Lemma in_hand_wake p : in_hand (notify_all p) = in_hand p.
Proof.
  unfold in_hand, notify_all. cbn. induction (workers_ p) as [|pc ws IH]; [done|].
  cbn. rewrite IH. by destruct pc.
Qed.

Lemma worker_locked_cases stop queue :
  match worker_locked stop queue with
  | (Running fn, q) => queue = fn :: q
  | (pc, q) => task_of pc = [] ∧ q = queue ∧ (queue = [] ∨ stop = false) ∧
               (stop = true → pc = Exited)
  end.
Proof.
  unfold worker_locked. destruct stop, queue as [|fn q]; simpl; naive_solver.
Qed.

Lemma pool_step_inv x y : pool_any x y → pool_inv x → pool_inv y.
Proof.
  intros [Hs|[i p l Hi]]; [|by eapply pool_inv_goto].
  destruct Hs as [fn p l Hm|p l n Hn Ha|i p l n Hn Hi|p l|p l Hn|i p l Hi|i pc q p l Hi Hm Hw
                 |i p l Hi|i fn p l Hi].
  - intros [H1 H2]. split; [|done]. cbn. by rewrite H1, app_assoc.
  - done.
  - intros H. eapply (pool_inv_goto i Asleep); [done..|]. exact H.
  - unfold shutdown. by destruct (stop_ p).
  - intros [H1 H2]. split; [done|]. by rewrite in_hand_wake.
  - eapply pool_inv_goto; [done..|]. by destruct (stop_ p).
  - pose proof (worker_locked_cases (stop_ p) (queue_ p)) as Hc. rewrite Hw in Hc.
    assert (∀ l', task_of pc = [] ∧ q = queue_ p → l' = l → pool_inv (p, l) →
      pool_inv (goto i pc (p <| queue_ := q |>), l')) as Hidle.
    { intros l' [H1 ->] -> H. eapply (pool_inv_goto i AtWait); [done..|]. by destruct p. }
    destruct pc as [| | | |fn|]; try (by apply Hidle; destruct_and?).
    intros [H1 H2]. cbn. rewrite Hc in H1. split; [by rewrite H1, <- app_assoc|].
    pose proof (in_hand_goto i AtWait (Running fn) (p <| queue_ := q |>) Hi) as Hp.
    cbn in Hp. cbn. rewrite Hp. change (in_hand _) with (in_hand p).
    rewrite <- H2, <- Permutation_middle. apply Permutation_cons_append.
  - by eapply pool_inv_goto.
  - intros [H1 H2]. split; [done|]. cbn.
    pose proof (in_hand_goto i (Running fn) AtLoop p Hi) as Hp. cbn in Hp.
    rewrite <- app_assoc. cbn. by rewrite Hp.
Qed.

(** Tasks of a pool, under every interleaving of its threads, spurious wake-ups
    included: tasks are taken in submission order, every submitted task is either
    taken or still queued, each exactly once, and every task taken has been run once
    or is being run by one worker. *)
Theorem pool_fifo n p l :
  rtc pool_any (pool_start n, mkLog [] [] []) (p, l) →
  submitted l = taken l ++ queue_ p ∧ run l ++ in_hand p ≡ₚ taken l.
Proof.
  intros Hr. change (pool_inv (p, l)).
  assert (pool_inv (pool_start n, mkLog [] [] [])) as H0.
  { split; [done|]. unfold in_hand, pool_start. cbn.
    by induction (if decide (n = 0) then 1 else n). }
  revert H0 Hr. generalize (pool_start n, mkLog [] [] []). generalize (p, l).
  clear. intros y x H0 Hr. revert H0. induction Hr as [|x y z Hs _ IH]; [done|].
  intros H. by apply IH, (pool_step_inv x).
Qed.

(** ** Shutdown *)

(** Workers that may still take a task once the stop flag is set. *)
Definition may_take pc : bool :=
  match pc with AtWait | Sleepy | Asleep => true | _ => false end.
Definition takers p : nat := length (filter (λ pc, may_take pc = true) (workers_ p)).

Lemma takers_goto i pc pc' p :
  workers_ p !! i = Some pc →
  takers (goto i pc' p) + Nat.b2n (may_take pc) = takers p + Nat.b2n (may_take pc').
Proof.
  intros Hi. unfold takers, goto. cbn. by apply count_insert.
Qed.

Lemma takers_wake p : takers (notify_all p) = takers p.
Proof.
  unfold takers, notify_all. cbn. induction (workers_ p) as [|pc ws IH]; [done|].
  rewrite fmap_cons, !filter_cons.
  destruct pc; simpl; repeat case_decide; simpl; rewrite ?IH; done.
Qed.

Lemma stopped_step x y :
  pool_any x y → stop_ x.1 = true →
  stop_ y.1 = true ∧ length (taken y.2) + takers y.1 ≤ length (taken x.2) + takers x.1.
Proof.
  intros [Hs|[i p l Hi]] Hst; cbn [fst snd] in *.
  2:{ split; [done|]. pose proof (takers_goto i Asleep AtWait p Hi). simpl in *. lia. }
  destruct Hs as [fn p l Hm|p l n Hn Ha|i p l n Hn Hi|p l|p l Hn|i p l Hi|i pc q p l Hi Hm Hw
                 |i p l Hi|i fn p l Hi]; cbn [fst snd] in *.
  - done.
  - done.
  - split; [done|].
    pose proof (takers_goto i Asleep AtWait (p <| notify_one_ := n |>) Hi) as H.
    unfold takers in *. simpl in *. lia.
  - unfold shutdown. by rewrite Hst.
  - split; [done|]. by rewrite takers_wake.
  - split; [done|]. pose proof (takers_goto i AtLoop Exited p Hi). rewrite Hst. simpl in *. lia.
  - split; [done|]. pose proof (worker_locked_cases (stop_ p) (queue_ p)) as Hc.
    rewrite Hw, Hst in Hc.
    pose proof (takers_goto i AtWait pc (p <| queue_ := q |>) Hi) as H.
    change (takers (p <| queue_ := q |>)) with (takers p) in H.
    destruct pc as [| | | |fn|]; try (destruct_and!; by naive_solver).
    + simpl in *. rewrite length_app. simpl. lia.
    + simpl in *. lia.
  - split; [done|]. pose proof (takers_goto i Sleepy Asleep p Hi). simpl in *. lia.
  - split; [done|]. pose proof (takers_goto i (Running fn) AtLoop p Hi). simpl in *. lia.
Qed.

Lemma stopped_rtc x y :
  rtc pool_any x y → stop_ x.1 = true →
  stop_ y.1 = true ∧ length (taken y.2) + takers y.1 ≤ length (taken x.2) + takers x.1.
Proof.
  induction 1 as [|x y z Hs _ IH]; [done|]. intros Hst.
  destruct (stopped_step x y Hs Hst) as [H1 H2]. destruct (IH H1) as [H3 H4].
  split; [done|lia].
Qed.

(** Shutting down does not drain the queue: once the stop flag is set, at most the
    workers that had already passed the test of the loop take one more task each;
    whatever else is queued, or submitted later, is never run. *)
Theorem shutdown_abandons p l p' l' :
  stop_ p = true → rtc pool_any (p, l) (p', l') →
  stop_ p' = true ∧ length (taken l') ≤ length (taken l) + takers p.
Proof.
  intros Hst Hr. destruct (stopped_rtc _ _ Hr Hst) as [H1 H2]. simpl in *.
  split; [done|lia].
Qed.
End pool.
Arguments ThreadPool F : clear implicits.
Arguments Log F : clear implicits.

(** ** Instances *)

(** One worker takes a task; a second one is submitted; the pool is shut down. *)
Definition demo_tasks : Log string := mkLog [] [] [].
Definition demo_busy : ThreadPool string * Log string :=
  (mkPool [Some "b"] true [Running (Some "a")] 2 true,
   mkLog [Some "a"; Some "b"] [Some "a"] []).

Lemma demo_busy_reached : rtc pool_any (pool_start 1, demo_tasks) demo_busy.
Proof.
  eapply rtc_l. { left. apply (ps_loop 0). reflexivity. }
  eapply rtc_l. { left. apply (ps_submit (Some "a")). reflexivity. }
  eapply rtc_l. { left. by eapply (ps_locked 0). }
  eapply rtc_l. { left. apply (ps_submit (Some "b")). reflexivity. }
  eapply rtc_l. { left. apply ps_shutdown. }
  apply rtc_refl.
Qed.

Lemma pool_fifo_witness :
  submitted demo_busy.2 = taken demo_busy.2 ++ queue_ demo_busy.1 ∧
  run demo_busy.2 ++ in_hand demo_busy.1 ≡ₚ taken demo_busy.2.
Proof. apply (pool_fifo 1 demo_busy.1 demo_busy.2 demo_busy_reached). Defined.

(** The worker finishes its task and exits; the second task was never taken. *)
Lemma shutdown_abandons_witness :
  let q := mkPool [Some "b"] true [Exited] 2 true in
  let l := mkLog [Some "a"; Some "b"] [Some "a"] [Some "a"] in
  stop_ q = true ∧ length (taken l) ≤ length (taken demo_busy.2) + takers demo_busy.1 ∧
  takers demo_busy.1 = 0.
Proof.
  intros q l. destruct (shutdown_abandons demo_busy.1 demo_busy.2 q l eq_refl) as [H1 H2].
  { eapply rtc_l. { left. by apply (ps_run 0). }
    eapply rtc_l. { left. by apply (ps_loop 0). }
    apply rtc_refl. }
  split; [exact H1|]. split; [exact H2|reflexivity].
Defined.

(** The state of a missed shutdown. *)
Definition demo_stuck : ThreadPool string * Log string :=
  (mkPool [] true [Asleep] 0 false, demo_tasks).

Lemma stuck_step x y :
  pool_step x y → x = demo_stuck ∨ submitted x.2 ≠ [] → y = demo_stuck ∨ submitted y.2 ≠ [].
Proof.
  intros Hs [->|Hne].
  - inversion Hs; subst; simplify_eq/=; auto;
      repeat match goal with H : [_] !! ?i = Some _ |- _ => destruct i; simplify_eq/= end.
  - right. destruct Hs; simpl in *; try done; [by destruct (submitted l)|].
    by destruct pc.
Qed.

(** A shutdown can miss a worker: [shutdown] sets the flag and notifies without the
    mutex, possibly between a worker's evaluation of its predicate and its going to
    sleep.  Then the flag is set, every notification has been made, and the worker
    sleeps; unless another task is submitted, no thread ever wakes it, so
    [shutdown] waits for it in [join] until a spurious wake-up happens. *)
Theorem shutdown_lost_wakeup :
  rtc pool_step (pool_start 1, demo_tasks) demo_stuck ∧
  (∀ p l, rtc pool_step demo_stuck (p, l) → submitted l = [] →
     stop_ p = true ∧ workers_ p = [Asleep]).
Proof.
  split.
  - eapply rtc_l. { apply (ps_loop 0). reflexivity. }
    eapply rtc_l. { by eapply (ps_locked 0). }
    eapply rtc_l. { apply ps_shutdown. }
    eapply rtc_l. { by apply ps_notify_all. }
    eapply rtc_l. { by apply (ps_sleep 0). }
    apply rtc_refl.
  - intros p l Hr Hn.
    assert ((p, l) = demo_stuck ∨ submitted (p, l).2 ≠ []) as [[= -> _]|?]; [|done..].
    assert (demo_stuck = demo_stuck ∨ submitted demo_stuck.2 ≠ []) as H0 by (by left).
    exact (rtc_ind_l (λ x, x = demo_stuck ∨ submitted x.2 ≠ [] → _) (p, l) id
      (λ x y Hs _ IH H, IH (stuck_step x y Hs H)) demo_stuck Hr H0).
Qed.
