(* ===== verification/PoolStop.v ===== *)
(** * Termination of ThreadPool::shutdown (src/framework/thread_pool.h)

    [ThreadPool.shutdown_lost_wakeup] shows a shutdown whose join waits for ever, because
    a worker was between the predicate of its wait and its sleep when the flag was set
    and the notification made.  When no worker is in that window, the join returns, and
    soon: each worker makes at most three more moves, whatever is still submitted. *)

From S2P Require Import Prelude ThreadPool.

Section stop.
Context {F : Type}.
Implicit Types (p : ThreadPool F) (x y z : ThreadPool F * Log F).

Definition awake (pc : WorkerPc F) : Prop :=
  match pc with Sleepy | Asleep => False | _ => True end.

(** The flag is set and every worker awake. *)
Definition closing p : Prop := stop_ p = true ∧ Forall awake (workers_ p).

(** The moves a worker has left once the flag is set. *)
Definition moves_left (pc : WorkerPc F) : nat :=
  match pc with AtWait => 3 | Running _ => 2 | AtLoop => 1 | _ => 0 end.
Definition workers_left p : nat := sum_list_with moves_left (workers_ p).

Lemma closing_lookup p i pc : closing p → workers_ p !! i = Some pc → awake pc.
Proof. intros [_ Hf] Hi. rewrite Forall_lookup in Hf. eauto. Qed.

Lemma closing_goto i pc p : closing p → awake pc → closing (goto i pc p).
Proof. intros [Hs Hf] Ha. split; [done|]. by apply Forall_insert. Qed.

Lemma workers_left_goto i pc pc' p :
  workers_ p !! i = Some pc →
  workers_left (goto i pc' p) + moves_left pc = workers_left p + moves_left pc'.
Proof. apply sum_insert. Qed.

(** Waking changes nothing: nobody sleeps. *)
Lemma wake_awake (ws : list (WorkerPc F)) : Forall awake ws → wake <$> ws = ws.
Proof. induction 1 as [|pc ws Hp _ IH]; [done|]. cbn. rewrite IH. by destruct pc. Qed.

(** A step of any thread keeps the closing, and is no move of a worker or takes away
    from what is left. *)
Lemma closing_step x y :
  pool_any x y → closing x.1 →
  closing y.1 ∧ (workers_ y.1 = workers_ x.1 ∨ workers_left y.1 < workers_left x.1).
Proof.
  intros Hs Hc. destruct Hs as [Hs|Hs].
  2:{ destruct Hs as [i p l Hi]. by destruct (closing_lookup _ _ _ Hc Hi). }
  destruct Hs as [fn p l Hm|p l n Hn Ha|i p l n Hn Hi|p l|p l Hn|i p l Hi|i pc q p l Hi Hm Hl|i p l Hi
    |i fn p l Hi]; cbn [fst] in *.
  - split; [done|by left].
  - split; [done|by left].
  - by destruct (closing_lookup _ _ _ Hc Hi).
  - unfold shutdown. destruct Hc as [Hc Hf]. rewrite Hc. split; [done|by left].
  - destruct Hc as [Hc Hf]. unfold notify_all, closing. cbn. rewrite wake_awake by done.
    split; [done|by left].
  - destruct Hc as [Hc Hf]. rewrite Hc. split; [by apply closing_goto|right].
    pose proof (workers_left_goto i _ Exited p Hi). cbn in *. lia.
  - pose proof Hc as [Hst _]. unfold worker_locked in Hl. rewrite Hst in Hl. cbn in Hl.
    pose proof (workers_left_goto i _ pc (p <| queue_ := q |>) Hi) as Hw.
    destruct (queue_ p) as [|fn q'] eqn:Eq; simplify_eq; (split; [by apply closing_goto|right]);
      change (workers_left (p <| queue_ := _ |>)) with (workers_left p) in Hw; cbn in Hw |- *; lia.
  - by destruct (closing_lookup _ _ _ Hc Hi).
  - split; [by apply closing_goto|right].
    pose proof (workers_left_goto i _ AtLoop p Hi). cbn in *. lia.
Qed.

(** Executions of all threads, with the number of moves the workers made. *)
Inductive pool_run : nat → ThreadPool F * Log F → ThreadPool F * Log F → Prop :=
| pr_nil x : pool_run 0 x x
| pr_move n x y z :
    pool_run n x y → pool_any y z → workers_ z.1 ≠ workers_ y.1 → pool_run (S n) x z
| pr_other n x y z :
    pool_run n x y → pool_any y z → workers_ z.1 = workers_ y.1 → pool_run n x z.

Lemma closing_run n x y :
  pool_run n x y → closing x.1 → closing y.1 ∧ n + workers_left y.1 ≤ workers_left x.1.
Proof.
  intros Hr Hc. induction Hr as [x|n x y z _ IH Hs Hne|n x y z _ IH Hs He].
  - split; [done|lia].
  - destruct (IH Hc) as [Hy Hle]. destruct (closing_step y z Hs Hy) as [Hz [E|Hlt]]; [done|].
    split; [done|lia].
  - destruct (IH Hc) as [Hy Hle]. destruct (closing_step y z Hs Hy) as [Hz _].
    split; [done|]. unfold workers_left in *. by rewrite He.
Qed.

Lemma insert_changes (ws : list (WorkerPc F)) i pc pc' :
  ws !! i = Some pc → pc ≠ pc' → <[i := pc']> ws ≠ ws.
Proof.
  intros Hi Hne E. apply Hne. apply (inj Some). rewrite <- Hi. rewrite <- E at 1.
  apply list_lookup_insert_eq. by eapply lookup_lt_Some.
Qed.

(** A worker that has not exited can move. *)
Lemma closing_progress p l :
  closing p → Forall (eq Exited) (workers_ p) ∨ ∃ z, pool_any (p, l) z ∧ workers_ z.1 ≠ workers_ p.
Proof.
  intros Hc. destruct (decide (workers_left p = 0)) as [E|E].
  - left. apply Forall_lookup. intros i pc Hi. pose proof (closing_lookup _ _ _ Hc Hi) as Ha.
    pose proof (workers_left_goto i pc Exited p Hi). destruct pc; cbn in *; done || lia.
  - right. assert (∃ i pc, workers_ p !! i = Some pc ∧ moves_left pc ≠ 0) as (i & pc & Hi & Hm).
    { unfold workers_left in E. revert E. clear. generalize (workers_ p) as ws.
      induction ws as [|pc ws IH]; [done|]. cbn. intros E. destruct (decide (moves_left pc = 0)) as [E0|E0].
      - destruct IH as (i & pc' & Hi & Hp); [lia|]. by exists (S i), pc'.
      - by exists 0, pc. }
    assert (mutex_free p = true) as Hfree.
    { destruct Hc as [_ Hf]. unfold mutex_free. apply negb_true_iff. revert Hf. clear.
      induction 1 as [|pc ws Hp _ IH]; [done|]. cbn. rewrite IH. by destruct pc. }
    pose proof Hc as [Hs _]. destruct pc as [| | | |fn|]; try done.
    + eexists. split; [left; by apply (ps_loop i)|]. cbn. rewrite Hs. by eapply insert_changes.
    + destruct (worker_locked (stop_ p) (queue_ p)) as [pc' q] eqn:El.
      eexists. split; [left; by eapply (ps_locked i)|]. cbn. eapply insert_changes; [done|].
      unfold worker_locked in El. rewrite Hs in El. cbn in El. by destruct (queue_ p); simplify_eq.
    + eexists. split; [left; by apply (ps_run i fn)|]. cbn. by eapply insert_changes.
Qed.

(** The flag is set when the notification is made. *)
Lemma notify_flag n x :
  rtc pool_any (pool_start n, mkLog [] [] []) x → notify_all_ x.1 = true → stop_ x.1 = true.
Proof.
  intros Hr. refine (rtc_ind_r (λ x, notify_all_ x.1 = true → stop_ x.1 = true) _ _ _ x Hr); [done|].
  intros y z _ [Hs|Hs] IH; [|by destruct Hs]. destruct Hs; try done. unfold shutdown. cbn in *.
  by destruct (stop_ p) eqn:E; rewrite ?E.
Qed.

(** C37: Shutting a pool down ends, unless a worker is about to sleep: when [shutdown]
    notifies and no worker is between the predicate of its wait and its sleep, then in
    every execution, with tasks still submitted and spurious wake-ups, the workers
    together make at most three moves each; and until all of them have exited, some
    worker can move.  So the join returns.  ([shutdown_lost_wakeup] is the other case.) *)
Theorem pool_shutdown_ends n p l k y :
  rtc pool_any (pool_start n, mkLog [] [] []) (p, l) →
  notify_all_ p = true → mutex_free p = true →
  pool_run k (notify_all p, l) y →
  k ≤ 3 * length (workers_ p) ∧
  (Forall (eq Exited) (workers_ y.1) ∨ ∃ z, pool_any y z ∧ workers_ z.1 ≠ workers_ y.1).
Proof.
  intros Hr Hn Hm Hk. pose proof (notify_flag n _ Hr Hn) as Hs. cbn in Hs.
  assert (closing (notify_all p)) as Hc.
  { split; [done|]. unfold mutex_free in Hm. apply negb_true_iff in Hm. revert Hm. clear. cbn.
    induction (workers_ p) as [|pc ws IH]; cbn; [constructor|]. intros [H1 H2]%orb_false_iff.
    constructor; [by destruct pc|by apply IH]. }
  destruct (closing_run k _ y Hk Hc) as [Hy Hle]. split.
  - cbn [fst] in Hle. assert (workers_left (notify_all p) ≤ 3 * length (workers_ p)) as Hb; [|lia].
    unfold workers_left, notify_all. cbn. clear. induction (workers_ p) as [|[] ws IH]; cbn; lia.
  - destruct y as [py ly]. by apply closing_progress.
Qed.
End stop.

(** ** Instance *)

(** A worker asleep when [shutdown] is about to notify. *)
Definition demo_closing : ThreadPool string := mkPool [] true [Asleep] 0 true.

Lemma demo_closing_reached :
  rtc pool_any (pool_start 1, mkLog [] [] []) (demo_closing, mkLog [] [] []).
Proof.
  eapply rtc_l. { left. by apply (ps_loop 0). }
  eapply rtc_l. { left. by eapply (ps_locked 0 Sleepy []). }
  eapply rtc_l. { left. by apply (ps_sleep 0). }
  eapply rtc_l. { left. apply ps_shutdown. }
  apply rtc_refl.
Qed.

Example pool_shutdown_ends_witness :
  0 ≤ 3 ∧
  (Forall (eq Exited) [AtWait (F:=string)] ∨
   ∃ z, pool_any (notify_all demo_closing, mkLog [] [] []) z ∧ workers_ z.1 ≠ [AtWait]).
Proof.
  apply (pool_shutdown_ends 1 demo_closing (mkLog [] [] []) 0 (notify_all demo_closing, mkLog [] [] [])
    demo_closing_reached); [reflexivity|reflexivity|constructor].
Defined.
