(* ===== verification/EndToEnd.v ===== *)
(** * From request to response

    Requests waiting when the heartbeat thread ticks, followed through the tick that
    turns them into jobs and the tick after it that answers them. *)

From S2P Require Import Prelude Messages ChangeSet CopyChannel HexCodec Metrics SessionPool.
From S2P Require Import PendingStore DataBoard Events EventBus LocalEngine WsFrameCodec.
From S2P Require Import Observability Backpressure Evolution World MessageProcessor Heartbeat.
From S2P Require Import Demo HeartbeatSteps HeartbeatFacts RequestFacts Server.
From S2P Require Import Proto RequestParser ResponseWriter Jwt TtsService ServiceFacts System.

Implicit Types (w : World) (svc : Service) (req : TtsRequestMsg).

(** The queue gauge, and the requests of a batch that the local engine serves. *)
Definition queued_of w : Z := queued_ (metrics_ (board_ w)).
Definition request_of (m : Message) : option TtsRequestMsg :=
  match m with MsgRequest r => Some r | _ => None end.
Definition requests_of (batch : list Message) : list TtsRequestMsg := omap request_of batch.
Definition local_requests (hb : HeartbeatConfig) (batch : list Message) : list TtsRequestMsg :=
  filter (λ r, should_use_local hb r = true) (requests_of batch).

Section jobs.
Context {J : NlohmannJson} (env : Env) (hb : HeartbeatConfig).

(** An admitted request becomes a job iff it is served locally. *)
Lemma request_jobs req w :
  queued_of (handle_request env hb req w) = queued_of w ∧
  (admitted hb w →
   local_jobs (changeset_ (handle_request env hb req w)) =
     local_jobs (changeset_ w) ++
     (if should_use_local hb req then [local_job req] else [])).
Proof.
  destruct (evaluated_frame hb w) as (_ & _ & _ & H4 & _).
  assert (queued_of (evaluated hb w) = queued_of w) as Hq by apply evaluate_queued.
  destruct (handle_request_cases env hb req w) as [[_ E]|[Hn E]]; rewrite E;
    [|by split; [rewrite <- Hq|]].
  rewrite <- Hq, <- H4. clear E Hq H4. generalize (evaluated hb w). intros v.
  destruct (should_use_local hb req).
  - unfold handle_request_local, store_get.
    by destruct (pending_ (board_ v) !! rq_request_id req).
  - rewrite handle_request_upstream_eq.
    destruct (acquire_frame env req v) as (F1 & F2 & _).
    destruct (acquire_or_create_session env req v) as [h v1]. cbn [snd] in F1, F2.
    unfold queued_of. rewrite app_nil_r, <- F1, <- F2.
    destruct (String.eqb _ _); [done|].
    unfold send_on, bind_request, steady_now. cbv beta iota zeta. by destruct (sh_reused h).
Qed.

Context (Hhigh : (0 ≤ high_watermark_ (backpressure_cfg hb) < 2 ^ 64)%Z).

(** While capacity remains for the whole batch, every local request becomes a job. *)
Lemma messages_jobs {Ord : UMapOrder} U batch w :
  Forall from_main batch → gauge_ok hb U batch w →
  (inflight_of w + Z.of_nat (length (requests_of batch)) ≤
     high_watermark_ (backpressure_cfg hb))%Z →
  (queued_of w < queue_high_watermark_ (backpressure_cfg hb))%Z →
  local_jobs (changeset_ (foldl (handle_message env hb) w batch)) =
    local_jobs (changeset_ w) ++ (local_job <$> local_requests hb batch).
Proof.
  intros HA. revert w. induction HA as [|m batch Hm _ IH]; intros w Hg Hroom Hq.
  { simpl. by rewrite app_nil_r. }
  pose proof (gauge_message env hb Hhigh U m batch w Hm Hg) as Hg'.
  destruct Hg as (G1 & GU & G2). destruct Hg' as (G1' & _ & G2').
  assert (gauge_ok hb U batch (handle_message env hb w m)) as Hg' by done.
  assert (0 ≤ work (changeset_ w))%Z as Hw by (unfold work; lia).
  cbn [foldl]. unfold requests_of, local_requests, requests_of in *.
  rewrite omap_cons_eq in *. unfold results in *. rewrite omap_cons_eq in G1.
  destruct m as [r|r|c|c|f]; try (by destruct Hm as [[? ?]|[? ?]]).
  - cbn [request_of local_write] in *. cbn [length] in Hroom.
    destruct (request_jobs r w) as [Hqr Hj].
    assert (admitted hb w) as Ha by (split; [lia|exact Hq]). specialize (Hj Ha).
    assert (inflight_of (handle_message env hb w (MsgRequest r)) ≤ inflight_of w + 1)%Z as Hle.
    { destruct (request_effect env hb r w) as [[H1 _]|(H1 & H2 & _)]; cbn [handle_message];
        [lia|]. rewrite H2, u64_small; lia. }
    rewrite IH; [|done|lia|cbn [handle_message]; lia].
    cbn [handle_message]. rewrite Hj. rewrite filter_cons.
    destruct (should_use_local hb r); case_decide; try done.
    + by rewrite <- app_assoc.
    + by rewrite app_nil_r.
  - cbn [request_of local_write length] in *. rewrite IH; [done|done| |done].
    assert (work (changeset_ (handle_message env hb w (MsgLocalComplete c))) =
            work (changeset_ w)) as Hwk by done. lia.
  - cbn [request_of local_write length] in *. rewrite IH; [done|done| |done].
    assert (work (changeset_ (handle_message env hb w (MsgLocalFailed f))) =
            work (changeset_ w)) as Hwk by done. lia.
Qed.
End jobs.

Section served.
Context {J : NlohmannJson} (env : Env) (hb : HeartbeatConfig) (net : Net).
Context (e : ILocalTtsEngine) (Heng : local_engine_ hb = Some e).
Context (Hhigh : (0 ≤ high_watermark_ (backpressure_cfg hb) < 2 ^ 64)%Z).

Lemma sys_exec_trans st1 css st2 css' st3 :
  sys_exec env hb net st1 css st2 → sys_exec env hb net st2 css' st3 →
  sys_exec env hb net st1 (css ++ css') st3.
Proof.
  intros H1 H2. induction H2 as [st|st css2 st2 css3 st3 _ IH Hs]; [by rewrite app_nil_r|].
  rewrite app_assoc. eapply sx_snoc; [by apply IH|exact Hs].
Qed.

(** Room for all waiting requests below both watermarks. *)
Definition uncongested w : Prop :=
  (inflight_of w + Z.of_nat (length (requests_of (buffer_ (request_channel_ w)))) ≤
     high_watermark_ (backpressure_cfg hb))%Z ∧
  (queued_of w < queue_high_watermark_ (backpressure_cfg hb))%Z.

Lemma sys_tick_jobs (Ord : UMapOrder) css w svc cs w1 :
  sys_inv hb e css (mkSys w svc []) → uncongested w → tick env hb w = (cs, w1) →
  local_jobs cs = local_job <$> local_requests hb (buffer_ (request_channel_ w)).
Proof.
  intros Hi [Hr Hq] Ht. destruct (sys_batch hb e css w svc Hi) as [HA _].
  pose proof (sys_gauge env hb e css w svc Hi) as Hg.
  destruct Hi as (_ & Hc & _ & Hws & _ & _ & Hp & _). cbn [sys_world] in *.
  assert (tick_batch w = buffer_ (request_channel_ w)) as Hb
    by (unfold tick_batch; by rewrite Hws, app_nil_r).
  destruct (tick_mid_quiet env hb Ord w HA Hp) as (Hmid & _).
  destruct (tick_start_frame env w) as (Hbd & Hcs & _).
  pose proof (tick_spec env hb w cs w1 Ht) as Hsp. cbv zeta in Hsp.
  destruct (evolve _ _ _) as [closes b]. destruct Hsp as (-> & _).
  rewrite add_closes_spec, Hmid. cbn [local_jobs].
  rewrite (messages_jobs env hb Hhigh (upstream_sent css)); [|done..| |].
  - by rewrite Hcs, Hc, Hb.
  - unfold inflight_of. rewrite Hbd, Hb. exact Hr.
  - unfold queued_of. rewrite Hbd. exact Hq.
Qed.

(** C3: A served request, end to end.  When the heartbeat thread ticks with requests
    waiting and there is room for them below the watermarks, the tick completes and
    turns exactly the requests meant for the local engine into jobs, in order; the
    jobs are then run, other threads interleaving; and the next tick completes and
    its responses are exactly one per such request, in order, made from the engine's
    result for the request's text, voice and speed, and each is appended to the
    queue of its request's handler. *)
Theorem local_requests_served (Ord1 Ord2 : UMapOrder) svc0 css w svc :
  svc_wf svc0 →
  sys_exec env hb net (mkSys (world_new SystemClock) svc0 []) css (mkSys w svc []) →
  uncongested w →
  let reqs := local_requests hb (buffer_ (request_channel_ w)) in
  ∃ cs1 w1 svc1,
    heartbeat_tick (Ord:=Ord1) env hb net w svc = Ok (cs1, w1, svc1) ∧
    local_jobs cs1 = local_job <$> reqs ∧
    (∃ w2, sys_exec env hb net (mkSys w1 svc1 (local_jobs cs1)) [] (mkSys w2 svc1 [])) ∧
    ∀ w2 svc2,
      sys_exec env hb net (mkSys w1 svc1 (local_jobs cs1)) [] (mkSys w2 svc2 []) →
      ∃ cs2 w3 svc3,
        heartbeat_tick (Ord:=Ord2) env hb net w2 svc2 = Ok (cs2, w3, svc3) ∧
        client_writes cs2 = job_write e ∘ local_job <$> reqs ∧
        ∀ rid q, local_queues_ svc2 !! rid = Some q →
          queued_in q svc3 =
            queued_in q svc2 ++ for_request rid (job_write e ∘ local_job <$> reqs).
Proof.
  intros Hwf He Hun reqs. pose proof (sys_exec_inv env hb net e Heng Hhigh _ _ _ Hwf He) as Hi.
  destruct (sys_tick_inv env hb net e Hhigh Ord1 css w svc Hi)
    as (cs1 & w1 & s1 & E1 & _ & _ & Hi1).
  exists cs1, w1, s1. split; [done|].
  assert (tick (Ord:=Ord1) env hb w = (cs1, w1)) as Ht.
  { unfold heartbeat_tick in E1. destruct (tick (Ord:=Ord1) env hb w) as [c1 v1].
    destruct (if bool_decide _ then _ else _) as [v|]; [|done].
    cbn [mbind result_bind] in E1. congruence. }
  pose proof (sys_tick_jobs Ord1 css w svc cs1 w1 Hi Hun Ht) as Hjobs. split; [done|].
  assert (sys_exec env hb net (mkSys (world_new SystemClock) svc0 []) (css ++ [cs1])
    (mkSys w1 s1 (local_jobs cs1))) as He1.
  { eapply sx_snoc; [exact He|]. exact (sy_tick env hb net Ord1 cs1 w svc w1 s1 E1). }
  split.
  - destruct Hi1 as (_ & _ & Hcl & _). cbn [sys_world] in Hcl.
    destruct (run_jobs_total hb (local_jobs cs1) (request_channel_ w1) Hcl) as (ch & Er).
    exists (w1 <| request_channel_ := ch |>). eapply jobs_exec; [|exact Er].
    replace (w1 <| request_channel_ := request_channel_ w1 |>) with w1 by (by destruct w1).
    apply sx_nil.
  - intros w2 svc2 He2. pose proof (sys_exec_trans _ _ _ _ _ He1 He2) as He3.
    rewrite app_nil_r in He3.
    pose proof (sys_exec_inv env hb net e Heng Hhigh _ _ _ Hwf He3) as Hi3.
    destruct (sys_tick_inv env hb net e Hhigh Ord2 _ w2 svc2 Hi3)
      as (cs2 & w3 & s3 & E3 & Hw & Hq & _).
    assert (job_write e <$> last_jobs (css ++ [cs1]) = job_write e ∘ local_job <$> reqs) as Hl.
    { unfold last_jobs. rewrite last_snoc, Hjobs. symmetry. apply list_fmap_compose. }
    exists cs2, w3, s3. rewrite <- Hl. split; [done|]. split; [done|]. by rewrite <- Hw.
Qed.
End served.

(** ** Instance: one request, from the channel to the response. *)

Lemma demo_sent_exec :
  sys_exec (J:=demo_json) (demo_env 10) demo_local demo_net
    (mkSys (world_new SystemClock) service_new []) [] (mkSys demo_sent service_new []).
Proof.
  apply (sx_snoc _ _ _ _ [] (mkSys (world_new SystemClock) service_new []) []); [apply sx_nil|].
  by apply (sy_request _ _ _ (demo_request "strm-1" "hello")).
Qed.

Lemma local_requests_served_witness :
  ∃ cs1 w1 svc1,
    heartbeat_tick (Ord:=um_default) (J:=demo_json) (demo_env 10) demo_local demo_net
      demo_sent service_new = Ok (cs1, w1, svc1) ∧
    local_jobs cs1 = [local_job (demo_request "strm-1" "hello")].
Proof.
  destruct (local_requests_served (J:=demo_json) (demo_env 10) demo_local demo_net demo_engine
    eq_refl demo_high um_default um_default service_new [] demo_sent service_new
    service_new_wf demo_sent_exec) as (cs1 & w1 & svc1 & H1 & H2 & _).
  { split; vm_compute; congruence. }
  exists cs1, w1, svc1. split; [exact H1|]. rewrite H2. vm_compute. reflexivity.
Defined.
