(* ===== verification/FullServer.v ===== *)
(** * The whole server

    Everything of src/main.cpp at once, with nothing abstracted away: any number of
    calls, each in its own thread (Handlers.v), the heartbeat thread with its tick, the
    dispatch of the responses one access at a time, and the local jobs (System.v), and
    the workers of the bus.  Two projections carry the theorems of the parts over: an
    execution of the whole is one of the world with the jobs, and one of the clients. *)

From S2P Require Import Prelude Messages ChangeSet CopyChannel HexCodec Metrics SessionPool.
From S2P Require Import PendingStore DataBoard Events EventBus LocalEngine WsFrameCodec.
From S2P Require Import Observability Backpressure Evolution World MessageProcessor Heartbeat.
From S2P Require Import Demo HeartbeatSteps HeartbeatFacts RequestFacts Server.
From S2P Require Import Proto RequestParser ResponseWriter Jwt TtsService ServiceFacts.
From S2P Require Import Handlers HandlersFacts HandlersRun System EndToEnd.

Implicit Types (w : World) (svc : Service).

(** The request a step of a handler sends. *)
Definition sent_by (h : Handler) (ch : CopyChannel Message) : list TtsRequestMsg :=
  match h_pc h with
  | HSend r | CSend r => if closed_ ch then [] else [r]
  | _ => []
  end.

Record Full := mkFull {
  fu_world : World;
  fu_service : Service;
  fu_handlers : gmap nat Handler;
  fu_jobs : list LocalSynthJob;
  fu_dispatch : DispatchPc;
  fu_since : gmap nat (list WriteToClient);
}.

Definition full_new : Full :=
  mkFull (world_new SystemClock) service_new ∅ [] (DNext []) ∅.

Section full.
Context {J : NlohmannJson} (env : Env) (hb : HeartbeatConfig) (net : Net).
Context (jwt_at : Z → option (string → string → JwtResult)).

(** A step, labelled with the change sets of ticks and the requests sent.  The loop of
    the heartbeat thread ticks, dispatches the responses to the end, runs the jobs one
    by one, and ticks again; handlers and bus workers come in between. *)
Inductive full_step : Full → list ChangeSet → list TtsRequestMsg → Full → Prop :=
| fs_call now auth call stream w svc hs jobs d since h svc' :
    hs !! stream = None → call_begin (jwt_at now) auth call stream svc = (h, svc') →
    full_step (mkFull w svc hs jobs d since) [] []
      (mkFull w svc' (from_option (λ h, <[stream := h]> hs) hs h) jobs d since)
| fs_handler a stream h w svc hs jobs d since h' ch' svc' :
    hs !! stream = Some h →
    handler_step net stream a h (request_channel_ w) svc = (h', ch', svc') →
    full_step (mkFull w svc hs jobs d since) [] (sent_by h (request_channel_ w))
      (mkFull (w <| request_channel_ := ch' |>) svc' (<[stream := h']> hs) jobs d
         (since_handler stream h since))
| fs_worker ev b w svc hs jobs d since :
    inbox_try_pop (bus_ w) = Some (ev, b) →
    full_step (mkFull w svc hs jobs d since) [] []
      (mkFull (world_publish_sync ev (w <| bus_ := b |>)) svc hs jobs d since)
| fs_tick (Ord : UMapOrder) cs w svc hs since w' :
    tick env hb w = (cs, w') →
    full_step (mkFull w svc hs [] (DNext []) since) [cs] []
      (mkFull w' svc hs (local_jobs cs) (DNext (client_writes cs)) since)
| fs_dispatch w svc hs jobs d since d' svc' :
    dispatch_step net d svc = Ok (d', svc') →
    full_step (mkFull w svc hs jobs d since) [] []
      (mkFull w svc' hs jobs d' (since_dispatch d since))
| fs_job job w svc hs jobs since ch :
    run_jobs hb [job] (request_channel_ w) = Ok ch →
    full_step (mkFull w svc hs (job :: jobs) (DNext []) since) [] []
      (mkFull (w <| request_channel_ := ch |>) svc hs jobs (DNext []) since).

Inductive full_exec : Full → list ChangeSet → list TtsRequestMsg → Full → Prop :=
| fx_nil st : full_exec st [] [] st
| fx_snoc st css reqs st1 css' reqs' st2 :
    full_exec st css reqs st1 → full_step st1 css' reqs' st2 →
    full_exec st (css ++ css') (reqs ++ reqs') st2.

(** ** The world and the jobs *)

(** On empty tables the dispatch does nothing. *)
Lemma dispatch_empty ws : dispatch_to_writers net ws service_new = Ok service_new.
Proof.
  induction ws as [|x ws IH]; [done|]. erewrite dispatch_cons; [exact IH|].
  unfold dispatch_one. cbn. by rewrite !lookup_empty.
Qed.

Lemma handler_step_channel s a h ch svc h' ch' svc' :
  handler_step net s a h ch svc = (h', ch', svc') →
  (ch' = ch ∧ sent_by h ch = []) ∨ ∃ r, sent_by h ch = [r] ∧ send (MsgRequest r) ch = Ok ch' ∧
    (h_pc h = HSend r ∨ h_pc h = CSend r).
Proof.
  intros Hs. unfold handler_step in Hs. unfold sent_by.
  destruct (h_pc h) as [r| |q|q d|q d [|x ws]|q| |f|r|st|] eqn:Ep.
  1,10: unfold send in *; destruct (closed_ ch); injection Hs as <- <- <-; [by left|];
    right; exists r; auto.
  1,2,4,6,7,9,10: injection Hs as <- <- <-; by left.
  - destruct (a_cancelled a); [|destruct (swap_out_all _ _)]; injection Hs as <- <- <-; by left.
  - destruct (stream_write _ _ _ _). injection Hs as <- <- <-. by left.
  - destruct (a_chunk a) as [c|]; [destruct (parse_chunk _ _ _ _) as [r|[what]]|];
      injection Hs as <- <- <-; by left.
Qed.

Lemma world_channel_id w : w <| request_channel_ := request_channel_ w |> = w.
Proof. by destruct w. Qed.

(** World and jobs of an execution of the whole: an execution of [System]. *)
Lemma full_world css reqs st :
  full_exec full_new css reqs st →
  sys_exec env hb net (mkSys (world_new SystemClock) service_new []) css
    (mkSys (fu_world st) service_new (fu_jobs st)).
Proof.
  remember full_new as st0 eqn:E0. intros He.
  induction He as [st|st css reqs st1 css' reqs' st2 He IH Hs]; subst; [apply sx_nil|].
  specialize (IH eq_refl). destruct Hs as [now auth call s w svc hs jobs d since h svc' Hn Hb
    |a s h w svc hs jobs d since h' ch' svc' Hh Hs|ev b w svc hs jobs d since Hb
    |Ord cs w svc hs since w' Ht|w svc hs jobs d since d' svc' Hd|job w svc hs jobs since ch Hj];
    cbn [fu_world fu_jobs] in *.
  - by rewrite app_nil_r.
  - destruct (handler_step_channel s a h _ _ _ _ _ Hs) as [[-> _]|(r & _ & Hr & _)].
    + by rewrite world_channel_id, app_nil_r.
    + eapply sx_snoc; [exact IH|]. by apply (sy_request _ _ _ r).
  - eapply sx_snoc; [exact IH|]. by apply sy_worker.
  - eapply sx_snoc; [exact IH|]. apply (sy_tick _ _ _ Ord). unfold heartbeat_tick.
    rewrite Ht. case_bool_decide; [done|]. by rewrite dispatch_empty.
  - by rewrite app_nil_r.
  - eapply sx_snoc; [exact IH|]. by apply sy_job.
Qed.

(** ** The clients *)

(** The responses of the tick still to be looked up. *)
Definition to_look_up (d : DispatchPc) : list WriteToClient :=
  match d with DNext ws | DLooked _ ws _ _ | DErase _ ws => ws end.

Lemma dispatch_step_rest d svc d' svc' :
  dispatch_step net d svc = Ok (d', svc') → to_look_up d = looks_up d ++ to_look_up d'.
Proof.
  destruct d as [[|x ws]|x ws [q|] [fn|]|rid ws]; cbn; try (by intros [= <- <-]).
  1,2: destruct (send _ _); cbn; by intros [= <- <-].
  intros [= <- _]. by destruct (wc_is_final x).
Qed.

(** Service and handlers of an execution of the whole: an execution of [Handlers], in
    which exactly the responses of the ticks are looked up, in order. *)
Lemma full_clients css reqs st :
  full_exec full_new css reqs st →
  ∃ posted, clients_exec net jwt_at clients_new posted
      (mkClients (fu_service st) (fu_handlers st) (request_channel_ (fu_world st))
         (fu_dispatch st) (fu_since st)) ∧
    css ≫= client_writes = posted ++ to_look_up (fu_dispatch st).
Proof.
  remember full_new as st0 eqn:E0. intros He.
  induction He as [st|st css reqs st1 css' reqs' st2 He IH Hs]; subst.
  { exists []. split; [|done]. eapply (cx_snoc _ _ _ [] _ []); [apply cx_nil|apply ck_channel]. }
  destruct (IH eq_refl) as (posted & Hx & Hp). clear IH.
  assert (∀ c c', clients_exec net jwt_at clients_new posted c → clients_step net jwt_at c [] c' →
    clients_exec net jwt_at clients_new posted c') as Hsn.
  { intros c c' H H'. rewrite <- (app_nil_r posted). by eapply cx_snoc. }
  destruct Hs as [now auth call s w svc hs jobs d since h svc' Hn Hb
    |a s h w svc hs jobs d since h' ch' svc' Hh Hs|ev b w svc hs jobs d since Hb
    |Ord cs w svc hs since w' Ht|w svc hs jobs d since d' svc' Hd|job w svc hs jobs since ch Hj];
    cbn [fu_world fu_service fu_handlers fu_dispatch fu_since] in *; rewrite ?app_nil_r.
  - exists posted. split; [|done]. eapply Hsn; [exact Hx|]. by eapply ck_call.
  - exists posted. split; [|done]. eapply Hsn; [exact Hx|]. by eapply ck_handler.
  - exists posted. split; [|done]. eapply Hsn; [exact Hx|]. apply ck_channel.
  - exists posted. split.
    + eapply Hsn; [eapply Hsn; [exact Hx|apply ck_channel]|apply ck_post].
    + rewrite bind_app, Hp. cbn. by rewrite !app_nil_r.
  - exists (posted ++ looks_up d). split.
    + eapply cx_snoc; [exact Hx|]. by apply ck_dispatch.
    + by rewrite Hp, (dispatch_step_rest d svc d' svc' Hd), app_assoc.
  - exists posted. split; [|done]. eapply Hsn; [exact Hx|]. apply ck_channel.
Qed.
End full.

(** ** Requests and jobs *)

Section jobs.
Context {J : NlohmannJson} (env : Env) (hb : HeartbeatConfig) (net : Net).
Context (jwt_at : Z → option (string → string → JwtResult)).
Context (e : ILocalTtsEngine) (Heng : local_engine_ hb = Some e).
Context (Hhigh : (0 ≤ high_watermark_ (backpressure_cfg hb) < 2 ^ 64)%Z).

(** A request makes at most one job, its own. *)
Lemma request_makes req w :
  ∃ js, local_jobs (changeset_ (handle_request env hb req w)) = local_jobs (changeset_ w) ++ js ∧
        js `sublist_of` [local_job req].
Proof.
  destruct (request_jobs env hb req w) as [_ Hj].
  destruct (handle_request_cases env hb req w) as [[Ha _]|[_ E]].
  - eexists. split; [by apply Hj|]. destruct (should_use_local hb req); [done|apply sublist_nil_l].
  - exists []. split; [by rewrite E, app_nil_r|apply sublist_nil_l].
Qed.

Lemma messages_make {Ord : UMapOrder} batch w :
  Forall from_main batch →
  ∃ js, local_jobs (changeset_ (foldl (handle_message env hb) w batch)) =
          local_jobs (changeset_ w) ++ js ∧ js `sublist_of` local_job <$> requests_of batch.
Proof.
  intros HA. revert w. induction HA as [|m batch Hm _ IH]; intros w.
  { exists []. by rewrite app_nil_r. }
  cbn [foldl]. destruct (IH (handle_message env hb w m)) as (js & E & Hsub). rewrite E.
  unfold requests_of in *. rewrite omap_cons_eq.
  destruct m as [r|r|c|c|f]; try (by destruct Hm as [[? ?]|[? ?]]); cbn [request_of].
  - destruct (request_makes r w) as (js' & E' & Hsub'). cbn [handle_message]. rewrite E'.
    exists (js' ++ js). split; [by rewrite app_assoc|]. rewrite fmap_cons.
    change (local_job r :: ?l) with ([local_job r] ++ l). by apply sublist_app.
  - by exists js.
  - by exists js.
Qed.

(** The jobs of a tick are those of requests that were waiting, in order. *)
Lemma tick_makes (Ord : UMapOrder) css w svc cs w1 :
  sys_inv hb e css (mkSys w svc []) → tick env hb w = (cs, w1) →
  local_jobs cs `sublist_of` local_job <$> requests_of (buffer_ (request_channel_ w)).
Proof.
  intros Hi Ht. destruct (sys_batch hb e css w svc Hi) as [HA _].
  destruct Hi as (_ & Hc & _ & Hws & _ & _ & Hp & _). cbn [sys_world] in *.
  assert (tick_batch w = buffer_ (request_channel_ w)) as Hb
    by (unfold tick_batch; by rewrite Hws, app_nil_r).
  destruct (tick_mid_quiet env hb Ord w HA Hp) as (Hmid & _).
  destruct (tick_start_frame env w) as (_ & Hcs & _).
  pose proof (tick_spec env hb w cs w1 Ht) as Hsp. cbv zeta in Hsp.
  destruct (evolve _ _ _) as [closes b]. destruct Hsp as (-> & _).
  rewrite add_closes_spec, Hmid. cbn [local_jobs].
  destruct (messages_make (tick_batch w) (tick_start env w) HA) as (js & E & Hsub).
  rewrite E, Hcs, Hc, Hb in *. exact Hsub.
Qed.

Lemma requests_of_app b1 b2 : requests_of (b1 ++ b2) = requests_of b1 ++ requests_of b2.
Proof. apply omap_app. Qed.

Lemma job_result_request job : requests_of [job_result e job] = [].
Proof.
  unfold requests_of, job_result, job_message. by destruct (negb _).
Qed.

(** All jobs ever made are, in order, those of requests sent and drained. *)
Lemma full_jobs css reqs st :
  full_exec env hb net jwt_at full_new css reqs st →
  ∃ drained, reqs = drained ++ requests_of (buffer_ (request_channel_ (fu_world st))) ∧
    css ≫= local_jobs `sublist_of` local_job <$> drained.
Proof.
  remember full_new as st0 eqn:E0. intros He.
  induction He as [st|st css reqs st1 css' reqs' st2 He IH Hs]; subst; [by exists []|].
  destruct (IH eq_refl) as (dr & Er & Hsub). clear IH. apply full_world in He.
  apply (sys_exec_inv env hb net e Heng Hhigh) in He; [|apply service_new_wf].
  destruct Hs as [now auth call s w svc hs jobs d since h svc' Hn Hb
    |a s h w svc hs jobs d since h' ch' svc' Hh Hs|ev b w svc hs jobs d since Hb
    |Ord cs w svc hs since w' Ht|w svc hs jobs d since d' svc' Hd|job w svc hs jobs since ch Hj];
    cbn [fu_world fu_jobs] in *; rewrite ?app_nil_r.
  - by exists dr.
  - exists dr. split; [|done].
    destruct (handler_step_channel net s a h _ _ _ _ _ Hs) as [[-> ->]|(r & -> & Hr & _)];
      rewrite Er; [by rewrite app_nil_r|]. unfold send in Hr. destruct (closed_ _); [done|].
    injection Hr as <-. cbn. by rewrite requests_of_app, app_assoc.
  - by exists dr.
  - pose proof (tick_makes Ord css w service_new cs w' He Ht) as Hmk.
    destruct (tick_channels env hb w cs w' Ht) as (Hrc & _). exists reqs. rewrite Hrc. cbn.
    rewrite app_nil_r. split; [done|]. rewrite bind_app, Er, fmap_app. cbn. rewrite app_nil_r.
    by apply sublist_app.
  - by exists dr.
  - exists dr. split; [|done]. apply run_job_spec in Hj as [Hb _]. unfold job_results in Hb.
    rewrite Heng in Hb. cbn in Hb. cbn. by rewrite Hb, requests_of_app, job_result_request, app_nil_r.
Qed.

(** Every response of a tick is the answer to a job of the tick before. *)
Lemma full_writes css reqs st :
  full_exec env hb net jwt_at full_new css reqs st →
  (css ≫= client_writes) ++ (job_write e <$> last_jobs css) = job_write e <$> (css ≫= local_jobs).
Proof.
  remember full_new as st0 eqn:E0. intros He.
  induction He as [st|st css reqs st1 css' reqs' st2 He IH Hs]; subst; [done|].
  specialize (IH eq_refl). destruct Hs; rewrite ?app_nil_r; try exact IH.
  apply full_world in He. apply (sys_exec_inv env hb net e Heng Hhigh) in He; [|apply service_new_wf].
  destruct (sys_tick_inv env hb net e Hhigh Ord css w service_new He) as (cs1 & w1 & s1 & E & Hw & _).
  unfold heartbeat_tick in E. cbn in H. rewrite H in E.
  destruct (if bool_decide _ then _ else _) as [v|]; [|done]. cbn in E. injection E as -> _ _.
  unfold last_jobs at 1. rewrite last_snoc, !bind_app, fmap_app, <- IH. cbn. rewrite !app_nil_r.
  by rewrite Hw.
Qed.
End jobs.

(** ** Request ids *)

Lemma parse_unary_fields proto rid r :
  parse_unary proto rid = Ok r → rq_request_id r = rid ∧ rq_text r = pq_text proto.
Proof.
  unfold parse_unary. destruct (enforce_audio_invariants _); cbn; [|done]. by intros [= <-].
Qed.

Lemma parse_chunk_id c rid initial first r :
  parse_chunk c rid initial first = Ok r → rq_request_id r = rid.
Proof.
  unfold parse_chunk, chunk_settings. destruct first.
  - destruct (enforce_audio_invariants _); cbn [mbind result_bind]; [|done].
    intros H. injection H as <-. by destruct c.
  - cbn [mbind result_bind]. intros H. injection H as <-. by destruct c.
Qed.

(** The requests sent with an id. *)
Definition sent_as (rid : string) (reqs : list TtsRequestMsg) : list TtsRequestMsg :=
  filter (λ r, rq_request_id r = rid) reqs.

Section ids.
Context {J : NlohmannJson} (env : Env) (hb : HeartbeatConfig) (net : Net).
Context (jwt_at : Z → option (string → string → JwtResult)).

(** Requests carry the ids of their calls, and a [SynthesizeStream] call sends at most
    one: the one its client asked for. *)
Record sent_ok (reqs : list TtsRequestMsg) (hs : gmap nat Handler) : Prop := {
  se_call r : r ∈ reqs → ∃ s h, hs !! s = Some h ∧ h_rid h = rq_request_id r;
  se_chunk s h r : hs !! s = Some h → h_pc h = CSend r → rq_request_id r = h_rid h;
  se_once s h request : hs !! s = Some h → h_call h = StreamCall request →
    sent_as (h_rid h) reqs = [] ∨
    ∃ r, sent_as (h_rid h) reqs = [r] ∧ parse_unary request (h_rid h) = Ok r ∧
         ∀ r', h_pc h ≠ HSend r';
}.

Lemma sent_as_snoc rid reqs r :
  sent_as rid (reqs ++ [r]) = sent_as rid reqs ++ (if decide (rq_request_id r = rid) then [r] else []).
Proof. unfold sent_as. rewrite filter_app. f_equal. Qed.

Lemma step_chunk s a h ch svc h' ch' svc' r :
  handler_step net s a h ch svc = (h', ch', svc') → h_pc h' = CSend r →
  h_pc h = CSend r ∨ rq_request_id r = h_rid h.
Proof.
  intros Hs Hr. unfold handler_step in Hs.
  destruct (h_pc h) as [r0| |q|q d|q d [|x ws]|q| |f|r0|st|] eqn:Ep.
  1,10: destruct (send _ ch); by injection Hs as <- <- <-.
  1,2,4,6,7: injection Hs as <- <- <-; cbn in Hr; try done; by destruct (_ <? _)%Z.
  - destruct (a_cancelled a); [|destruct (swap_out_all _ _)]; by injection Hs as <- <- <-.
  - destruct (stream_write _ _ _ _). injection Hs as <- <- <-. cbn in Hr. by destruct (_ || _).
  - destruct (a_chunk a) as [c|]; [|by injection Hs as <- <- <-].
    destruct (parse_chunk c _ _ f) as [r1|[what]] eqn:E; injection Hs as <- <- <-; [|done].
    right. injection Hr as ->. by eapply parse_chunk_id.
  - injection Hs as <- <- <-. congruence.
  - injection Hs as <- <- <-. congruence.
Qed.

(** A step of a handler that sends nothing. *)
Lemma sent_ok_quiet reqs hs s a h ch svc h' ch' svc' :
  sent_ok reqs hs → hs !! s = Some h → handler_step net s a h ch svc = (h', ch', svc') →
  sent_ok reqs (<[s := h']> hs).
Proof.
  intros [S1 S2 S3] Hh Hs. destruct (handler_step_call net s a h ch svc h' ch' svc' Hs)
    as [(E1 & E2 & _ & _ & E5)|[-> _]]; [|by rewrite insert_id].
  split.
  - intros r Hr. destruct (S1 r Hr) as (s' & k & Hk & Ek). destruct (decide (s' = s)) as [->|Hne].
    + exists s, h'. rewrite lookup_insert_eq. split; [done|]. congruence.
    + exists s', k. by rewrite lookup_insert_ne.
  - intros s' k r [[<- <-]|[_ Hk]]%lookup_insert_Some; [|by apply (S2 s')].
    intros Hp. rewrite E1. destruct (step_chunk s a h ch svc h' ch' svc' r Hs Hp); [by apply (S2 s)|done].
  - intros s' k request [[<- <-]|[_ Hk]]%lookup_insert_Some; [|by eapply S3].
    rewrite E1, E2. intros Hc. destruct (S3 s h request Hh Hc) as [?|(r & ? & ? & _)]; [by left|].
    right. by exists r.
Qed.

Lemma sent_ok_send posted since reqs hs d s svc r h :
  clients_ok jwt_at posted since svc hs d → sent_ok reqs hs → hs !! s = Some h →
  h_pc h = HSend r ∨ h_pc h = CSend r →
  rq_request_id r = h_rid h ∧
  (∀ s' k request, hs !! s' = Some k → h_call k = StreamCall request →
     sent_as (h_rid k) (reqs ++ [r]) = sent_as (h_rid k) reqs ∨
     s' = s ∧ sent_as (h_rid k) (reqs ++ [r]) = [r] ∧ parse_unary request (h_rid k) = Ok r).
Proof.
  intros Hok [S1 S2 S3] Hh Hp. pose proof (co_handler _ _ _ _ _ _ Hok s h Hh) as Hk.
  assert (rq_request_id r = h_rid h) as Er.
  { destruct Hp as [Hp|Hp]; [|by apply (S2 s)].
    destruct (hk_send _ _ _ _ _ _ _ Hk r Hp) as (request & _ & Hr). by apply parse_unary_fields in Hr as [-> _]. }
  split; [done|]. intros s' k request Hs' Hc. rewrite sent_as_snoc, Er.
  case_decide as E; [|left; by rewrite app_nil_r].
  assert (s' = s) as -> by (by eapply (co_inj _ _ _ _ _ _ Hok)). right.
  assert (k = h) as -> by congruence. destruct Hp as [Hp|Hp].
  - destruct (hk_send _ _ _ _ _ _ _ Hk r Hp) as (request' & Hc' & Hr).
    destruct (S3 s h request Hh Hc) as [E0|(r' & _ & _ & Hne)]; [|by destruct (Hne r)].
    rewrite E0. split_and!; [done..|]. congruence.
  - pose proof (hk_pc _ _ _ _ _ _ _ Hk) as Hpc. rewrite Hc, Hp in Hpc. done.
Qed.

Lemma sent_not_again s a h ch svc h' ch' svc' r :
  handler_step net s a h ch svc = (h', ch', svc') → h_pc h = HSend r ∨ h_pc h = CSend r →
  ∀ r', h_pc h' ≠ HSend r'.
Proof.
  intros Hs Hp r'. unfold handler_step in Hs.
  destruct Hp as [Hp|Hp]; rewrite Hp in Hs; destruct (send _ ch); by injection Hs as <- <- <-.
Qed.

Lemma sent_ok_handler posted since reqs hs d s a svc ch h h' ch' svc' :
  clients_ok jwt_at posted since svc hs d → sent_ok reqs hs → hs !! s = Some h →
  handler_step net s a h ch svc = (h', ch', svc') →
  sent_ok (reqs ++ sent_by h ch) (<[s := h']> hs).
Proof.
  intros Hok Hse Hh Hs. pose proof (sent_ok_quiet reqs hs s a h ch svc h' ch' svc' Hse Hh Hs) as Hq.
  destruct (handler_step_channel net s a h ch svc h' ch' svc' Hs) as [[_ ->]|(r & -> & _ & Hp)];
    [by rewrite app_nil_r|].
  destruct (sent_ok_send posted since reqs hs d s svc r h Hok Hse Hh Hp) as [Er Hsend].
  destruct (step_same_call net svc s a h ch h' ch' svc' Hs) as [E1 E2]. destruct Hq as [Q1 Q2 Q3].
  split; [|done|].
  - intros r' [Hr|Hr%list_elem_of_singleton]%elem_of_app; [by apply Q1|]. subst r'.
    exists s, h'. rewrite lookup_insert_eq. split; [done|]. congruence.
  - intros s' k request Hk Hc. pose proof (Q3 s' k request Hk Hc) as Hold.
    apply lookup_insert_Some in Hk as [[<- <-]|[Hne Hk]].
    + rewrite E1, E2 in *. destruct (Hsend s h request Hh Hc) as [-> |(_ & E & Hr)]; [done|].
      right. exists r. split_and!; [done..|]. by eapply sent_not_again.
    + destruct (Hsend s' k request Hk Hc) as [-> |(E & _)]; [done|]. by destruct Hne.
Qed.

Lemma sent_ok_call posted since reqs hs d s svc h :
  clients_ok jwt_at posted since svc (<[s := h]> hs) d → sent_ok reqs hs → hs !! s = None →
  (∀ r, h_pc h ≠ CSend r) → sent_ok reqs (<[s := h]> hs).
Proof.
  intros Hok [S1 S2 S3] Hn Hpc. assert (∀ s' k, hs !! s' = Some k → s' ≠ s) as Hne by congruence.
  split.
  - intros r Hr. destruct (S1 r Hr) as (s' & k & Hk & E). exists s', k.
    rewrite lookup_insert_ne; [done|]. by apply not_eq_sym, (Hne s' k).
  - intros s' k r [[<- <-]|[_ Hk]]%lookup_insert_Some; [|by apply (S2 s')]. intros E. by destruct (Hpc r).
  - intros s' k request [[<- <-]|[_ Hk]]%lookup_insert_Some; [|by eapply S3]. intros _. left.
    unfold sent_as. destruct (filter _ reqs) as [|r l] eqn:E; [done|].
    assert (r ∈ filter (λ r, rq_request_id r = h_rid h) reqs) as Hr by (rewrite E; left).
    apply list_elem_of_filter in Hr as [Er Hr]. destruct (S1 r Hr) as (s' & k & Hk & Ek).
    destruct (Hne s' k Hk). apply (co_inj _ _ _ _ _ _ Hok s' s k h).
    + rewrite lookup_insert_ne; [done|]. by apply not_eq_sym, (Hne s' k).
    + apply lookup_insert_eq.
    + congruence.
Qed.

Lemma full_step_size st css reqs st' :
  full_step env hb net jwt_at st css reqs st' →
  size (fu_handlers st) ≤ size (fu_handlers st').
Proof.
  destruct 1 as [now auth call s w svc hs jobs d since [h|] svc' Hn _
    |a s h w svc hs jobs d since h' ch' svc' Hh _| | | |]; cbn;
    [rewrite map_size_insert_None by done; lia|done|by rewrite map_size_insert_Some by eauto|done..].
Qed.

Lemma full_clients_ok css reqs st :
  full_exec env hb net jwt_at full_new css reqs st →
  (Z.of_nat (size (fu_handlers st)) < 2 ^ 64 - 1)%Z →
  ∃ posted, clients_ok jwt_at posted (fu_since st) (fu_service st) (fu_handlers st) (fu_dispatch st) ∧
    css ≫= client_writes = posted ++ to_look_up (fu_dispatch st).
Proof.
  intros He Hz. apply full_clients in He as (posted & Hx & Hp). exists posted. split; [|done].
  by apply clients_exec_ok in Hx.
Qed.

Lemma full_sent css reqs st :
  full_exec env hb net jwt_at full_new css reqs st →
  (Z.of_nat (size (fu_handlers st)) < 2 ^ 64 - 1)%Z → sent_ok reqs (fu_handlers st).
Proof.
  remember full_new as st0 eqn:E0. intros He.
  induction He as [st|st css reqs st1 css' reqs' st2 He IH Hs]; subst; intros Hz.
  { split; cbn; [by intros r Hr%not_elem_of_nil|..]; intros *; by rewrite lookup_empty. }
  pose proof (full_step_size _ _ _ _ Hs) as Hle. specialize (IH eq_refl ltac:(lia)).
  pose proof (full_clients_ok _ _ _ He ltac:(lia)) as (posted & Hok & _).
  pose proof (full_clients_ok _ _ _ (fx_snoc _ _ _ _ _ _ _ _ _ _ _ He Hs) Hz) as (posted' & Hok' & _).
  destruct Hs as [now auth call s w svc hs jobs d since [h|] svc' Hn Hb
    |a s h w svc hs jobs d since h' ch' svc' Hh Hs| | | |]; cbn in *; rewrite ?app_nil_r; try done.
  - eapply sent_ok_call; try done. by apply call_begin_spec in Hb as (_ & _ & _ & _ & _ & _ & _ & _ & _ & _ & _ & _ & ?).
  - by eapply sent_ok_handler.
Qed.
End ids.

(** ** The answer to one's own request *)

Section answer.
Context {J : NlohmannJson} (env : Env) (hb : HeartbeatConfig) (net : Net).
Context (jwt_at : Z → option (string → string → JwtResult)).
Context (e : ILocalTtsEngine) (Heng : local_engine_ hb = Some e).
Context (Hhigh : (0 ≤ high_watermark_ (backpressure_cfg hb) < 2 ^ 64)%Z).

Lemma jobs_sent_as rid reqs :
  filter (λ j, lj_request_id j = rid) (local_job <$> reqs) = local_job <$> sent_as rid reqs.
Proof. unfold sent_as. by rewrite filter_fmap. Qed.

(** The responses dispatched with an id answer requests sent with it. *)
Lemma dispatched_answers rid css reqs st :
  full_exec env hb net jwt_at full_new css reqs st →
  for_request rid (css ≫= client_writes) `sublist_of` job_write e ∘ local_job <$> sent_as rid reqs.
Proof.
  intros He. destruct (full_jobs env hb net jwt_at e Heng Hhigh css reqs st He) as (dr & Er & Hsub).
  pose proof (full_writes env hb net jwt_at e Heng Hhigh css reqs st He) as Hw.
  trans (for_request rid (job_write e <$> (css ≫= local_jobs))).
  { apply filter_sublist. rewrite <- Hw. by apply sublist_inserts_r. }
  rewrite for_request_jobs, list_fmap_compose, <- jobs_sent_as. apply fmap_sublist, filter_sublist.
  etrans; [exact Hsub|]. apply fmap_sublist. rewrite Er. by apply sublist_inserts_r.
Qed.

(** What has been looked up for a call since its registration: nothing, or the answer to
    its own request. *)
Lemma looked_up_answer css reqs st s h request after :
  full_exec env hb net jwt_at full_new css reqs st →
  (Z.of_nat (size (fu_handlers st)) < 2 ^ 64 - 1)%Z →
  fu_handlers st !! s = Some h → h_call h = StreamCall request → fu_since st !! s = Some after →
  for_request (h_rid h) after = [] ∨
  ∃ r, parse_unary request (h_rid h) = Ok r ∧
       for_request (h_rid h) after = [job_write e (local_job r)].
Proof.
  intros He Hz Hh Hc Hsi. destruct (full_clients_ok env hb net jwt_at css reqs st He Hz) as (posted & Hok & Hp).
  destruct (hk_since _ _ _ _ _ _ _ (co_handler _ _ _ _ _ _ Hok s h Hh) after Hsi) as [before Eb].
  assert (for_request (h_rid h) after `sublist_of` job_write e ∘ local_job <$> sent_as (h_rid h) reqs)
    as Hsub.
  { etrans; [|by eapply dispatched_answers]. apply filter_sublist. rewrite Hp, Eb.
    by apply sublist_inserts_r, sublist_inserts_l. }
  destruct (se_once _ _ (full_sent env hb net jwt_at css reqs st He Hz) s h request Hh Hc)
    as [E|(r & E & Hr & _)]; rewrite E in Hsub.
  - apply sublist_nil_r in Hsub as ->. by left.
  - apply sublist_singleton in Hsub as [-> | ->]; [by left|]. right. by exists r.
Qed.

Lemma full_heard css reqs st s h request :
  full_exec env hb net jwt_at full_new css reqs st →
  (Z.of_nat (size (fu_handlers st)) < 2 ^ 64 - 1)%Z →
  fu_handlers st !! s = Some h → h_call h = StreamCall request →
  stream_heard (fu_since st !! s) (fu_service st) (fu_dispatch st) s h.
Proof.
  intros He Hz Hh Hc. destruct (full_clients_ok env hb net jwt_at css reqs st He Hz) as (posted & Hok & _).
  pose proof (hk_heard _ _ _ _ _ _ _ (co_handler _ _ _ _ _ _ Hok s h Hh)) as K. by rewrite Hc in K.
Qed.

(** A client is written nothing, or one response: the answer to its own request. *)
Lemma own_answer css reqs st s h request :
  full_exec env hb net jwt_at full_new css reqs st →
  (Z.of_nat (size (fu_handlers st)) < 2 ^ 64 - 1)%Z →
  fu_handlers st !! s = Some h → h_call h = StreamCall request →
  stream_log s (fu_service st) = [] ∨
  ∃ r, parse_unary request (h_rid h) = Ok r ∧
       stream_log s (fu_service st) = [to_proto (job_write e (local_job r))].
Proof.
  intros He Hz Hh Hc. pose proof (full_heard css reqs st s h request He Hz Hh Hc) as K.
  destruct (fu_since st !! s) as [after|] eqn:Hsi; [|by left; destruct K].
  destruct K as (heard & rest & -> & E2 & _).
  destruct (looked_up_answer css reqs st s h request after He Hz Hh Hc Hsi) as [E|(r & Hr & E)];
    rewrite E in E2; destruct heard as [|x heard]; try (by left).
  injection E2 as <- E2. symmetry in E2. apply app_nil in E2 as [-> _]. right. by exists r.
Qed.

(** Whatever the method: a client is written answers to requests sent with its own id,
    in the order they were sent, each at most once. *)
Lemma own_answers css reqs st s h :
  full_exec env hb net jwt_at full_new css reqs st →
  (Z.of_nat (size (fu_handlers st)) < 2 ^ 64 - 1)%Z → fu_handlers st !! s = Some h →
  ∃ rs, rs `sublist_of` sent_as (h_rid h) reqs ∧
        stream_log s (fu_service st) = to_proto ∘ job_write e ∘ local_job <$> rs.
Proof.
  intros He Hz Hh. destruct (full_clients_ok env hb net jwt_at css reqs st He Hz) as (posted & Hok & Hp).
  pose proof (co_handler _ _ _ _ _ _ Hok s h Hh) as [_ _ _ _ K5 K6 _].
  assert (∃ heard, stream_log s (fu_service st) = to_proto <$> heard ∧
    heard `sublist_of` for_request (h_rid h) posted) as (heard & -> & Hs).
  { destruct (is_stream (h_call h)).
    - destruct (fu_since st !! s) as [after|]; [|exists []; destruct K5; split; [done|apply sublist_nil_l]].
      destruct K5 as (heard & rest & E1 & E2 & _). destruct (K6 after eq_refl) as [before ->].
      exists heard. split; [done|]. trans (for_request (h_rid h) after).
      + rewrite E2. by apply sublist_inserts_r.
      + apply filter_sublist. by apply sublist_inserts_l.
    - destruct K5 as (heard & E1 & E2). exists heard. split; [done|]. etrans; [|exact E2].
      by apply sublist_inserts_r. }
  destruct (sublist_fmap_inv (job_write e ∘ local_job) heard (sent_as (h_rid h) reqs)) as (rs & -> & Hrs).
  { etrans; [exact Hs|]. etrans; [|by eapply dispatched_answers]. apply filter_sublist. rewrite Hp.
    by apply sublist_inserts_r. }
  exists rs. split; [done|]. by rewrite <- list_fmap_compose.
Qed.

(** Once the answer was looked up, the handler, let run in time, writes it and returns. *)
Lemma answer_written css reqs st s h request after a ws :
  full_exec env hb net jwt_at full_new css reqs st →
  (Z.of_nat (size (fu_handlers st)) < 2 ^ 64 - 1)%Z →
  fu_handlers st !! s = Some h → h_call h = StreamCall request →
  fu_since st !! s = Some after → for_request (h_rid h) after ≠ [] →
  has_erased (h_pc h) = false → fu_dispatch st = DNext ws → in_time a (h_pc h) →
  (∀ n, write_result net n = true) →
  ∃ n r, parse_unary request (h_rid h) = Ok r ∧
    let '(h', svc') := handler_run net s n a h (fu_service st) in
    h_pc h' = HReturned Status_OK ∧
    stream_log s svc' = [to_proto (job_write e (local_job r))].
Proof.
  intros He Hz Hh Hc Hsi Hne Her Hd Ht Hnet.
  pose proof (full_heard css reqs st s h request He Hz Hh Hc) as K. rewrite Hsi, Hd in K.
  destruct (looked_up_answer css reqs st s h request after He Hz Hh Hc Hsi) as [?|(r & Hr & E)]; [done|].
  destruct (job_write_fields e (local_job r)) as (_ & Hfin & _).
  destruct (finish_alone net s Hnet after a h (fu_service st) (DNext ws) K Her) as [n Hn]; try done.
  { rewrite E. cbn. by rewrite Hfin. }
  exists n, r. split; [done|]. destruct (handler_run _ _ n a h _) as [h' svc'].
  destruct Hn as [-> Hl]. split; [done|]. rewrite Hl, E. cbn. by rewrite Hfin.
Qed.
End answer.

(** ** Schedules *)

Inductive FullMove : Type :=
| FCall (now : Z) (auth : option string) (call : Call) (stream : nat)
| FHandler (a : Answers) (stream : nat)
| FTick
| FDispatch
| FJob.

Section moves.
Context {J : NlohmannJson} {Ord : UMapOrder} (env : Env) (hb : HeartbeatConfig) (net : Net).
Context (jwt_at : Z → option (string → string → JwtResult)).

Definition full_move (m : FullMove) (st : Full) : option (list ChangeSet * list TtsRequestMsg * Full) :=
  let '(mkFull w svc hs jobs d since) := st in
  match m with
  | FCall now auth call stream =>
      match hs !! stream with
      | Some _ => None
      | None =>
          let '(h, svc) := call_begin (jwt_at now) auth call stream svc in
          Some ([], [], mkFull w svc (from_option (λ h, <[stream := h]> hs) hs h) jobs d since)
      end
  | FHandler a stream =>
      h ← hs !! stream;
      let '(h', ch, svc) := handler_step net stream a h (request_channel_ w) svc in
      Some ([], sent_by h (request_channel_ w),
            mkFull (w <| request_channel_ := ch |>) svc (<[stream := h']> hs) jobs d
              (since_handler stream h since))
  | FTick =>
      match jobs, d with
      | [], DNext [] =>
          let '(cs, w) := tick env hb w in
          Some ([cs], [], mkFull w svc hs (local_jobs cs) (DNext (client_writes cs)) since)
      | _, _ => None
      end
  | FDispatch =>
      match dispatch_step net d svc with
      | Ok (d', svc) => Some ([], [], mkFull w svc hs jobs d' (since_dispatch d since))
      | Throw _ => None
      end
  | FJob =>
      match jobs, d with
      | job :: jobs, DNext [] =>
          match run_jobs hb [job] (request_channel_ w) with
          | Ok ch => Some ([], [], mkFull (w <| request_channel_ := ch |>) svc hs jobs d since)
          | Throw _ => None
          end
      | _, _ => None
      end
  end.

Fixpoint full_moves (ms : list FullMove) (css : list ChangeSet) (reqs : list TtsRequestMsg)
    (st : Full) : option (list ChangeSet * list TtsRequestMsg * Full) :=
  match ms with
  | [] => Some (css, reqs, st)
  | m :: ms =>
      '(css', reqs', st) ← full_move m st; full_moves ms (css ++ css') (reqs ++ reqs') st
  end.

Lemma full_move_step m st css reqs st' :
  full_move m st = Some (css, reqs, st') → full_step env hb net jwt_at st css reqs st'.
Proof.
  destruct st as [w svc hs jobs d since]. destruct m as [now auth call s|a s| | |]; cbn [full_move].
  - destruct (hs !! s) eqn:Hs; [done|]. destruct (call_begin _ _ _ _ _) as [h svc'] eqn:Hb.
    intros [= <- <- <-]. by eapply fs_call.
  - destruct (hs !! s) as [h|] eqn:Hs; [|done]. cbn [mbind option_bind].
    destruct (handler_step _ _ _ _ _ _) as [[h' ch'] svc'] eqn:Hb.
    intros [= <- <- <-]. by eapply fs_handler.
  - destruct jobs; [|done]. destruct d as [[|]| |]; try done.
    destruct (tick env hb w) as [cs w'] eqn:Ht. intros [= <- <- <-]. by apply (fs_tick _ _ _ _ Ord).
  - destruct (dispatch_step net d svc) as [[d' svc']|] eqn:Hd; [|done]. intros [= <- <- <-].
    by apply fs_dispatch.
  - destruct jobs as [|job jobs]; [done|]. destruct d as [[|]| |]; try done.
    destruct (run_jobs hb [job] (request_channel_ w)) as [ch|] eqn:Hr; [|done].
    intros [= <- <- <-]. by apply fs_job.
Qed.

Lemma full_moves_exec ms css reqs st0 st css' reqs' st' :
  full_exec env hb net jwt_at st0 css reqs st → full_moves ms css reqs st = Some (css', reqs', st') →
  full_exec env hb net jwt_at st0 css' reqs' st'.
Proof.
  revert css reqs st. induction ms as [|m ms IH]; intros css reqs st He Hm; cbn in Hm.
  { by injection Hm as <- <- <-. }
  destruct (full_move m st) as [[[cs1 r1] st1]|] eqn:E; [|done]. cbn in Hm.
  eapply IH; [|exact Hm]. eapply fx_snoc; [exact He|]. by eapply full_move_step.
Qed.
End moves.
