(* ===== verification/Trip.v ===== *)
(** * A client's whole trip

    The heartbeat thread, the job loop, the bus workers, the service's tables and one
    [SynthesizeStream] handler, interleaved: [System] follows requests to the queue of
    their handler and [ServiceFacts] follows a queue to the client; here both run at
    once, and the response the client reads is traced back to the samples the engine
    made.  The engine is any that keeps the promise of its interface ([EngineLaws]). *)

From S2P Require Import Prelude Messages ChangeSet CopyChannel HexCodec Metrics SessionPool.
From S2P Require Import PendingStore DataBoard Events EventBus LocalEngine WsFrameCodec.
From S2P Require Import Observability Backpressure Evolution World MessageProcessor Heartbeat.
From S2P Require Import Demo HeartbeatSteps HeartbeatFacts RequestFacts Server.
From S2P Require Import Proto RequestParser ResponseWriter Jwt TtsService ServiceFacts System.

Section trip.
Context {J : NlohmannJson} (env : Env) (hb : HeartbeatConfig) (net : Net).
Context (Hnet : ∀ n, write_result net n = true).
Context (e : ILocalTtsEngine) (Heng : local_engine_ hb = Some e).
Context (Hhigh : (0 ≤ high_watermark_ (backpressure_cfg hb) < 2 ^ 64)%Z).
Context (rid : string) (stream : nat).

(** The system, the handler's point, and the responses dispatched for its request. *)
Record Trip := mkTrip { tr_sys : SysState; tr_hist : list WriteToClient; tr_pc : StreamPc }.

(** A request of any client, a bus worker's or a job's step; a tick; a poll of the
    handler, not cancelled and before its deadline; a step of another handler. *)
Inductive trip_step : Trip → list ChangeSet → Trip → Prop :=
| tp_background st st' hist pc :
    sys_step env hb net st [] st' → sys_service st' = sys_service st →
    trip_step (mkTrip st hist pc) [] (mkTrip st' hist pc)
| tp_tick (Ord : UMapOrder) cs w svc w' svc' hist pc :
    heartbeat_tick env hb net w svc = Ok (cs, w', svc') →
    trip_step (mkTrip (mkSys w svc []) hist pc) [cs]
      (mkTrip (mkSys w' svc' (local_jobs cs)) (hist ++ for_request rid (client_writes cs)) pc)
| tp_poll now w svc jobs hist pc pc' svc' :
    match pc with PcPolling _ _ d => (now ≤ d)%Z | _ => True end →
    stream_step net stream false now pc svc = (pc', svc') →
    trip_step (mkTrip (mkSys w svc jobs) hist pc) [] (mkTrip (mkSys w svc' jobs) hist pc')
| tp_other w svc jobs hist pc svc' :
    others rid stream svc svc' →
    trip_step (mkTrip (mkSys w svc jobs) hist pc) [] (mkTrip (mkSys w svc' jobs) hist pc).

Inductive trip_exec : Trip → list ChangeSet → Trip → Prop :=
| tx_nil t : trip_exec t [] t
| tx_snoc t css t1 css' t2 :
    trip_exec t css t1 → trip_step t1 css' t2 → trip_exec t (css ++ css') t2.

(** Each tick answers the jobs of the one before. *)
Definition answered (css : list ChangeSet) : Prop :=
  ∀ i cs1 cs2, css !! i = Some cs1 → css !! S i = Some cs2 →
    client_writes cs2 = job_write e <$> local_jobs cs1.

Definition trip_inv (css0 : list ChangeSet) (base : list PbSynthesizeResponse)
    (css : list ChangeSet) (t : Trip) : Prop :=
  sys_inv hb e (css0 ++ css) (tr_sys t) ∧
  session_inv rid stream base (tr_hist t, tr_pc t, sys_service (tr_sys t)) ∧
  tr_hist t = for_request rid (css ≫= client_writes) ∧ answered css.

Lemma answered_snoc css0 css cs :
  answered css → client_writes cs = job_write e <$> last_jobs (css0 ++ css) →
  answered (css ++ [cs]).
Proof.
  intros Ha Hc i cs1 cs2 H1 H2. destruct (decide (S i < length css)) as [Hl|Hl].
  - rewrite lookup_app_l in H1, H2 by lia. by eapply Ha.
  - apply lookup_lt_Some in H2 as Hlt. rewrite length_app in Hlt. cbn in Hlt.
    rewrite lookup_app_r in H2 by lia. replace (S i - length css) with 0 in H2 by lia.
    injection H2 as <-. rewrite lookup_app_l in H1 by lia.
    rewrite Hc. unfold last_jobs. do 2 f_equal.
    assert (last (css0 ++ css) = Some cs1) as ->; [|done].
    rewrite last_lookup, length_app. replace (pred (length css0 + length css)) with (length css0 + i) by lia.
    rewrite lookup_app_r by lia. by replace (length css0 + i - length css0) with i by lia.
Qed.

Lemma tick_dispatches (Ord : UMapOrder) cs w svc w' svc' :
  heartbeat_tick env hb net w svc = Ok (cs, w', svc') →
  dispatch_to_writers net (client_writes cs) svc = Ok svc'.
Proof.
  unfold heartbeat_tick. destruct (tick env hb w) as [c v].
  case_bool_decide as Hc; [|destruct (dispatch_to_writers _ _ _) as [s|] eqn:E];
    cbn [mbind result_bind]; try done; intros [= <- <- <-]; [by rewrite Hc|done].
Qed.

Lemma trip_inv_step css0 base css t css' t' :
  trip_inv css0 base css t → trip_step t css' t' → trip_inv css0 base (css ++ css') t'.
Proof.
  intros (Hi & Hs & Hh & Ha) Ht. destruct Ht as [st st' hist pc Hst Hsv
    |Ord cs w svc w' svc' hist pc Ht|now w svc jobs hist pc pc' svc' Hn Hp|w svc jobs hist pc svc' Ho];
    cbn [tr_sys tr_hist tr_pc sys_service] in *; rewrite ?app_nil_r.
  - pose proof (sys_step_inv env hb net e Heng Hhigh _ _ _ _ Hi Hst) as Hi'. rewrite app_nil_r in Hi'.
    split_and!; cbn [tr_sys tr_hist tr_pc]; [done| |done|done]. by rewrite Hsv.
  - destruct (sys_tick_inv env hb net e Hhigh Ord _ w svc Hi) as (cs1 & w1 & s1 & E & Hw & _ & Hi').
    rewrite Ht in E. injection E as <- <- <-. rewrite <- app_assoc in Hi'.
    split_and!; cbn [tr_sys tr_hist tr_pc sys_service].
    + done.
    + apply (session_dispatch net rid stream base hist pc svc); [done|]. by eapply tick_dispatches.
    + rewrite Hh. unfold for_request. rewrite bind_app, filter_app. cbn. by rewrite app_nil_r.
    + by apply (answered_snoc css0).
  - assert (session_inv rid stream base (hist, pc', svc')) as Hs'.
    { destruct pc as [| |r q d|s|]; try (by destruct Hs as (_ & _ & [])).
      - pose proof (session_poll net Hnet rid stream base hist r q d svc now Hs Hn) as H.
        rewrite Hp in H. apply H.
      - cbn in Hp. by injection Hp as <- <-. }
    split_and!; cbn [tr_sys tr_hist tr_pc sys_service]; [|done..].
    destruct Hi as [_ Hi]. destruct Hs' as [Hwf _]. split; [exact Hwf|exact Hi].
  - pose proof (session_other rid stream base hist pc svc svc' Hs Ho) as Hs'.
    split_and!; cbn [tr_sys tr_hist tr_pc sys_service]; [|done..].
    destruct Hi as [_ Hi]. destruct Hs' as [Hwf _]. split; [exact Hwf|exact Hi].
Qed.

Lemma trip_exec_inv css0 base t css t' :
  trip_exec t css t' → trip_inv css0 base [] t → trip_inv css0 base css t'.
Proof.
  intros He Hi. induction He as [t|t css t1 css' t2 _ IH Hs]; [done|].
  eapply trip_inv_step; [by apply IH|done].
Qed.

(** The first response for the request is the answer to its job. *)
Lemma trip_first css i cs1 cs2 job :
  answered css → css !! i = Some cs1 → css !! S i = Some cs2 →
  filter (λ j, lj_request_id j = rid) (local_jobs cs1) = [job] →
  for_request rid (take (S i) css ≫= client_writes) = [] →
  until_final (for_request rid (css ≫= client_writes)) = [job_write e job] ∧
  has_final (for_request rid (css ≫= client_writes)) = true.
Proof.
  intros Ha H1 H2 Hj Hn. pose proof (Ha i cs1 cs2 H1 H2) as Hc.
  rewrite <- (take_drop_middle css (S i) cs2 H2). rewrite bind_app. cbn [mbind list_bind].
  unfold for_request in *. rewrite !filter_app, Hn, Hc.
  pose proof (for_request_jobs e rid (local_jobs cs1)) as Hf. unfold for_request in Hf.
  rewrite Hf, Hj. destruct (job_write_fields e job) as (_ & Hfin & _). cbn. by rewrite Hfin.
Qed.

(** What the client reads as the response to a job. *)
Lemma response_audio rate job :
  EngineLaws rate e →
  let r := Synthesize e (lj_text job) (lj_voice_id job) (lj_speed job) in
  let response := to_proto (job_write e job) in
  pp_is_final response = true ∧ pp_status_code response = lr_status_code r ∧
  samples_of_bytes (pp_audio response) = lr_samples r ∧
  (lr_status_code r = 0%Z → pm_sample_rate (pp_meta response) = rate).
Proof.
  intros Hl r response. destruct (job_write_fields e job) as (_ & H1 & H2 & H3).
  destruct (Hl (lj_text job) (lj_voice_id job) (lj_speed job)) as (Hr & Hs & Hc). fold r in Hr, Hs, Hc.
  split_and!; [done|done| |].
  - unfold response. cbn. rewrite H3. cbv zeta. fold r.
    destruct Hc as [-> |[-> ->]]; [|done]. cbn. by apply samples_of_sample_bytes.
  - intros H0. unfold response, job_write, job_result, job_message. fold r. rewrite H0. cbn. done.
Qed.

(** The handler has returned OK, or its next poll in time does, having written one
    response to its client: final, with the engine's status for the job, and with audio
    bytes that read as the samples the engine made, at the given rate. *)
Definition hears (rate : Z) (job : LocalSynthJob) (svc : Service) (t : Trip) : Prop :=
  let svc' := sys_service (tr_sys t) in
  let r := Synthesize e (lj_text job) (lj_voice_id job) (lj_speed job) in
  let response := to_proto (job_write e job) in
  let served pc svc'' :=
    pc = PcDone Status_OK ∧ stream_log stream svc'' = stream_log stream svc ++ [response] in
  (served (tr_pc t) svc' ∨
   ∃ q' d', tr_pc t = PcPolling rid q' d' ∧ ∀ now, (now ≤ d')%Z →
     let '(pc', svc'') := stream_step net stream false now (tr_pc t) svc' in served pc' svc'') ∧
  pp_is_final response = true ∧ pp_status_code response = lr_status_code r ∧
  samples_of_bytes (pp_audio response) = lr_samples r ∧
  (lr_status_code r = 0%Z → pm_sample_rate (pp_meta response) = rate).

(** With any engine that keeps its promise, the client hears what the engine made. *)
Lemma trip_hears rate svc0 css0 w svc jobs q d css t i cs1 cs2 job :
  EngineLaws rate e → svc_wf svc0 →
  sys_exec env hb net (mkSys (world_new SystemClock) svc0 []) css0 (mkSys w svc jobs) →
  local_queues_ svc !! rid = Some q → queued_in q svc = [] →
  (∀ r, writers_ svc !! r = Some stream → r = rid) →
  trip_exec (mkTrip (mkSys w svc jobs) [] (PcPolling rid q d)) css t →
  css !! i = Some cs1 → css !! S i = Some cs2 →
  filter (λ j, lj_request_id j = rid) (local_jobs cs1) = [job] →
  for_request rid (take (S i) css ≫= client_writes) = [] →
  hears rate job svc t.
Proof.
  intros Hl Hwf He Hq He0 Hu Ht H1 H2 Hj Hn. unfold hears. set (svc' := sys_service (tr_sys t)).
  cbv zeta. split; [|by apply response_audio].
  pose proof (sys_exec_inv env hb net e Heng Hhigh _ _ _ Hwf He) as Hi.
  assert (trip_inv css0 (stream_log stream svc) css t) as (_ & Hs & Hh & Ha).
  { eapply trip_exec_inv; [exact Ht|]. split_and!; cbn [tr_sys tr_hist tr_pc sys_service].
    - by rewrite app_nil_r.
    - destruct Hi as [W _]. split_and!; [done..|]. exists []. rewrite He0. cbn.
      by rewrite app_nil_r.
    - done.
    - intros k ? ? Hk. by rewrite lookup_nil in Hk. }
  destruct (trip_first css i cs1 cs2 job Ha H1 H2 Hj Hn) as [Hf Hfin]. rewrite <- Hh in Hf, Hfin.
  fold svc' in Hs. destruct (tr_pc t) as [| |r' q' d'|st|] eqn:Ep; try (by destruct Hs as (_ & _ & [])).
  - right. destruct Hs as (Hs1 & Hs2 & -> & Hs3).
    exists q', d'. split; [done|]. intros now Hnow.
    pose proof (session_poll net Hnet rid stream _ _ rid q' d' svc' now (conj Hs1 (conj Hs2 (conj eq_refl Hs3))) Hnow) as Hp.
    destruct (stream_step _ _ _ _ _ _) as [pc' s2]. destruct Hp as [Hp Hd]. rewrite (Hd Hfin) in *.
    destruct Hp as (_ & _ & _ & _ & _ & _ & Hlog). split; [done|]. by rewrite Hlog, Hf.
  - left. destruct Hs as (_ & _ & -> & _ & _ & _ & Hlog). split; [done|]. by rewrite Hlog, Hf.
Qed.
End trip.
