(* ===== verification/Rounding.v ===== *)
(** * Rounding of [SpecFloat] operations

    Rounding to nearest cannot cross a representable number: if the exact product or
    quotient of two positive numbers is at most a representable bound, so is the
    rounded one, and no overflow occurs.  This is what the bounds on sample indices
    and sample values need, for every precision.

    A positive number [m * 2 ^ e] is compared with others as the integer
    [m * 2 ^ (e + K)], for a [K] that makes all exponents non-negative. *)

From Stdlib Require Import SpecFloat.
From S2P Require Import Prelude.

Local Open Scope Z_scope.

(** ** Digits and shifts *)

Lemma digits2_pos_bounds (m : positive) :
  2 ^ (Zpos (digits2_pos m) - 1) ≤ Zpos m < 2 ^ Zpos (digits2_pos m).
Proof.
  induction m as [p IH|p IH|]; [| |done]; cbn [digits2_pos]; rewrite Pos2Z.inj_succ;
    replace (Z.succ (Zpos (digits2_pos p)) - 1) with (Z.succ (Zpos (digits2_pos p) - 1)) by lia;
    rewrite !Z.pow_succ_r by lia; lia.
Qed.

Lemma Zdigits2_bounds m :
  0 ≤ m → 0 ≤ Zdigits2 m ∧ m < 2 ^ Zdigits2 m ∧ (0 < m → 2 ^ (Zdigits2 m - 1) ≤ m).
Proof.
  intros Hm. destruct m as [|p|p]; [done| |lia]. cbn [Zdigits2].
  pose proof (digits2_pos_bounds p). split_and!; lia.
Qed.

Lemma Zdigits2_le m d : 0 ≤ m → 0 ≤ d → m < 2 ^ d → Zdigits2 m ≤ d.
Proof.
  intros Hm Hd Hlt. destruct (Z.eq_dec m 0) as [->|Hne]; [done|].
  destruct (Zdigits2_bounds m Hm) as (_ & _ & Hl). specialize (Hl ltac:(lia)).
  assert (2 ^ (Zdigits2 m - 1) < 2 ^ d) as H%Z.pow_lt_mono_r_iff by lia; lia.
Qed.

Lemma Zdigits2_ge m d : 0 ≤ m → 2 ^ d ≤ m → d < Zdigits2 m.
Proof.
  intros Hm Hd. destruct (Zdigits2_bounds m Hm) as (H0 & Hu & _).
  destruct (Z_lt_le_dec d (Zdigits2 m)); [done|].
  assert (2 ^ Zdigits2 m ≤ 2 ^ d) by (apply Z.pow_le_mono_r; lia). lia.
Qed.

Lemma iter_pos_nat {A} (f : A → A) p x : SpecFloat.iter_pos f p x = Nat.iter (Pos.to_nat p) f x.
Proof.
  revert x. induction p as [p IH|p IH|]; intros x; cbn [SpecFloat.iter_pos]; rewrite ?IH; [| |done].
  - rewrite Pos2Nat.inj_xI. rewrite <- Nat.iter_add.
    replace (S (2 * Pos.to_nat p)) with ((Pos.to_nat p + Pos.to_nat p) + 1)%nat by lia.
    by rewrite (Nat.iter_add (Pos.to_nat p + Pos.to_nat p) 1).
  - rewrite Pos2Nat.inj_xO, <- Nat.iter_add. f_equal. lia.
Qed.

(** One shift: the mantissa is halved, and nothing is lost if it was even. *)
Lemma shr_1_spec mrs :
  0 ≤ shr_m mrs →
  shr_m (shr_1 mrs) = shr_m mrs / 2 ∧
  (shr_m mrs mod 2 = 0 → shr_r mrs = false → shr_s mrs = false →
   shr_r (shr_1 mrs) = false ∧ shr_s (shr_1 mrs) = false).
Proof.
  destruct mrs as [m r s]. cbn [shr_m shr_r shr_s]. intros Hm.
  destruct m as [|[p|p|]|p]; [| | | |lia]; cbn.
  - split; [done|]. by intros _ -> ->.
  - split; [rewrite Pos2Z.inj_xI; Z.div_mod_to_equations; lia|].
    rewrite Pos2Z.inj_xI. intros H. Z.div_mod_to_equations; lia.
  - split; [rewrite Pos2Z.inj_xO; Z.div_mod_to_equations; lia|]. by intros _ -> ->.
  - split; [done|]. done.
Qed.

Lemma shr_iter_spec n mrs :
  0 ≤ shr_m mrs →
  let mrs' := Nat.iter n shr_1 mrs in
  shr_m mrs' = shr_m mrs / 2 ^ Z.of_nat n ∧
  (shr_m mrs mod 2 ^ Z.of_nat n = 0 → shr_r mrs = false → shr_s mrs = false →
   shr_r mrs' = false ∧ shr_s mrs' = false).
Proof.
  intros Hm. induction n as [|n IH].
  - cbn. rewrite Z.div_1_r. done.
  - cbv zeta in *. rewrite Nat.iter_succ. destruct IH as [IH1 IH2].
    assert (0 ≤ shr_m (Nat.iter n shr_1 mrs)) as Hn.
    { rewrite IH1. apply Z.div_pos; [done|]. apply Z.pow_pos_nonneg; lia. }
    destruct (shr_1_spec _ Hn) as [H1 H2].
    rewrite Nat2Z.inj_succ, Z.pow_succ_r, Z.mul_comm by lia.
    assert (0 < 2 ^ Z.of_nat n) as Hp by (apply Z.pow_pos_nonneg; lia).
    split; [by rewrite H1, IH1, Z.div_div by lia|].
    intros Hz Hr Hs. rewrite Z.rem_mul_r in Hz by lia.
    pose proof (Z.mod_pos_bound (shr_m mrs) (2 ^ Z.of_nat n) Hp).
    pose proof (Z.mod_pos_bound (shr_m mrs / 2 ^ Z.of_nat n) 2 ltac:(lia)).
    assert (shr_m mrs mod 2 ^ Z.of_nat n = 0) as Hz1 by nia.
    destruct (IH2 Hz1 Hr Hs) as [Hr' Hs']. apply H2; [|done..]. rewrite IH1. nia.
Qed.

(** ** Rounding *)

(** A number is finite, of sign [s], and its magnitude is at most [b * 2 ^ eb]. *)
Definition at_most (K : Z) (s : bool) (x : spec_float) (b eb : Z) : Prop :=
  match x with
  | S754_zero _ => True
  | S754_finite s' m e => s' = s ∧ 0 ≤ e + K ∧ Zpos m * 2 ^ (e + K) ≤ b * 2 ^ (eb + K)
  | _ => False
  end.

Section rounding.
Context (prec emax : Z) (Hprec : 1 < prec) (Hemax : prec < emax).
Abbreviation fexp := (fexp prec emax).
Abbreviation emin := (emin prec emax).

Lemma fexp_mono d d' : d ≤ d' → fexp d ≤ fexp d'.
Proof. unfold SpecFloat.fexp. lia. Qed.

Lemma shr_fexp_spec m e l :
  0 ≤ m →
  let n := Z.max 0 (fexp (Zdigits2 m + e) - e) in
  let '(mrs, e') := shr_fexp prec emax m e l in
  e' = e + n ∧ shr_m mrs = m / 2 ^ n ∧
  (loc_of_shr_record mrs ≠ loc_Exact → l = loc_Exact → m mod 2 ^ n ≠ 0).
Proof.
  intros Hm n. unfold shr_fexp, shr.
  assert (shr_m (shr_record_of_loc m l) = m) as Hrm by (by destruct l as [|[]]).
  destruct (fexp (Zdigits2 m + e) - e) as [|p|p] eqn:E; subst n.
  - cbn. rewrite Hrm, Z.div_1_r. split_and!; [lia|done|]. intros H ->. done.
  - rewrite iter_pos_nat.
    destruct (shr_iter_spec (Pos.to_nat p) (shr_record_of_loc m l)) as [H1 H2];
      [by rewrite Hrm|]. rewrite positive_nat_Z in *. rewrite Hrm in *.
    rewrite Z.max_r by lia. split_and!; [done|done|]. intros Hl -> Hz. apply Hl.
    destruct (H2 Hz eq_refl eq_refl) as [Hr Hs].
    by destruct (Nat.iter _ _ _) as [? [] []].
  - cbn. rewrite Hrm, Z.div_1_r. split_and!; [lia|done|]. intros H ->. done.
Qed.

Lemma round_even_le q l b :
  q ≤ b → (l ≠ loc_Exact → q < b) → round_nearest_even q l ≤ b.
Proof.
  intros H1 H2. destruct l as [|[]]; cbn; try lia.
  - specialize (H2 ltac:(done)). destruct (Z.even q); lia.
  - specialize (H2 ltac:(done)). lia.
Qed.

Lemma round_even_range q l : 0 ≤ q → 0 ≤ round_nearest_even q l ≤ q + 1.
Proof. intros Hq. destruct l as [|[]]; cbn; try lia. destruct (Z.even q); lia. Qed.

(** The second normalisation: a mantissa that rounding made one digit too long is a
    power of two and is halved exactly. *)
Lemma shr_fexp_again r e :
  0 ≤ r ≤ 2 ^ prec → emin ≤ e →
  let '(mrs, e') := shr_fexp prec emax r e loc_Exact in
  (r < 2 ^ prec ∧ shr_m mrs = r ∧ e' = e) ∨
  (r = 2 ^ prec ∧ shr_m mrs = 2 ^ (prec - 1) ∧ e' = e + 1).
Proof.
  intros [Hr Hu] He. pose proof (shr_fexp_spec r e loc_Exact Hr) as H. cbv zeta in H.
  destruct (shr_fexp prec emax r e loc_Exact) as [mrs e']. destruct H as (-> & -> & _).
  unfold SpecFloat.fexp.
  destruct (Z.eq_dec r (2 ^ prec)) as [->|Hne].
  - right. assert (Zdigits2 (2 ^ prec) = prec + 1) as ->.
    { assert (0 ≤ 2 ^ prec) by (apply Z.pow_nonneg; lia).
      pose proof (Zdigits2_ge (2 ^ prec) prec ltac:(done) ltac:(lia)).
      assert (2 ^ prec < 2 ^ (prec + 1)) by (apply Z.pow_lt_mono_r; lia).
      pose proof (Zdigits2_le (2 ^ prec) (prec + 1) ltac:(done) ltac:(lia) ltac:(lia)). lia. }
    replace (Z.max 0 (Z.max (prec + 1 + e - prec) emin - e)) with 1 by lia.
    split; [done|]. split; [|done]. change (2 ^ 1) with 2.
    replace prec with (Z.succ (prec - 1)) at 1 by lia. rewrite Z.pow_succ_r by lia.
    rewrite Z.mul_comm. by apply Z.div_mul.
  - left. pose proof (Zdigits2_le r prec Hr ltac:(lia) ltac:(lia)).
    replace (Z.max 0 (Z.max (Zdigits2 r + e - prec) emin - e)) with 0 by lia.
    rewrite Z.div_1_r. split_and!; lia.
Qed.

(** Comparison of powers of two times bounded mantissas. *)
Lemma pow_lt_exp a c p q : 0 ≤ p → 0 ≤ q → 2 ^ p ≤ a → a ≤ c → c < 2 ^ q → p < q.
Proof.
  intros Hp Hq H1 H2 H3. apply (Z.pow_lt_mono_r_iff 2); lia.
Qed.

Lemma round_exponent K mx ex b eb :
  0 ≤ mx → ex ≤ fexp (Zdigits2 mx + ex) → 0 ≤ ex + K →
  0 < b → Zdigits2 b ≤ prec → emin ≤ eb → 0 ≤ eb + K →
  mx * 2 ^ (ex + K) ≤ b * 2 ^ (eb + K) → fexp (Zdigits2 mx + ex) ≤ eb.
Proof.
  intros Hm Hfl HexK Hb Hdb Heb HebK Hle.
  destruct (Zdigits2_bounds mx Hm) as (Hd0 & _ & Hdl).
  destruct (Zdigits2_bounds b ltac:(lia)) as (Hdb0 & Hbu & _).
  destruct (Z.eq_dec mx 0) as [->|Hnz].
  { cbn in *. unfold SpecFloat.fexp in *. lia. }
  assert (0 < Zdigits2 mx) as Hdpos by (apply Zdigits2_ge; [lia|]; change (2 ^ 0) with 1; lia).
  assert (Zdigits2 mx - 1 + (ex + K) < Zdigits2 b + (eb + K)) as Hlt.
  { assert (0 < 2 ^ (ex + K)) by (apply Z.pow_pos_nonneg; lia).
    assert (0 < 2 ^ (eb + K)) by (apply Z.pow_pos_nonneg; lia).
    eapply pow_lt_exp; [lia|lia| |exact Hle|].
    - rewrite (Z.pow_add_r 2 (Zdigits2 mx - 1) (ex + K)) by lia.
      apply Z.mul_le_mono_nonneg_r; [lia|]. apply Hdl. lia.
    - rewrite (Z.pow_add_r 2 (Zdigits2 b) (eb + K)) by lia. by apply Z.mul_lt_mono_pos_r. }
  etrans; [apply (fexp_mono _ (Zdigits2 b + eb)); lia|]. unfold SpecFloat.fexp. lia.
Qed.

(** The rounded mantissa, in units of the last place. *)
Lemma rounded_units mx n B l loc :
  0 < 2 ^ n → (loc ≠ loc_Exact → l = loc_Exact → mx mod 2 ^ n ≠ 0) →
  mx ≤ B * 2 ^ n → (l ≠ loc_Exact → mx < B * 2 ^ n) →
  round_nearest_even (mx / 2 ^ n) loc ≤ B.
Proof.
  intros Hn Hloc Hle Hi. apply round_even_le.
  - apply Z.div_le_upper_bound; lia.
  - intros Hl. apply Z.div_lt_upper_bound; [done|].
    destruct l as [|c]; [|specialize (Hi ltac:(done)); lia].
    specialize (Hloc Hl eq_refl).
    destruct (Z.eq_dec mx (B * 2 ^ n)) as [Hmx|]; [|lia].
    exfalso. apply Hloc. rewrite Hmx. apply Z.mod_mul; lia.
Qed.

(** What follows the rounding of the mantissa. *)
Lemma finish_at_most K s r e b eb :
  0 ≤ r ≤ 2 ^ prec → emin ≤ e ≤ eb → 0 ≤ e + K → 0 < b → Zdigits2 b ≤ prec →
  eb ≤ emax - prec → r * 2 ^ (e + K) ≤ b * 2 ^ (eb + K) →
  let '(mrs, e') := shr_fexp prec emax r e loc_Exact in
  at_most K s (match shr_m mrs with
             | Z0 => S754_zero s
             | Zpos m => if e' <=? emax - prec then S754_finite s m e' else S754_infinity s
             | Zneg _ => S754_nan
             end) b eb.
Proof.
  intros Hr He HeK Hb Hdb Heb Hval. destruct (Zdigits2_bounds b ltac:(lia)) as (Hdb0 & Hbu & _).
  pose proof (shr_fexp_again r e Hr ltac:(lia)) as Hag.
  destruct (shr_fexp prec emax r e loc_Exact) as [mrs e'].
  assert (shr_m mrs * 2 ^ (e' + K) = r * 2 ^ (e + K) ∧ 0 ≤ shr_m mrs ∧ e ≤ e' ≤ eb)
    as (Hsame & Hnn & He2).
  { destruct Hag as [(_ & -> & ->)|(Hrp & -> & ->)]; [split_and!; lia|].
    rewrite Hrp in *. split; [|split; [apply Z.pow_nonneg; lia|]].
    - rewrite <- !Z.pow_add_r by lia. f_equal. lia.
    - split; [lia|]. assert (prec + (e + K) < Zdigits2 b + (eb + K)); [|lia].
      eapply pow_lt_exp; [lia|lia| |exact Hval|].
      + by rewrite (Z.pow_add_r 2 prec (e + K)) by lia.
      + rewrite (Z.pow_add_r 2 (Zdigits2 b) (eb + K)) by lia.
        apply Z.mul_lt_mono_pos_r; [apply Z.pow_pos_nonneg; lia|done]. }
  destruct (shr_m mrs) as [|p|p] eqn:Em; [done| |lia].
  rewrite (proj2 (Z.leb_le e' (emax - prec))) by lia. cbn. rewrite Hsame. split; [done|]. split; lia.
Qed.

(** Rounding keeps below a representable bound.  [l] says whether the exact value is
    [mx * 2 ^ ex] or above it by less than [2 ^ ex]. *)
Lemma round_at_most K s mx ex l b eb :
  0 ≤ mx → ex ≤ fexp (Zdigits2 mx + ex) → 0 ≤ ex + K →
  0 < b → Zdigits2 b ≤ prec → emin ≤ eb ≤ emax - prec → 0 ≤ eb + K →
  mx * 2 ^ (ex + K) ≤ b * 2 ^ (eb + K) →
  (l ≠ loc_Exact → mx * 2 ^ (ex + K) < b * 2 ^ (eb + K)) →
  at_most K s (binary_round_aux prec emax s mx ex l) b eb.
Proof.
  intros Hm Hfl HexK Hb Hdb Heb HebK Hle Hi. unfold binary_round_aux.
  pose proof (round_exponent K mx ex b eb Hm Hfl HexK Hb Hdb ltac:(lia) HebK Hle) as Hee.
  destruct (Zdigits2_bounds mx Hm) as (_ & Hdu & _).
  pose proof (shr_fexp_spec mx ex l Hm) as H. cbv zeta in H.
  destruct (shr_fexp prec emax mx ex l) as [mrs e']. destruct H as (He' & Hq & Hloc).
  set (n := Z.max 0 (fexp (Zdigits2 mx + ex) - ex)) in *.
  assert (Zdigits2 mx ≤ prec + n ∧ emin ≤ e' ∧ e' ≤ eb) as (Hdn & Hemin & Hee')
    by (unfold SpecFloat.fexp in *; lia).
  assert (0 < 2 ^ n) as Hn by (apply Z.pow_pos_nonneg; lia).
  assert (0 < 2 ^ (ex + K)) as HpK by (apply Z.pow_pos_nonneg; lia).
  assert (b * 2 ^ (eb + K) = b * 2 ^ (eb - e') * 2 ^ n * 2 ^ (ex + K)) as HB.
  { rewrite <- !Z.mul_assoc, <- !Z.pow_add_r by lia. do 2 f_equal. lia. }
  rewrite HB in Hi, Hle.
  assert (round_nearest_even (shr_m mrs) (loc_of_shr_record mrs) ≤ b * 2 ^ (eb - e')) as HrB.
  { rewrite Hq. eapply rounded_units; [done|exact Hloc| |].
    - by apply Z.mul_le_mono_pos_r in Hle.
    - intros Hne. specialize (Hi Hne). by apply Z.mul_lt_mono_pos_r in Hi. }
  assert (0 ≤ shr_m mrs < 2 ^ prec) as [Hq0 Hqp].
  { rewrite Hq. split; [by apply Z.div_pos|]. apply Z.div_lt_upper_bound; [done|].
    rewrite Z.mul_comm, <- Z.pow_add_r by lia.
    eapply Z.lt_le_trans; [exact Hdu|]. apply Z.pow_le_mono_r; lia. }
  pose proof (round_even_range (shr_m mrs) (loc_of_shr_record mrs) Hq0) as Hr.
  set (r := round_nearest_even (shr_m mrs) (loc_of_shr_record mrs)) in *.
  pose proof (finish_at_most K s r e' b eb) as Hf.
  destruct (shr_fexp prec emax r e' loc_Exact) as [mrs2 e2]. apply Hf; try lia.
  rewrite HB, <- (Z.mul_assoc (b * _)), <- (Z.pow_add_r 2 n) by lia.
  replace (n + (ex + K)) with (e' + K) by lia.
  apply Z.mul_le_mono_nonneg_r; [apply Z.pow_nonneg; lia|done].
Qed.

(** ** Operations *)

Lemma mul_at_most K s1 s2 m1 e1 m2 e2 b eb :
  e1 + e2 ≤ fexp (Zdigits2 (Zpos (m1 * m2)) + (e1 + e2)) → 0 ≤ e1 + e2 + K →
  0 < b → Zdigits2 b ≤ prec → emin ≤ eb ≤ emax - prec → 0 ≤ eb + K →
  Zpos m1 * Zpos m2 * 2 ^ (e1 + e2 + K) ≤ b * 2 ^ (eb + K) →
  at_most K (xorb s1 s2) (SFmul prec emax (S754_finite s1 m1 e1) (S754_finite s2 m2 e2)) b eb.
Proof. intros. cbn [SFmul]. apply round_at_most; try done; lia. Qed.

Lemma new_location_exact d r : new_location d r = loc_Exact ↔ r = 0.
Proof.
  unfold new_location, new_location_even, new_location_odd.
  destruct (Z.even d), (Z.eqb_spec r 0); naive_solver.
Qed.

(** The quotient of the division has enough digits. *)
Lemma quotient_digits m1 m2 s :
  0 < m1 → 0 < m2 → 0 ≤ s → Zdigits2 m1 + s - Zdigits2 m2 ≤ Zdigits2 (m1 * 2 ^ s / m2).
Proof.
  intros H1 H2 Hs. assert (0 < 2 ^ s) by (apply Z.pow_pos_nonneg; lia).
  destruct (Zdigits2_bounds m1 ltac:(lia)) as (Hd1 & _ & Hl). specialize (Hl H1).
  destruct (Zdigits2_bounds m2 ltac:(lia)) as (Hd2 & Hu & _).
  assert (0 ≤ m1 * 2 ^ s / m2) as Hq by (apply Z.div_pos; nia).
  destruct (Zdigits2_bounds _ Hq) as (Hdq & _ & _).
  destruct (Z_lt_le_dec (Zdigits2 m1 - 1 + s - Zdigits2 m2) 0) as [|Hk]; [lia|].
  enough (Zdigits2 m1 - 1 + s - Zdigits2 m2 < Zdigits2 (m1 * 2 ^ s / m2)) by lia.
  apply Zdigits2_ge; [done|]. apply Z.div_le_lower_bound; [done|].
  assert (0 < Zdigits2 m1) by (apply Zdigits2_ge; [lia|]; change (2 ^ 0) with 1; lia).
  assert (2 ^ (Zdigits2 m1 - 1 + s) = 2 ^ (Zdigits2 m1 - 1 + s - Zdigits2 m2) * 2 ^ Zdigits2 m2)
    as Hsplit by (rewrite <- Z.pow_add_r by lia; f_equal; lia).
  assert (0 < 2 ^ (Zdigits2 m1 - 1 + s - Zdigits2 m2)) by (apply Z.pow_pos_nonneg; lia).
  rewrite Z.pow_add_r in Hsplit by lia. nia.
Qed.

Lemma div_at_most K s1 s2 m1 e1 m2 e2 b eb :
  0 ≤ emin + K → 0 ≤ e1 - e2 + K →
  0 < b → Zdigits2 b ≤ prec → emin ≤ eb ≤ emax - prec →
  Zpos m1 * 2 ^ (e1 - e2 + K) ≤ b * Zpos m2 * 2 ^ (eb + K) →
  at_most K (xorb s1 s2) (SFdiv prec emax (S754_finite s1 m1 e1) (S754_finite s2 m2 e2)) b eb.
Proof.
  intros HK1 HK2 Hb Hdb Heb Hle. cbn [SFdiv]. unfold SFdiv_core_binary.
  set (D := Zdigits2 (Zpos m1) + e1 - (Zdigits2 (Zpos m2) + e2)).
  set (e' := Z.min (fexp D) (e1 - e2)). set (s := e1 - e2 - e').
  assert (0 ≤ s ∧ e' ≤ fexp D ∧ 0 ≤ e' + K) as (Hs & HeD & HeK)
    by (subst s e'; unfold SpecFloat.fexp; lia).
  assert (match s with 0 => Zpos m1 | Zpos _ => Z.shiftl (Zpos m1) s | Zneg _ => 0 end =
          Zpos m1 * 2 ^ s) as Hm'.
  { destruct s as [|p|p] eqn:Es; [by rewrite Z.mul_1_r|by apply Z.shiftl_mul_pow2|lia]. }
  rewrite Hm'. set (m' := Zpos m1 * 2 ^ s).
  assert (m' * 2 ^ (e' + K) ≤ b * 2 ^ (eb + K) * Zpos m2) as Hv.
  { subst m'. rewrite <- Z.mul_assoc, <- Z.pow_add_r by lia.
    replace (s + (e' + K)) with (e1 - e2 + K) by lia. lia. }
  pose proof (Z.div_eucl_eq m' (Zpos m2) ltac:(done)) as Hdm.
  pose proof (Z.mod_pos_bound m' (Zpos m2) ltac:(lia)) as Hmod.
  unfold Z.modulo in Hmod. pose proof (quotient_digits (Zpos m1) (Zpos m2) s) as Hdq.
  fold m' in Hdq. unfold Z.div in Hdq.
  assert (0 < 2 ^ (e' + K)) by (apply Z.pow_pos_nonneg; lia).
  assert (0 ≤ m' / Zpos m2) as Hq0.
  { apply Z.div_pos; [|lia]. subst m'. assert (0 < 2 ^ s) by (apply Z.pow_pos_nonneg; lia). nia. }
  unfold Z.div in Hq0.
  destruct (Z.div_eucl m' (Zpos m2)) as [q r].
  apply round_at_most; try done; try lia.
  - etrans; [exact HeD|]. apply fexp_mono. subst D s. lia.
  - nia.
  - intros Hne. rewrite new_location_exact in Hne. nia.
Qed.

(** ** Integers *)

Lemma round_canonical s m e :
  fexp (Zpos (digits2_pos m) + e) = e → e ≤ emax - prec →
  binary_round_aux prec emax s (Zpos m) e loc_Exact = S754_finite s m e.
Proof.
  intros He Hmax. unfold binary_round_aux, shr_fexp. cbn [Zdigits2]. rewrite He, Z.sub_diag.
  cbn. rewrite He, Z.sub_diag. cbn. by rewrite (proj2 (Z.leb_le e (emax - prec))).
Qed.

Lemma iter_xO p k : Zpos (Pos.iter xO p k) = Zpos p * 2 ^ Zpos k.
Proof.
  induction k as [|k IH] using Pos.peano_ind; [cbn; lia|].
  rewrite Pos.iter_succ, Pos2Z.inj_xO, IH, Pos2Z.inj_succ, Z.pow_succ_r by lia. lia.
Qed.

(** An integer of at most [prec] digits is represented exactly, normalised. *)
Lemma of_Z_exact z :
  0 < z < 2 ^ prec →
  ∃ m, binary_normalize prec emax z 0 false = S754_finite false m (Zdigits2 z - prec) ∧
       Zpos m = z * 2 ^ (prec - Zdigits2 z) ∧ Zdigits2 (Zpos m) = prec ∧
       1 ≤ Zdigits2 z ≤ prec.
Proof.
  intros [Hz Hlt]. destruct z as [|p|p]; [lia| |lia]. cbn [binary_normalize].
  pose proof (Zdigits2_le (Zpos p) prec ltac:(lia) ltac:(lia) Hlt) as Hd. cbn [Zdigits2] in *.
  set (d := Zpos (digits2_pos p)) in *. assert (1 ≤ d) as Hd1 by lia.
  assert (fexp (d + 0) = d - prec) as Hfe by (unfold SpecFloat.fexp, SpecFloat.emin; lia).
  pose proof (digits2_pos_bounds p) as Hdb. fold d in Hdb.
  unfold binary_round. fold d. rewrite Hfe. unfold shl_align. rewrite Z.sub_0_r.
  assert (∃ m, (match d - prec with Zneg k => (Pos.iter xO p k, d - prec) | _ => (p, 0) end) =
               (m, d - prec) ∧ Zpos m = Zpos p * 2 ^ (prec - d)) as (m & -> & Hm).
  { destruct (d - prec) as [|k|k] eqn:E.
    - exists p. split; [done|]. replace (prec - d) with 0 by lia. lia.
    - lia.
    - exists (Pos.iter xO p k). split; [done|]. replace (prec - d) with (Zpos k) by lia.
      apply iter_xO. }
  exists m.
  assert (Zdigits2 (Zpos m) = prec) as Hdm.
  { assert (0 < 2 ^ (prec - d)) by (apply Z.pow_pos_nonneg; lia).
    assert (2 ^ prec = 2 ^ d * 2 ^ (prec - d)) as Hp1
      by (rewrite <- Z.pow_add_r by lia; f_equal; lia).
    assert (2 ^ (prec - 1) = 2 ^ (d - 1) * 2 ^ (prec - d)) as Hp2
      by (rewrite <- Z.pow_add_r by lia; f_equal; lia).
    pose proof (Zdigits2_le (Zpos m) prec ltac:(lia) ltac:(lia) ltac:(nia)).
    pose proof (Zdigits2_ge (Zpos m) (prec - 1) ltac:(lia) ltac:(nia)). lia. }
  split; [|done]. cbn [Zdigits2] in Hdm. apply round_canonical; [|lia].
  rewrite Hdm. unfold SpecFloat.fexp, SpecFloat.emin. lia.
Qed.
End rounding.
