(* ===== verification/Resampler.v ===== *)
(** * AudioResampler (src/local/audio_resampler.cpp)

    Mixing to one channel, conversion to 16-bit samples and linear resampling.  A
    vector is a list; an access outside it is undefined in C++ and makes the
    functions return [None].  [undef] is what a floating-point value that does not
    fit an integer type happens to be converted to. *)

From Stdlib Require Import SpecFloat.
From S2P Require Import Prelude Messages Metrics LocalEngine Ieee Rounding.

Local Open Scope Z_scope.

(** ** Single precision *)

Definition f32_add : spec_float → spec_float → spec_float := SFadd 24 128.
Definition f32_mul : spec_float → spec_float → spec_float := SFmul 24 128.
Definition f32_div : spec_float → spec_float → spec_float := SFdiv 24 128.
Definition f32_of_Z (z : Z) : spec_float := binary_normalize 24 128 z 0 false.
Definition f32_minus_one : spec_float := SFopp f32_one.
(** The literals [0.5f] and [32767.0f]. *)
Definition f32_half : spec_float := S754_finite false 8388608 (-24).
Definition f32_32767 : spec_float := S754_finite false 16776704 (-9).

(** [std::clamp]. *)
Definition f32_clamp (v lo hi : spec_float) : spec_float :=
  if SFltb v lo then lo else if SFltb hi v then hi else v.

Section resampler.
Context (undef : spec_float → Z).

Definition float_to_int16 (x : spec_float) : Z :=
  let x := f32_clamp x f32_minus_one f32_one in
  let y := f32_mul x f32_32767 in
  i16 (cast_long (undef y) (f64_lrint y)).

(** [int16_to_float], which nothing calls; [32768.0f] is [2 ^ 15]. *)
Definition int16_to_float (x : Z) : spec_float := f32_div (f32_of_Z x) (f32_of_Z 32768).

(** ** Mixing to one channel *)

Fixpoint mix_pairs (input : list spec_float) : list Z :=
  match input with
  | a :: b :: input => float_to_int16 (f32_mul f32_half (f32_add a b)) :: mix_pairs input
  | _ => []
  end.

(** The general case: groups of [channels] samples, the last one possibly shorter,
    each divided by the full number of channels. *)
Definition mix_group (channels : Z) (group : list spec_float) : Z :=
  float_to_int16 (f32_div (foldl f32_add f32_zero group) (f32_of_Z channels)).
Fixpoint mix_groups (fuel : nat) (channels : Z) (input : list spec_float) : list Z :=
  match fuel, input with
  | S fuel, _ :: _ =>
      mix_group channels (take (Z.to_nat channels) input) ::
      mix_groups fuel channels (drop (Z.to_nat channels) input)
  | _, _ => []
  end.

(** ** Resampling *)

(** The body of the loop for output sample [i]; [None] when it reads outside. *)
Definition resample_at (input : list Z) (ratio : spec_float) (i : Z) : option Z :=
  let n := Z.of_nat (length input) in
  let pos := f64_div (f64_of_Z i) ratio in
  let i0 := cast_size (undef pos) (f64_floor pos) in
  let i1 := Z.min (u64 (i0 + 1)) (n - 1) in
  let t := f64_sub pos (f64_of_Z i0) in
  a ← input !! Z.to_nat i0;
  b ← input !! Z.to_nat i1;
  let v := f64_add (f64_mul (f64_sub (f64_of_Z 1) t) (f64_of_Z a)) (f64_mul t (f64_of_Z b)) in
  let v := if SFltb (f64_of_Z 32767) v then f64_of_Z 32767 else v in
  let v := if SFltb v (f64_of_Z (-32768)) then f64_of_Z (-32768) else v in
  Some (i16 (cast_long (undef v) (f64_lrint v))).

Definition out_len (n : Z) (ratio : spec_float) : Z :=
  let x := f64_mul (f64_of_Z n) ratio in cast_size (undef x) (f64_ceil x).

Definition resample_linear_int16 (input : list Z) (input_rate output_rate : Z)
    : option (list Z) :=
  if bool_decide (input = []) || (input_rate =? output_rate) then Some input
  else
    let ratio := f64_div (f64_of_Z output_rate) (f64_of_Z input_rate) in
    mapM (λ i, resample_at input ratio (Z.of_nat i))
      (seq 0 (Z.to_nat (out_len (Z.of_nat (length input)) ratio))).

(** [to_16k_mono_int16].  With no channels the mixing loop does not advance and the
    function does not return; with a negative number the index wraps past the end
    after one empty group. *)
Definition to_16k_mono_int16 (input : list spec_float) (input_sample_rate input_channels : Z)
    : option (list Z) :=
  if bool_decide (input = []) then Some []
  else if input_channels =? 0 then None
  else
    let pcm :=
      if input_channels =? 1 then float_to_int16 <$> input
      else if input_channels =? 2 then mix_pairs input
      else if input_channels <? 0 then [mix_group input_channels []]
      else mix_groups (length input) input_channels input in
    if input_sample_rate =? 16000 then Some pcm
    else resample_linear_int16 pcm input_sample_rate 16000.
End resampler.

(** [stereo_to_mono]: the mean of each pair, rounded toward zero. *)
Fixpoint stereo_to_mono (interleaved : list Z) : list Z :=
  match interleaved with
  | a :: b :: l => i16 (Z.quot (a + b) 2) :: stereo_to_mono l
  | _ => []
  end.
