(* ===== verification/ResamplerFacts.v ===== *)
(** * Properties of the resampler (src/local/audio_resampler.cpp)

    Sample values stay in range, resampling reads only inside its input at every
    usual rate, and a rate at which it does not. *)

From Stdlib Require Import SpecFloat.
From S2P Require Import Prelude Messages Metrics LocalEngine Ieee Rounding Resampler.

Local Open Scope Z_scope.

(** ** From bounds on floating-point numbers to integers *)

Lemma pow_split K e : e < 0 → 0 ≤ e + K → 2 ^ K = 2 ^ (e + K) * 2 ^ (- e).
Proof. intros. rewrite <- Z.pow_add_r by lia. f_equal. lia. Qed.

(** A number at most [b] has at most [b] whole parts. *)
Lemma at_most_int K s m e b :
  0 ≤ K → at_most K s (S754_finite s m e) b 0 →
  (0 ≤ e → Zpos m * 2 ^ e ≤ b) ∧ (e < 0 → Zpos m ≤ b * 2 ^ (- e)).
Proof.
  intros HK (_ & HeK & Hle). rewrite Z.add_0_l in Hle.
  assert (0 < 2 ^ K) by (apply Z.pow_pos_nonneg; lia). split; intros He.
  - rewrite Z.pow_add_r in Hle by lia. apply (Z.mul_le_mono_pos_r _ _ (2 ^ K)); lia.
  - assert (0 < 2 ^ (e + K)) by (apply Z.pow_pos_nonneg; lia).
    rewrite (pow_split K e) in Hle by lia. apply (Z.mul_le_mono_pos_r _ _ (2 ^ (e + K))); lia.
Qed.

Lemma at_most_ceil K x b :
  0 ≤ K → 0 ≤ b → at_most K false x b 0 → ∃ z, f64_ceil x = Some z ∧ 0 ≤ z ≤ b.
Proof.
  intros HK Hb H. destruct x as [s|s| |s m e]; try done; cbn [f64_ceil]; eexists;
    (split; [done|]); [lia|].
  assert (s = false) as -> by apply H. apply at_most_int in H as [H1 H2]; [|done].
  cbn [signed]. destruct (Z.leb_spec 0 e).
  - split; [|by apply H1]. assert (0 < 2 ^ e) by (apply Z.pow_pos_nonneg; lia). lia.
  - assert (0 < 2 ^ (- e)) by (apply Z.pow_pos_nonneg; lia). specialize (H2 ltac:(lia)).
    assert (- b ≤ - Zpos m / 2 ^ (- e)) by (apply Z.div_le_lower_bound; lia).
    assert (- Zpos m / 2 ^ (- e) ≤ 0) by (apply Z.div_le_upper_bound; lia). lia.
Qed.

Lemma at_most_floor K x b k :
  0 ≤ K → 0 ≤ k → 0 ≤ - k + K → 0 ≤ b → at_most K false x b (- k) →
  ∃ z, f64_floor x = Some z ∧ 0 ≤ z ∧ z * 2 ^ k ≤ b.
Proof.
  intros HK Hk HkK Hb H. destruct x as [s|s| |s m e]; try done; cbn [f64_floor]; eexists;
    (split; [done|]); [lia|].
  destruct H as (-> & HeK & Hle). cbn [signed].
  assert (0 < 2 ^ (- k + K)) as Hp by (apply Z.pow_pos_nonneg; lia).
  destruct (Z.leb_spec 0 e).
  - assert (0 < 2 ^ e) by (apply Z.pow_pos_nonneg; lia). split; [lia|].
    apply (Z.mul_le_mono_pos_r _ _ (2 ^ (- k + K))); [done|].
    rewrite <- !Z.mul_assoc, <- !Z.pow_add_r by lia.
    replace (e + (k + (- k + K))) with (e + K) by lia. lia.
  - assert (0 < 2 ^ (- e)) as Hpe by (apply Z.pow_pos_nonneg; lia).
    assert (0 < 2 ^ (e + K)) as HpK by (apply Z.pow_pos_nonneg; lia).
    pose proof (Z.mul_div_le (Zpos m) (2 ^ (- e)) Hpe) as Hd.
    split; [apply Z.div_pos; lia|].
    apply (Z.mul_le_mono_pos_r _ _ (2 ^ (- k + K))); [done|].
    rewrite <- Z.mul_assoc, <- Z.pow_add_r by lia. replace (k + (- k + K)) with K by lia.
    rewrite (pow_split K e) by lia. nia.
Qed.

Lemma round_half_even_range m d b :
  0 ≤ m → 0 < d → m ≤ b * d → 0 ≤ round_half_even m d ≤ b.
Proof.
  intros Hm Hd Hle. unfold round_half_even.
  pose proof (Z.div_mod m d ltac:(lia)). pose proof (Z.mod_pos_bound m d Hd).
  assert (0 ≤ m / d) by (apply Z.div_pos; lia).
  assert (m / d < b ∨ m / d = b ∧ m mod d = 0) as Hc by nia.
  destruct (Z.ltb_spec (2 * (m mod d)) d); [lia|].
  destruct (Z.ltb_spec d (2 * (m mod d))); [lia|]. destruct (Z.even (m / d)); lia.
Qed.

Lemma at_most_lrint K s x b :
  0 ≤ K → 0 ≤ b → at_most K s x b 0 → ∃ z, f64_lrint x = Some z ∧ - b ≤ z ≤ b.
Proof.
  intros HK Hb H. destruct x as [s'|s'| |s' m e]; try done; cbn [f64_lrint]; eexists;
    (split; [done|]); [lia|].
  assert (s' = s) as -> by apply H. apply at_most_int in H as [H1 H2]; [|done].
  assert (0 ≤ (if 0 <=? e then Zpos m * 2 ^ e else round_half_even (Zpos m) (2 ^ (- e))) ≤ b)
    as Ha; [|destruct s; lia].
  destruct (Z.leb_spec 0 e).
  - assert (0 < 2 ^ e) by (apply Z.pow_pos_nonneg; lia). split; [lia|by apply H1].
  - assert (0 < 2 ^ (- e)) by (apply Z.pow_pos_nonneg; lia).
    apply round_half_even_range; [lia|done|]. apply H2. lia.
Qed.

(** ** Conversion to 16 bits *)

(** A [float]: not a NaN, and a finite one is normalised. *)
Definition is_float (x : spec_float) : Prop := valid_binary 24 128 x = true ∧ x ≠ S754_nan.

(** At most one in magnitude: below [2 ^ -24] units of [2 ^ 24], or one itself. *)
Definition at_most_one (x : spec_float) : Prop :=
  match x with
  | S754_zero _ => True
  | S754_finite _ m e =>
      -149 ≤ e ∧ (e < -23 ∧ Zpos m < 16777216 ∨ e = -23 ∧ Zpos m ≤ 8388608)
  | _ => False
  end.

Lemma one_at_most_one s : at_most_one (S754_finite s 8388608 (-23)).
Proof. cbn. lia. Qed.

Lemma float_mantissa s m e :
  is_float (S754_finite s m e) → -149 ≤ e ∧ Zpos m < 16777216.
Proof.
  intros [Hv _]. cbn [valid_binary] in Hv. unfold bounded, canonical_mantissa in Hv.
  apply andb_prop in Hv as [Hc%Z.eqb_eq _]. unfold fexp, emin in Hc.
  assert (-149 ≤ e) as He by lia. assert (Zpos (digits2_pos m) ≤ 24) as Hd by lia.
  pose proof (digits2_pos_bounds m) as [_ Hm]. split; [done|].
  eapply Z.lt_le_trans; [exact Hm|]. change 16777216 with (2 ^ 24). apply Z.pow_le_mono_r; lia.
Qed.

Lemma at_most_one_intro s m e :
  -149 ≤ e → e < -23 ∧ Zpos m < 16777216 ∨ e = -23 ∧ Zpos m ≤ 8388608 →
  at_most_one (S754_finite s m e).
Proof. intros H1 H2. exact (conj H1 H2). Qed.

(** Comparison of finite numbers of one sign, and of different signs. *)
Lemma SFltb_finite s m e m' e' :
  SFltb (S754_finite s m e) (S754_finite s m' e') =
  (if s then (e' <? e) || (e =? e') && (Zpos m' <? Zpos m)
   else (e <? e') || (e =? e') && (Zpos m <? Zpos m')).
Proof.
  assert (Pos.compare_cont Eq m m' = (Zpos m ?= Zpos m')) as Em by done.
  unfold SFltb. destruct s; cbn [SFcompare]; rewrite Em;
    destruct (Z.compare_spec e e'), (Z.compare_spec (Zpos m) (Zpos m')); cbn [CompOpp];
    repeat match goal with
    | |- context [?a <? ?b] => destruct (Z.ltb_spec a b)
    | |- context [?a =? ?b] => destruct (Z.eqb_spec a b)
    end; cbn; done || lia.
Qed.

Lemma SFltb_signs m e m' e' : SFltb (S754_finite false m e) (S754_finite true m' e') = false.
Proof. done. Qed.

Lemma clamped x : is_float x → at_most_one (f32_clamp x f32_minus_one f32_one).
Proof.
  intros Hx. unfold f32_clamp.
  destruct x as [s|s| |s m e]; [done|destruct s; apply one_at_most_one|by destruct Hx|].
  apply float_mantissa in Hx as [He Hm]. unfold f32_minus_one, f32_one. cbn [SFopp negb].
  destruct s; rewrite SFltb_finite, SFltb_signs.
  - destruct (_ || _) eqn:E; [apply one_at_most_one|]. apply orb_false_elim in E as [E1 E2].
    apply Z.ltb_ge in E1. apply at_most_one_intro; [done|].
    destruct (Z.eqb_spec e (-23)); [apply Z.ltb_ge in E2; lia|lia].
  - destruct (_ || _) eqn:E; [apply one_at_most_one|]. apply orb_false_elim in E as [E1 E2].
    apply Z.ltb_ge in E1. apply at_most_one_intro; [done|].
    destruct (Z.eqb_spec (-23) e); [apply Z.ltb_ge in E2; lia|lia].
Qed.

(** The product with [32767.0f], in units of [2 ^ -K]. *)
Lemma at_most_one_units K s m e :
  149 ≤ K → at_most_one (S754_finite s m e) → Zpos m * 2 ^ (e + K) ≤ 2 ^ K.
Proof.
  intros HK [He [[Hlt Hm]|[-> Hm]]].
  - transitivity (2 ^ 24 * 2 ^ (-24 + K)); [|rewrite <- Z.pow_add_r by lia; apply Z.pow_le_mono_r; lia].
    apply Z.mul_le_mono_nonneg; [lia|change (2 ^ 24) with 16777216; lia|apply Z.pow_nonneg; lia|].
    apply Z.pow_le_mono_r; lia.
  - transitivity (2 ^ 23 * 2 ^ (-23 + K)); [|rewrite <- Z.pow_add_r by lia; apply Z.pow_le_mono_r; lia].
    apply Z.mul_le_mono_nonneg_r; [apply Z.pow_nonneg; lia|done].
Qed.

Lemma scaled_at_most s m e :
  at_most_one (S754_finite s m e) →
  at_most 200 (xorb s false) (f32_mul (S754_finite s m e) f32_32767) 32767 0.
Proof.
  intros H. pose proof (at_most_one_units 191 s m e ltac:(lia) H) as Hm. destruct H as [He _].
  unfold f32_mul, f32_32767. apply mul_at_most; try done; try lia.
  - assert (24 ≤ Zdigits2 (Zpos (m * 16776704))) as Hd.
    { enough (23 < Zdigits2 (Zpos (m * 16776704))) by lia.
      apply Zdigits2_ge; [done|]. change (2 ^ 23) with 8388608. lia. }
    unfold fexp. lia.
  - replace (e + -9 + 200) with (e + 191) by lia.
    replace (Zpos m * 16776704 * 2 ^ (e + 191)) with (16776704 * (Zpos m * 2 ^ (e + 191))) by ring.
    transitivity (16776704 * 2 ^ 191); [|by vm_compute].
    apply Z.mul_le_mono_nonneg_l; [done|exact Hm].
Qed.

(** Conversion to 16 bits never overflows: for every [float] that is not a NaN,
    infinities and values far outside [-1, 1] included, the sample is in
    [-32767, 32767] and no conversion is undefined. *)
Theorem float_to_int16_bounds (undef : spec_float → Z) x :
  is_float x →
  -32767 ≤ float_to_int16 undef x ≤ 32767 ∧
  float_to_int16 undef x = float_to_int16 (λ _, 0) x.
Proof.
  intros Hx. pose proof (clamped x Hx) as Hc. unfold float_to_int16.
  destruct (f32_clamp x f32_minus_one f32_one) as [s|s| |s m e]; try done.
  apply scaled_at_most, at_most_lrint in Hc as (z & -> & Hz); [|lia..].
  unfold cast_long, cast. rewrite (proj2 (Z.leb_le _ z)), (proj2 (Z.ltb_lt z _)) by lia.
  cbn [andb]. rewrite i16_small by lia. done.
Qed.

Example float_to_int16_bounds_witness :
  is_float (S754_infinity true) ∧ -32767 ≤ float_to_int16 (λ _, 5) (S754_infinity true) ≤ 32767.
Proof.
  split; [done|]. apply (float_to_int16_bounds (λ _, 5) (S754_infinity true)). done.
Defined.

(** ** Resampling reads inside its input *)

(** The ratio computed for two rates is positive, not rounded up, and close to the
    exact quotient. *)
Definition rate_ok (input_rate output_rate : Z) : bool :=
  (0 <? input_rate) && (input_rate <? 2 ^ 31) && (0 <? output_rate) && (output_rate <=? 2 ^ 14) &&
  match f64_div (f64_of_Z output_rate) (f64_of_Z input_rate) with
  | S754_finite false m e =>
      (-1000 <=? e) && (e <? 0) && (2 ^ 52 <=? Zpos m) &&
      (Zpos m * input_rate <=? output_rate * 2 ^ (- e)) &&
      (output_rate * 2 ^ (- e) * (2 ^ 52 - 1) <=? Zpos m * input_rate * 2 ^ 52)
  | _ => false
  end.

Section ratio.
Context (input_rate output_rate n : Z).
Hypothesis Hin : 0 < input_rate < 2 ^ 31.
Hypothesis Hout : 0 < output_rate ≤ 2 ^ 14.
Hypothesis Hn : 0 < n < 2 ^ 36.

Definition max_len : Z := (n * output_rate + input_rate - 1) / input_rate.

Lemma max_len_bounds :
  0 < max_len < 2 ^ 52 ∧ n * output_rate ≤ max_len * input_rate < n * output_rate + input_rate.
Proof.
  unfold max_len. pose proof (Z.div_mod (n * output_rate + input_rate - 1) input_rate ltac:(lia)).
  pose proof (Z.mod_pos_bound (n * output_rate + input_rate - 1) input_rate ltac:(lia)).
  assert (n * output_rate ≤ 2 ^ 36 * 2 ^ 14) by (apply Z.mul_le_mono_nonneg; lia).
  change (2 ^ 36 * 2 ^ 14) with (2 ^ 50) in *. change (2 ^ 52) with (4 * 2 ^ 50). nia.
Qed.

Context (m : positive) (e : Z).
Hypothesis He : -1000 ≤ e < 0.
Hypothesis Hm : 2 ^ 52 ≤ Zpos m.
Hypothesis Hdown : Zpos m * input_rate ≤ output_rate * 2 ^ (- e).
Hypothesis Hnear : output_rate * 2 ^ (- e) * (2 ^ 52 - 1) ≤ Zpos m * input_rate * 2 ^ 52.
Let ratio := S754_finite false m e.

(** [n * ratio] does not exceed the exact product rounded up. *)
Lemma out_len_units K :
  0 ≤ e + K → n * Zpos m * 2 ^ (e + K) ≤ max_len * 2 ^ K.
Proof.
  intros HK. destruct max_len_bounds as [_ [Hl _]].
  assert (0 < 2 ^ (e + K)) by (apply Z.pow_pos_nonneg; lia).
  rewrite (pow_split K e) by lia.
  apply (Z.mul_le_mono_pos_r _ _ input_rate); [lia|].
  transitivity (n * (output_rate * 2 ^ (- e)) * 2 ^ (e + K)); [nia|].
  assert (0 < 2 ^ (- e)) by (apply Z.pow_pos_nonneg; lia). nia.
Qed.

(** Position [i] lies at least [2 ^ -15] before the end of the input. *)
Lemma position_units i K :
  0 < i < max_len → 15 ≤ K → 0 ≤ - e + K →
  i * 2 ^ (- e + K) ≤ (n * 2 ^ 15 - 1) * Zpos m * 2 ^ (-15 + K).
Proof.
  intros Hi HK HeK. destruct max_len_bounds as [_ [_ Hu]].
  assert (i * input_rate ≤ n * output_rate - 1) as Hii by nia.
  rewrite Z.pow_add_r by lia. replace K with (15 + (-15 + K)) at 1 by lia.
  rewrite (Z.pow_add_r 2 15) by lia.
  assert (0 < 2 ^ (-15 + K)) by (apply Z.pow_pos_nonneg; lia).
  assert (0 < 2 ^ (- e)) as Hp by (apply Z.pow_pos_nonneg; lia).
  rewrite !Z.mul_assoc. apply Z.mul_le_mono_nonneg_r; [lia|].
  apply (Z.mul_le_mono_pos_r _ _ (input_rate * 2 ^ 52)); [lia|].
  transitivity ((n * 2 ^ 15 - 1) * (output_rate * 2 ^ (- e) * (2 ^ 52 - 1))); [|nia].
  transitivity ((n * output_rate - 1) * 2 ^ 67 * 2 ^ (- e)).
  - replace (i * 2 ^ (- e) * 2 ^ 15 * (input_rate * 2 ^ 52))
      with (i * input_rate * 2 ^ 67 * 2 ^ (- e)) by (change (2 ^ 67) with (2 ^ 15 * 2 ^ 52); ring).
    apply Z.mul_le_mono_nonneg_r; lia.
  - replace ((n * 2 ^ 15 - 1) * (output_rate * 2 ^ (- e) * (2 ^ 52 - 1)))
      with ((n * 2 ^ 15 - 1) * output_rate * (2 ^ 52 - 1) * 2 ^ (- e)) by ring.
    apply Z.mul_le_mono_nonneg_r; [lia|].
    assert (output_rate * (n * 2 ^ 15 + 2 ^ 52 - 1) ≤ 2 ^ 14 * (2 ^ 51 + 2 ^ 52))
      by (apply Z.mul_le_mono_nonneg; lia). lia.
Qed.

Lemma out_len_at_most : at_most 1100 false (f64_mul (f64_of_Z n) ratio) max_len 0.
Proof.
  destruct (of_Z_exact 53 1024 ltac:(lia) ltac:(lia) n ltac:(lia)) as (p & Ep & Hp & Hdp & Hd).
  destruct max_len_bounds as [Hl _]. unfold f64_of_Z, f64_mul, ratio. rewrite Ep.
  change false with (xorb false false). apply mul_at_most; try lia.
  - assert (52 < Zdigits2 (Zpos (p * m))).
    { apply Zdigits2_ge; [lia|]. rewrite Pos2Z.inj_mul. lia. }
    unfold fexp. lia.
  - apply Zdigits2_le; lia.
  - unfold emin. lia.
  - rewrite Hp. pose proof (out_len_units 1100 ltac:(lia)) as Hu.
    replace (Zdigits2 n - 53 + e + 1100) with (Zdigits2 n - 53 + (e + 1100)) by lia.
    rewrite (Z.mul_comm (n * _)), <- Z.mul_assoc, <- (Z.mul_assoc n), <- Z.pow_add_r by lia.
    replace (53 - Zdigits2 n + (Zdigits2 n - 53 + (e + 1100))) with (e + 1100) by lia.
    rewrite Z.add_0_l. lia.
Qed.

Lemma position_at_most i :
  0 < i < max_len →
  at_most 1100 false (f64_div (f64_of_Z i) ratio) (n * 2 ^ 15 - 1) (- 15).
Proof.
  intros Hi. destruct max_len_bounds as [Hl _].
  destruct (of_Z_exact 53 1024 ltac:(lia) ltac:(lia) i ltac:(lia)) as (p & Ep & Hp & Hdp & Hd).
  unfold f64_of_Z, f64_div, ratio. rewrite Ep. change false with (xorb false false).
  apply div_at_most; try lia.
  - unfold emin. lia.
  - apply Zdigits2_le; lia.
  - unfold emin. lia.
  - rewrite Hp. pose proof (position_units i 1100 Hi ltac:(lia) ltac:(lia)) as Hu.
    rewrite <- Z.mul_assoc, <- Z.pow_add_r by lia.
    replace (53 - Zdigits2 i + (Zdigits2 i - 53 - e + 1100)) with (- e + 1100) by lia. lia.
Qed.

Lemma out_len_le undef : 0 ≤ out_len undef n ratio ≤ max_len.
Proof using Hin Hout Hn He Hm Hdown Hnear.
  destruct max_len_bounds as [Hl _]. unfold out_len.
  destruct (at_most_ceil 1100 _ max_len ltac:(lia) ltac:(lia) out_len_at_most) as (z & -> & Hz).
  unfold cast_size, cast. rewrite (proj2 (Z.leb_le 0 z)), (proj2 (Z.ltb_lt z _)) by lia. done.
Qed.

Lemma resample_at_inside undef (input : list Z) i :
  Z.of_nat (length input) = n → 0 ≤ i < max_len → is_Some (resample_at undef input ratio i).
Proof using Hin Hout Hn He Hm Hdown Hnear.
  intros Hlen Hi. unfold resample_at. rewrite Hlen.
  assert (∃ z, f64_floor (f64_div (f64_of_Z i) ratio) = Some z ∧ 0 ≤ z < n) as (z & -> & Hz).
  { destruct (decide (i = 0)) as [->|]; [exists 0; split; [done|lia]|].
    destruct (at_most_floor 1100 _ (n * 2 ^ 15 - 1) 15 ltac:(lia) ltac:(lia) ltac:(lia) ltac:(lia)
                (position_at_most i ltac:(lia))) as (z & -> & Hz0 & Hz). exists z. split; [done|lia]. }
  assert (cast_size (undef (f64_div (f64_of_Z i) ratio)) (Some z) = z) as ->.
  { unfold cast_size, cast. rewrite (proj2 (Z.leb_le 0 z)), (proj2 (Z.ltb_lt z _)) by lia. done. }
  assert (0 ≤ Z.min (u64 (z + 1)) (n - 1) < n) as Hi1.
  { pose proof (Z.mod_pos_bound (z + 1) (2 ^ 64) ltac:(lia)). unfold u64. lia. }
  destruct (lookup_lt_is_Some_2 input (Z.to_nat z)) as [a ->]; [lia|].
  destruct (lookup_lt_is_Some_2 input (Z.to_nat (Z.min (u64 (z + 1)) (n - 1)))) as [b ->]; [lia|].
  by eexists.
Qed.
End ratio.

Lemma resample_inside undef (input : list Z) (input_rate output_rate : Z) :
  let n := Z.of_nat (length input) in
  rate_ok input_rate output_rate = true → 0 < n < 2 ^ 36 →
  ∃ out, resample_linear_int16 undef input input_rate output_rate = Some out ∧
    Z.of_nat (length out) ≤ max_len input_rate output_rate n.
Proof.
  intros n Hok Hn. unfold rate_ok in Hok.
  apply andb_prop in Hok as [[[[Hi1 Hi2]%andb_prop Ho1]%andb_prop Ho2]%andb_prop Hr].
  apply Z.ltb_lt in Hi1, Hi2, Ho1. apply Z.leb_le in Ho2.
  unfold resample_linear_int16. rewrite bool_decide_eq_false_2 by (intros ->; simpl in *; lia).
  cbn [orb]. destruct (Z.eqb_spec input_rate output_rate) as [<-|Hne].
  { exists input. split; [done|].
    pose proof (max_len_bounds input_rate input_rate n ltac:(lia) ltac:(lia) Hn). nia. }
  destruct (f64_div (f64_of_Z output_rate) (f64_of_Z input_rate)) as [| | |[] m e]; try done.
  apply andb_prop in Hr as [[[[H1 H2]%andb_prop H3]%andb_prop H4]%andb_prop H5].
  apply Z.leb_le in H1, H3, H4, H5. apply Z.ltb_lt in H2. fold n.
  pose proof (out_len_le input_rate output_rate n ltac:(lia) ltac:(lia) Hn m e ltac:(lia)
    H3 H4 H5 undef) as Hl.
  set (len := Z.to_nat _). assert (len = Z.to_nat (out_len undef n (S754_finite false m e))) as El
    by done.
  assert (is_Some (mapM (λ i, resample_at undef input (S754_finite false m e) (Z.of_nat i))
    (seq 0 len))) as [out Em].
  { apply mapM_is_Some_2, Forall_forall. intros i Hi%elem_of_seq.
    apply (resample_at_inside input_rate output_rate n); try done; lia. }
  exists out. split; [done|]. apply length_mapM in Em. rewrite length_seq in Em. lia.
Qed.

(** C17: Resampling at a rate whose ratio is not rounded up reads only inside its input
    and produces at most the exact number of samples, rounded up. *)
Theorem resample_in_bounds undef (input : list Z) (input_rate output_rate : Z) :
  let n := Z.of_nat (length input) in
  rate_ok input_rate output_rate = true → 0 < n < 2 ^ 36 →
  ∃ out, resample_linear_int16 undef input input_rate output_rate = Some out ∧
    Z.of_nat (length out) ≤ max_len input_rate output_rate n.
Proof. apply resample_inside. Qed.

(** Every usual sampling rate converts safely to 16 kHz. *)
Definition usual_rates : list Z :=
  [8000; 11025; 12000; 22050; 24000; 32000; 44100; 48000; 96000; 192000].

Example resample_in_bounds_witness :
  forallb (λ r, rate_ok r 16000) usual_rates = true ∧
  ∃ out, resample_linear_int16 (λ _, 0) (replicate 100 7) 44100 16000 = Some out ∧
    Z.of_nat (length out) ≤ 37.
Proof.
  split; [by vm_compute|].
  apply (resample_in_bounds (λ _, 0) (replicate 100 7) 44100 16000); by vm_compute.
Defined.

(** 39 samples at 12480 Hz make exactly 50 samples at 16 kHz, but the ratio is
    rounded up: 51 samples are produced and the last one reads one past the end of
    the input, whatever the samples are. *)
Theorem resample_reads_outside undef (input : list Z) :
  length input = 39%nat → resample_linear_int16 undef input 12480 16000 = None.
Proof.
  intros Hlen. unfold resample_linear_int16.
  rewrite bool_decide_eq_false_2 by (by intros ->). cbn [orb]. rewrite Hlen.
  change (12480 =? 16000) with false. cbn iota.
  replace (Z.to_nat (out_len undef (Z.of_nat 39) _)) with 51%nat by (by vm_compute).
  apply mapM_None. apply Exists_exists. exists 50%nat. split; [apply elem_of_seq; lia|].
  unfold resample_at. rewrite Hlen.
  replace (cast_size _ (f64_floor _)) with 39 by (by vm_compute).
  by rewrite (lookup_ge_None_2 input (Z.to_nat 39)) by (rewrite Hlen; done).
Qed.

Example resample_reads_outside_witness :
  resample_linear_int16 (λ _, 0) (replicate 39 0) 12480 16000 = None.
Proof. apply (resample_reads_outside (λ _, 0) (replicate 39 0)). done. Defined.

(** ** Mixing *)

Lemma list_pair_ind {A} (P : list A → Prop) :
  P [] → (∀ a, P [a]) → (∀ a b l, P l → P (a :: b :: l)) → ∀ l, P l.
Proof.
  intros H0 H1 H2 l. cut (P l ∧ ∀ a, P (a :: l)); [tauto|].
  induction l as [|b l [IH1 IH2]]; split; auto.
Qed.

(** [stereo_to_mono] halves the number of samples, an odd last one being dropped, and
    each result is the mean of its pair rounded toward zero: never outside the two
    samples, so the conversion back to 16 bits never wraps. *)
Theorem stereo_to_mono_spec (l : list Z) :
  Forall (λ v, - 2 ^ 15 ≤ v < 2 ^ 15) l →
  length (stereo_to_mono l) = Nat.div2 (length l) ∧
  ∀ i a b, l !! (2 * i)%nat = Some a → l !! (2 * i + 1)%nat = Some b →
    ∃ v, stereo_to_mono l !! i = Some v ∧ v = Z.quot (a + b) 2 ∧ Z.min a b ≤ v ≤ Z.max a b.
Proof.
  induction l as [|a|a b l IH] using list_pair_ind; intros HF; [done| |].
  - split; [done|]. intros [|i] x y H1 H2; [done|]. by rewrite Nat.add_comm in H2.
  - apply Forall_cons in HF as [Ha HF]. apply Forall_cons in HF as [Hb HF].
    destruct (IH HF) as [IHl IHn]. split; [cbn; by rewrite IHl|].
    assert (Z.min a b ≤ Z.quot (a + b) 2 ≤ Z.max a b) as Hq
      by (pose proof (Z.quot_rem' (a + b) 2); pose proof (Z.rem_bound_abs (a + b) 2); lia).
    intros [|i] x y H1 H2.
    + cbn in H1, H2. simplify_eq. eexists. split; [done|]. rewrite i16_small by lia. done.
    + replace (2 * S i)%nat with (S (S (2 * i))) in H1, H2 by lia.
      exact (IHn i x y H1 H2).
Qed.

Example stereo_to_mono_spec_witness :
  ∃ v, stereo_to_mono [3; -6; 32767; 32767; 9] !! 1%nat = Some v ∧
    v = Z.quot (32767 + 32767) 2 ∧ Z.min 32767 32767 ≤ v ≤ Z.max 32767 32767.
Proof.
  apply (stereo_to_mono_spec [3; -6; 32767; 32767; 9]); try done.
  repeat constructor; lia.
Defined.

Lemma mix_groups_lookup undef fuel channels (input : list spec_float) k :
  0 < channels → (length input ≤ fuel)%nat →
  mix_groups undef fuel channels input !! k =
    (if decide (k * Z.to_nat channels < length input)%nat
     then Some (mix_group undef channels
                  (take (Z.to_nat channels) (drop (k * Z.to_nat channels) input)))
     else None).
Proof.
  intros Hc. set (c := Z.to_nat channels). assert (0 < c)%nat as Hc' by (subst c; lia).
  revert input k. induction fuel as [|fuel IH]; intros [|x l] k Hlen; cbn [mix_groups];
    try (rewrite decide_False by (simpl in *; lia); done).
  destruct k as [|k]; [rewrite decide_True by (simpl; lia); done|].
  fold c. cbn [lookup list_lookup]. rewrite IH by (rewrite length_drop; simpl in *; lia).
  rewrite length_drop, drop_drop. replace (S k * c)%nat with (c + k * c)%nat by lia.
  destruct (decide (k * c < length (x :: l) - c)%nat) as [H|H];
    [rewrite decide_True by lia|rewrite decide_False by lia]; done.
Qed.

(** The mixing loop over any positive number of channels terminates within one round
    per sample: sample [k] of the result is the mix of the [k]-th group of [channels]
    samples, and there is one for every group, the last, shorter one included. *)
Theorem mix_groups_terminates undef channels (input : list spec_float) :
  0 < channels → input ≠ [] → channels ≠ 1 → channels ≠ 2 →
  ∃ pcm, to_16k_mono_int16 undef input 16000 channels = Some pcm ∧
    ∀ k, pcm !! k =
      (if decide (k * Z.to_nat channels < length input)%nat
       then Some (mix_group undef channels
                    (take (Z.to_nat channels) (drop (k * Z.to_nat channels) input)))
       else None).
Proof.
  intros Hc Hne H1 H2. unfold to_16k_mono_int16. rewrite bool_decide_eq_false_2 by done.
  rewrite (proj2 (Z.eqb_neq channels 0)), (proj2 (Z.eqb_neq _ _) H1), (proj2 (Z.eqb_neq _ _) H2),
    (proj2 (Z.ltb_ge channels 0)), Z.eqb_refl by lia.
  eexists. split; [done|]. intros k. by apply mix_groups_lookup.
Qed.

Example mix_groups_terminates_witness :
  ∃ pcm, to_16k_mono_int16 (λ _, 0) (replicate 7 f32_half) 16000 3 = Some pcm ∧
    pcm !! 2%nat = Some (mix_group (λ _, 0) 3 [f32_half]).
Proof.
  destruct (mix_groups_terminates (λ _, 0) 3 (replicate 7 f32_half)) as (pcm & H1 & H2); try done.
  exists pcm. split; [exact H1|]. by rewrite H2.
Defined.

(** One channel: a sample for every sample, resampled unless already at 16 kHz. *)
Lemma mono_returns undef (input : list spec_float) rate :
  Z.of_nat (length input) < 2 ^ 36 → rate_ok rate 16000 = true →
  ∃ out, to_16k_mono_int16 undef input rate 1 = Some out ∧
    Z.of_nat (length out) ≤ max_len rate 16000 (Z.of_nat (length input)).
Proof.
  intros Hlen Hok. unfold to_16k_mono_int16.
  destruct input as [|x l].
  { exists []. split; [done|]. unfold rate_ok in Hok.
    apply andb_prop in Hok as [[[[?%Z.ltb_lt _]%andb_prop _]%andb_prop _]%andb_prop _].
    apply Z.div_pos; cbn [length]; lia. }
  rewrite bool_decide_eq_false_2 by done. cbn iota.
  cbn [Z.eqb Pos.eqb]. set (pcm := float_to_int16 undef <$> x :: l).
  assert (length pcm = length (x :: l)) as El by apply length_fmap.
  destruct (resample_inside undef pcm rate 16000 Hok) as (out & E & Hl).
  { rewrite El. simpl in *. lia. }
  rewrite El in Hl. destruct (Z.eqb_spec rate 16000) as [->|]; [|by exists out].
  exists pcm. split; [done|]. unfold resample_linear_int16 in E. rewrite Z.eqb_refl, orb_true_r in E.
  by simplify_eq.
Qed.
