(* ===== verification/Sherpa.v ===== *)
(** * SherpaOnnxLocalTts (src/local/sherpa_local_tts.cpp)

    The engine around the sherpa-onnx inference library.  The library and the file
    system are inputs: which files exist, what creating an engine gives, its sampling
    rate and the audio it generates.  The calls that acquire and release library
    objects are recorded, in order. *)

From Stdlib Require Import SpecFloat.
From S2P Require Import Prelude Messages Metrics HexCodec LocalEngine Ieee Rounding Resampler ResamplerFacts MockEngine Config.

(** ** Paths *)

(** [fs::path(a) / b]. *)
Definition path_join (a b : string) : string :=
  if String.prefix "/" b then b
  else if String.eqb a "" then b
  else if String.eqb (String.substring (String.length a - 1) 1 a) "/" then a +:+ b
  else a +:+ "/" +:+ b.

(** ** The library *)

(** The members of [SherpaOnnxOfflineTtsConfig] the constructor sets. *)
Record OfflineTtsConfig := mkOfflineTtsConfig {
  oc_model : string;
  oc_tokens : string;
  oc_data_dir : option string;
  oc_num_threads : Z;
  oc_provider : string;
  oc_debug : Z;
  oc_max_num_sentences : Z;
}.

(** [SherpaOnnxGenerationConfig]. *)
Record GenerationConfig := mkGenerationConfig {
  gc_sid : Z;
  gc_speed : spec_float;
  gc_silence_scale : spec_float;
}.

(** The C functions: a null pointer is [None]. *)
Record SherpaApi (handle : Type) := mkSherpaApi {
  CreateOfflineTts : OfflineTtsConfig → option handle;
  OfflineTtsSampleRate : handle → Z;
  GenerateWithConfig : handle → string → GenerationConfig → option (list spec_float);
}.
Arguments mkSherpaApi {_} _ _ _.
Arguments CreateOfflineTts {_} _ _.
Arguments OfflineTtsSampleRate {_} _ _.
Arguments GenerateWithConfig {_} _ _ _ _.

(** Objects acquired from and released to the library. *)
Inductive SherpaCall : Type := CreatedTts | DestroyedTts | GeneratedAudio | DestroyedAudio.
#[global] Instance SherpaCall_eq_dec : EqDecision SherpaCall.
Proof. solve_decision. Defined.

(** The literal [0.2f]. *)
Definition f32_0_2 : spec_float := S754_finite false 13421773 (-26).

(** [text.c_str()] as the library reads it: up to the first zero byte. *)
Fixpoint c_str (s : string) : string :=
  match s with
  | "" => ""
  | String c s => if Ascii.eqb c Ascii.zero then "" else String c (c_str s)
  end.

Section sherpa.
Context {handle : Type} (api : SherpaApi handle) (exists_ : string → bool).
Context (hardware_concurrency : Z) (undef : spec_float → Z).

(** The object: [Impl] and the members. *)
Record SherpaOnnxLocalTts := mkSherpa {
  sp_cfg : LocalTtsConfig;
  sp_tts : option handle;
  sp_native_sr : Z;
  sp_ready : bool;
}.

#[global] Instance SherpaOnnxLocalTts_eta : Eta SherpaOnnxLocalTts := {|
  eta_expand s := mkSherpa (sp_cfg s) (sp_tts s) (sp_native_sr s) (sp_ready s) |}.

Definition offline_config (cfg : LocalTtsConfig) : OfflineTtsConfig :=
  let data_dir := path_join (le_model_dir cfg) "espeak-ng-data" in
  {| oc_model := path_join (le_model_dir cfg) (le_model_file cfg);
     oc_tokens := path_join (le_model_dir cfg) "tokens.txt";
     oc_data_dir := if exists_ data_dir then Some data_dir else None;
     oc_num_threads := if (0 <? le_num_threads cfg)%Z then le_num_threads cfg
                       else Z.max 1 (i32 (hardware_concurrency / 2));
     oc_provider := "cpu";
     oc_debug := 0;
     oc_max_num_sentences := 1 |}.

(** The constructor, in a build with the library. *)
Definition sherpa_new (cfg : LocalTtsConfig) : SherpaOnnxLocalTts * list SherpaCall :=
  let model_path := path_join (le_model_dir cfg) (le_model_file cfg) in
  let tokens_path := path_join (le_model_dir cfg) "tokens.txt" in
  if negb (exists_ model_path) || negb (exists_ tokens_path)
  then (mkSherpa cfg None 24000 false, [])
  else
    match CreateOfflineTts api (offline_config cfg) with
    | Some h => (mkSherpa cfg (Some h) (OfflineTtsSampleRate api h) true, [CreatedTts])
    | None => (mkSherpa cfg None 24000 false, [])
    end.

(** The destructor. *)
Definition sherpa_destroy (s : SherpaOnnxLocalTts) : list SherpaCall :=
  match sp_tts s with Some _ => [DestroyedTts] | None => [] end.

Definition native_sample_rate (s : SherpaOnnxLocalTts) : Z := sp_native_sr s.

Definition sherpa_sid (voice_id : string) : Z :=
  if String.eqb voice_id "" then 0%Z else default 0%Z (stoi voice_id).

Definition sherpa_speed (speed : spec_float) : spec_float :=
  if SFltb f32_zero speed then speed else f32_one.

(** [Synthesize] between the times [t0] and [t1]; the result is [None] when the
    behaviour is undefined: the resampler reads outside its input, or the target
    rate is zero and the duration divides by it. *)
Definition sherpa_synthesize (s : SherpaOnnxLocalTts) (t0 t1 : TimePoint)
    (text voice_id : string) (speed : spec_float) : option LocalTtsResult * list SherpaCall :=
  let rate := le_target_sample_rate (sp_cfg s) in
  let channels := le_target_channels (sp_cfg s) in
  match (if sp_ready s then sp_tts s else None) with
  | None => (Some (mkResult [] rate channels 0 0 1004 "local_engine_not_ready"), [])
  | Some h =>
      let gc := mkGenerationConfig (sherpa_sid voice_id) (sherpa_speed speed) f32_0_2 in
      match GenerateWithConfig api h (c_str text) gc with
      | None => (Some (mkResult [] rate channels 0 0 1000 "local_generate_failed"), [])
      | Some audio =>
          let usage := i32 (Z.quot (t1 - t0) 1000000) in
          match to_16k_mono_int16 undef audio (sp_native_sr s) 1 with
          | None => (None, [GeneratedAudio])
          | Some samples =>
              if (rate =? 0)%Z then (None, [GeneratedAudio])
              else
                let ms := i32 (Z.quot (Z.of_nat (length samples) * 1000) rate) in
                (Some (mkResult samples rate channels ms usage 0 "ok_local"),
                 [GeneratedAudio; DestroyedAudio])
          end
      end
  end.

(** The engine as the factory returns it; [t0] and [t1] are the times of a call, and
    [crash] stands for what an undefined execution yields. *)
Definition sherpa_engine (t0 t1 : TimePoint) (crash : LocalTtsResult) (cfg : LocalTtsConfig)
    : ILocalTtsEngine :=
  let s := (sherpa_new cfg).1 in
  mkEngine (sp_ready s)
    (λ text voice_id speed, default crash (sherpa_synthesize s t0 t1 text voice_id speed).1).
End sherpa.

Arguments SherpaOnnxLocalTts : clear implicits.

(** [Synthesize] in a build without the library. *)
Definition sherpa_not_compiled (cfg : LocalTtsConfig) : LocalTtsResult :=
  mkResult [] (le_target_sample_rate cfg) (le_target_channels cfg) 0 0 1000
    "sherpa_onnx_not_compiled".

(** ** Properties *)

(** Objects acquired and not yet released. *)
Definition count_calls (c : SherpaCall) (calls : list SherpaCall) : nat :=
  length (filter (c =.) calls).

(** What the code relies on: the library reports a rate whose ratio to 16 kHz is not
    rounded up, and counts samples in an [int32_t]. *)
Class SherpaLaws {handle : Type} (api : SherpaApi handle) : Prop := {
  law_rate h : rate_ok (OfflineTtsSampleRate api h) 16000 = true;
  law_count h text gc audio :
    GenerateWithConfig api h text gc = Some audio → (Z.of_nat (length audio) < 2 ^ 31)%Z;
}.

Section facts.
Context {handle : Type} (api : SherpaApi handle) (exists_ : string → bool).
Context (hw : Z) (undef : spec_float → Z).
Abbreviation new := (sherpa_new api exists_ hw).
Abbreviation synthesize := (sherpa_synthesize api undef).

(** The constructor sets [ready_] exactly when there is an engine, and then the rate
    is the engine's; the second test in [Synthesize] is never the deciding one. *)
Lemma sherpa_ready cfg :
  let s := (new cfg).1 in
  sp_cfg s = cfg ∧
  match sp_tts s with
  | Some h => sp_ready s = true ∧ sp_native_sr s = OfflineTtsSampleRate api h
  | None => sp_ready s = false
  end.
Proof. unfold sherpa_new. destruct (_ || _); [done|]. by destruct (CreateOfflineTts _ _). Qed.

Lemma sherpa_ready_files cfg :
  sp_ready (new cfg).1 = true ↔
  exists_ (path_join (le_model_dir cfg) (le_model_file cfg)) = true ∧
  exists_ (path_join (le_model_dir cfg) "tokens.txt") = true ∧
  is_Some (CreateOfflineTts api (offline_config exists_ hw cfg)).
Proof.
  unfold sherpa_new. destruct (exists_ _), (exists_ (path_join _ "tokens.txt")); simpl;
    try naive_solver.
  destruct (CreateOfflineTts _ _); simpl; [naive_solver|].
  split; [done|]. by intros (_ & _ & ? & ?).
Qed.

Lemma mono_samples audio rate out :
  to_16k_mono_int16 undef audio rate 1 = Some out →
  Forall (λ z, - 2 ^ 15 ≤ z < 2 ^ 15)%Z out.
Proof.
  unfold to_16k_mono_int16. destruct audio as [|x l]; [by intros [= <-]|].
  rewrite bool_decide_eq_false_2 by done. cbn iota. cbn [Z.eqb Pos.eqb].
  assert (Forall (λ z, - 2 ^ 15 ≤ z < 2 ^ 15)%Z (float_to_int16 undef <$> x :: l)) as Hf.
  { apply Forall_fmap, Forall_true. intros. apply i16_range. }
  destruct (rate =? 16000)%Z; [by intros [= <-]|].
  unfold resample_linear_int16. destruct (_ || _); [by intros [= <-]|].
  intros Em%mapM_Some_1. eapply Forall2_Forall_r; [exact Em|].
  apply Forall_forall. intros i _ v Hv. unfold resample_at in Hv.
  apply bind_Some in Hv as (a & _ & (b & _ & Hv)%bind_Some). injection Hv as <-. apply i16_range.
Qed.

Context `{!SherpaLaws api}.

Lemma sherpa_synthesize_defined cfg t0 t1 text voice_id speed :
  (0 < le_target_sample_rate cfg)%Z →
  let s := (new cfg).1 in
  let (r, calls) := synthesize s t0 t1 text voice_id speed in
  count_calls GeneratedAudio calls = count_calls DestroyedAudio calls ∧
  ∃ r', r = Some r' ∧
    lr_sample_rate r' = le_target_sample_rate cfg ∧ lr_channels r' = le_target_channels cfg ∧
    Forall (λ z, - 2 ^ 15 ≤ z < 2 ^ 15)%Z (lr_samples r') ∧
    (lr_status_code r' = 1004 ∧ sp_ready s = false ∧ lr_samples r' = [] ∨
     lr_status_code r' = 1000 ∧ sp_ready s = true ∧ lr_samples r' = [] ∨
     lr_status_code r' = 0 ∧ sp_ready s = true ∧
     lr_duration_ms r' =
       i32 (Z.of_nat (length (lr_samples r')) * 1000 / le_target_sample_rate cfg))%Z.
Proof.
  intros Hrate s. destruct (sherpa_ready cfg) as [Hcfg Hs]. fold s in Hcfg, Hs.
  unfold sherpa_synthesize. rewrite Hcfg. destruct (sp_tts s) as [h|].
  2: { rewrite Hs. split; [done|]. eexists. split_and!; try done. by left. }
  destruct Hs as [-> Hsr]. destruct (GenerateWithConfig _ _ _ _) as [audio|] eqn:Eg.
  2: { split; [done|]. eexists. split_and!; try done. by right; left. }
  pose proof (law_count _ _ _ _ Eg) as Hn.
  destruct (mono_returns undef audio (sp_native_sr s)) as (out & E & _);
    [lia|by rewrite Hsr; apply law_rate|].
  rewrite E, (proj2 (Z.eqb_neq _ _)) by lia. split; [done|]. eexists.
  split_and!; try done; [by apply mono_samples in E|].
  right; right. split_and!; [done..|]. cbn. by rewrite Z.quot_div_nonneg by lia.
Qed.


Lemma mock_answers libm cfg text voice_id speed :
  (0 < le_target_sample_rate cfg ≤ 71582788)%Z →
  answers_well (le_target_sample_rate cfg)
    (Synthesize (CreateMockLocalTts libm cfg) text voice_id speed).
Proof.
  intros Hr. destruct (mock_synthesize_spec libm cfg text voice_id speed) as
    (H1 & _ & _ & H4 & _ & H6); [lia|]. split_and!; [by apply H4; lia|done|by left].
Qed.

Lemma factory_answers libm t0 t1 crash cfg text voice_id speed :
  (0 < le_target_sample_rate cfg ≤ 71582788)%Z →
  let e := CreateLocalTts libm (Some (sherpa_engine api exists_ hw undef t0 t1 crash)) cfg in
  IsReady e = true ∧
  answers_well (le_target_sample_rate cfg) (Synthesize e text voice_id speed).
Proof.
  intros Hr. unfold CreateLocalTts. destruct (le_backend cfg); [|by split; [|apply mock_answers]].
  cbn [CreateOnnxLocalTts mbind option_bind].
  change (IsReady (sherpa_engine _ _ _ _ _ _ _ cfg)) with (sp_ready (new cfg).1). destruct (sp_ready (new cfg).1) eqn:Er;
    [|by split; [|exact (mock_answers libm (cfg <| le_backend := Mock |>) text voice_id speed Hr)]].
  split; [done|]. unfold sherpa_engine. cbn [Synthesize].
  pose proof (sherpa_synthesize_defined cfg t0 t1 text voice_id speed ltac:(lia)) as H.
  cbv zeta in H. destruct (synthesize _ _ _ _ _ _) as [r calls].
  destruct H as (_ & r' & -> & H1 & _ & H3 & [(_ & H4 & _)|[(H4 & _ & H5)|(H4 & _)]]);
    [congruence|..]; split_and!; auto.
Qed.

(** The factory's engine keeps the promise of the interface, with either backend. *)
Lemma factory_laws libm t0 t1 crash cfg :
  (0 < le_target_sample_rate cfg ≤ 71582788)%Z →
  EngineLaws (le_target_sample_rate cfg)
    (CreateLocalTts libm (Some (sherpa_engine api exists_ hw undef t0 t1 crash)) cfg).
Proof. intros Hr text voice_id speed. by apply factory_answers. Qed.

End facts.

(** ** Examples *)

(** A library with one engine, which answers 20 ms of silence at 22050 Hz unless the
    text is empty. *)
Definition demo_api : SherpaApi unit :=
  mkSherpaApi (λ _, Some tt) (λ _, 22050%Z)
    (λ _ text _, if String.eqb text "" then None else Some (replicate 441 f32_zero)).

#[global] Instance demo_api_laws : SherpaLaws demo_api.
Proof.
  split; [by intros []|]. intros h text gc audio. cbn.
  destruct (String.eqb text ""); [done|]. intros H. injection H as <-. by vm_compute.
Qed.

Definition sherpa_cfg : LocalTtsConfig := LocalTtsConfig_default <| le_model_dir := "/m" |>.



(** The samples are at 16 kHz whatever the configured rate: 20 ms of audio (441 samples
    at 22050 Hz) become 320 samples, which an engine configured for 48 kHz reports as
    6 ms at 48 kHz. *)
Lemma sherpa_rate_label :
  let s := (sherpa_new demo_api (λ _, true) 4
              (sherpa_cfg <| le_target_sample_rate := 48000%Z |>)).1 in
  match (sherpa_synthesize demo_api (λ _, 0%Z) s 0 0
           "hi" "" f32_one).1 with
  | Some r => (lr_sample_rate r, length (lr_samples r), lr_duration_ms r) = (48000%Z, 320, 6%Z)
  | None => False
  end.
Proof. by vm_compute. Qed.
