(* ===== verification/Started.v ===== *)
(** * From the environment to the client's ear

    Start-up, engine factory, heartbeat, service and handler together: whatever the
    settings, a server that starts serves its local requests with an engine that keeps
    its promise, so the theorem of Trip.v applies to it. *)

From Stdlib Require Import SpecFloat.
From S2P Require Import Prelude Messages ChangeSet CopyChannel HexCodec Metrics SessionPool.
From S2P Require Import PendingStore DataBoard Events EventBus LocalEngine WsFrameCodec.
From S2P Require Import Observability Backpressure Evolution World MessageProcessor Heartbeat.
From S2P Require Import Demo HeartbeatSteps HeartbeatFacts RequestFacts Server.
From S2P Require Import Proto RequestParser ResponseWriter Jwt TtsService ServiceFacts System.
From S2P Require Import Config Ieee MockEngine Startup Sherpa Trip.

(** The numbers read from the environment are not about the engine. *)
Lemma env_number_local getenv k f c c' :
  env_number getenv k f c = Ok c' → (∀ z c, cf_local (f z c) = cf_local c) →
  cf_local c' = cf_local c.
Proof.
  unfold env_number. intros E Hf. destruct (getenv k) as [v|]; [|by injection E as <-].
  destruct (stoull v); [|done]. cbn in E. injection E as <-. apply Hf.
Qed.

(** The environment cannot change the rate of the engine. *)
Lemma from_env_rate getenv hw cfg :
  from_env getenv hw = Ok cfg → cl_target_sample_rate (cf_local cfg) = 16000%Z.
Proof.
  unfold from_env. set (c0 := _ <| cf_auth_enabled := _ |>).
  assert (cf_local c0 = LocalConfig_default) as E0.
  { unfold c0. by destruct (negb _). }
  clearbody c0. cbv zeta.
  destruct (env_number getenv "TTS_POOL_MAX" _ c0) as [c1|] eqn:E1; [|done].
  cbn [mbind result_bind]. destruct (env_number getenv "TTS_POOL_IDLE_MS" _ c1) as [c2|] eqn:E2; [|done].
  cbn [mbind result_bind]. destruct (env_number getenv "TTS_POOL_LIFETIME_S" _ c2) as [c3|] eqn:E3; [|done].
  cbn [mbind result_bind]. destruct (env_number getenv "TTS_HEARTBEAT_MS" _ c3) as [c4|] eqn:E4; [|done].
  cbn [mbind result_bind]. apply env_number_local in E1, E2, E3, E4; try done.
  assert (cf_local c4 = LocalConfig_default) as E by congruence. intros [= <-].
  cbn. rewrite E. destruct (getenv "TTS_LOCAL_NUM_THREADS") as [v|]; [destruct (stoi v)|];
    by destruct (getenv "TTS_LOCAL_MODEL_DIR").
Qed.

Section started.
Context {handle : Type} (api : SherpaApi handle) {Laws : SherpaLaws api} (exists_ : string → bool).
Context (undef : spec_float → Z) (t0 t1 : TimePoint) (crash : LocalTtsResult).
Context (libm : Libm) (getenv : string → option string) (hw : Z) (file_exists : string → bool).
Context (load_public_key_pem : string → option OpenSsl) (grpc_starts : Config → bool).

(** Whether the sherpa-onnx library was compiled in. *)
Definition sherpa_build (compiled : bool) : option (LocalTtsConfig → ILocalTtsEngine) :=
  if compiled then Some (sherpa_engine api exists_ hw undef t0 t1 crash) else None.

Lemma build_laws compiled cfg :
  (0 < le_target_sample_rate cfg ≤ 71582788)%Z →
  EngineLaws (le_target_sample_rate cfg) (CreateLocalTts libm (sherpa_build compiled) cfg).
Proof.
  intros Hr. destruct compiled; [by apply factory_laws|]. intros text voice_id speed.
  unfold CreateLocalTts. destruct (le_backend cfg); [|by apply mock_answers].
  exact (mock_answers libm (cfg <| le_backend := Mock |>) text voice_id speed Hr).
Qed.

(** Every server that starts has an engine that answers at 16 kHz. *)
Lemma started_engine compiled cfg hb jwt :
  startup libm (sherpa_build compiled) getenv hw file_exists load_public_key_pem grpc_starts =
    Running cfg hb jwt →
  ∃ e, local_engine_ hb = Some e ∧ EngineLaws 16000 e ∧
       (0 ≤ high_watermark_ (backpressure_cfg hb) < 2 ^ 64)%Z.
Proof.
  intros (Hc & _ & -> & _)%startup_running. apply from_env_rate in Hc.
  eexists. split; [done|]. split; [|cbn; lia].
  pose proof (build_laws compiled (local_tts_config cfg)) as Hl.
  assert (le_target_sample_rate (local_tts_config cfg) = 16000%Z) as E by (cbn; done).
  rewrite E in Hl. apply Hl. lia.
Qed.

End started.

(** ** Instance: a started server, one request, from the channel to the client. *)

Definition model_getenv (k : string) : option string :=
  if String.eqb k "TTS_LOCAL_MODEL_DIR" then Some "/m" else None.
Definition model_build : option (LocalTtsConfig → ILocalTtsEngine) :=
  sherpa_build Sherpa.demo_api (λ _, true) (λ _, 0%Z) 0 0 LocalTtsResult_default 4 true.
Definition model_config : Config :=
  match from_env model_getenv 4 with Ok c => c | Throw _ => Config_default end.
Definition model_engine : ILocalTtsEngine :=
  CreateLocalTts demo_libm model_build (local_tts_config model_config).
Definition model_hb : HeartbeatConfig :=
  mkHeartbeatConfig (Some model_engine) true backpressure_default.

Lemma model_started :
  startup demo_libm model_build model_getenv 4 (λ _, true) (λ _, None) (λ _, true) =
  Running model_config model_hb None.
Proof.
  unfold startup.
  assert (from_env model_getenv 4 = Ok model_config) as -> by (vm_compute; reflexivity).
  cbn [mbind result_bind].
  assert (validate (λ _, true) model_config = Ok tt) as -> by (vm_compute; reflexivity).
  cbn [mbind result_bind].
  assert (cf_auth_enabled model_config = false) as -> by (vm_compute; reflexivity).
  assert (cl_prefer_local (cf_local model_config) = true) as -> by (vm_compute; reflexivity).
  done.
Qed.

Definition trip_service : Service :=
  (stream_step demo_net 7 false 0 (PcQueued "strm-1" 0)
     (stream_step demo_net 7 false 0 (PcSent "strm-1") service_new).2).2.
Definition trip_tick (w : World) (svc : Service) : ChangeSet * World * Service :=
  it_default (heartbeat_tick (Ord:=um_default) (J:=demo_json) (demo_env 10) model_hb demo_net w svc).
Definition trip1 : ChangeSet * World * Service := trip_tick demo_sent trip_service.
Definition trip_job : LocalSynthJob := local_job (demo_request "strm-1" "hello").
Definition trip_ran : World :=
  trip1.1.2 <| request_channel_ := mkChannel [job_result model_engine trip_job] false |>.
Definition trip2 : ChangeSet * World * Service := trip_tick trip_ran trip1.2.
Definition trip_pc : StreamPc := PcPolling "strm-1" 0 (seconds 60).

Lemma trip_booted :
  sys_exec (J:=demo_json) (demo_env 10) model_hb demo_net
    (mkSys (world_new SystemClock) service_new []) [] (mkSys demo_sent trip_service []).
Proof.
  apply (sx_snoc _ _ _ _ [] (mkSys demo_sent service_new []) []).
  - apply (sx_snoc _ _ _ _ [] (mkSys (world_new SystemClock) service_new []) []); [apply sx_nil|].
    by apply (sy_request _ _ _ (demo_request "strm-1" "hello")).
  - apply sy_service. intros _.
    destruct (registration demo_net 7 "strm-1" 0 false service_new) as (_ & H & _);
      [apply service_new_wf|intros r; cbn; by rewrite lookup_empty|exact H].
Qed.

(** Two ticks with one job between them. *)
Lemma two_ticks {J : NlohmannJson} (Ord : UMapOrder) env hb net rid stream w svc pc
    cs1 w1 svc1 job ch cs2 w2 svc2 :
  heartbeat_tick env hb net w svc = Ok (cs1, w1, svc1) → local_jobs cs1 = [job] →
  run_jobs hb [job] (request_channel_ w1) = Ok ch →
  heartbeat_tick env hb net (w1 <| request_channel_ := ch |>) svc1 = Ok (cs2, w2, svc2) →
  ∃ hist, trip_exec env hb net rid stream (mkTrip (mkSys w svc []) [] pc) [cs1; cs2]
    (mkTrip (mkSys w2 svc2 (local_jobs cs2)) hist pc).
Proof.
  intros H1 Hj Hr H2. eexists.
  eapply (tx_snoc _ _ _ _ _ _ [cs1] _ [cs2]); [|by apply (tp_tick _ _ _ _ _ Ord)].
  eapply (tx_snoc _ _ _ _ _ _ [cs1] _ []); [|apply tp_background; [by apply sy_job|done]].
  eapply (tx_snoc _ _ _ _ _ _ [] _ [cs1]); [apply tx_nil|]. rewrite <- Hj.
  by apply (tp_tick _ _ _ _ _ Ord).
Qed.

Lemma trip_made :
  ∃ hist, trip_exec (J:=demo_json) (demo_env 10) model_hb demo_net "strm-1" 7
    (mkTrip (mkSys demo_sent trip_service []) [] trip_pc) [trip1.1.1; trip2.1.1]
    (mkTrip (mkSys trip2.1.2 trip2.2 (local_jobs trip2.1.1)) hist trip_pc).
Proof.
  assert (heartbeat_tick (Ord:=um_default) (J:=demo_json) (demo_env 10) model_hb demo_net demo_sent
    trip_service = Ok (trip1.1.1, trip1.1.2, trip1.2)) as H1 by (vm_compute; reflexivity).
  assert (local_jobs trip1.1.1 = [trip_job]) as Hj by (vm_compute; reflexivity).
  assert (run_jobs model_hb [trip_job] (request_channel_ trip1.1.2) =
    Ok (mkChannel [job_result model_engine trip_job] false)) as Hr by (vm_compute; reflexivity).
  assert (heartbeat_tick (Ord:=um_default) (J:=demo_json) (demo_env 10) model_hb demo_net trip_ran
    trip1.2 = Ok (trip2.1.1, trip2.1.2, trip2.2)) as H2 by (vm_compute; reflexivity).
  exact (two_ticks um_default (demo_env 10) model_hb demo_net "strm-1" 7 demo_sent trip_service
    trip_pc _ _ _ _ _ _ _ _ H1 Hj Hr H2).
Qed.

