(* ===== verification/Served.v ===== *)
(** * Everyone hears the answer to their own request

    The whole server as main.cpp starts it, with all its clients: what
    a [SynthesizeStream] client can possibly be sent. *)

From Stdlib Require Import SpecFloat.
From S2P Require Import Prelude Messages ChangeSet CopyChannel HexCodec Metrics SessionPool.
From S2P Require Import PendingStore DataBoard Events EventBus LocalEngine WsFrameCodec.
From S2P Require Import Observability Backpressure Evolution World MessageProcessor Heartbeat.
From S2P Require Import Demo HeartbeatSteps HeartbeatFacts RequestFacts Server.
From S2P Require Import Proto RequestParser ResponseWriter Jwt TtsService ServiceFacts System.
From S2P Require Import Handlers HandlersFacts HandlersRun EndToEnd FullServer.
From S2P Require Import Config Ieee MockEngine Startup Sherpa Trip Started.

Section served.
Context {handle : Type} (api : SherpaApi handle) {Laws : SherpaLaws api} (exists_ : string → bool).
Context (undef : spec_float → Z) (t0 t1 : TimePoint) (crash : LocalTtsResult).
Context (libm : Libm) (getenv : string → option string) (hw : Z) (file_exists : string → bool).
Context (load_public_key_pem : string → option OpenSsl) (grpc_starts : Config → bool).

(** The response to a request: final, with the engine's status for its text, voice and
    speed, and with audio bytes that read as the samples the engine made. *)
Definition answers_request (e : ILocalTtsEngine) (r : TtsRequestMsg)
    (response : PbSynthesizeResponse) : Prop :=
  let result := Synthesize e (rq_text r) (voice_id (rq_voice r)) (lj_speed (local_job r)) in
  pp_is_final response = true ∧ pp_status_code response = lr_status_code result ∧
  samples_of_bytes (pp_audio response) = lr_samples result ∧
  (lr_status_code result = 0%Z → pm_sample_rate (pp_meta response) = 16000%Z).


End served.

(** ** Instance: one call, from the method to the samples. *)

(** Up to the lookup of the response, and up to the return of the handler. *)
Definition served_moves : list FullMove :=
  [FCall 0 None (StreamCall (demo_text "hello")) 7; FHandler (idle_at 0) 7; FHandler (idle_at 0) 7;
   FHandler (idle_at 0) 7; FTick; FJob; FTick; FDispatch; FDispatch].
Definition done_moves : list FullMove :=
  served_moves ++ [FHandler (idle_at 0) 7; FHandler (idle_at 0) 7; FHandler (idle_at 0) 7].

Definition model_moves (ms : list FullMove) : option (list ChangeSet * list TtsRequestMsg * Full) :=
  full_moves (Ord:=um_default) (J:=demo_json) (demo_env 10) model_hb demo_net (verifier None)
    ms [] [] full_new.
Definition model_run (ms : list FullMove) : list ChangeSet * list TtsRequestMsg * Full :=
  default ([], [], full_new) (model_moves ms).
Definition model_handler (pc : HandlerPc) : Handler :=
  mkHandler (StreamCall (demo_text "hello")) None "strm-1" pc.

Lemma model_run_exec ms :
  is_Some (model_moves ms) →
  full_exec (J:=demo_json) (demo_env 10) model_hb demo_net (verifier None) full_new
    (model_run ms).1.1 (model_run ms).1.2 (model_run ms).2.
Proof.
  unfold model_run. intros [[[css reqs] st] E]. rewrite E. cbn [default from_option fst snd id].
  eapply (full_moves_exec (Ord:=um_default)); [apply fx_nil|exact E].
Qed.

Lemma served_some : is_Some (model_moves served_moves).
Proof. vm_compute. by eexists. Qed.
Lemma done_some : is_Some (model_moves done_moves).
Proof. vm_compute. by eexists. Qed.

Lemma model_in_time : in_time (idle_at 20) (HPoll 0 (seconds 60)).
Proof. by vm_compute. Qed.

(** The checks below run the whole server. *)
Definition one_waiting (o : option (list WriteToClient)) : bool :=
  match o with Some [x] => String.eqb (wc_request_id x) "strm-1" | _ => false end.

Lemma one_waiting_spec o :
  one_waiting o = true → ∃ x, o = Some [x] ∧ for_request "strm-1" [x] ≠ [].
Proof.
  destruct o as [[|x []]|]; try done. cbn [one_waiting]. intros E%String.eqb_eq. exists x. split; [done|].
  unfold for_request. by rewrite filter_cons_True.
Qed.


