(* ===== verification/LwsTransport.v ===== *)
(** * LwsClient (src/upstream/lws_transport.cpp)

    The transport over libwebsockets.  Three threads share the object: the owner's,
    which calls [open], [send_text] and [close]; [connect_thread_], which runs
    [run_loop]; and [loop_thread_], which runs [service_loop] and, inside
    [lws_service], the callbacks.  Each thread has a program point, and a step of a
    thread runs up to the next point at which another thread can observe it.

    The library is an input: whether creating the context and connecting succeed, and
    which callbacks each call of [lws_service] makes. *)

From Stdlib Require Import Ascii.
From S2P Require Import Prelude HexCodec TtsService Upstream.

Local Open Scope string_scope.

(** ** Lines *)

Definition newline : Ascii.ascii := "010"%char.

(** [find('\n')], [substr(0, pos)] and [erase(0, pos + 1)]. *)
Fixpoint split_newline (s : string) : option (string * string) :=
  match s with
  | "" => None
  | String c s =>
      if Ascii.eqb c newline then Some ("", s)
      else '(line, rest) ← split_newline s; Some (String c line, rest)
  end.

(** The locked part of the receive callback: the buffer after it and the line found. *)
Definition receive (recv_buffer chunk : string) : string * option string :=
  let recv_buffer := recv_buffer +:+ chunk in
  match split_newline recv_buffer with
  | Some (line, rest) => (rest, Some line)
  | None => (recv_buffer, None)
  end.

(** ** Program points *)

(** [lws_callback_reasons] with what [in] points to. *)
Inductive LwsReason : Type :=
| CLIENT_ESTABLISHED
| CLIENT_RECEIVE (chunk : option string)
| CLIENT_WRITEABLE
| CLIENT_CONNECTION_ERROR (message : option string)
| CLIENT_CLOSED
| OTHER_REASON.

(** A callback: whether [user] points to the session data, and the reason. *)
Record LwsEvent := mkEvent { ev_user : bool; ev_reason : LwsReason }.

(** The points of [close_internal]. *)
Inductive ClosePc : Type :=
| KCheck                       (* about to test [closed_] *)
| KSet                         (* about to set it *)
| KClear                       (* about to clear [connected_] and ask for a callback *)
| KStop                        (* about to request the stop of [connect_thread_] *)
| KJoinLoop
| KJoinConnect
| KNotify.                     (* about to call [on_close_] *)

Record Closing := mkClosing { k_pc : ClosePc; k_code : Z; k_reason : string }.

Inductive ConnectPc : Type :=
| CNone                        (* no thread *)
| CCreate                      (* about to create the context *)
| CConnect
| CSpawn                       (* about to assign [loop_thread_] *)
| CWait
| CDestroy                     (* about to destroy the context *)
| CDone.

#[global] Instance ConnectPc_eq_dec : EqDecision ConnectPc.
Proof. solve_decision. Defined.

(** [evs] are the callbacks the current call of [lws_service] has still to make. *)
Inductive LoopPc : Type :=
| LNone
| LTest                        (* about to test the loop condition *)
| LService (evs : list LwsEvent)
| LWrite (payload : string) (evs : list LwsEvent)    (* payload taken, lock released *)
| LClose (k : Closing) (evs : list LwsEvent)         (* inside [close_internal] *)
| LDone.

Inductive UserPc : Type :=
| UIdle
| UOpen                        (* in [open], about to assign [connect_thread_] *)
| USend                        (* payload queued, callback not yet requested *)
| UClose (k : Closing).

(** ** State *)

(** What a step makes visible: a callback to the owner, or a message on the wire. *)
Inductive LwsOut : Type := Called (cb : WsCallback) | Wrote (payload : string).

Record LwsClient := mkLws {
  lw_wsi : bool;               (* [wsi_] is not null *)
  lw_owner : bool;             (* [psd_.owner] is set *)
  lw_context : bool;           (* [context_] is not null *)
  lw_callbacks : bool;         (* [open] has been called *)
  lw_connected : bool;
  lw_closed : bool;
  lw_session_id : string;
  lw_ctr : Z;                  (* the counter of [generate_session_id] *)
  lw_write_queue : list string;
  lw_recv_buffer : string;
  lw_writable : bool;          (* a writeable callback is requested *)
  lw_connect_stop : bool;      (* stop requested of [connect_thread_] *)
  lw_loop_stop : bool;
  lw_connect_joined : bool;
  lw_loop_joined : bool;
  lw_connect : ConnectPc;
  lw_loop : LoopPc;
  lw_user : UserPc;
  lw_terminated : bool;        (* [std::terminate] was called *)
  lw_out : list LwsOut;        (* what became visible, in order *)
}.
#[global] Instance LwsClient_eta : Eta LwsClient := {|
  eta_expand s := mkLws (lw_wsi s) (lw_owner s) (lw_context s) (lw_callbacks s) (lw_connected s)
    (lw_closed s) (lw_session_id s) (lw_ctr s) (lw_write_queue s) (lw_recv_buffer s)
    (lw_writable s) (lw_connect_stop s) (lw_loop_stop s) (lw_connect_joined s) (lw_loop_joined s)
    (lw_connect s) (lw_loop s) (lw_user s) (lw_terminated s) (lw_out s) |}.
Implicit Types s : LwsClient.

(** The constructor; [ctr] is the process-wide session counter, initially one. *)
Definition lws_new (ctr : Z) : LwsClient :=
  mkLws false false false false false false "" ctr [] "" false false false false false
    CNone LNone UIdle false [].

Definition emit (o : LwsOut) s : LwsClient := s <| lw_out := (lw_out s ++ [o])%list |>.

(** [if (cb) cb(...)]: the three callbacks are set together. *)
Definition call (cb : WsCallback) s : LwsClient :=
  if lw_callbacks s then emit (Called cb) s else s.

(** [lws_callback_on_writable]. *)
Definition on_writable s : LwsClient := s <| lw_writable := true |>.

(** [generate_session_id]. *)
Definition generate_session_id s : string * LwsClient :=
  ("sess-" +:+ to_string_u64 (lw_ctr s), s <| lw_ctr := u64 (lw_ctr s + 1) |>).

(** ** close_internal *)

(** One step; [self] says that the thread is [loop_thread_] itself, whose join of
    itself throws out of the thread function.  [None]: the thread waits.  The first
    component is the next point, or [None] when the function has returned. *)
Definition close_step (self : bool) (k : Closing) s : option (option Closing * LwsClient) :=
  let at_ pc := Some (mkClosing pc (k_code k) (k_reason k)) in
  match k_pc k with
  | KCheck => Some (if lw_closed s then None else at_ KSet, s)
  | KSet => Some (at_ KClear, s <| lw_closed := true |>)
  | KClear =>
      let s := s <| lw_connected := false |> in
      Some (at_ KStop, if lw_wsi s then on_writable s else s)
  | KStop =>
      let joinable := negb (bool_decide (lw_connect s = CNone) || lw_connect_joined s) in
      Some (at_ KJoinLoop, if joinable then s <| lw_connect_stop := true |> else s)
  | KJoinLoop =>
      if match lw_loop s with LNone => true | _ => lw_loop_joined s end
      then Some (at_ KJoinConnect, s)
      else if self then Some (None, s <| lw_terminated := true |>)
      else match lw_loop s with
           | LDone => Some (at_ KJoinConnect, s <| lw_loop_joined := true |>)
           | _ => None
           end
  | KJoinConnect =>
      match lw_connect s with
      | CNone => Some (at_ KNotify, s)
      | CDone => Some (at_ KNotify, s <| lw_connect_joined := true |>)
      | _ => if lw_connect_joined s then Some (at_ KNotify, s) else None
      end
  | KNotify => Some (None, call (OnClose (k_code k) (k_reason k)) s)
  end.

(** ** The owner's thread *)

(** [open] up to the assignment of [connect_thread_]: the assignment asks a thread
    that is still there to stop. *)
Definition lws_open (_ : WsEndpointConfig) s : LwsClient :=
  s <| lw_callbacks := true |> <| lw_connect_stop := true |> <| lw_user := UOpen |>.

(** [send_text] up to the release of the lock. *)
Definition send_text (payload : string) s : LwsClient :=
  s <| lw_write_queue := (lw_write_queue s ++ [payload])%list |> <| lw_user := USend |>.

(** [close], and the destructor, which closes with code 1000 and reason [shutdown]. *)
Definition lws_close (code : Z) (reason : string) s : LwsClient :=
  s <| lw_user := UClose (mkClosing KCheck code reason) |>.

Definition is_open s : bool := lw_connected s.

(** The next step of the operation in progress. *)
Definition user_run s : option LwsClient :=
  match lw_user s with
  | UIdle => None
  | UOpen =>
      match lw_connect s with
      | CNone | CDone =>
          Some (s <| lw_connect := CCreate |> <| lw_connect_stop := false |>
                  <| lw_connect_joined := false |> <| lw_user := UIdle |>)
      | _ => None
      end
  | USend =>
      let s := s <| lw_user := UIdle |> in
      Some (if lw_wsi s then on_writable s else s)
  | UClose k =>
      '(k, s) ← close_step false k s;
      Some (s <| lw_user := match k with Some k => UClose k | None => UIdle end |>)
  end.

(** ** connect_thread_ *)

(** The connection asked for in [connect_wsi]: none of it comes from the endpoint
    given to [open]. *)
Record ConnectInfo := mkConnectInfo {
  ci_address : string; ci_port : Z; ci_path : string; ci_host : string; ci_origin : string;
  ci_protocol : string; ci_ssl_connection : Z }.
Definition connect_info : ConnectInfo :=
  mkConnectInfo "api.minimaxi.com" 443 "/ws/v1/t2a_v2" "api.minimaxi.com" "api.minimaxi.com" "" 0.

Definition connect_wsi (connects : ConnectInfo → bool) s : LwsClient :=
  s <| lw_owner := true |> <| lw_wsi := connects connect_info |>.

(** [run_loop]. *)
Definition run_loop (creates : bool) (connects : ConnectInfo → bool) s : option LwsClient :=
  match lw_connect s with
  | CNone | CDone => None
  | CCreate =>
      Some (if creates then s <| lw_context := true |> <| lw_connect := CConnect |>
            else call (OnClose 1006 "context_create_failed")
                   (s <| lw_context := false |> <| lw_connect := CDone |>))
  | CConnect => Some (connect_wsi connects s <| lw_connect := CSpawn |>)
  | CSpawn =>
      match lw_loop s with
      | LNone | LDone =>
          Some (s <| lw_loop := LTest |> <| lw_loop_stop := false |>
                  <| lw_loop_joined := false |> <| lw_connect := CWait |>)
      | _ => if lw_loop_stop s then None else Some (s <| lw_loop_stop := true |>)
      end
  | CWait => if lw_connect_stop s || lw_closed s then Some (s <| lw_connect := CDestroy |>)
             else None
  | CDestroy => Some (s <| lw_context := false |> <| lw_connect := CDone |>)
  end.

(** ** loop_thread_ *)

(** [callback_static] and [callback]; [evs] are the callbacks left after this one. *)
Definition callback (ev : LwsEvent) (evs : list LwsEvent) s : LwsClient :=
  let s := s <| lw_loop := LService evs |> in
  if negb (ev_user ev && lw_owner s) then s
  else
    match ev_reason ev with
    | CLIENT_ESTABLISHED =>
        let (id, s) := generate_session_id (s <| lw_connected := true |>) in
        on_writable (call (OnOpen id) (s <| lw_session_id := id |>))
    | CLIENT_RECEIVE None | CLIENT_RECEIVE (Some "") => s
    | CLIENT_RECEIVE (Some chunk) =>
        let (buffer, line) := receive (lw_recv_buffer s) chunk in
        let s := s <| lw_recv_buffer := buffer |> in
        match line with
        | Some line => call (OnFrame (mkRaw RawText line 0 "" "")) s
        | None => s
        end
    | CLIENT_WRITEABLE =>
        let s := s <| lw_writable := false |> in
        match lw_write_queue s with
        | [] => s <| lw_loop := LWrite "" evs |>
        | payload :: queue => s <| lw_write_queue := queue |> <| lw_loop := LWrite payload evs |>
        end
    | CLIENT_CONNECTION_ERROR message =>
        let s := call (OnFrame (mkRaw RawError "" 0 "" (default "connection_error" message))) s in
        s <| lw_loop := LClose (mkClosing KCheck 1006 "connection_error") evs |>
    | CLIENT_CLOSED => s <| lw_loop := LClose (mkClosing KCheck 1000 "closed") evs |>
    | OTHER_REASON => s
    end.

(** Callbacks the library makes: the connection is established, and can be written,
    only once there is one; a writeable callback answers a request. *)
Definition ev_allowed (ev : LwsEvent) s : bool :=
  match ev_reason ev with
  | CLIENT_ESTABLISHED => lw_wsi s && ev_user ev
  | CLIENT_WRITEABLE => lw_writable s && ev_user ev
  | _ => true
  end.

(** [service_loop]; [batch] are the callbacks of the next call of [lws_service], of
    which those not possible when their turn comes are not made. *)
Definition service_loop (batch : list LwsEvent) s : option LwsClient :=
  match lw_loop s with
  | LNone | LDone => None
  | LTest =>
      Some (s <| lw_loop := if lw_loop_stop s || lw_closed s || negb (lw_context s) then LDone
                            else LService batch |>)
  | LService [] => Some (s <| lw_loop := LTest |>)
  | LService (ev :: evs) =>
      Some (if ev_allowed ev s then callback ev evs s else s <| lw_loop := LService evs |>)
  | LWrite payload evs =>
      let s := s <| lw_loop := LService evs |> in
      let s := if String.eqb payload "" then s else emit (Wrote payload) s in
      Some (if bool_decide (lw_write_queue s = []) then s else on_writable s)
  | LClose k evs =>
      '(k, s) ← close_step true k s;
      Some (s <| lw_loop := match k with Some k => LClose k evs | None => LService evs end |>)
  end.

(** ** The three threads together *)

(** Calls of [open], payloads given to [send_text] and chunks received, in order. *)
Record Log := mkLog { opens : nat; sent : list string; chunks : list string }.
#[global] Instance Log_eta : Eta Log := {| eta_expand l := mkLog (opens l) (sent l) (chunks l) |}.

(** The chunk a loop step takes in. *)
Definition incoming s : list string :=
  match lw_loop s with
  | LService (mkEvent user (CLIENT_RECEIVE (Some chunk)) :: _) =>
      if user && lw_owner s then [chunk] else []
  | _ => []
  end.

Inductive lws_step : LwsClient * Log → LwsClient * Log → Prop :=
| lws_s_open cfg s l :
    lw_terminated s = false → lw_user s = UIdle →
    lws_step (s, l) (lws_open cfg s, l <| opens := S (opens l) |>)
| lws_s_send payload s l :
    lw_terminated s = false → lw_user s = UIdle →
    lws_step (s, l) (send_text payload s, l <| sent := (sent l ++ [payload])%list |>)
| lws_s_close code reason s l :
    lw_terminated s = false → lw_user s = UIdle → lws_step (s, l) (lws_close code reason s, l)
| lws_s_user s s' l :
    lw_terminated s = false → user_run s = Some s' → lws_step (s, l) (s', l)
| lws_s_connect creates connects s s' l :
    lw_terminated s = false → run_loop creates connects s = Some s' → lws_step (s, l) (s', l)
| lws_s_loop batch s s' l :
    lw_terminated s = false → service_loop batch s = Some s' →
    lws_step (s, l) (s', l <| chunks := (chunks l ++ incoming s)%list |>).

Definition lws_reachable : LwsClient * Log → Prop :=
  rtc lws_step (lws_new 1, mkLog 0 [] []).

Lemma lws_reachable_ind (P : LwsClient → Log → Prop) :
  P (lws_new 1) (mkLog 0 [] []) →
  (∀ s l s' l', P s l → lws_step (s, l) (s', l') → P s' l') →
  ∀ s l, lws_reachable (s, l) → P s l.
Proof.
  intros H0 Hstep s l Hr.
  refine (rtc_ind_r (λ p, P p.1 p.2) (lws_new 1, mkLog 0 [] []) H0 _ (s, l) Hr).
  intros [] [] _ H HP. by eapply Hstep.
Qed.

(** ** Schedules *)

(** One choice of a scheduler, and the step it makes if it is possible. *)
Inductive Move : Type :=
| MOpen (cfg : WsEndpointConfig)
| MSend (payload : string)
| MClose (code : Z) (reason : string)
| MUser
| MConnect (creates : bool) (connects : ConnectInfo → bool)
| MLoop (batch : list LwsEvent).

Definition move (m : Move) (p : LwsClient * Log) : option (LwsClient * Log) :=
  let (s, l) := p in
  if lw_terminated s then None
  else
    match m, lw_user s with
    | MOpen cfg, UIdle => Some (lws_open cfg s, l <| opens := S (opens l) |>)
    | MSend payload, UIdle =>
        Some (send_text payload s, l <| sent := (sent l ++ [payload])%list |>)
    | MClose code reason, UIdle => Some (lws_close code reason s, l)
    | MUser, _ => s' ← user_run s; Some (s', l)
    | MConnect creates connects, _ => s' ← run_loop creates connects s; Some (s', l)
    | MLoop batch, _ =>
        s' ← service_loop batch s;
        Some (s', l <| chunks := (chunks l ++ incoming s)%list |>)
    | _, _ => None
    end.

Fixpoint moves (ms : list Move) (p : LwsClient * Log) : option (LwsClient * Log) :=
  match ms with [] => Some p | m :: ms => p ← move m p; moves ms p end.

Lemma lws_move_step m p p' : move m p = Some p' → lws_step p p'.
Proof.
  destruct p as [s l]. unfold move. intros H.
  destruct (lw_terminated s) eqn:Et; [done|].
  destruct m; try (destruct (lw_user s) eqn:Eu; simplify_eq; by constructor).
  - apply bind_Some in H as (s' & H & [= <-]). by constructor.
  - apply bind_Some in H as (s' & H & [= <-]). by econstructor.
  - apply bind_Some in H as (s' & H & [= <-]). by econstructor.
Qed.

Lemma lws_moves_rtc ms p p' : moves ms p = Some p' → rtc lws_step p p'.
Proof.
  revert p. induction ms as [|m ms IH]; intros p; [by intros [= ->]|].
  intros (p1 & H1 & H2)%bind_Some. eapply rtc_l; [by eapply lws_move_step|by apply IH].
Qed.

Lemma moves_reachable ms p :
  moves ms (lws_new 1, mkLog 0 [] []) = Some p → lws_reachable p.
Proof. apply lws_moves_rtc. Qed.
