(* ===== verification/LwsFacts.v ===== *)
(** * Properties of LwsClient (src/upstream/lws_transport.cpp)

    Reassembly of lines, order of the messages written, and closing. *)

From Stdlib Require Import Ascii.
From S2P Require Import Prelude HexCodec TtsService Upstream LwsTransport.

Local Open Scope string_scope.

(** ** Lines *)

Definition no_newline (s : string) : Prop := split_newline s = None.

(** Lines, each ended by a newline. *)
Definition unlines (ls : list string) : string :=
  foldr (λ l s, l +:+ String newline s) "" ls.

(** The reference: the complete lines of a text and what follows the last of them. *)
Fixpoint lines (s : string) : list string * string :=
  match s with
  | "" => ([], "")
  | String c s =>
      let (ls, r) := lines s in
      if Ascii.eqb c newline then ("" :: ls, r)
      else match ls with
           | [] => ([], String c r)
           | l :: ls => (String c l :: ls, r)
           end
  end.

Fixpoint count_newlines (s : string) : nat :=
  match s with
  | "" => 0
  | String c s => (if Ascii.eqb c newline then 1 else 0) + count_newlines s
  end.

(** A chunk that ends at most one line. *)
Definition one_line (s : string) : Prop := (count_newlines s ≤ 1)%nat.

Lemma string_app_nil_r (a : string) : a +:+ "" = a.
Proof. induction a as [|x a IH]; [done|]. cbn. by rewrite IH. Qed.

Lemma count_newlines_app a b : count_newlines (a +:+ b) = count_newlines a + count_newlines b.
Proof. induction a as [|x a IH]; [done|]. cbn. rewrite IH. lia. Qed.

Lemma split_newline_spec s :
  match split_newline s with
  | Some (line, rest) =>
      s = line +:+ String newline rest ∧ no_newline line ∧
      count_newlines s = S (count_newlines rest) ∧
      lines s = (line :: (lines rest).1, (lines rest).2)
  | None => count_newlines s = 0 ∧ lines s = ([], s)
  end.
Proof.
  unfold no_newline. induction s as [|c s IH]; [done|]. cbn.
  destruct (Ascii.eqb_spec c newline) as [->|Hc].
  - cbn. split_and!; try done. by destruct (lines s).
  - destruct (split_newline s) as [[line rest]|]; cbn.
    + destruct IH as (-> & Hn & Hcount & Hl). rewrite Hcount, Hl, Hn.
      rewrite (proj2 (Ascii.eqb_neq _ _) Hc). done.
    + destruct IH as [-> ->]. done.
Qed.

Lemma no_newline_count s : no_newline s ↔ count_newlines s = 0.
Proof.
  unfold no_newline. pose proof (split_newline_spec s) as H.
  destruct (split_newline s) as [[]|]; [|tauto]. destruct H as (_ & _ & H & _).
  split; [done|]. rewrite H. done.
Qed.

Lemma lines_no_newline s : no_newline s → lines s = ([], s).
Proof. intros H. pose proof (split_newline_spec s) as Hs. rewrite H in Hs. tauto. Qed.

Lemma split_newline_line l s :
  no_newline l → split_newline (l +:+ String newline s) = Some (l, s).
Proof.
  unfold no_newline. induction l as [|c l IH]; [done|]. cbn.
  destruct (Ascii.eqb c newline); [done|]. destruct (split_newline l) as [[]|]; [done|].
  intros _. by rewrite IH.
Qed.

Lemma lines_unlines ls s :
  Forall no_newline ls → lines (unlines ls +:+ s) = ((ls ++ (lines s).1)%list, (lines s).2).
Proof.
  induction 1 as [|l ls Hl _ IH]; [by cbn; destruct (lines s)|].
  change (unlines (l :: ls)) with (l +:+ String newline (unlines ls)). rewrite string_app_assoc.
  change (String newline (unlines ls) +:+ s) with (String newline (unlines ls +:+ s)).
  pose proof (split_newline_spec (l +:+ String newline (unlines ls +:+ s))) as H.
  rewrite split_newline_line in H by done. destruct H as (_ & _ & _ & ->). by rewrite IH.
Qed.

Lemma unlines_app a b : unlines (a ++ b)%list = unlines a +:+ unlines b.
Proof.
  induction a as [|l a IH]; [done|].
  change (l +:+ String newline (unlines (a ++ b)%list) =
          (l +:+ String newline (unlines a)) +:+ unlines b).
  by rewrite IH, string_app_assoc.
Qed.

(** ** Observations *)

Definition frame_of (o : LwsOut) : option string :=
  match o with
  | Called (OnFrame f) => if raw_kind f is RawText then Some (raw_payload f) else None
  | _ => None
  end.
Definition wrote_of (o : LwsOut) : option string :=
  match o with Wrote p => Some p | _ => None end.

(** Text frames delivered and messages written, in order. *)
Definition frames s : list string := omap frame_of (lw_out s).
Definition written s : list string := omap wrote_of (lw_out s).

Definition stream (cs : list string) : string := foldr String.append "" cs.

Lemma stream_snoc cs c : stream (cs ++ [c])%list = stream cs +:+ c.
Proof.
  induction cs as [|d cs IH]; [by cbn; rewrite string_app_nil_r|].
  change (d +:+ stream (cs ++ [c])%list = (d +:+ stream cs) +:+ c). by rewrite IH, string_app_assoc.
Qed.

(** ** Steps and what they leave alone *)

(** The parts of the state the lines and the queue depend on. *)
Definition io s : string * list string * list string * list string :=
  (lw_recv_buffer s, frames s, lw_write_queue s, written s).

Lemma close_step_keeps self k s k' s' :
  close_step self k s = Some (k', s') →
  io s' = io s ∧ lw_callbacks s' = lw_callbacks s ∧ lw_owner s' = lw_owner s ∧
  lw_wsi s' = lw_wsi s ∧ lw_connect s' = lw_connect s ∧ lw_loop s' = lw_loop s ∧
  lw_user s' = lw_user s ∧
  (lw_connected s' = true → lw_connected s = true) ∧
  (lw_writable s = true → lw_writable s' = true) ∧
  (lw_closed s = true → lw_closed s' = true).
Proof.
  unfold close_step, io, call, emit, frames, written. intros H.
  destruct (k_pc k); repeat case_match; simplify_eq; cbn; rewrite ?omap_app; cbn;
    rewrite ?app_nil_r; split_and!; try done; congruence.
Qed.

(** The callbacks and the owner are set while there are threads; a joined loop thread
    has ended; and the loop thread never gets past joining itself. *)
Definition not_past_join (pc : LoopPc) : Prop :=
  match pc with
  | LClose k _ => k_pc k ≠ KJoinConnect ∧ k_pc k ≠ KNotify
  | _ => True
  end.
Definition lws_wf s : Prop :=
  (lw_connect s ≠ CNone ∨ lw_user s = UOpen → lw_callbacks s = true) ∧
  (lw_connect s = CSpawn → lw_owner s = true) ∧
  (lw_loop s ≠ LNone → lw_callbacks s = true ∧ lw_owner s = true) ∧
  (lw_loop_joined s = true → lw_loop s = LDone) ∧ not_past_join (lw_loop s).

Lemma callback_wf ev evs s : lws_wf s → lw_loop s = LService (ev :: evs) → lws_wf (callback ev evs s).
Proof.
  intros (H1 & H2 & H3 & H4 & _) Hl. unfold callback, generate_session_id, on_writable, call, emit.
  rewrite Hl in H3, H4. specialize (H3 ltac:(done)) as [H3 H3'].
  assert (lw_loop_joined s = false) by (destruct (lw_loop_joined s); [by specialize (H4 eq_refl)|done]).
  repeat (case_match; simplify_eq/=); unfold lws_wf; cbn; rewrite ?Hl in *;
    split_and!; try done; try tauto; try congruence.
Qed.

Lemma user_run_wf s s' : lws_wf s → user_run s = Some s' → lws_wf s'.
Proof.
  intros (H1 & H2 & H3 & H4 & H5) Hu. unfold user_run in Hu.
  destruct (lw_user s) as [| | |k] eqn:Eu; [done| | |].
  - destruct (lw_connect s) eqn:Ec; simplify_eq/=; unfold lws_wf; cbn; split_and!; try done; auto.
  - destruct (lw_wsi _); simplify_eq/=; unfold lws_wf; cbn; split_and!; try done; try tauto;
      intros [|]; try done; auto.
  - apply bind_Some in Hu as ([k' s1] & Hk & [= <-]).
    pose proof (close_step_keeps _ _ _ _ _ Hk) as (_ & E1 & E2 & _ & E3 & E4 & _).
    assert (lw_loop_joined s1 = true → lw_loop s = LDone) as Hj.
    { unfold close_step, on_writable, call, emit in Hk.
      destruct (k_pc k); repeat case_match; simplify_eq/=; auto. }
    unfold lws_wf. cbn. rewrite E1, E2, E3, E4. split_and!; try done.
    intros [|Hx]; [auto|]. by destruct k'.
Qed.

Lemma service_loop_wf batch s s' : lws_wf s → service_loop batch s = Some s' → lws_wf s'.
Proof.
  intros Hwf Hu. unfold service_loop in Hu. destruct (lw_loop s) as [| |[|ev evs]|p evs|k evs|] eqn:El;
    simplify_eq; try (destruct (ev_allowed ev s); [by apply callback_wf|]); destruct Hwf as (H1 & H2 & H3 & H4 & H5);
    rewrite El in *; specialize (H3 ltac:(done)) as [H3 H3'];
    assert (lw_loop_joined s = false) as Hj
      by (destruct (lw_loop_joined s); [by specialize (H4 eq_refl)|done]).
  - unfold lws_wf. cbn. repeat case_match; split_and!; try done; try congruence.
  - unfold lws_wf. cbn. split_and!; try done. congruence.
  - unfold lws_wf. cbn. split_and!; try done. congruence.
  - unfold emit, on_writable. repeat case_match; unfold lws_wf; cbn; split_and!; try done; try congruence.
  - apply bind_Some in Hu as ([k' s1] & Hk & [= <-]).
    pose proof (close_step_keeps _ _ _ _ _ Hk) as (_ & E1 & E2 & _ & E3 & E4 & E5 & _).
    unfold close_step, on_writable in Hk. rewrite El, Hj in Hk. unfold lws_wf. cbn.
    rewrite E1, E2, E3, E5.
    destruct H5 as [H5 H6]. destruct (k_pc k) eqn:Ek; try done;
      repeat case_match; simplify_eq/=; split_and!; try done; congruence.
Qed.

Lemma run_loop_wf creates connects s s' :
  lws_wf s → run_loop creates connects s = Some s' → lws_wf s'.
Proof.
  intros (H1 & H2 & H3 & H4 & H5) Hu. unfold run_loop, call, emit, connect_wsi in Hu.
  destruct (lw_connect s) eqn:Ec; try done; repeat case_match; simplify_eq/=; unfold lws_wf; cbn;
    rewrite ?Ec in *; split_and!; try done; try tauto; try (intros; by auto); try (intuition congruence);
    by rewrite H.
Qed.

Lemma lws_wf_step s l s' l' : lws_wf s → lws_step (s, l) (s', l') → lws_wf s'.
Proof.
  intros Hwf Hs.
  inversion Hs; subst; eauto using user_run_wf, service_loop_wf, run_loop_wf;
    clear Hs; unfold lws_wf in *; cbn; naive_solver.
Qed.

Lemma lws_wf_reachable s l : lws_reachable (s, l) → lws_wf s.
Proof.
  revert s l. apply lws_reachable_ind; [unfold lws_wf; cbn; naive_solver|]. eauto using lws_wf_step.
Qed.

(** ** What the wire and the owner see *)

Definition nonempty (l : list string) : list string := filter (λ p, p ≠ "") l.

(** The payload taken from the queue and not yet written. *)
Definition inflight (pc : LoopPc) : list string :=
  match pc with LWrite p _ => nonempty [p] | _ => [] end.

Definition io_inv s (l : Log) : Prop :=
  unlines (frames s) +:+ lw_recv_buffer s = stream (chunks l) ∧
  Forall no_newline (frames s) ∧
  (Forall one_line (chunks l) → no_newline (lw_recv_buffer s)) ∧
  nonempty (sent l) = (written s ++ inflight (lw_loop s) ++ nonempty (lw_write_queue s))%list.

Lemma io_inv_keep s s' l :
  io s' = io s → inflight (lw_loop s') = inflight (lw_loop s) → io_inv s l → io_inv s' l.
Proof. unfold io, io_inv. intros [= -> -> -> ->] ->. done. Qed.

Lemma user_run_io s s' :
  user_run s = Some s' → io s' = io s ∧ lw_loop s' = lw_loop s.
Proof.
  unfold user_run. destruct (lw_user s) as [| | |k]; [done| | |].
  - by destruct (lw_connect s); intros; simplify_eq/=.
  - unfold on_writable. by destruct (lw_wsi _); intros; simplify_eq/=.
  - intros ([k' s1] & Hk & [= <-])%bind_Some.
    pose proof (close_step_keeps _ _ _ _ _ Hk) as (E & _ & _ & _ & _ & El & _). by rewrite <- E.
Qed.

Lemma run_loop_io creates connects s s' :
  run_loop creates connects s = Some s' →
  io s' = io s ∧ inflight (lw_loop s') = inflight (lw_loop s).
Proof.
  unfold run_loop, call, emit, connect_wsi, io, frames, written. intros H.
  destruct (lw_connect s); repeat case_match; simplify_eq/=; rewrite ?omap_app; cbn;
    rewrite ?app_nil_r; try done; split; try done;
    match goal with E : lw_loop s = _ |- _ => by rewrite E end.
Qed.

Lemma receive_spec buffer chunk :
  match receive buffer chunk with
  | (rest, Some line) => buffer +:+ chunk = line +:+ String newline rest ∧ no_newline line
  | (rest, None) => rest = buffer +:+ chunk
  end.
Proof.
  unfold receive. pose proof (split_newline_spec (buffer +:+ chunk)) as H.
  destruct (split_newline _) as [[line rest]|]; [|done]. tauto.
Qed.

Lemma receive_rest buffer chunk rest line cs :
  receive buffer chunk = (rest, line) →
  (Forall one_line cs → no_newline buffer) →
  Forall one_line (cs ++ [chunk])%list → no_newline rest.
Proof.
  unfold receive. intros Hr Hone [Hcs Hc]%Forall_app. apply Forall_cons in Hc as [Hc _].
  specialize (Hone Hcs). unfold one_line in Hc. rewrite no_newline_count in *.
  pose proof (split_newline_spec (buffer +:+ chunk)) as H.
  destruct (split_newline _) as [[]|]; simplify_eq; [|tauto].
  destruct H as (_ & _ & H & _). rewrite count_newlines_app in H. lia.
Qed.

(** A receive callback moves its chunk into the lines delivered and the buffer. *)
Lemma receive_io buffer chunk rest line (fs : list string) cs :
  receive buffer chunk = (rest, line) →
  unlines fs +:+ buffer = stream cs → Forall no_newline fs →
  (Forall one_line cs → no_newline buffer) →
  unlines (fs ++ option_list line)%list +:+ rest = stream (cs ++ [chunk])%list ∧
  Forall no_newline (fs ++ option_list line)%list ∧
  (Forall one_line (cs ++ [chunk])%list → no_newline rest).
Proof.
  intros Hr Hs Hf Hone. apply and_assoc. split; [|by eapply receive_rest]. clear Hone. pose proof (receive_spec buffer chunk) as H. rewrite Hr in H.
  rewrite stream_snoc, <- Hs, string_app_assoc. destruct line as [line|]; cbn.
  - destruct H as [-> Hl]. rewrite unlines_app, string_app_assoc. split.
    + f_equal. change (unlines [line]) with (line +:+ String newline ""). by rewrite string_app_assoc.
    + apply Forall_app; auto.
  - rewrite app_nil_r, H. done.
Qed.

Lemma frames_emit o s : frames (emit o s) = (frames s ++ option_list (frame_of o))%list.
Proof. unfold frames, emit. cbn. rewrite omap_app. cbn. by destruct (frame_of o). Qed.

Lemma written_emit o s : written (emit o s) = (written s ++ option_list (wrote_of o))%list.
Proof. unfold written, emit. cbn. rewrite omap_app. cbn. by destruct (wrote_of o). Qed.

Lemma call_set cb s : lw_callbacks s = true → call cb s = emit (Called cb) s.
Proof. unfold call. by intros ->. Qed.

Lemma nonempty_cons p l : nonempty (p :: l) = (nonempty [p] ++ nonempty l)%list.
Proof. apply (filter_app _ [p] l). Qed.

Lemma callback_io ev evs s l :
  lws_wf s → lw_loop s = LService (ev :: evs) → io_inv s l →
  io_inv (callback ev evs s) (l <| chunks := (chunks l ++ incoming s)%list |>).
Proof.
  intros Hwf El (H1 & H2 & H2b & H3). unfold incoming. rewrite El in H3 |- *.
  destruct Hwf as (_ & _ & Hcb & _). rewrite El in Hcb. specialize (Hcb ltac:(done)) as [Hcb Ho].
  unfold callback, io_inv. destruct ev as [[] reason]; cbn [ev_user ev_reason];
    [|destruct reason as [|[]| | | |]; cbn; by rewrite app_nil_r].
  change (lw_owner (s <| lw_loop := _ |>)) with (lw_owner s). rewrite Ho. cbn [negb andb].
  destruct reason as [|[chunk|]| |msg| |]; try (cbn; by rewrite app_nil_r).
  - unfold generate_session_id. rewrite call_set by exact Hcb.
    unfold emit, on_writable, frames, written. cbn. rewrite !omap_app, !app_nil_r. done.
  - destruct (receive (lw_recv_buffer s) chunk) as [rest line] eqn:Er.
    destruct (receive_io _ _ _ _ _ _ Er H1 H2 H2b) as (H1' & H2' & H2b').
    destruct chunk as [|c chunk].
    + change (unlines (frames s) +:+ lw_recv_buffer s = stream (chunks l ++ [""])%list ∧
              Forall no_newline (frames s) ∧
              (Forall one_line (chunks l ++ [""])%list →
               no_newline (lw_recv_buffer s)) ∧
              nonempty (sent l) = (written s ++ nonempty (lw_write_queue s))%list).
      rewrite stream_snoc, string_app_nil_r, Forall_app. split_and!; [done..| |done]. tauto.
    + change (lw_recv_buffer (s <| lw_loop := _ |>)) with (lw_recv_buffer s). rewrite Er.
      destruct line as [line|]; [|by rewrite app_nil_r in H1', H2'].
      rewrite call_set by exact Hcb. rewrite frames_emit, written_emit.
      cbn [frame_of wrote_of raw_kind raw_payload option_list] in *. rewrite app_nil_r. done.
  - assert (lw_write_queue (s <| lw_loop := LService evs |> <| lw_writable := false |>) =
            lw_write_queue s) as -> by done.
    assert (∀ p q, nonempty (sent l) = (written s ++ nonempty [p] ++ nonempty q)%list →
      io_inv (s <| lw_loop := LService evs |> <| lw_writable := false |> <| lw_write_queue := q |>
                <| lw_loop := LWrite p evs |>) (l <| chunks := (chunks l ++ [])%list |>)) as Hw.
    { intros p q Hq. unfold io_inv.
      change (chunks (l <| chunks := (chunks l ++ [])%list |>)) with (chunks l ++ [])%list.
      rewrite app_nil_r. by split_and!. }
    destruct (lw_write_queue s) as [|p q] eqn:Eq.
    + change (unlines (frames s) +:+ lw_recv_buffer s = stream (chunks l ++ [])%list ∧
              Forall no_newline (frames s) ∧
              (Forall one_line (chunks l ++ [])%list → no_newline (lw_recv_buffer s)) ∧
              nonempty (sent l) = (written s ++ nonempty [""] ++ nonempty (lw_write_queue s))%list).
      rewrite app_nil_r, Eq. by split_and!.
    + apply (Hw p q). by rewrite nonempty_cons in H3.
  - rewrite call_set by exact Hcb. unfold frames, written, emit. cbn. by rewrite !omap_app, !app_nil_r.
Qed.

Lemma service_loop_io batch s s' l :
  lws_wf s → service_loop batch s = Some s' → io_inv s l →
  io_inv s' (l <| chunks := (chunks l ++ incoming s)%list |>).
Proof.
  intros Hwf Hs Hio. unfold service_loop in Hs.
  destruct (lw_loop s) as [| |[|ev evs]|p evs|k evs|] eqn:El; simplify_eq;
    [| |destruct (ev_allowed ev s) eqn:Ea; [by apply callback_io|]| |]; unfold incoming; rewrite El;
    assert (io_inv s (l <| chunks := (chunks l ++ [])%list |>)) as Hio'
      by (unfold io_inv; cbn; by rewrite app_nil_r).
  - eapply io_inv_keep; [| |exact Hio']; [done|]. rewrite El. cbn. by case_match.
  - eapply io_inv_keep; [| |exact Hio']; [done|]. by rewrite El.
  - unfold ev_allowed in Ea. destruct ev as [user []]; try done;
      (eapply io_inv_keep; [| |exact Hio']; [done|]; by rewrite El).
  - destruct Hio' as (H1 & H2 & H3 & H4). rewrite El in H4.
    assert (io_inv (if String.eqb p "" then s <| lw_loop := LService evs |>
                    else emit (Wrote p) (s <| lw_loop := LService evs |>))
              (l <| chunks := (chunks l ++ [])%list |>)) as Hio'.
    { destruct (String.eqb_spec p "") as [->|Hp]; [by split_and!|].
      unfold io_inv. rewrite frames_emit, written_emit. cbn [frame_of wrote_of option_list].
      rewrite app_nil_r. split_and!; try done. rewrite H4. cbn [inflight].
      unfold nonempty at 1. rewrite filter_cons_True, filter_nil by done. by rewrite <- app_assoc. }
    destruct (bool_decide _); [done|]. by eapply io_inv_keep; [| |exact Hio'].
  - apply bind_Some in Hs as ([k' s1] & Hk & [= <-]).
    pose proof (close_step_keeps _ _ _ _ _ Hk) as (E & _).
    eapply io_inv_keep; [|by rewrite El; destruct k'|exact Hio']. by rewrite <- E.
Qed.

Lemma io_inv_reachable s l : lws_reachable (s, l) → io_inv s l.
Proof.
  intros Hr. cut (lws_wf s ∧ io_inv s l); [tauto|]. revert s l Hr.
  apply lws_reachable_ind.
  { split; [apply (lws_wf_reachable _ (mkLog 0 [] [])); apply rtc_refl|by split_and!]. }
  intros s l s' l' [Hwf Hio] Hs. split; [by eapply lws_wf_step|].
  inversion Hs; subst; try done.
  - destruct Hio as (Hl & Hn & Ho & Hq). split_and!; try done.
    change (nonempty (sent l ++ [payload])%list =
      (written s ++ inflight (lw_loop s) ++ nonempty (lw_write_queue s ++ [payload]))%list).
    unfold nonempty in *. by rewrite !filter_app, Hq, !app_assoc.
  - destruct (user_run_io s s') as [E El]; [done|]. eapply io_inv_keep; [done| |done]. by rewrite El.
  - destruct (run_loop_io creates connects s s') as [E El]; [done|]. by eapply io_inv_keep.
  - by eapply service_loop_io.
Qed.


(** A connection opened and established, then receiving [cs]. *)
Definition demo_moves (cs : list string) : list Move :=
  [MOpen WsEndpointConfig_default; MUser; MConnect true (λ _, true); MConnect true (λ _, true);
   MConnect true (λ _, true);
   MLoop (mkEvent true CLIENT_ESTABLISHED ::
          ((λ c, mkEvent true (CLIENT_RECEIVE (Some c))) <$> cs))] ++
  MLoop [] :: ((λ _, MLoop []) <$> cs).

Definition nl : string := String newline "".


(** Two lines in one chunk: the second one stays in the buffer until something else
    arrives. *)
Lemma lws_line_held_back :
  (λ p, (frames p.1, lw_recv_buffer p.1)) <$>
    moves (demo_moves ["ok" +:+ nl +:+ "done" +:+ nl]) (lws_new 1, mkLog 0 [] []) =
  Some (["ok"], "done" +:+ nl).
Proof. by vm_compute. Qed.

(** ** Messages waiting to be written *)

(** The library has been asked for a writeable callback, or a thread is about to ask. *)
Definition requested s : Prop :=
  lw_writable s = true ∨ (∃ p evs, lw_loop s = LWrite p evs) ∨ lw_user s = USend.

(** [run_loop] has not started the loop thread. *)
Definition connecting (c : ConnectPc) : bool :=
  match c with CNone | CCreate | CConnect | CSpawn => true | _ => false end.

(** A transport opened at most once. *)
Definition once_inv s (l : Log) : Prop :=
  (opens l ≤ 1)%nat →
  (opens l = 0 → lw_connect s = CNone ∧ lw_user s ≠ UOpen) ∧
  (lw_user s = UOpen → lw_connect s = CNone) ∧
  (connecting (lw_connect s) = true → lw_loop s = LNone) ∧
  (lw_connected s = true → lw_wsi s = true ∧ lw_loop s ≠ LNone) ∧
  (lw_connected s = true → lw_write_queue s ≠ [] → requested s).

Lemma user_run_once s s' l : once_inv s l → user_run s = Some s' → once_inv s' l.
Proof.
  intros Hinv Hu Ho. destruct (Hinv Ho) as (H0 & H1 & H2 & H3 & H4). clear Hinv.
  unfold user_run in Hu. destruct (lw_user s) as [| | |k] eqn:Eu; [done| | |].
  - rewrite H1 in * by done. simplify_eq/=. split_and!; try done.
    + intros E. destruct (H0 E). congruence.
    + intros Hc Hq. destruct (H4 Hc Hq) as [|[|]]; [by left|by right; left|congruence].
  - unfold on_writable in Hu. destruct (lw_wsi _) eqn:Ew; cbn in Ew; simplify_eq/=;
      unfold requested; cbn; split_and!; naive_solver.
  - apply bind_Some in Hu as ([k' s1] & Hk & [= <-]).
    pose proof (close_step_keeps _ _ _ _ _ Hk) as (E & _ & _ & Ew & Ec & El & _ & Hcon & Hwr & _).
    injection E as _ _ Eq _. unfold requested. cbn. rewrite Ew, Ec, El, Eq.
    split_and!; try (by destruct k'); auto.
    + intros E. destruct (H0 E). split; [done|]. by destruct k'.
    + intros Hc Hq. destruct (H4 (Hcon Hc) Hq) as [|[|]]; [by left; auto|by right; left|congruence].
Qed.

Lemma callback_keeps ev evs s :
  let s' := callback ev evs s in
  lw_connect s' = lw_connect s ∧ lw_user s' = lw_user s ∧ lw_wsi s' = lw_wsi s ∧
  lw_loop s' ≠ LNone ∧
  (lw_connected s' = true →
   lw_connected s = true ∨ ev_reason ev = CLIENT_ESTABLISHED ∧ lw_writable s' = true) ∧
  (lw_write_queue s' ≠ [] → lw_write_queue s ≠ []) ∧
  (lw_writable s = true → lw_writable s' = true ∨ ∃ p evs, lw_loop s' = LWrite p evs).
Proof.
  unfold callback, generate_session_id, on_writable, call, emit.
  destruct (negb _); [cbn; split_and!; auto|].
  destruct (ev_reason ev) as [|[[|c chunk]|]| |msg| |]; cbn -[receive].
  5: destruct (lw_write_queue s).
  all: repeat (case_match; cbn); split_and!; try done; auto; try (intros; right; by eauto).
Qed.

Lemma callback_once ev evs s l l' :
  opens l' = opens l → lw_loop s = LService (ev :: evs) → ev_allowed ev s = true →
  once_inv s l → once_inv (callback ev evs s) l'.
Proof.
  intros El' El Hev Hinv Ho. rewrite El' in *. destruct (Hinv Ho) as (H0 & H1 & H2 & H3 & H4).
  destruct (callback_keeps ev evs s) as (-> & Eu & -> & Hn & Hcon & Hq & Hw).
  assert (connecting (lw_connect s) = false) as Hc.
  { destruct (connecting _); [|done]. specialize (H2 eq_refl). congruence. }
  unfold requested. rewrite Eu, Hc. split_and!; try done.
  - intros Hx. split; [|done]. destruct (Hcon Hx) as [Hy|[Hy _]]; [by destruct (H3 Hy)|].
    unfold ev_allowed in Hev. rewrite Hy in Hev. by apply andb_prop in Hev as [Hev _].
  - intros Hx Hq'. destruct (Hcon Hx) as [Hy|[_ Hy]]; [|by left].
    destruct (H4 Hy (Hq Hq')) as [Hwr|[(p & evs' & Hl)|Hu]]; [|congruence|by right; right].
    destruct (Hw Hwr); auto.
Qed.

Lemma service_loop_once batch s s' l l' :
  opens l' = opens l → service_loop batch s = Some s' → once_inv s l → once_inv s' l'.
Proof.
  intros El' Hs Hinv. unfold service_loop in Hs.
  destruct (lw_loop s) as [| |[|ev evs]|p evs|k evs|] eqn:El; simplify_eq;
    [| |destruct (ev_allowed ev s) eqn:Ea; [by eapply callback_once|]| |]; intros Ho; rewrite El' in *;
    destruct (Hinv Ho) as (H0 & H1 & H2 & H3 & H4); clear Hinv;
    assert (connecting (lw_connect s) = false) as Hc
      by (destruct (connecting _); [specialize (H2 eq_refl); congruence|done]).
  - unfold requested in *. cbn. rewrite Hc. split_and!; try done.
    + intros Hx. destruct (H3 Hx). split; [done|]. by case_match.
    + intros Hx Hq. destruct (H4 Hx Hq) as [|[(?&?&?)|]]; [by left|congruence|by right; right].
  - unfold requested in *. cbn. rewrite Hc. split_and!; try done.
    + intros Hx. by destruct (H3 Hx).
    + intros Hx Hq. destruct (H4 Hx Hq) as [|[(?&?&?)|]]; [by left|congruence|by right; right].
  - unfold requested in *. cbn. rewrite Hc. split_and!; try done.
    + intros Hx. by destruct (H3 Hx).
    + intros Hx Hq. destruct (H4 Hx Hq) as [|[(?&?&?)|]]; [by left|congruence|by right; right].
  - unfold requested, on_writable, emit. destruct (String.eqb p "");
      destruct (bool_decide_reflect (lw_write_queue s = [])) as [Eq|Eq]; cbn;
      rewrite ?bool_decide_eq_true_2, ?bool_decide_eq_false_2 by done; cbn; rewrite ?Hc;
      split_and!; try done; try (intros Hx; by destruct (H3 Hx)); auto.
  - apply bind_Some in Hs as ([k' s1] & Hk & [= <-]).
    pose proof (close_step_keeps _ _ _ _ _ Hk) as (E & _ & _ & Ew & Ec & _ & Eu & Hcon & Hwr & _).
    injection E as _ _ Eq _. unfold requested in *. cbn. rewrite Ew, Ec, Eq, Eu, Hc.
    split_and!; try done.
    + intros Hx. destruct (H3 (Hcon Hx)). split; [done|]. by destruct k'.
    + intros Hx Hq. destruct (H4 (Hcon Hx) Hq) as [|[(?&?&?)|]]; auto; congruence.
Qed.

Lemma run_loop_once creates connects s s' l :
  once_inv s l → run_loop creates connects s = Some s' → once_inv s' l.
Proof.
  intros Hinv Hs Ho. destruct (Hinv Ho) as (H0 & H1 & H2 & H3 & H4). clear Hinv.
  assert (lw_connect s ≠ CNone) as Hn by (intros E; unfold run_loop in Hs; by rewrite E in Hs).
  assert (opens l ≠ 0) as Hl by (intros E; by destruct (H0 E)).
  assert (lw_user s ≠ UOpen) as Hu by auto.
  assert (connecting (lw_connect s) = true → lw_connected s = false) as Hf.
  { intros Hc. destruct (lw_connected s); [|done]. destruct (H3 eq_refl) as [_ H]. by destruct H; auto. }
  unfold run_loop, call, emit, connect_wsi in Hs.
  destruct (lw_connect s) eqn:Ec; try done; cbn in *.
  - assert (lw_loop s = LNone) as El by auto. rewrite Hf in * by done.
    destruct creates; [|destruct (lw_callbacks _)]; simplify_eq; cbn;
      rewrite ?Hf by done; split_and!; try done; rewrite ?El, ?Hf; done.
  - rewrite Hf in * by done. simplify_eq; cbn. rewrite ?Hf by done. split_and!; try done; auto.
  - rewrite H2 in * by done. rewrite Hf in * by done. simplify_eq; cbn.
    rewrite ?Hf by done. split_and!; done.
  - destruct (_ || _); simplify_eq; cbn. split_and!; try done; auto.
  - simplify_eq; cbn. split_and!; try done; auto.
Qed.

Lemma once_inv_reachable s l : lws_reachable (s, l) → once_inv s l.
Proof.
  revert s l. apply lws_reachable_ind; [by intros _; split_and!|].
  intros s l s' l' Hinv Hs. inversion Hs; subst;
    eauto using user_run_once, run_loop_once, service_loop_once;
    intros Ho; cbn in Ho; destruct (Hinv ltac:(lia)) as (H0' & H1' & H2' & H3' & H4'); cbn.
  - assert (opens l = 0) as E by lia. destruct (H0' E) as [Ec _]. split_and!; try done; auto.
    intros Hc. destruct (H3' Hc) as [_ Hn]. destruct Hn. apply H2'. by rewrite Ec.
  - split_and!; try done; auto.
    + intros E. by destruct (H0' E).
    + intros _ _. by right; right.
  - split_and!; try done; auto.
    + intros E. by destruct (H0' E).
    + intros Hc Hq. destruct (H4' Hc Hq) as [|[|]]; [by left|by right; left|congruence].
Qed.

(** C16: What is written to the connection is what was sent, in the order it was sent, empty
    payloads left out and none twice; and as long as a transport opened once is
    connected, a queued message has a writeable callback requested, or a thread that
    is about to request one: no message is forgotten in the queue. *)
Theorem lws_writes_in_order s l :
  lws_reachable (s, l) →
  nonempty (sent l) = (written s ++ inflight (lw_loop s) ++ nonempty (lw_write_queue s))%list ∧
  ((opens l ≤ 1)%nat → lw_connected s = true → lw_write_queue s ≠ [] → requested s).
Proof.
  intros Hr. split; [apply (io_inv_reachable _ _ Hr)|].
  intros Ho. apply (once_inv_reachable _ _ Hr Ho).
Qed.

Example lws_writes_in_order_witness :
  ∃ p, lws_reachable p ∧ written p.1 = ["x"] ∧ lw_write_queue p.1 = ["y"] ∧ requested p.1.
Proof.
  destruct (moves (demo_moves [] ++
      [MSend "x"; MUser; MSend ""; MUser; MSend "y"; MUser; MLoop [];
       MLoop [mkEvent true CLIENT_WRITEABLE; mkEvent true CLIENT_WRITEABLE]; MLoop []; MLoop [];
       MLoop []; MLoop []])
    (lws_new 1, mkLog 0 [] [])) as [[s l]|] eqn:E; [|by vm_compute in E].
  pose proof (lws_writes_in_order s l (moves_reachable _ _ E)) as [_ H]. exists (s, l).
  split; [by apply (moves_reachable _ _ E)|]. vm_compute in E. injection E as <- <-.
  split_and!; [done..|]. apply H; [by vm_compute; lia|done|done].
Defined.

(** ** Losing the connection *)

Definition is_lost (ev : LwsEvent) : bool :=
  ev_user ev &&
  match ev_reason ev with CLIENT_CONNECTION_ERROR _ | CLIENT_CLOSED => true | _ => false end.

(** The loop thread alone, [n] steps. *)
Fixpoint loop_alone (n : nat) s : option LwsClient :=
  match n with O => Some s | S n => s ← service_loop [] s; loop_alone n s end.


