(* ===== verification/LwsClose.v ===== *)
(** * Closing an LwsClient (src/upstream/lws_transport.cpp)

    [close] called by the owner returns, whatever the other two threads are doing,
    provided the connection is not lost at the same moment; and runs that show what
    the threads can do to each other. *)

From S2P Require Import Prelude HexCodec TtsService Upstream LwsTransport LwsFacts.

Local Open Scope string_scope.

(** ** The owner in close_internal, past its test *)

Definition ended (c : ConnectPc) : bool := match c with CNone | CDone => true | _ => false end.

(** The loop thread is not inside [close_internal] past its test. *)
Definition loop_outside (pc : LoopPc) : Prop :=
  match pc with LClose k _ => k_pc k = KCheck | _ => True end.

Definition past_set (pc : ClosePc) : bool :=
  match pc with KCheck | KSet => false | _ => true end.

(** A joined connecting thread has ended. *)
Definition joined_inv s : Prop := lw_connect_joined s = true → lw_connect s = CDone.

Lemma close_step_joined self k s k' s' :
  joined_inv s → close_step self k s = Some (k', s') → joined_inv s'.
Proof.
  unfold joined_inv, close_step, call, emit, on_writable. intros Hj Hk.
  destruct (k_pc k); repeat case_match; simplify_eq/=; try done; intros E;
    first [specialize (Hj E)|specialize (Hj eq_refl)|idtac]; congruence.
Qed.

(** Members a callback leaves alone. *)
Definition close_flags s : bool * bool * bool * bool :=
  (lw_terminated s, lw_closed s, lw_loop_stop s, lw_connect_joined s).

Lemma callback_flags ev evs s : close_flags (callback ev evs s) = close_flags s.
Proof.
  assert (∀ cb s1, close_flags (call cb s1) = close_flags s1) as Hcall
    by (intros; unfold call; by destruct (lw_callbacks s1)).
  unfold callback, generate_session_id, on_writable. destruct (negb _); [done|].
  destruct (ev_reason ev) as [|[[|c chunk]|]| |msg| |]; try done.
  - etrans; [apply (Hcall (OnOpen _))|done].
  - destruct (receive _ _) as [buffer [line|]]; [etrans; [apply (Hcall (OnFrame _))|done]|done].
  - by case_match.
  - etrans; [apply (Hcall (OnFrame _))|done].
Qed.

Lemma joined_step s l s' l' : joined_inv s → lws_step (s, l) (s', l') → joined_inv s'.
Proof.
  intros Hj Hs. inversion Hs as [| | |???? Hu|?????? Hu|????? Hu]; subst; try done; clear Hs.
  - unfold user_run in Hu. destruct (lw_user s) as [| | |k]; [done| | |].
    + by destruct (lw_connect s); simplify_eq/=.
    + unfold on_writable in Hu. destruct (lw_wsi _); by simplify_eq/=.
    + apply bind_Some in Hu as ([k' s1] & Hk & [= <-]). by eapply close_step_joined in Hk.
  - unfold joined_inv in *. unfold run_loop, call, emit, connect_wsi in Hu.
    destruct (lw_connect s) eqn:Ec; try done; repeat case_match; simplify_eq/=; try done;
      intros E; specialize (Hj E); congruence.
  - unfold service_loop in Hu. destruct (lw_loop s) as [| |[|ev evs]|p evs|k evs|]; simplify_eq; try done.
    + destruct (ev_allowed ev s); [|done]. unfold joined_inv.
      destruct (callback_keeps ev evs s) as (-> & _).
      pose proof (callback_flags ev evs s) as Hf. by injection Hf as _ _ _ ->.
    + unfold emit, on_writable. by repeat case_match.
    + apply bind_Some in Hu as ([k' s1] & Hk & [= <-]). by eapply close_step_joined in Hk.
Qed.

Lemma joined_reachable s l : lws_reachable (s, l) → joined_inv s.
Proof. revert s l. apply lws_reachable_ind; [done|]. eauto using joined_step. Qed.

Definition user_closing (code : Z) (reason : string) s : Prop :=
  match lw_user s with
  | UClose k =>
      k_code k = code ∧ k_reason k = reason ∧ past_set (k_pc k) = true ∧
      (k_pc k = KNotify → ended (lw_connect s) = true)
  | UIdle =>
      ended (lw_connect s) = true ∧
      (lw_callbacks s = true → Called (OnClose code reason) ∈ lw_out s)
  | _ => False
  end.

Definition closing_inv (code : Z) (reason : string) s : Prop :=
  lws_wf s ∧ joined_inv s ∧ lw_terminated s = false ∧ lw_closed s = true ∧ loop_outside (lw_loop s) ∧
  user_closing code reason s.

(** ** A bound on the steps left *)

Definition close_weight (pc : ClosePc) : nat :=
  match pc with
  | KCheck => 7 | KSet => 6 | KClear => 5 | KStop => 4 | KJoinLoop => 3 | KJoinConnect => 2
  | KNotify => 1
  end.
Definition user_weight (pc : UserPc) : nat :=
  match pc with UIdle => 0 | UOpen | USend => 1 | UClose k => close_weight (k_pc k) end.
Definition loop_weight (pc : LoopPc) : nat :=
  match pc with
  | LNone | LDone => 0
  | LTest => 1
  | LService evs => 2 + 3 * length evs
  | LWrite _ evs | LClose _ evs => 3 + 3 * length evs
  end.
Definition connect_weight (loop_stop : bool) (pc : ConnectPc) : nat :=
  match pc with
  | CNone | CDone => 0
  | CCreate => 7 | CConnect => 6
  | CSpawn => if loop_stop then 4 else 5
  | CWait => 2 | CDestroy => 1
  end.
Definition steps_left s : nat :=
  user_weight (lw_user s) + loop_weight (lw_loop s) +
  connect_weight (lw_loop_stop s) (lw_connect s).

(** The steps of all threads while the owner is still inside its call. *)
Definition busy_step (p p' : LwsClient * Log) : Prop :=
  lw_user p.1 ≠ UIdle ∧ lws_step p p'.

Section closing.
Context (code : Z) (reason : string).

Lemma user_closes s s' :
  closing_inv code reason s → user_run s = Some s' →
  lw_terminated s' = false ∧ lw_closed s' = true ∧ loop_outside (lw_loop s') ∧
  user_closing code reason s' ∧ steps_left s' < steps_left s.
Proof.
  intros (_ & Hj & Ht & Hc & Hl & Hu) Hs. unfold joined_inv in Hj. unfold user_closing in Hu. unfold user_run in Hs.
  destruct (lw_user s) as [| | |k] eqn:Eu; try done. destruct Hu as (Hk1 & Hk2 & Hk3 & Hk4).
  apply bind_Some in Hs as ([k' s1] & Hk & [= <-]).
  pose proof (close_step_keeps _ _ _ _ _ Hk) as (_ & Ecb & _ & _ & Ec & El & _ & _ & _ & Hcl).
  assert (lw_terminated s1 = false ∧ lw_loop_stop s1 = lw_loop_stop s) as [Ht' Els].
  { unfold close_step, call, emit, on_writable in Hk.
    destruct (k_pc k); repeat case_match; by simplify_eq/=. }
  unfold user_closing, steps_left. cbn. rewrite Eu, El, Ec, Els, Ht', Hcl by done.
  split_and!; try done.
  - unfold close_step, on_writable in Hk. destruct (k_pc k) eqn:Ek; try done.
    all: repeat case_match; simplify_eq/=; split_and!; try done; auto; try (by rewrite <- Ec).
    1-5: by specialize (Hj eq_refl).
    unfold call. destruct (lw_callbacks s) eqn:Ecb'; intros Hcb; [|congruence].
    cbn. apply elem_of_app. right. by apply list_elem_of_singleton.
  - assert (match k' with Some k' => close_weight (k_pc k') | None => 0 end
            < close_weight (k_pc k)) as Hw; [|destruct k'; cbn in *; lia].
    unfold close_step in Hk. destruct (k_pc k); repeat case_match; simplify_eq/=; lia.
Qed.

Lemma callback_weight ev evs s :
  lw_loop (callback ev evs s) = LService evs ∨
  (∃ p, lw_loop (callback ev evs s) = LWrite p evs) ∨
  (∃ k, k_pc k = KCheck ∧ lw_loop (callback ev evs s) = LClose k evs).
Proof.
  unfold callback, generate_session_id, on_writable, call, emit.
  destruct (negb _); [by left|].
  destruct (ev_reason ev) as [|[[|c chunk]|]| |msg| |]; cbn -[receive].
  5: destruct (lw_write_queue s).
  all: repeat (case_match; cbn); eauto 6.
  all: right; right; eexists; split; [|done]; done.
Qed.

Lemma loop_closes batch s s' :
  closing_inv code reason s → lw_user s ≠ UIdle → service_loop batch s = Some s' →
  lw_terminated s' = false ∧ lw_closed s' = true ∧ loop_outside (lw_loop s') ∧
  user_closing code reason s' ∧ steps_left s' < steps_left s.
Proof.
  intros (Hwf & Hj & Ht & Hc & Hl & Hu) Hb Hs. unfold service_loop in Hs.
  assert (∀ s1, lw_user s1 = lw_user s → lw_connect s1 = lw_connect s →
    user_closing code reason s1) as Hu'.
  { intros s1 E1 E2. unfold user_closing in *. rewrite E1, E2. by destruct (lw_user s). }
  destruct (lw_loop s) as [| |[|ev evs]|p evs|k evs|] eqn:El; try done; simplify_eq;
    unfold steps_left; rewrite El.
  - rewrite Hc, orb_true_r. cbn. split_and!; try done; try (by apply Hu'); lia.
  - cbn. split_and!; try done; try (by apply Hu'); lia.
  - destruct (ev_allowed ev s); [|cbn; split_and!; try done; try (by apply Hu'); lia].
    destruct (callback_keeps ev evs s) as (Ec & Eu & _).
    pose proof (callback_flags ev evs s) as Hf. injection Hf as -> -> -> _.
    rewrite Eu, Ec. split_and!; [done|done| |by apply Hu'|];
      destruct (callback_weight ev evs s) as [->|[(p & ->)|(k & Hk & ->)]]; cbn; try done; lia.
  - unfold emit, on_writable. split_and!; try (repeat case_match; by cbn).
    + apply Hu'; by repeat case_match.
    + repeat case_match; cbn; lia.
  - cbn in Hl. unfold close_step in Hs. rewrite Hl, Hc in Hs. cbn in Hs. simplify_eq. cbn.
    split_and!; try done; try (by apply Hu'); lia.
Qed.

Lemma connect_closes creates connects s s' :
  closing_inv code reason s → lw_user s ≠ UIdle → run_loop creates connects s = Some s' →
  lw_terminated s' = false ∧ lw_closed s' = true ∧ loop_outside (lw_loop s') ∧
  user_closing code reason s' ∧ steps_left s' < steps_left s.
Proof.
  intros (Hwf & Hj & Ht & Hc & Hl & Hu) Hb Hs.
  assert (∀ s1, lw_user s1 = lw_user s → user_closing code reason s1) as Hu'.
  { intros s1 E1. unfold user_closing in *. rewrite E1. destruct (lw_user s) as [| | |k]; try done.
    destruct Hu as (H1 & H2 & H3 & H4). split_and!; try done. intros H.
    specialize (H4 H). unfold run_loop in Hs. by destruct (lw_connect s). }
  unfold steps_left. unfold run_loop, call, emit, connect_wsi in Hs.
  destruct (lw_connect s) eqn:Ec; try done; repeat case_match; simplify_eq/=;
    split_and!; try done; try (by apply Hu'); try lia.
  all: try match goal with E : lw_loop _ = _ |- _ => rewrite E end; try done.
  all: rewrite ?Ec; repeat case_match; cbn; try done; lia.
Qed.

Lemma busy_closes s l s' l' :
  closing_inv code reason s → busy_step (s, l) (s', l') →
  closing_inv code reason s' ∧ steps_left s' < steps_left s.
Proof.
  intros Hinv [Hb Hs]. cbn in Hb.
  cut (lw_terminated s' = false ∧ lw_closed s' = true ∧ loop_outside (lw_loop s') ∧
    user_closing code reason s' ∧ steps_left s' < steps_left s).
  { intros (H1 & H2 & H3 & H4 & H5). split; [|done]. destruct Hinv as (Hwf & Hj & _).
    split_and!; try done; [by eapply lws_wf_step|by eapply joined_step]. }
  inversion Hs; subst; try done;
    eauto using user_closes, connect_closes, loop_closes.
Qed.

(** Someone can always move. *)
Lemma loop_moves s : lws_wf s → loop_outside (lw_loop s) → lw_closed s = true →
  (∃ s', service_loop [] s = Some s') ∨ lw_loop s = LNone ∨ lw_loop s = LDone.
Proof.
  intros Hwf Hl Hc. unfold service_loop.
  destruct (lw_loop s) as [| |[|ev evs]|p evs|k evs|] eqn:El; eauto. left.
  cbn in Hl. unfold close_step. rewrite Hl, Hc. by eexists.
Qed.

Lemma closing_moves s l :
  closing_inv code reason s → lw_user s ≠ UIdle → ∃ p, busy_step (s, l) p.
Proof.
  intros (Hwf & Hj & Ht & Hc & Hl & Hu) Hb.
  assert (∀ s', service_loop [] s = Some s' → ∃ p, busy_step (s, l) p) as Hloop
    by (intros s' Hs; eexists; split; [done|by eapply lws_s_loop]).
  assert (∀ s', user_run s = Some s' → ∃ p, busy_step (s, l) p) as Huser
    by (intros s' Hs; eexists; split; [done|by eapply lws_s_user]).
  assert (∀ s', run_loop true (λ _, true) s = Some s' → ∃ p, busy_step (s, l) p) as Hconn
    by (intros s' Hs; eexists; split; [done|by eapply lws_s_connect]).
  destruct (loop_moves s Hwf Hl Hc) as [[s' Hs]|Hend]; [by eapply Hloop|].
  unfold user_run, user_closing in *. destruct (lw_user s) as [| | |k]; try done.
  unfold close_step in Huser. destruct (k_pc k) eqn:Ek; try (by eapply Huser).
  - destruct Hend as [E|E]; rewrite E in Huser; [by eapply Huser|].
    destruct (lw_loop_joined s); by eapply Huser.
  - unfold run_loop in Hconn. destruct (lw_connect s) eqn:Ec; try (by eapply Huser);
      try (by eapply Hconn).
    + destruct Hend as [E|E]; rewrite E in Hconn; by eapply Hconn.
    + rewrite Hc, orb_true_r in Hconn. by eapply Hconn.
Qed.
End closing.


(** ** Schedules *)

Definition start : LwsClient * Log := (lws_new 1, mkLog 0 [] []).

(** Established, the loop thread inside [lws_service], and the owner's [close] past
    setting [closed_]. *)
Definition closing_moves_demo (batch : list LwsEvent) : list Move :=
  [MOpen WsEndpointConfig_default; MUser; MConnect true (λ _, true); MConnect true (λ _, true);
   MConnect true (λ _, true); MLoop batch; MClose 1000 "bye"; MUser; MUser].


(** The connecting thread may destroy the context while the loop thread is still
    inside [lws_service] on it: both react to [closed_], and neither waits for the
    other. *)
Lemma lws_context_destroyed_in_use :
  (λ p, (lw_context p.1, lw_loop p.1)) <$>
    moves (closing_moves_demo [] ++ [MConnect true (λ _, true); MConnect true (λ _, true)])%list start =
  Some (false, LService []).
Proof. by vm_compute. Qed.

(** A transport that is closed while the connection is being established ends up
    closed and open at once. *)
Lemma lws_open_after_close :
  (λ p, (lw_user p.1, lw_closed p.1, is_open p.1)) <$>
    moves (closing_moves_demo [mkEvent true CLIENT_ESTABLISHED] ++
      [MUser; MLoop []; MLoop []; MLoop []; MUser; MUser; MConnect true (λ _, true);
       MConnect true (λ _, true); MUser; MUser])%list start =
  Some (UIdle, true, true).
Proof. by vm_compute. Qed.

(** When the context cannot be created, [on_close_] is called, and again by [close]. *)
Lemma lws_close_called_twice :
  (λ p, lw_out p.1) <$>
    moves ([MOpen WsEndpointConfig_default; MUser; MConnect false (λ _, true); MClose 1000 "bye"] ++
      replicate 7 MUser)%list start =
  Some [Called (OnClose 1006 "context_create_failed"); Called (OnClose 1000 "bye")].
Proof. by vm_compute. Qed.

(** A closed transport stays closed: after opening it again the new loop thread ends at
    its first test. *)
Lemma lws_reopen_dead :
  (λ p, (lw_user p.1, lw_closed p.1, lw_loop p.1)) <$>
    moves ([MClose 1000 "bye"] ++ replicate 7 MUser ++
      [MOpen WsEndpointConfig_default; MUser; MConnect true (λ _, true); MConnect true (λ _, true);
       MConnect true (λ _, true); MLoop []])%list start =
  Some (UIdle, true, LDone).
Proof. by vm_compute. Qed.
