(* ===== verification/Reactor.v ===== *)
(** * Tasks and the reactor
      (src/framework/task.h, src/framework/task.cpp, src/framework/reactor.h)

    A task with its identity and its warning when it is slow, and the reactor: two
    thread pools, a timer, and a thread that fires what is due and ticks.  A step of
    the loop thread runs up to the next point at which another thread can observe it;
    the pools take their own steps. *)

From S2P Require Import Prelude HexCodec TtsService PriorityTimer ThreadPool.

Local Open Scope Z_scope.

(** ** Task *)

Inductive TaskKind : Type := Cpu | Io.
#[global] Instance TaskKind_eq_dec : EqDecision TaskKind.
Proof. solve_decision. Defined.

(** [TaskId::to_string] and [TaskIdGenerator::next] with its counter. *)
Definition TaskId_to_string (value : Z) : string := "T" +:+ to_string_u64 value.
Definition TaskIdGenerator_next (counter : Z) : Z * Z := (counter, u64 (counter + 1)).

(** [fn_] is a value of [F], or empty; [loc_] a file and a line. *)
Record Task (F : Type) := mkTask {
  t_id : Z; t_name : string; t_kind : TaskKind; t_fn : option F; t_file : string; t_line : Z }.
Arguments mkTask {F} _ _ _ _ _ _.
Arguments t_id {F} _.
Arguments t_name {F} _.
Arguments t_kind {F} _.
Arguments t_fn {F} _.
Arguments t_file {F} _.
Arguments t_line {F} _.

Definition task_new {F} (counter : Z) (name : string) (kind : TaskKind) (fn : option F)
    (file : string) (line : Z) : Task F * Z :=
  let (id, counter) := TaskIdGenerator_next counter in
  (mkTask id name kind fn file line, counter).

(** [operator()]: the call made, if any. *)
Definition task_call {F} (t : Task F) : list F := option_list (t_fn t).

(** [slow_threshold], in milliseconds. *)
Definition slow_threshold (k : TaskKind) : Z := match k with Cpu => 10 | Io => 1000 end.

(** The values of the warning, in the order they are printed. *)
Record SlowWarning := mkSlow {
  sw_id : string; sw_name : string; sw_kind : string; sw_elapsed_us : Z; sw_threshold_us : Z;
  sw_file : string; sw_line : Z }.

(** [run_with_slow_warning] with the readings [start] and [end_] of the clock around
    the call: the call made and the warning, if any. *)
Definition run_with_slow_warning {F} (start end_ : TimePoint) (t : Task F)
    : list F * option SlowWarning :=
  let elapsed := Z.quot (end_ - start) 1000 in
  let threshold_us := slow_threshold (t_kind t) * 1000 in
  (task_call t,
   if threshold_us <? elapsed
   then Some (mkSlow (TaskId_to_string (t_id t)) (t_name t)
                (match t_kind t with Cpu => "cpu" | Io => "io" end)
                elapsed threshold_us (t_file t) (t_line t))
   else None).

(** ** Reactor *)

Inductive LoopPc (E : Type) : Type :=
| RNone
| RTest                        (* about to test the loop condition *)
| RPop                         (* about to read the clock and pop *)
| RFire (due : list E)         (* entries popped and not yet fired *)
| RTick
| RWait                        (* in [wait_for], at most a millisecond *)
| RDone.
Arguments RNone {E}.
Arguments RTest {E}.
Arguments RPop {E}.
Arguments RFire {E} due.
Arguments RTick {E}.
Arguments RWait {E}.
Arguments RDone {E}.

Inductive StopPc : Type :=
| SIdle
| SRequest                     (* [running_] cleared *)
| SJoin
| SCpu                         (* about to shut the CPU pool down *)
| SCpuJoin                     (* waiting for its workers *)
| SIo
| SIoJoin.

Section reactor.
Context {F : Type}.
Abbreviation Entry := (TimerEntry (Task F)).

Record Reactor := mkReactor {
  r_cpu : ThreadPool (Task F);
  r_io : ThreadPool (Task F);
  r_timer : PriorityTimer (Task F);
  r_running : bool;
  r_tick : bool;               (* [tick_fn_] is not empty *)
  r_stop : bool;               (* stop requested of [loop_thread_] *)
  r_loop : LoopPc Entry;
  r_joined : bool;
  r_stopper : StopPc;
}.
#[global] Instance Reactor_eta : Eta Reactor := {|
  eta_expand r := mkReactor (r_cpu r) (r_io r) (r_timer r) (r_running r) (r_tick r) (r_stop r)
    (r_loop r) (r_joined r) (r_stopper r) |}.
Implicit Types r : Reactor.

Definition skip_threshold_ : Z := 1.

Definition reactor_new (cpu_workers io_workers : nat) : Reactor :=
  mkReactor (pool_start cpu_workers) (pool_start io_workers) timer_new false false false
    RNone false SIdle.

(** [run]; the assignment of [loop_thread_] joins a thread that is still there, which
    [stop] has already done. *)
Definition reactor_run (on_tick : bool) r : Reactor :=
  if r_running r then r
  else r <| r_running := true |> <| r_tick := on_tick |> <| r_stop := false |>
         <| r_joined := false |> <| r_loop := RTest |>.

Definition reactor_is_running r : bool := r_running r.

(** [schedule_cpu], [schedule_io] and [schedule_timer]: the lambda runs the task. *)
Definition schedule_cpu (t : Task F) r : Reactor := r <| r_cpu := submit (Some t) (r_cpu r) |>.
Definition schedule_io (t : Task F) r : Reactor := r <| r_io := submit (Some t) (r_io r) |>.
Definition schedule_timer (steady_now delay_ms : Z) (skippable : bool) (t : Task F) r : Reactor :=
  r <| r_timer := schedule_in steady_now (delay_ms * 1000000) skippable t (r_timer r) |>.

(** One step of [main_loop]; [now] is the reading of the clock.  The wait ends after a
    millisecond at the latest, notified or not. *)
Definition main_loop (now : TimePoint) r : option Reactor :=
  match r_loop r with
  | RNone | RDone => None
  | RTest => Some (r <| r_loop := if negb (r_stop r) && r_running r then RPop else RDone |>)
  | RPop =>
      let (due, timer) := pop_expired now skip_threshold_ (r_timer r) in
      Some (r <| r_timer := timer |> <| r_loop := RFire due |>)
  | RFire (_ :: due) => Some (r <| r_loop := RFire due |>)
  | RFire [] => Some (r <| r_loop := RTick |>)
  | RTick => Some (r <| r_loop := RWait |>)
  | RWait => Some (r <| r_loop := RTest |>)
  end.

(** The entry a step of the loop fires. *)
Definition firing r : list Entry := match r_loop r with RFire (e :: _) => [e] | _ => [] end.

(** [stop] up to the exchange, and its next step; [None]: it waits. *)
Definition reactor_stop r : Reactor :=
  if r_running r then r <| r_running := false |> <| r_stopper := SRequest |> else r.

Definition all_exited (p : ThreadPool (Task F)) : bool :=
  forallb (λ pc, match pc with Exited => true | _ => false end) (workers_ p).

Definition stop_step r : option Reactor :=
  match r_stopper r with
  | SIdle => None
  | SRequest => Some (r <| r_stop := true |> <| r_stopper := SJoin |>)
  | SJoin => match r_loop r with
             | RNone => Some (r <| r_stopper := SCpu |>)
             | RDone => Some (r <| r_joined := true |> <| r_stopper := SCpu |>)
             | _ => None
             end
  | SCpu => Some (r <| r_cpu := shutdown (r_cpu r) |> <| r_stopper := SCpuJoin |>)
  | SCpuJoin => if all_exited (r_cpu r) then Some (r <| r_stopper := SIo |>) else None
  | SIo => Some (r <| r_io := shutdown (r_io r) |> <| r_stopper := SIoJoin |>)
  | SIoJoin => if all_exited (r_io r) then Some (r <| r_stopper := SIdle |>) else None
  end.

(** ** All threads together *)

(** Timer entries scheduled and fired, the last reading of the clock. *)
Record Log := mkLog { l_scheduled : list Entry; l_fired : list Entry; l_now : TimePoint;
                      l_cpu : ThreadPool.Log (Task F); l_io : ThreadPool.Log (Task F) }.
#[global] Instance Log_eta : Eta Log := {|
  eta_expand l := mkLog (l_scheduled l) (l_fired l) (l_now l) (l_cpu l) (l_io l) |}.

Definition log_new : Log :=
  mkLog [] [] 0 (ThreadPool.mkLog [] [] []) (ThreadPool.mkLog [] [] []).

(** The clock does not go back. *)
Inductive reactor_step : Reactor * Log → Reactor * Log → Prop :=
| rs_run on_tick r l : r_stopper r = SIdle → reactor_step (r, l) (reactor_run on_tick r, l)
| rs_stop r l : r_stopper r = SIdle → reactor_step (r, l) (reactor_stop r, l)
| rs_stop_step r r' l : stop_step r = Some r' → reactor_step (r, l) (r', l)
| rs_timer steady_now delay_ms skippable t r l :
    reactor_step (r, l)
      (schedule_timer steady_now delay_ms skippable t r,
       l <| l_scheduled := l_scheduled l ++
              [mkEntry (steady_now + delay_ms * 1000000) skippable t (next_seq_ (r_timer r))] |>)
| rs_loop now r r' l :
    l_now l ≤ now → main_loop now r = Some r' →
    reactor_step (r, l) (r', l <| l_now := now |> <| l_fired := l_fired l ++ firing r |>)
| rs_cpu p pl r l :
    pool_any (r_cpu r, l_cpu l) (p, pl) →
    reactor_step (r, l) (r <| r_cpu := p |>, l <| l_cpu := pl |>)
| rs_io p pl r l :
    pool_any (r_io r, l_io l) (p, pl) →
    reactor_step (r, l) (r <| r_io := p |>, l <| l_io := pl |>).
End reactor.
Arguments Reactor F : clear implicits.
Arguments Log F : clear implicits.
