(* ===== verification/ReactorFacts.v ===== *)
(** * Properties of the reactor (src/framework/reactor.h)

    Timer tasks are fired at most once and not early; [stop] gets past joining the
    loop thread; a stopped reactor runs no more pool tasks. *)

From S2P Require Import Prelude HexCodec TtsService PriorityTimer ThreadPool Reactor.

Local Open Scope Z_scope.

Section facts.
Context {F : Type}.
Implicit Types (r : Reactor F) (l : Log F).
Abbreviation Entry := (TimerEntry (Task F)).

(** ** Timer tasks *)

(** Popped and not yet fired. *)
Definition popped r : list Entry := match r_loop r with RFire due => due | _ => [] end.

Definition loop_ended r : bool := match r_loop r with RNone | RDone => true | _ => false end.

(** The loop thread has ended once it is joined, and while nothing runs. *)
Definition stop_inv r : Prop :=
  (r_stopper r ≠ SIdle → r_running r = false) ∧
  match r_stopper r with
  | SIdle => r_running r = false → loop_ended r = true
  | SRequest | SJoin => True
  | _ => loop_ended r = true
  end.

Definition timer_inv r l : Prop :=
  Forall (λ e, te_deadline e ≤ l_now l) (l_fired l ++ popped r) ∧
  ∃ dropped, l_fired l ++ popped r ++ dropped ++ heap_ (r_timer r) ≡ₚ l_scheduled l ∧
    Forall (λ e, te_skippable e = true) dropped.

Lemma main_loop_timer now r r' l :
  l_now l ≤ now → main_loop now r = Some r' → timer_inv r l →
  timer_inv r' (l <| l_now := now |> <| l_fired := l_fired l ++ firing r |>).
Proof.
  intros Hnow Hs (Hd & dropped & Hp & Hsk). unfold main_loop, firing, timer_inv, popped in *.
  assert (Forall (λ e, te_deadline e ≤ now) (l_fired l)) as Hf.
  { apply Forall_app in Hd as [Hd _]. eapply Forall_impl; [exact Hd|]. cbn. lia. }
  destruct (r_loop r) as [| | |[|e due]| | |] eqn:El; try done; simplify_eq; cbn;
    rewrite ?app_nil_r; try (split; [done|]; by exists dropped).
  - destruct (_ && _); rewrite ?app_nil_r; (split; [done|]; by exists dropped).
  - destruct (pop_expired_fates now skip_threshold_ (r_timer r)) as (out & t' & E & P1 & _ & P3 & _).
    rewrite E in Hs. simplify_eq. cbn. split.
    + apply Forall_app. split; [done|]. rewrite P1. apply Forall_forall.
      intros e He%list_elem_of_filter. apply He.
    + exists (dropped ++ filter (drops now skip_threshold_) (heap_ (r_timer r))). split.
      * rewrite <- Hp. apply Permutation_app_head. cbn.
        etrans; [|apply Permutation_app_head, (fates_split now skip_threshold_)].
        rewrite P1, P3, <- (app_assoc dropped), app_assoc, (Permutation_app_comm _ dropped).
        by rewrite <- app_assoc.
      * apply Forall_app. split; [done|]. apply Forall_forall.
        intros e [[_ He] _]%list_elem_of_filter. unfold skipped in He. by destruct (te_skippable e).
  - split.
    + rewrite <- app_assoc. eapply Forall_impl; [exact Hd|]. cbn. lia.
    + exists dropped. by rewrite <- app_assoc.
Qed.

Lemma stop_inv_step r l r' l' : reactor_step (r, l) (r', l') → stop_inv r → stop_inv r'.
Proof.
  intros Hs [H1 H2]. unfold stop_inv, loop_ended in *.
  inversion Hs as [tick ?? Hi|?? Hi|??? Hstep|??????|???? Hn Hstep|???? Hp|???? Hp]; subst;
    clear Hs; try done.
  - unfold reactor_run. destruct (r_running r) eqn:Er; cbn; rewrite ?Er; [done|]. by rewrite Hi in *.
  - unfold reactor_stop. destruct (r_running r) eqn:Er; cbn; rewrite ?Er; done.
  - unfold stop_step in Hstep. destruct (r_stopper r); try done; repeat case_match; simplify_eq/=;
      split; try done; intros; try (by auto); congruence.
  - unfold main_loop in Hstep.
    destruct (r_loop r) as [| | |[|e due]| | |] eqn:El; try done;
      [|destruct (pop_expired _ _ _)|..]; simplify_eq; cbn; split; try done;
      destruct (r_stopper r); try done; try (by intros E; rewrite E, ?andb_false_r in *; auto).
Qed.

Lemma timer_inv_step r l r' l' :
  reactor_step (r, l) (r', l') → stop_inv r → timer_inv r l → timer_inv r' l'.
Proof.
  intros Hs Hst Hti.
  assert (∀ r1, r_timer r1 = r_timer r → popped r1 = popped r → timer_inv r1 l) as Hkeep
    by (intros r1 E1 E2; unfold timer_inv; by rewrite E1, E2).
  inversion Hs as [tick ?? Hi|?? Hi|??? Hstep|now d sk t ??|???? Hn Hstep|???? Hp|???? Hp];
    subst; clear Hs.
  - unfold reactor_run. destruct (r_running r) eqn:Er; [done|].
    apply Hkeep; [done|]. destruct Hst as [_ H2]. rewrite Hi in H2. specialize (H2 Er).
    unfold loop_ended in H2. unfold popped. cbn. by destruct (r_loop r).
  - unfold reactor_stop. by destruct (r_running r); [apply Hkeep|].
  - unfold stop_step in Hstep.
    destruct (r_stopper r); try done; repeat case_match; simplify_eq; by apply Hkeep.
  - destruct Hti as (Hd & dropped & Hp & Hsk). split; [done|]. exists dropped. split; [|done].
    change (popped (schedule_timer now d sk t r)) with (popped r). cbn. rewrite <- Hp.
    rewrite <- !app_assoc. do 3 apply Permutation_app_head. apply Permutation_cons_append.
  - by eapply main_loop_timer.
  - by apply Hkeep.
  - by apply Hkeep.
Qed.

(** C21: Tasks given to the timer, in every interleaving of the loop thread, [run], [stop]
    and restarts: each is fired at most once, none before its deadline on the reactor's
    clock, and one that is neither fired, about to be fired nor still waiting was
    skippable and dropped. *)
Theorem reactor_timer_once cpu_workers io_workers r l :
  rtc reactor_step (reactor_new cpu_workers io_workers, log_new) (r, l) →
  Forall (λ e, te_deadline e ≤ l_now l) (l_fired l) ∧
  ∃ dropped, l_fired l ++ popped r ++ dropped ++ heap_ (r_timer r) ≡ₚ l_scheduled l ∧
    Forall (λ e, te_skippable e = true) dropped.
Proof.
  intros Hr. cut (stop_inv r ∧ timer_inv r l).
  { intros (_ & [Hd _]%Forall_app & H). by split. }
  refine (rtc_ind_r (λ p, stop_inv p.1 ∧ timer_inv p.1 p.2) _ _ _ (r, l) Hr).
  - split; [done|]. split; [done|]. exists []. by split.
  - intros [r1 l1] [r2 l2] _ Hs [H1 H2]. split; [by eapply stop_inv_step|by eapply timer_inv_step].
Qed.

(** ** Stopping *)

(** Steps the loop thread has left once [running_] is cleared. *)
Definition loop_weight r : nat :=
  match r_loop r with
  | RNone | RDone => 0
  | RTest => 1
  | RWait => 2
  | RTick => 3
  | RFire due => 4 + length due
  | RPop => 5 + length (heap_ (r_timer r))
  end.

(** Runs during a call of [stop]: [n] steps of the loop thread, [k] tasks given to the
    timer meanwhile, and any steps of [stop] and the pools. *)
Inductive stopping : nat → nat → Reactor F * Log F → Reactor F * Log F → Prop :=
| st_refl p : stopping 0 0 p p
| st_loop n k now r r' l p :
    r_stopper r ≠ SIdle → l_now l ≤ now → main_loop now r = Some r' →
    stopping n k (r', l <| l_now := now |> <| l_fired := l_fired l ++ firing r |>) p →
    stopping (S n) k (r, l) p
| st_timer n k steady_now delay_ms skippable t r l l' p :
    r_stopper r ≠ SIdle →
    stopping n k (schedule_timer steady_now delay_ms skippable t r, l') p →
    stopping n (S k) (r, l) p
| st_other n k r r' l l' p :
    r_stopper r ≠ SIdle → r_loop r' = r_loop r → r_timer r' = r_timer r →
    reactor_step (r, l) (r', l') → stopping n k (r', l') p → stopping n k (r, l) p.

Lemma main_loop_weight now r r' :
  r_running r = false → main_loop now r = Some r' → (loop_weight r' < loop_weight r)%nat.
Proof.
  intros Hr Hs. unfold main_loop, loop_weight in *.
  destruct (r_loop r) as [| | |[|e due]| | |] eqn:El; try done; simplify_eq; cbn; try lia.
  - rewrite Hr, andb_false_r. lia.
  - destruct (pop_expired_fates now skip_threshold_ (r_timer r)) as (out & t' & E & P1 & _).
    rewrite E in Hs. simplify_eq. cbn. rewrite P1.
    pose proof (length_filter (fires now skip_threshold_) (heap_ (r_timer r))). lia.
Qed.

Lemma main_loop_moves now r : loop_ended r = false → is_Some (main_loop now r).
Proof.
  unfold loop_ended, main_loop. destruct (r_loop r) as [| | |[|]| | |]; try done.
  destruct (pop_expired _ _ _). done.
Qed.

Lemma main_loop_flags now r r' :
  main_loop now r = Some r' → r_running r' = r_running r ∧ r_stopper r' = r_stopper r.
Proof.
  unfold main_loop. intros H. destruct (r_loop r) as [| | |[|]| | |]; simplify_eq; try done.
  destruct (pop_expired _ _ _). by simplify_eq.
Qed.

Lemma stopping_bound n k p p' :
  stopping n k p p' → stop_inv p.1 → (n ≤ loop_weight p.1 + k)%nat.
Proof.
  induction 1 as [p|n k now r r' l p Hi Hn Hs _ IH|n k now d sk t r l l' p Hi _ IH
                 |n k r r' l l' p Hi El Et Hs _ IH]; cbn [fst]; intros Hinv; [lia|..].
  - assert (r_running r = false) as Hr by (by apply Hinv).
    pose proof (main_loop_weight now r r' Hr Hs). cut (stop_inv r'); [intros H'; specialize (IH H'); cbn in IH; lia|].
    by eapply (stop_inv_step r l); [by eapply rs_loop|].
  - cut (stop_inv (schedule_timer now d sk t r)); [|done]. intros H'. specialize (IH H'). cbn in IH.
    unfold loop_weight in *. cbn in IH. destruct (r_loop r); cbn in *; lia.
  - specialize (IH (stop_inv_step _ _ _ _ Hs Hinv)). cbn in IH.
    unfold loop_weight in *. rewrite El, Et in IH. lia.
Qed.

(** C22: [stop] gets past joining the loop thread: once it has cleared [running_], the loop
    thread makes at most [loop_weight] steps, plus one for every task given to the
    timer meanwhile, whatever the other threads do; until then it can always move; and
    when it has ended, [stop] can. *)
Theorem reactor_stop_ends cpu_workers io_workers r l n k r' l' :
  rtc reactor_step (reactor_new cpu_workers io_workers, log_new) (r, l) →
  r_stopper r ≠ SIdle → stopping n k (r, l) (r', l') →
  (n ≤ loop_weight r + k)%nat ∧
  (loop_ended r' = false → is_Some (main_loop (l_now l') r')) ∧
  (loop_ended r' = true → r_stopper r' = SJoin → is_Some (stop_step r')).
Proof.
  intros Hr Hi Hs. split_and!.
  - apply (stopping_bound n k (r, l) (r', l') Hs). cbn.
    refine (rtc_ind_r (λ p, stop_inv p.1) _ _ _ (r, l) Hr); [done|].
    intros [r1 l1] [r2 l2] _ H1 H2. by eapply stop_inv_step.
  - apply main_loop_moves.
  - unfold loop_ended, stop_step. intros He ->. by destruct (r_loop r').
Qed.

(** ** After stopping *)

Lemma all_exited_Forall (p : ThreadPool (Task F)) :
  all_exited p = true ↔ Forall (eq Exited) (workers_ p).
Proof.
  unfold all_exited. induction (workers_ p) as [|pc ws IH]; [done|].
  rewrite Forall_cons, <- IH. cbn. rewrite andb_true_iff. split.
  - intros [H1 H2]. split; [by destruct pc|done].
  - intros [<- H2]. done.
Qed.

Lemma exited_step (p p' : ThreadPool (Task F)) pl pl' :
  pool_any (p, pl) (p', pl') → all_exited p = true → all_exited p' = true ∧ taken pl' = taken pl.
Proof.
  intros Hs H%all_exited_Forall. rewrite all_exited_Forall.
  assert (∀ i pc, workers_ p !! i = Some pc → pc = Exited) as Hall
    by (intros i pc Hi; symmetry; exact (Forall_lookup_1 _ _ _ _ H Hi)).
  destruct Hs as [Hs|Hs]; inversion Hs; subst;
    try match goal with Hi : workers_ _ !! _ = Some ?pc |- _ => by specialize (Hall _ _ Hi) end;
    try done.
  - unfold shutdown. by destruct (stop_ p).
  - split; [|done]. cbn. apply Forall_fmap. eapply Forall_impl; [exact H|]. by intros ? <-.
Qed.

(** The workers of both pools have exited, and no more tasks have been taken. *)
Definition pools_dead (cpu io : list (option (Task F))) r l : Prop :=
  all_exited (r_cpu r) = true ∧ all_exited (r_io r) = true ∧
  taken (l_cpu l) = cpu ∧ taken (l_io l) = io.

Lemma pools_dead_step cpu io r l r' l' :
  reactor_step (r, l) (r', l') → pools_dead cpu io r l → pools_dead cpu io r' l'.
Proof.
  intros Hs (H1 & H2 & H3 & H4).
  inversion Hs as [tick ?? Hi|?? Hi|??? Hstep|??????|???? Hn Hstep|???? Hp|???? Hp]; subst;
    clear Hs.
  - unfold reactor_run. by destruct (r_running r).
  - unfold reactor_stop. by destruct (r_running r).
  - unfold stop_step, shutdown in Hstep.
    destruct (r_stopper r); try done; repeat case_match; by simplify_eq/=.
  - done.
  - unfold main_loop in Hstep. destruct (r_loop r) as [| | |[|]| | |]; simplify_eq; try done.
    destruct (pop_expired _ _ _). by simplify_eq.
  - destruct (exited_step _ _ _ _ Hp H1) as [H5 H6]. by split_and!.
  - destruct (exited_step _ _ _ _ Hp H2) as [H5 H6]. by split_and!.
Qed.

(** [stop] has returned from shutting the CPU pool down. *)
Definition cpu_inv r : Prop :=
  r_stopper r = SIo ∨ r_stopper r = SIoJoin → all_exited (r_cpu r) = true.

Lemma cpu_inv_step r l r' l' : reactor_step (r, l) (r', l') → cpu_inv r → cpu_inv r'.
Proof.
  unfold cpu_inv. intros Hs H1.
  inversion Hs as [tick ?? Hi|?? Hi|??? Hstep|??????|???? Hn Hstep|???? Hp|???? Hp]; subst;
    clear Hs; try done.
  - unfold reactor_run. by destruct (r_running r).
  - unfold reactor_stop. destruct (r_running r); [|done]. cbn. by intros [|].
  - unfold stop_step in Hstep.
    destruct (r_stopper r); try done; repeat case_match; simplify_eq/=; try (by intros [|]); auto.
  - destruct (main_loop_flags _ _ _ Hstep) as [_ ->].
    replace (r_cpu r') with (r_cpu r); [done|].
    unfold main_loop in Hstep. destruct (r_loop r) as [| | |[|]| | |]; simplify_eq; try done.
    destruct (pop_expired _ _ _). by simplify_eq.
  - cbn. intros Hx. by eapply exited_step; [|apply H1].
Qed.

(** A reactor that was stopped cannot be used again: after [stop] has returned, in every
    continuation, restarts with [run] included, not one more task is taken from either
    pool, however many are scheduled. *)
Theorem reactor_stopped_dead cpu_workers io_workers r l r1 r' l' :
  rtc reactor_step (reactor_new cpu_workers io_workers, log_new) (r, l) →
  r_stopper r ≠ SIdle → stop_step r = Some r1 → r_stopper r1 = SIdle →
  rtc reactor_step (r1, l) (r', l') →
  taken (l_cpu l') = taken (l_cpu l) ∧ taken (l_io l') = taken (l_io l).
Proof.
  intros Hr Hi Hs Hi1 Hr'.
  assert (cpu_inv r) as Hc.
  { refine (rtc_ind_r (λ p, cpu_inv p.1) _ _ _ (r, l) Hr); [by intros [|]|].
    intros [] [] _ H1 H2. by eapply cpu_inv_step. }
  assert (pools_dead (taken (l_cpu l)) (taken (l_io l)) r1 l) as Hd.
  { unfold stop_step in Hs. destruct (r_stopper r) eqn:Est; try done; repeat case_match;
      simplify_eq/=. split_and!; try done. apply Hc. by right. }
  cut (pools_dead (taken (l_cpu l)) (taken (l_io l)) r' l'); [by intros (_ & _ & ?)|].
  refine (rtc_ind_r (λ p, pools_dead (taken (l_cpu l)) (taken (l_io l)) p.1 p.2)
    (r1, l) Hd _ (r', l') Hr').
  intros [] [] _ H1 H2. by eapply pools_dead_step.
Qed.
End facts.

(** ** Runs *)

(** A schedule of steps, executed. *)
Inductive Move (F : Type) : Type :=
| MRun | MStop | MStopStep
| MTimer (steady_now delay_ms : Z) (skippable : bool) (t : Task F)
| MLoop (now : TimePoint).
Arguments MRun {F}.
Arguments MStop {F}.
Arguments MStopStep {F}.
Arguments MTimer {F} _ _ _ _.
Arguments MLoop {F} _.

Section moves.
Context {F : Type}.

Definition move (m : Move F) (p : Reactor F * Log F) : option (Reactor F * Log F) :=
  let (r, l) := p in
  match m, r_stopper r with
  | MRun, SIdle => Some (reactor_run true r, l)
  | MStop, SIdle => Some (reactor_stop r, l)
  | MStopStep, _ => r' ← stop_step r; Some (r', l)
  | MTimer steady_now delay_ms skippable t, _ =>
      Some (schedule_timer steady_now delay_ms skippable t r,
            l <| l_scheduled := l_scheduled l ++
              [mkEntry (steady_now + delay_ms * 1000000) skippable t (next_seq_ (r_timer r))] |>)
  | MLoop now, _ =>
      if l_now l <=? now
      then r' ← main_loop now r;
           Some (r', l <| l_now := now |> <| l_fired := l_fired l ++ firing r |>)
      else None
  | _, _ => None
  end.

Definition moves (ms : list (Move F)) (p : Reactor F * Log F) : option (Reactor F * Log F) :=
  foldl (λ p m, p ≫= move m) (Some p) ms.

Lemma reactor_move_step m p p' : move m p = Some p' → reactor_step p p'.
Proof.
  destruct p as [r l]. unfold move. intros H. destruct m.
  - destruct (r_stopper r) eqn:E; simplify_eq. by constructor.
  - destruct (r_stopper r) eqn:E; simplify_eq. by constructor.
  - apply bind_Some in H as (r' & H & [= <-]). by constructor.
  - simplify_eq. constructor.
  - destruct (Z.leb_spec (l_now l) now); [|done].
    apply bind_Some in H as (r' & H & [= <-]). by econstructor.
Qed.

Lemma reactor_moves_rtc ms p p' : moves ms p = Some p' → rtc reactor_step p p'.
Proof.
  unfold moves. revert p'. induction ms as [|m ms IH] using rev_ind; intros p'; [by intros [= ->]|].
  rewrite foldl_app. cbn. intros (p1 & H1 & H2)%bind_Some.
  eapply rtc_r; [by apply IH|by eapply reactor_move_step].
Qed.
End moves.

Definition demo_task : Task string := mkTask 1 "t" Cpu (Some "f") "main.cpp" 1.
Definition demo_start : Reactor string * Log string := (reactor_new 1 1, log_new).

(** Two timer tasks, of which one is due; then [stop] up to the join. *)
Definition demo_stop : list (Move string) :=
  [MTimer 0 1 false demo_task; MTimer 0 9 false demo_task; MRun; MLoop 0; MLoop 2000000;
   MLoop 2000000; MStop; MStopStep].

Example reactor_timer_once_witness :
  ∃ p, moves demo_stop demo_start = Some p ∧ length (l_fired p.2) = 1%nat ∧
    Forall (λ e, te_deadline e ≤ l_now p.2) (l_fired p.2).
Proof.
  destruct (moves demo_stop demo_start) as [[r l]|] eqn:E; [|by vm_compute in E].
  exists (r, l). split; [done|]. pose proof (reactor_moves_rtc _ _ _ E) as Hr.
  split; [by vm_compute in E; injection E as <- <-|].
  apply (reactor_timer_once 1 1 r l Hr).
Defined.

Example reactor_stop_ends_witness :
  ∃ r l, moves demo_stop demo_start = Some (r, l) ∧ r_stopper r = SJoin ∧
    (0 ≤ loop_weight r + 0)%nat ∧ loop_weight r = 4%nat.
Proof.
  destruct (moves demo_stop demo_start) as [[r l]|] eqn:E; [|by vm_compute in E].
  exists r, l. split; [done|]. pose proof (reactor_moves_rtc _ _ _ E) as Hr.
  assert (r_stopper r = SJoin ∧ loop_weight r = 4%nat) as [H1 H2]
    by (vm_compute in E; by injection E as <- <-).
  split; [exact H1|]. split; [|exact H2].
  apply (reactor_stop_ends 1 1 r l 0 0 r l Hr ltac:(by rewrite H1)). constructor.
Defined.

(** The workers of both pools exit when the flag is set before they first look. *)
Definition demo_stopping : Reactor string :=
  (reactor_new 1 1) <| r_stopper := SIoJoin |> <| r_loop := RDone |> <| r_joined := true |>
    <| r_tick := true |> <| r_stop := true |>
    <| r_cpu := mkPool [] true [Exited] 0 true |> <| r_io := mkPool [] true [Exited] 0 true |>.

Lemma demo_stopping_reached : rtc reactor_step demo_start (demo_stopping, log_new).
Proof.
  assert (moves [MRun; MStop; MStopStep; MLoop 0; MStopStep; MStopStep] demo_start =
    Some ((reactor_new 1 1) <| r_stopper := SCpuJoin |> <| r_loop := RDone |> <| r_joined := true |>
      <| r_tick := true |> <| r_stop := true |> <| r_cpu := mkPool [] true [AtLoop] 0 true |>,
      log_new)) as H%reactor_moves_rtc by (by vm_compute).
  etrans; [exact H|].
  eapply rtc_l. { eapply rs_cpu. left. apply (ps_loop 0). reflexivity. }
  eapply rtc_l. { eapply rs_stop_step. reflexivity. }
  eapply rtc_l. { eapply rs_stop_step. reflexivity. }
  eapply rtc_l. { eapply rs_io. left. apply (ps_loop 0). reflexivity. }
  apply rtc_refl.
Qed.

(** Restarted, and given a task, which is still not taken. *)
Example reactor_stopped_dead_witness :
  ∃ r1 r', stop_step demo_stopping = Some r1 ∧
    rtc reactor_step (r1, log_new) (r', log_new <| l_cpu := ThreadPool.mkLog [Some demo_task] [] [] |>) ∧
    r_running r' = true ∧ taken (l_cpu (log_new (F:=string))) = [].
Proof.
  eexists _, _. split; [reflexivity|].
  assert (rtc reactor_step
    (demo_stopping <| r_stopper := SIdle |>, log_new)
    (schedule_cpu demo_task (reactor_run true (demo_stopping <| r_stopper := SIdle |>)),
     log_new <| l_cpu := ThreadPool.mkLog [Some demo_task] [] [] |>)) as Hrun.
  { eapply rtc_l; [by apply (rs_run true)|].
    eapply rtc_l; [|apply rtc_refl]. apply (rs_cpu _ _ (reactor_run true _) log_new).
    left. by apply (ps_submit (Some demo_task)). }
  split; [exact Hrun|]. split; [done|].
  pose proof (reactor_stopped_dead 1 1 demo_stopping log_new (demo_stopping <| r_stopper := SIdle |>)
    _ _ demo_stopping_reached ltac:(done) eq_refl eq_refl Hrun) as [<- _]. done.
Defined.
