(* ===== verification/BusWorkers.v ===== *)
(** * Inbox and BusWorker (src/framework/event_bus.cpp)

    The threads behind asynchronous publication, at the level of the condition
    variable: each worker has a program point, and a step of a worker runs up to the
    next point at which another thread can observe it.  [Inbox::close] sets the stop
    source and notifies without the mutex, so evaluating the predicate of the wait and
    going to sleep are two steps, the mutex being held in between.

    A task is a value of [T]: [publish_async] always makes one. *)

From S2P Require Import Prelude.

Inductive WorkerPc (T : Type) : Type :=
| WTest                        (* about to test its own stop token *)
| WTry                         (* about to call [try_pop] *)
| WWait                        (* in [wait_pop], about to lock and test the predicate *)
| WSleepy                      (* predicate false, mutex held *)
| WAsleep
| WRun (task : T)
| WExit.
Arguments WTest {T}.
Arguments WTry {T}.
Arguments WWait {T}.
Arguments WSleepy {T}.
Arguments WAsleep {T}.
Arguments WRun {T} task.
Arguments WExit {T}.

(** [BusWorker]: its point, and whether its thread was asked to stop. *)
Record BusWorker (T : Type) := mkWorker { bw_pc : WorkerPc T; bw_stop : bool }.
Arguments mkWorker {T} _ _.
Arguments bw_pc {T} _.
Arguments bw_stop {T} _.

(** The points of [stop_workers]. *)
Inductive StopPc : Type :=
| TIdle
| TClose                       (* [running_] cleared, about to request the stop of the inbox *)
| TNotify
| TDelete                      (* about to delete the next worker *)
| TJoin.                       (* its stop requested, joining it *)

Section bus_workers.
Context {T : Type}.

Record Inbox := mkInbox {
  ib_queue : list T;
  ib_stop : bool;
  ib_workers : list (BusWorker T);   (* the workers not yet deleted *)
  ib_running : bool;                 (* [EventBus::running_] *)
  ib_notify : nat;                   (* pushes that have still to notify *)
  ib_stopper : StopPc;
}.
#[global] Instance Inbox_eta : Eta Inbox := {|
  eta_expand b := mkInbox (ib_queue b) (ib_stop b) (ib_workers b) (ib_running b) (ib_notify b)
    (ib_stopper b) |}.
Implicit Types (b : Inbox) (w : BusWorker T).

Definition inbox_new : Inbox := mkInbox [] false [] false 0 TIdle.

Definition is_sleepy w : bool := match bw_pc w with WSleepy => true | _ => false end.
Definition mutex_free b : bool := negb (existsb is_sleepy (ib_workers b)).

(** [Inbox::push], up to the release of the lock. *)
Definition inbox_push (task : T) b : Inbox :=
  b <| ib_queue := ib_queue b ++ [task] |> <| ib_notify := S (ib_notify b) |>.

Definition enqueue_async (task : T) b : Inbox := inbox_push task b.

Definition inbox_size b : nat := length (ib_queue b).

(** [try_pop]: the next point of the worker and the queue after it. *)
Definition try_pop (queue : list T) : WorkerPc T * list T :=
  match queue with
  | [] => (WWait, [])
  | task :: queue => (WRun task, queue)
  end.

(** The locked part of [wait_pop]: an empty queue after the wait ends the worker. *)
Definition wait_pop (stop : bool) (queue : list T) : WorkerPc T * list T :=
  match queue with
  | [] => if stop then (WExit, []) else (WSleepy, [])
  | task :: queue => (WRun task, queue)
  end.

Definition goto (i : nat) (pc : WorkerPc T) b : Inbox :=
  b <| ib_workers := alter (λ w, mkWorker pc (bw_stop w)) i (ib_workers b) |>.

Definition wake w : BusWorker T :=
  match bw_pc w with WAsleep => mkWorker WWait (bw_stop w) | _ => w end.

(** [start_workers]. *)
Definition start_workers (n : nat) b : Inbox :=
  if ib_running b then b
  else b <| ib_running := true |>
         <| ib_workers := ib_workers b ++ replicate n (mkWorker WTest false) |>.

(** [stop_workers] up to the exchange, and its next step: closing the inbox, then
    deleting the workers one after the other; [None]: it waits in a join. *)
Definition stop_workers b : Inbox :=
  if ib_running b then b <| ib_running := false |> <| ib_stopper := TClose |> else b.

Definition stop_step b : option Inbox :=
  match ib_stopper b with
  | TIdle => None
  | TClose => Some (b <| ib_stop := true |> <| ib_stopper := TNotify |>)
  | TNotify => Some (b <| ib_workers := wake <$> ib_workers b |> <| ib_stopper := TDelete |>)
  | TDelete =>
      match ib_workers b with
      | [] => Some (b <| ib_stopper := TIdle |>)
      | w :: ws => Some (b <| ib_workers := mkWorker (bw_pc w) true :: ws |> <| ib_stopper := TJoin |>)
      end
  | TJoin =>
      match ib_workers b with
      | mkWorker WExit _ :: ws => Some (b <| ib_workers := ws |> <| ib_stopper := TDelete |>)
      | _ => None
      end
  end.

(** Tasks pushed, popped and run, in order. *)
Record Log := mkLog { pushed : list T; taken : list T; ran : list T }.
#[global] Instance Log_eta : Eta Log := {|
  eta_expand l := mkLog (pushed l) (taken l) (ran l) |}.
Implicit Types l : Log.

Definition task_of (pc : WorkerPc T) : list T := match pc with WRun task => [task] | _ => [] end.

Inductive bus_step : Inbox * Log → Inbox * Log → Prop :=
| bs_push task b l :
    mutex_free b = true →
    bus_step (b, l) (enqueue_async task b, l <| pushed := pushed l ++ [task] |>)
| bs_notify_none b l n :
    ib_notify b = S n → Forall (λ w, bw_pc w ≠ WAsleep) (ib_workers b) →
    bus_step (b, l) (b <| ib_notify := n |>, l)
| bs_notify_one i b l n w :
    ib_notify b = S n → ib_workers b !! i = Some w → bw_pc w = WAsleep →
    bus_step (b, l) (goto i WWait (b <| ib_notify := n |>), l)
| bs_start n b l : ib_stopper b = TIdle → bus_step (b, l) (start_workers n b, l)
| bs_stop b l : ib_stopper b = TIdle → bus_step (b, l) (stop_workers b, l)
| bs_stop_step b b' l : stop_step b = Some b' → bus_step (b, l) (b', l)
| bs_test i w b l :
    ib_workers b !! i = Some w → bw_pc w = WTest →
    bus_step (b, l) (goto i (if bw_stop w then WExit else WTry) b, l)
| bs_try i w pc q b l :
    ib_workers b !! i = Some w → bw_pc w = WTry → mutex_free b = true →
    try_pop (ib_queue b) = (pc, q) →
    bus_step (b, l) (goto i pc (b <| ib_queue := q |>), l <| taken := taken l ++ task_of pc |>)
| bs_wait i w pc q b l :
    ib_workers b !! i = Some w → bw_pc w = WWait → mutex_free b = true →
    wait_pop (ib_stop b) (ib_queue b) = (pc, q) →
    bus_step (b, l) (goto i pc (b <| ib_queue := q |>), l <| taken := taken l ++ task_of pc |>)
| bs_sleep i w b l :
    ib_workers b !! i = Some w → bw_pc w = WSleepy → bus_step (b, l) (goto i WAsleep b, l)
| bs_spurious i w b l :
    ib_workers b !! i = Some w → bw_pc w = WAsleep → bus_step (b, l) (goto i WWait b, l)
| bs_run i w task b l :
    ib_workers b !! i = Some w → bw_pc w = WRun task →
    bus_step (b, l) (goto i WTest b, l <| ran := ran l ++ [task] |>).

(** ** Tasks run in order, each once *)

Definition in_hand b : list T := ib_workers b ≫= (λ w, task_of (bw_pc w)).

Lemma bus_in_hand_goto i w pc b :
  ib_workers b !! i = Some w →
  task_of (bw_pc w) ++ in_hand (goto i pc b) ≡ₚ task_of pc ++ in_hand b.
Proof.
  intros Hi. unfold in_hand, goto. cbn. rewrite (alter_insert _ _ i w) by done.
  by apply (bind_insert (λ w, task_of (bw_pc w))).
Qed.

Definition bus_inv b l : Prop := pushed l = taken l ++ ib_queue b ∧ ran l ++ in_hand b ≡ₚ taken l.

Lemma in_hand_fmap (f : BusWorker T → BusWorker T) (ws : list (BusWorker T)) :
  (∀ w, task_of (bw_pc (f w)) = task_of (bw_pc w)) →
  (f <$> ws) ≫= (λ w, task_of (bw_pc w)) = ws ≫= (λ w, task_of (bw_pc w)).
Proof. intros Hf. induction ws as [|w ws IH]; [done|]. cbn. by rewrite Hf, IH. Qed.

Lemma bus_inv_goto i w pc b l :
  ib_workers b !! i = Some w → task_of (bw_pc w) = [] → task_of pc = [] →
  bus_inv b l → bus_inv (goto i pc b) l.
Proof.
  intros Hi H1 H2 [Hs Hr]. split; [done|].
  pose proof (bus_in_hand_goto i w pc b Hi) as Hp. rewrite H1, H2 in Hp. cbn in Hp. by rewrite Hp.
Qed.

(** Taking a task from the queue, or none. *)
Lemma bus_inv_take i w pc q b l :
  ib_workers b !! i = Some w → task_of (bw_pc w) = [] → ib_queue b = task_of pc ++ q →
  bus_inv b l →
  bus_inv (goto i pc (b <| ib_queue := q |>)) (l <| taken := taken l ++ task_of pc |>).
Proof.
  intros Hi H1 Hq [Hs Hr]. split; cbn; [by rewrite Hs, Hq, app_assoc|].
  pose proof (bus_in_hand_goto i w pc (b <| ib_queue := q |>) Hi) as Hp. rewrite H1 in Hp. cbn in Hp.
  rewrite Hp. change (in_hand (b <| ib_queue := q |>)) with (in_hand b).
  by rewrite <- Hr, app_assoc, (Permutation_app_comm (ran l)), <- app_assoc, Permutation_app_comm.
Qed.

Lemma bus_inv_stop b b' l : stop_step b = Some b' → bus_inv b l → bus_inv b' l.
Proof.
  intros Hs [H1 H2]. unfold stop_step in Hs.
  destruct (ib_stopper b); try done.
  - simplify_eq. done.
  - simplify_eq. split; [done|]. unfold in_hand in *. cbn.
    rewrite in_hand_fmap; [done|]. intros w. unfold wake. destruct (bw_pc w) eqn:E; by rewrite ?E.
  - destruct (ib_workers b) as [|w ws] eqn:Ew; simplify_eq; split; try done;
      unfold in_hand in *; cbn; by rewrite Ew in *.
  - destruct (ib_workers b) as [|[[] ?] ws] eqn:Ew; simplify_eq. split; [done|].
    unfold in_hand in *. cbn. by rewrite Ew in *.
Qed.

Lemma bus_inv_step b l b' l' : bus_step (b, l) (b', l') → bus_inv b l → bus_inv b' l'.
Proof.
  intros Hs Hinv.
  inversion Hs as [task ?? Hm|??? Hn Ha|i ?? n w Hn Hi Hw|n ?? Hid|?? Hid|??? Hst|i w ?? Hi Hw
    |i w pc q ?? Hi Hw Hm Ht|i w pc q ?? Hi Hw Hm Ht|i w ?? Hi Hw|i w ?? Hi Hw|i w task ?? Hi Hw];
    subst; clear Hs.
  - destruct Hinv as [H1 H2]. split; [|done]. cbn. by rewrite H1, app_assoc.
  - done.
  - eapply (bus_inv_goto i w); [done|by rewrite Hw|done|exact Hinv].
  - unfold start_workers. destruct (ib_running b); [done|]. destruct Hinv as [H1 H2].
    split; [done|]. unfold in_hand in *. cbn. rewrite bind_app.
    assert (replicate n (mkWorker WTest false) ≫= (λ w, task_of (bw_pc w)) = []) as ->
      by (clear; by induction n).
    by rewrite app_nil_r.
  - unfold stop_workers. by destruct (ib_running b).
  - by eapply bus_inv_stop.
  - eapply bus_inv_goto; [done|by rewrite Hw|by destruct (bw_stop w)|done].
  - eapply bus_inv_take; [done|by rewrite Hw| |done]. unfold try_pop in Ht.
    by destruct (ib_queue b); simplify_eq.
  - eapply bus_inv_take; [done|by rewrite Hw| |done]. unfold wait_pop in Ht.
    by destruct (ib_queue b), (ib_stop b); simplify_eq.
  - eapply bus_inv_goto; [done|by rewrite Hw|done|done].
  - eapply bus_inv_goto; [done|by rewrite Hw|done|done].
  - destruct Hinv as [H1 H2]. split; [done|]. cbn.
    pose proof (bus_in_hand_goto i w WTest b Hi) as Hp. rewrite Hw in Hp. cbn in Hp.
    rewrite <- app_assoc. cbn. by rewrite Hp.
Qed.

Lemma bus_reachable_inv b l :
  rtc bus_step (inbox_new, mkLog [] [] []) (b, l) → bus_inv b l.
Proof.
  intros Hr. refine (rtc_ind_r (λ p, bus_inv p.1 p.2) _ _ _ (b, l) Hr); [done|].
  intros [] [] _ H1 H2. by eapply bus_inv_step.
Qed.

(** C23: Asynchronous publication at the level of the threads, in every interleaving of
    publishers, workers, starts, stops and spurious wake-ups: tasks leave the inbox in
    the order they were published, every published task has been taken or is still in
    the inbox, each exactly once, and every task taken has been run once or is being
    run by one worker.  No stop loses a task a worker has taken. *)
Theorem bus_workers_fifo b l :
  rtc bus_step (inbox_new, mkLog [] [] []) (b, l) →
  pushed l = taken l ++ ib_queue b ∧ ran l ++ in_hand b ≡ₚ taken l.
Proof. apply bus_reachable_inv. Qed.
End bus_workers.
Arguments Inbox T : clear implicits.
Arguments Log T : clear implicits.

(** ** Instances *)

(** A worker that saw the inbox empty and open, and the inbox closed before it slept:
    the notification has been made, and [stop_workers] joins a sleeping worker. *)
Definition stuck_stop : Inbox string * Log string :=
  (mkInbox [] true [mkWorker WAsleep true] false 0 TJoin, mkLog [] [] []).

Lemma bus_stop_lost_wakeup : rtc bus_step (inbox_new, mkLog [] [] []) stuck_stop.
Proof.
  eapply rtc_l. { by apply (bs_start 1). }
  eapply rtc_l. { by apply (bs_test 0 (mkWorker WTest false)). }
  eapply rtc_l. { by eapply (bs_try 0 (mkWorker WTry false)). }
  eapply rtc_l. { by eapply (bs_wait 0 (mkWorker WWait false)). }
  eapply rtc_l. { by apply bs_stop. }
  eapply rtc_l. { by apply bs_stop_step. }
  eapply rtc_l. { by apply bs_stop_step. }
  eapply rtc_l. { by apply (bs_sleep 0 (mkWorker WSleepy false)). }
  eapply rtc_l. { by apply bs_stop_step. }
  apply rtc_refl.
Qed.

Example bus_workers_fifo_witness :
  pushed stuck_stop.2 = taken stuck_stop.2 ++ ib_queue stuck_stop.1 ∧
  ran stuck_stop.2 ++ in_hand stuck_stop.1 ≡ₚ taken stuck_stop.2.
Proof. apply (bus_workers_fifo stuck_stop.1 stuck_stop.2 bus_stop_lost_wakeup). Defined.

(** A stopped bus started again: its worker finds the inbox closed and exits as soon as
    it is empty, so an event published later stays there. *)
Lemma bus_restart_dead :
  rtc bus_step (mkInbox ["e"] true [] false 0 TIdle, mkLog ["e"] [] [])
    (mkInbox ["late"] true [mkWorker WExit false] true 0 TIdle, mkLog ["e"; "late"] ["e"] ["e"]).
Proof.
  eapply rtc_l. { by apply (bs_start 1). }
  eapply rtc_l. { by apply (bs_test 0 (mkWorker WTest false)). }
  eapply rtc_l. { by eapply (bs_try 0 (mkWorker WTry false)). }
  eapply rtc_l. { by apply (bs_run 0 (mkWorker (WRun "e") false)). }
  eapply rtc_l. { by apply (bs_test 0 (mkWorker WTest false)). }
  eapply rtc_l. { by eapply (bs_try 0 (mkWorker WTry false)). }
  eapply rtc_l. { by eapply (bs_wait 0 (mkWorker WWait false)). }
  eapply rtc_l. { by apply (bs_push "late"). }
  eapply rtc_l; [|apply rtc_refl]. eapply bs_notify_none; [done|by repeat constructor].
Qed.
