(* ===== verification/BusStop.v ===== *)
(** * Termination of EventBus::stop_workers (src/framework/event_bus.cpp)

    [BusWorkers.bus_stop_lost_wakeup] shows a stop that waits for ever, because a worker
    was between the predicate of its wait and its sleep when the inbox was closed.
    Here is the other half: when no worker is in that window, the stop ends. *)

From S2P Require Import Prelude BusWorkers.

Section stop.
Context {T : Type}.
Implicit Types (b : Inbox T) (l : Log T) (x : Inbox T * Log T).

(** A step of any thread while the stop is under way and nothing is published. *)
Definition stopping_step x y : Prop :=
  bus_step x y ∧ pushed y.2 = pushed x.2 ∧ ib_stopper x.1 ≠ TIdle.

Definition awake (w : BusWorker T) : Prop :=
  match bw_pc w with WSleepy | WAsleep => False | _ => True end.

(** Closed and notified, every worker awake; a join has its worker. *)
Definition draining b : Prop :=
  ib_stop b = true ∧ Forall awake (ib_workers b) ∧
  match ib_stopper b with
  | TDelete => True
  | TJoin => ib_workers b ≠ []
  | TIdle => ib_workers b = []
  | _ => False
  end.

Definition rank (w : BusWorker T) : nat :=
  match bw_pc w with WRun _ => 5 | WTest => 4 | WTry => 3 | WWait => 2 | _ => 0 end.

(** The steps left to a stop: four per task in the inbox, those of the workers and
    notifications, and two per worker to delete. *)
Definition stop_left b : nat :=
  4 * length (ib_queue b) + sum_list_with rank (ib_workers b) + ib_notify b +
  2 * length (ib_workers b) + match ib_stopper b with TDelete => 1 | _ => 0 end.

Lemma rank_goto i w pc b :
  ib_workers b !! i = Some w →
  sum_list_with rank (ib_workers (goto i pc b)) + rank w =
  sum_list_with rank (ib_workers b) + rank (mkWorker pc (bw_stop w)).
Proof.
  intros Hi. unfold goto. cbn. rewrite (alter_insert _ _ i w) by done. by apply sum_insert.
Qed.

Lemma draining_goto i w pc b :
  ib_workers b !! i = Some w → awake (mkWorker pc false) → draining b → draining (goto i pc b).
Proof.
  intros Hi Ha (Hs & Hf & Hp). unfold goto. split_and!; cbn; [done| |].
  - apply Forall_alter; [done|]. intros w' _ _. by destruct pc.
  - destruct (ib_stopper b); try done.
    + by rewrite Hp.
    + intros E. apply Hp. apply length_zero_iff_nil. by rewrite <- (length_alter (λ w, mkWorker pc (bw_stop w)) _ i), E.
Qed.

(** A worker's move keeps the draining and lowers what is left. *)
Lemma drain_goto i w pc q b :
  ib_workers b !! i = Some w → awake (mkWorker pc false) → draining b →
  4 * length q + rank (mkWorker pc (bw_stop w)) < 4 * length (ib_queue b) + rank w →
  draining (goto i pc (b <| ib_queue := q |>)) ∧
  stop_left (goto i pc (b <| ib_queue := q |>)) < stop_left b.
Proof.
  intros Hi Ha Hd Hlt. split; [by eapply (draining_goto i w)|]. unfold stop_left.
  pose proof (rank_goto i w pc (b <| ib_queue := q |>) Hi) as Hr. cbn in *.
  rewrite length_alter. lia.
Qed.

Lemma drain_stop b b' :
  stop_step b = Some b' → draining b → draining b' ∧ stop_left b' < stop_left b.
Proof.
  intros Hs (Hc & Hf & Hp). unfold stop_step in Hs. destruct (ib_stopper b) eqn:E; try done.
  - destruct (ib_workers b) as [|[pc f] ws] eqn:Ew; simplify_eq; unfold draining, stop_left, rank;
      cbn; rewrite ?Ew, ?E; (split; [|cbn; lia]); [done|].
    split_and!; [done| |done]. apply Forall_cons in Hf as [? ?]. by constructor.
  - destruct (ib_workers b) as [|[[] ?] ws] eqn:Ew; simplify_eq. unfold draining, stop_left. cbn.
    rewrite E, Ew. cbn. apply Forall_cons in Hf as [_ Hf]. split; [done|lia].
Qed.

Lemma drain_step x y :
  stopping_step x y → draining x.1 → draining y.1 ∧ stop_left y.1 < stop_left x.1.
Proof.
  intros (Hs & Hp & Hid) Hd. pose proof Hd as (Hc & Hf & _).
  assert (∀ i w, ib_workers x.1 !! i = Some w → bw_pc w ≠ WAsleep ∧ bw_pc w ≠ WSleepy) as Haw.
  { intros i w Hi. rewrite Forall_lookup in Hf. specialize (Hf i w Hi). unfold awake in Hf.
    by destruct (bw_pc w). }
  destruct Hs as [task b l Hm|b l n Hn Ha|i b l n w Hn Hi Hw|n b l Hi|b l Hi|b b' l Hst|i w b l Hi Hw
    |i w pc q b l Hi Hw Hm Ht|i w pc q b l Hi Hw Hm Ht|i w b l Hi Hw|i w b l Hi Hw|i w task b l Hi Hw];
    cbn [fst snd] in *; try (by destruct (Haw i w Hi)); try done.
  - exfalso. cbn in Hp. apply (f_equal length) in Hp. rewrite length_app in Hp. cbn in Hp. lia.
  - split; [exact Hd|]. unfold stop_left. cbn. lia.
  - by apply drain_stop.
  - apply (drain_goto i w _ (ib_queue b)); [done|by destruct (bw_stop w)|done|].
    unfold rank. rewrite Hw. destruct (bw_stop w); cbn; lia.
  - unfold try_pop in Ht. destruct (ib_queue b) as [|task q'] eqn:Eq; simplify_eq;
      (apply (drain_goto i w); [done|done|done|]); unfold rank; rewrite Hw, Eq; cbn; lia.
  - unfold wait_pop in Ht. rewrite Hc in Ht. destruct (ib_queue b) as [|task q'] eqn:Eq; simplify_eq;
      (apply (drain_goto i w); [done|done|done|]); unfold rank; rewrite Hw, Eq; cbn; lia.
  - apply (drain_goto i w _ (ib_queue b)); [done|done|done|]. unfold rank. rewrite Hw. cbn. lia.
Qed.

Lemma draining_runs x y : rtc stopping_step x y → draining x.1 → draining y.1.
Proof. induction 1 as [|x y z Hs _ IH]; [done|]. intros Hd. apply IH. by apply (drain_step x y). Qed.

Lemma stop_bounded n x y :
  nsteps stopping_step n x y → draining x.1 → n + stop_left y.1 ≤ stop_left x.1.
Proof.
  induction 1 as [|n x y z Hs _ IH]; intros Hd; [lia|].
  destruct (drain_step x y Hs Hd) as [Hd' Hlt]. specialize (IH Hd'). lia.
Qed.

Lemma awake_mutex_free b : Forall awake (ib_workers b) → mutex_free b = true.
Proof.
  unfold mutex_free. intros Hf. apply negb_true_iff. induction Hf as [|w ws Hw _ IH]; [done|].
  cbn. rewrite IH. unfold is_sleepy, awake in *. by destruct (bw_pc w).
Qed.

(** An unfinished stop can go on. *)
Lemma draining_progress b l :
  draining b → ib_stopper b ≠ TIdle → ∃ y, stopping_step (b, l) y.
Proof.
  intros (Hc & Hf & Hp) Hid.
  assert (∀ b' l', bus_step (b, l) (b', l') → pushed l' = pushed l → ∃ y, stopping_step (b, l) y) as Hgo
    by (intros b' l' H1 H2; exists (b', l'); done).
  destruct (ib_stopper b) eqn:E; try done.
  - destruct (stop_step b) as [b'|] eqn:Es.
    + by apply (Hgo b' l); [apply bs_stop_step|].
    + unfold stop_step in Es. rewrite E in Es. by destruct (ib_workers b).
  - pose proof (awake_mutex_free b Hf) as Hm.
    destruct (ib_workers b) as [|[pc f] ws] eqn:Ew; [done|].
    assert (ib_workers b !! 0 = Some (mkWorker pc f)) as H0 by by rewrite Ew.
    apply Forall_cons in Hf as [Ha _]. destruct pc; try done.
    + eapply Hgo; [by eapply (bs_test 0)|done].
    + destruct (try_pop (ib_queue b)) as [pc q] eqn:Et.
      eapply Hgo; [by eapply (bs_try 0)|done].
    + destruct (wait_pop (ib_stop b) (ib_queue b)) as [pc q] eqn:Et.
      eapply Hgo; [by eapply (bs_wait 0)|done].
    + eapply Hgo; [by eapply (bs_run 0)|done].
    + eapply Hgo; [|done]. apply bs_stop_step. unfold stop_step. by rewrite E, Ew.
Qed.

(** The flag of the inbox is set before the notification. *)
Lemma stop_flag_first x :
  rtc bus_step (inbox_new, mkLog [] [] []) x → ib_stopper x.1 = TNotify → ib_stop x.1 = true.
Proof.
  intros Hr. refine (rtc_ind_r (λ x, ib_stopper x.1 = TNotify → ib_stop x.1 = true) _ _ _ x Hr); [done|].
  intros y z _ Hs IH. destruct Hs as [| | |n b l Hid|b l Hid|b b' l Hst| | | | | |]; try done.
  - unfold start_workers. by destruct (ib_running b).
  - unfold stop_workers. by destruct (ib_running b).
  - unfold stop_step in Hst. cbn [fst] in *.
    destruct (ib_stopper b), (ib_workers b) as [|[[] ?] ?]; simplify_eq; cbn; done.
Qed.

End stop.

(** ** Instance *)

(** A worker asleep on an empty inbox when the stop is about to notify. *)
Definition demo_notify : Inbox string := mkInbox [] true [mkWorker WAsleep false] false 0 TNotify.

Lemma demo_notify_reached :
  rtc bus_step (inbox_new, mkLog [] [] []) (demo_notify, mkLog [] [] []).
Proof.
  eapply rtc_l. { by apply (bs_start 1). }
  eapply rtc_l. { by apply (bs_test 0 (mkWorker WTest false)). }
  eapply rtc_l. { by eapply (bs_try 0 (mkWorker WTry false)). }
  eapply rtc_l. { by eapply (bs_wait 0 (mkWorker WWait false)). }
  eapply rtc_l. { by apply (bs_sleep 0 (mkWorker WSleepy false)). }
  eapply rtc_l. { by apply bs_stop. }
  eapply rtc_l. { by apply bs_stop_step. }
  apply rtc_refl.
Qed.

