(* ===== verification/Shutdown.v ===== *)
(** * Running and stopping the server (src/main.cpp, second half)

    The threads [main] starts and joins: the one waiting for the gRPC server, the
    heartbeat thread, the reactor with its pools and the bus workers.  A signal sets
    [g_stop]; [main] then shuts the gRPC server down, stops the reactor, joins the two
    threads, stops the bus and returns.  [Server::Shutdown] without a deadline blocks
    until the calls in progress have ended. *)

From S2P Require Import Prelude HexCodec TtsService PriorityTimer ThreadPool Reactor ReactorFacts BusWorkers.

Inductive MainPc : Type :=
| PStart                       (* about to run the reactor *)
| PSleep                       (* polling [g_stop] every 200 ms *)
| PServer                      (* in [server->Shutdown()] *)
| PReactor                     (* about to call [reactor->stop()] *)
| PReactorWait                 (* inside it *)
| PJoinServer
| PJoinHeartbeat
| PBus                         (* about to call [bus->stop_workers()] *)
| PBusWait
| PExit.                       (* [return 0] *)
#[global] Instance MainPc_eq_dec : EqDecision MainPc.
Proof. solve_decision. Defined.

(** The heartbeat thread: testing [g_stop], in a round (tick, responses and [jobs]
    local jobs still to run), sleeping, ended. *)
Inductive HeartbeatPc : Type := HTest | HRound (jobs : nat) | HSleep | HEnd.

Section shutdown.
Context {F T : Type}.

Record Process := mkProcess {
  g_stop : bool;
  pr_main : MainPc;
  pr_heartbeat : HeartbeatPc;
  pr_serving : bool;           (* the gRPC server accepts calls *)
  pr_calls : nat;              (* calls in progress *)
  pr_waiter : bool;            (* the thread in [server->Wait()] *)
  pr_reactor : Reactor F * Reactor.Log F;
  pr_bus : Inbox T * BusWorkers.Log T;
  pr_ticks : nat;              (* ticks so far *)
}.
#[global] Instance Process_eta : Eta Process := {|
  eta_expand p := mkProcess (g_stop p) (pr_main p) (pr_heartbeat p) (pr_serving p) (pr_calls p)
    (pr_waiter p) (pr_reactor p) (pr_bus p) (pr_ticks p) |}.
Implicit Types p : Process.

(** After start-up, the bus workers and both threads running. *)
Definition process_new (cpu_workers io_workers bus_workers : nat) : Process :=
  mkProcess false PStart HTest true 0 true (reactor_new cpu_workers io_workers, log_new)
    (start_workers bus_workers inbox_new, BusWorkers.mkLog [] [] []) 0.

Definition on_signal p : Process := p <| g_stop := true |>.

(** The next step of [main]; [None]: it waits. *)
Definition main_step p : option Process :=
  match pr_main p with
  | PStart =>
      Some (p <| pr_reactor := (reactor_run true (pr_reactor p).1, (pr_reactor p).2) |>
              <| pr_main := PSleep |>)
  | PSleep => if g_stop p then Some (p <| pr_serving := false |> <| pr_main := PServer |>)
              else Some p
  | PServer => match pr_calls p with
               | O => Some (p <| pr_main := PReactor |>)
               | S _ => None
               end
  | PReactor =>
      Some (p <| pr_reactor := (reactor_stop (pr_reactor p).1, (pr_reactor p).2) |>
              <| pr_main := PReactorWait |>)
  | PReactorWait => match r_stopper (pr_reactor p).1 with
                    | SIdle => Some (p <| pr_main := PJoinServer |>)
                    | _ => None
                    end
  | PJoinServer => if pr_waiter p then None else Some (p <| pr_main := PJoinHeartbeat |>)
  | PJoinHeartbeat => match pr_heartbeat p with
                      | HEnd => Some (p <| pr_main := PBus |>)
                      | _ => None
                      end
  | PBus => Some (p <| pr_bus := (stop_workers (pr_bus p).1, (pr_bus p).2) |>
                    <| pr_main := PBusWait |>)
  | PBusWait => match ib_stopper (pr_bus p).1 with
                | TIdle => Some (p <| pr_main := PExit |>)
                | _ => None
                end
  | PExit => None
  end.

(** The next step of the heartbeat thread; a new round has [jobs] local jobs. *)
Definition heartbeat_step (jobs : nat) p : option Process :=
  match pr_heartbeat p with
  | HTest => Some (if g_stop p then p <| pr_heartbeat := HEnd |>
                   else p <| pr_heartbeat := HRound jobs |> <| pr_ticks := S (pr_ticks p) |>)
  | HRound O => Some (p <| pr_heartbeat := HSleep |>)
  | HRound (S jobs) => Some (p <| pr_heartbeat := HRound jobs |>)
  | HSleep => Some (p <| pr_heartbeat := HTest |>)
  | HEnd => None
  end.

(** Steps of the reactor and the bus that are not calls of [run], [stop],
    [start_workers] or [stop_workers]: those are [main]'s. *)
Inductive process_step : Process → Process → Prop :=
| prs_signal p : process_step p (on_signal p)
| prs_main p p' : main_step p = Some p' → process_step p p'
| prs_heartbeat jobs p p' : heartbeat_step jobs p = Some p' → process_step p p'
| prs_call p : pr_serving p = true → process_step p (p <| pr_calls := S (pr_calls p) |>)
| prs_return p n : pr_calls p = S n → process_step p (p <| pr_calls := n |>)
| prs_waiter p :
    pr_serving p = false → pr_calls p = 0 → process_step p (p <| pr_waiter := false |>)
| prs_reactor p r :
    reactor_step (pr_reactor p) r → r_running r.1 = r_running (pr_reactor p).1 →
    process_step p (p <| pr_reactor := r |>)
| prs_bus p b :
    bus_step (pr_bus p) b → ib_running b.1 = ib_running (pr_bus p).1 →
    process_step p (p <| pr_bus := b |>).

(** ** Leaving *)

(** Workers left by a bus that is not running and not being stopped: none. *)
Definition bus_idle (b : Inbox T) : Prop :=
  (ib_stopper b ≠ TIdle → ib_running b = false) ∧
  (ib_stopper b = TIdle → ib_running b = false → ib_workers b = []).

Lemma bus_idle_step b l b' l' : bus_step (b, l) (b', l') → bus_idle b → bus_idle b'.
Proof.
  intros Hs [H1 H2]. unfold bus_idle.
  inversion Hs as [task ?? Hm|??? Hn Ha|i ?? n w Hn Hi Hw|n ?? Hid|?? Hid|??? Hst|i w ?? Hi Hw
    |i w pc q ?? Hi Hw Hm Ht|i w pc q ?? Hi Hw Hm Ht|i w ?? Hi Hw|i w ?? Hi Hw|i w task ?? Hi Hw];
    subst; clear Hs; try done;
    try (split; [done|]; cbn; intros Ha Hb; specialize (H2 Ha Hb); by rewrite H2 in Hi).
  - unfold start_workers. destruct (ib_running b) eqn:Er; cbn; rewrite ?Er;
      split; try done; auto; by rewrite Hid.
  - unfold stop_workers. destruct (ib_running b) eqn:Er; cbn; rewrite ?Er; split; try done; auto.
  - unfold stop_step in Hst. destruct (ib_stopper b) eqn:Est; try done; repeat case_match;
      simplify_eq/=; split; try done; auto.
Qed.

(** A reactor whose [stop] has returned has no workers left in its pools. *)
Definition idle_exited (r : Reactor F) : Prop :=
  r_stopper r = SIdle → r_running r = false → r_loop r ≠ RNone →
  all_exited (r_cpu r) = true ∧ all_exited (r_io r) = true.

Lemma idle_exited_step r l r' l' :
  reactor_step (r, l) (r', l') → stop_inv r → cpu_inv r → idle_exited r → idle_exited r'.
Proof.
  unfold idle_exited. intros Hs Hst Hcpu Hex.
  inversion Hs as [tick ?? Hi|?? Hi|??? Hstep|??????|???? Hn Hstep|???? Hp|???? Hp]; subst;
    clear Hs; try done.
  - unfold reactor_run. destruct (r_running r) eqn:Er; cbn; rewrite ?Er; done.
  - unfold reactor_stop. destruct (r_running r) eqn:Er; cbn; rewrite ?Er; done.
  - unfold Reactor.stop_step in Hstep. destruct (r_stopper r) eqn:Est; try done;
      repeat case_match; simplify_eq/=; try done.
    intros _ _ _. split; [|done]. apply Hcpu. auto.
  - destruct (main_loop_flags _ _ _ Hstep) as [-> ->]. intros H1 H2 _.
    destruct Hst as [_ Hst]. rewrite H1 in Hst. specialize (Hst H2).
    unfold loop_ended in Hst. unfold main_loop in Hstep. by destruct (r_loop r).
  - cbn. intros H1 H2 H3. destruct (Hex H1 H2 H3) as [H4 H5]. split; [|done].
    by eapply exited_step.
  - cbn. intros H1 H2 H3. destruct (Hex H1 H2 H3) as [H4 H5]. split; [done|].
    by eapply exited_step.
Qed.

(** What other threads do to a reactor between the calls of [main]. *)
Lemma reactor_background (r r' : Reactor F) l l' :
  reactor_step (r, l) (r', l') → r_running r' = r_running r →
  (r_stopper r = SIdle → r_running r = false → r_stopper r' = SIdle) ∧
  (r_loop r' = RNone ↔ r_loop r = RNone).
Proof.
  intros Hs Hr.
  inversion Hs as [tick ?? Hi|?? Hi|??? Hstep|??????|???? Hn Hstep|???? Hp|???? Hp]; subst;
    clear Hs; try done.
  - unfold reactor_run in *. by destruct (r_running r) eqn:Er.
  - unfold reactor_stop in *. by destruct (r_running r) eqn:Er.
  - assert (r_loop r' = r_loop r) as El.
    { unfold Reactor.stop_step in Hstep.
      destruct (r_stopper r), (r_loop r) eqn:El; repeat case_match; by simplify_eq/=. }
    rewrite El. split; [|done]. unfold Reactor.stop_step in Hstep. by destruct (r_stopper r).
  - destruct (main_loop_flags _ _ _ Hstep) as [_ ->]. split; [done|].
    unfold main_loop in Hstep.
    destruct (r_loop r) as [| | |[|]| | |]; try done; [|destruct (pop_expired _ _ _)|..];
      simplify_eq/=; try done. by destruct (_ && _).
Qed.

Lemma bus_background (b b' : Inbox T) l l' :
  bus_step (b, l) (b', l') → ib_running b' = ib_running b →
  ib_stopper b = TIdle → ib_running b = false → ib_stopper b' = TIdle.
Proof.
  intros Hs Hr Hi Hf. inversion Hs; subst; clear Hs; try done.
  - unfold start_workers in *. by rewrite Hf in *.
  - unfold stop_workers in *. by rewrite Hf in *.
  - match goal with H : stop_step b = _ |- _ => unfold stop_step in H; by rewrite Hi in H end.
Qed.

(** How far [main] is. *)
Definition rank (pc : MainPc) : nat :=
  match pc with
  | PStart => 0 | PSleep => 1 | PServer => 2 | PReactor => 3 | PReactorWait => 4
  | PJoinServer => 5 | PJoinHeartbeat => 6 | PBus => 7 | PBusWait => 8 | PExit => 9
  end.

Definition process_inv p : Prop :=
  let r := (pr_reactor p).1 in let b := (pr_bus p).1 in let n := rank (pr_main p) in
  (stop_inv r ∧ cpu_inv r ∧ idle_exited r ∧ bus_idle b) ∧
  (n = 0 → r_running r = false ∧ r_stopper r = SIdle) ∧ (r_loop r = RNone ↔ n = 0) ∧
  (1 ≤ n ≤ 3 → r_running r = true) ∧ (4 ≤ n → r_running r = false) ∧
  (5 ≤ n → r_stopper r = SIdle) ∧ (2 ≤ n → g_stop p = true ∧ pr_serving p = false) ∧
  (3 ≤ n → pr_calls p = 0) ∧ (6 ≤ n → pr_waiter p = false) ∧
  (7 ≤ n → pr_heartbeat p = HEnd) ∧ (n ≤ 7 → ib_running b = true) ∧
  (8 ≤ n → ib_running b = false) ∧
  (9 ≤ n → ib_stopper b = TIdle).

Lemma reactor_run_inv tick (r : Reactor F) :
  stop_inv r → cpu_inv r → idle_exited r → r_running r = false → r_stopper r = SIdle →
  stop_inv (reactor_run tick r) ∧ cpu_inv (reactor_run tick r) ∧ idle_exited (reactor_run tick r) ∧
  r_loop (reactor_run tick r) ≠ RNone ∧ r_running (reactor_run tick r) = true.
Proof.
  intros H1 H2 H3 H4 H5. pose proof (rs_run tick r log_new H5) as Hs.
  split_and!; [by eapply stop_inv_step|by eapply cpu_inv_step|by eapply idle_exited_step|..];
    unfold reactor_run; by rewrite H4.
Qed.

Lemma reactor_stop_inv (r : Reactor F) :
  stop_inv r → cpu_inv r → idle_exited r → r_running r = true →
  stop_inv (reactor_stop r) ∧ cpu_inv (reactor_stop r) ∧ idle_exited (reactor_stop r) ∧
  r_loop (reactor_stop r) = r_loop r ∧ r_running (reactor_stop r) = false.
Proof.
  intros H1 H2 H3 H4.
  assert (r_stopper r = SIdle) as H5
    by (destruct H1 as [H1 _]; destruct (r_stopper r); try done; by specialize (H1 ltac:(done)); congruence).
  pose proof (rs_stop r log_new H5) as Hs.
  split_and!; [by eapply stop_inv_step|by eapply cpu_inv_step|by eapply idle_exited_step|..];
    unfold reactor_stop; by rewrite H4.
Qed.

Lemma bus_stop_inv (b : Inbox T) :
  bus_idle b → ib_running b = true →
  bus_idle (stop_workers b) ∧ ib_running (stop_workers b) = false.
Proof. unfold stop_workers. by intros _ ->. Qed.

Ltac know_rank :=
  repeat match goal with
  | H : ?n = ?n → _ |- _ => specialize (H eq_refl)
  | H : (_ ≤ _ ≤ _)%nat → _ |- _ => first [specialize (H ltac:(lia))|clear H]
  | H : (_ ≤ _)%nat → _ |- _ => first [specialize (H ltac:(lia))|clear H]
  end.

Lemma process_inv_main p p' : main_step p = Some p' → process_inv p → process_inv p'.
Proof.
  intros Hs ((Hst & Hcp & Hex & Hbu) & H0 & H1 & H2 & H3 & H4 & H5 & H6 & H7 & H8 & H9 & H10 & H11).
  unfold main_step in Hs. destruct p as [g m h sv c w [r rl] [b bl] t]. cbn in *.
  destruct m; cbn in *; know_rank;
    [destruct H0 as [Hr Hi]; destruct (reactor_run_inv true r Hst Hcp Hex Hr Hi) as (?&?&?&?&?)|..
    |destruct (bus_stop_inv b Hbu H9) as (?&?)| |].
  4: destruct (reactor_stop_inv r Hst Hcp Hex H2) as (?&?&?&El&?).
  all: repeat case_match; simplify_eq; try done; unfold process_inv; cbn;
    split_and!; try done; try (intros; lia); try tauto; try lia.
  all: try (rewrite H1; lia); try (rewrite El, H1; lia); try (split; [done|lia]).
Qed.

Lemma process_inv_step p p' : process_step p p' → process_inv p → process_inv p'.
Proof.
  intros Hs Hinv. destruct Hs as [p|p p' Hm|jobs p p' Hh|p Hv|p n Hc|p Hv Hc|p [r' l'] Hr He|p [b' l'] Hb He];
    [|by eapply process_inv_main|..];
    destruct Hinv as ((Hst & Hcp & Hex & Hbu) & H0 & H1 & H2 & H3 & H4 & H5 & H6 & H7 & H8 & H9 & H10 & H11).
  - unfold process_inv. cbn. split_and!; try done; try tauto.
  - unfold heartbeat_step in Hh. destruct (pr_heartbeat p) as [|[]| |] eqn:Eh; try done;
      [destruct (g_stop p) eqn:Eg|..]; simplify_eq; unfold process_inv; cbn; rewrite ?Eg;
      split_and!; try done; intros Hn; by specialize (H8 Hn).
  - unfold process_inv. cbn. split_and!; try done. intros Hn.
    destruct (H5 ltac:(lia)). congruence.
  - unfold process_inv. cbn. split_and!; try done. intros Hn. specialize (H6 Hn). congruence.
  - unfold process_inv. cbn. split_and!; done.
  - destruct (pr_reactor p) as [r l] eqn:Er. cbn in *.
    destruct (reactor_background _ _ _ _ Hr He) as [Hi Hn].
    unfold process_inv. cbn. rewrite He. split_and!; try done.
    + by eapply stop_inv_step.
    + by eapply cpu_inv_step.
    + by eapply idle_exited_step.
    + intros E. destruct (H0 E). auto.
    + by rewrite Hn.
    + intros E. apply Hi; [by apply H4|apply H3; lia].
  - destruct (pr_bus p) as [b l] eqn:Eb. cbn in *.
    unfold process_inv. cbn. rewrite He. split_and!; try done.
    + by eapply bus_idle_step.
    + intros E. eapply bus_background; [done|done|by apply H11|apply H10; lia].
Qed.

Lemma process_reachable_inv cpu io bus p :
  rtc process_step (process_new cpu io bus) p → process_inv p.
Proof.
  refine (rtc_ind_r process_inv _ _ _ p).
  - unfold process_inv. cbn. split_and!; try done; lia || by intros [|].
  - intros ? ? _ Hs. by apply process_inv_step.
Qed.

(** C20: [main] returns only when nothing is left running: the gRPC server has been shut
    down and no call is in progress, the reactor's loop has ended and the workers of
    both pools have exited, the two threads have ended and every bus worker has been
    joined and deleted. *)
Theorem main_exits_clean cpu io bus p :
  rtc process_step (process_new cpu io bus) p → pr_main p = PExit →
  g_stop p = true ∧ pr_serving p = false ∧ pr_calls p = 0 ∧ pr_waiter p = false ∧
  pr_heartbeat p = HEnd ∧ loop_ended (pr_reactor p).1 = true ∧
  all_exited (r_cpu (pr_reactor p).1) = true ∧ all_exited (r_io (pr_reactor p).1) = true ∧
  ib_workers (pr_bus p).1 = [].
Proof.
  intros Hr Hm. apply process_reachable_inv in Hr as
    ((Hst & _ & Hex & Hbu) & _ & H1 & _ & H3 & H4 & H5 & H6 & H7 & H8 & _ & H10 & H11).
  rewrite Hm in *. cbn in *. know_rank. destruct H5 as [H5 H5'].
  destruct (Hex H4 H3 ltac:(rewrite H1; lia)) as [H12 H13].
  destruct Hst as [_ Hst]. rewrite H4 in Hst. destruct Hbu as [_ Hbu].
  split_and!; auto.
Qed.

(** Once the stop flag is set no further tick begins: the heartbeat thread only
    finishes its round. *)
Lemma no_tick_step p p' :
  process_step p p' → g_stop p = true → g_stop p' = true ∧ pr_ticks p' = pr_ticks p.
Proof.
  intros Hs Hg. destruct Hs as [p|p p' Hm|jobs p p' Hh| | | | |]; try done.
  - unfold main_step in Hm. repeat case_match; by simplify_eq/=.
  - unfold heartbeat_step in Hh. rewrite Hg in Hh. repeat case_match; by simplify_eq/=.
Qed.

(** Calls in progress are not drained: once the stop flag is set no tick begins, so no
    response is produced any more for the calls that [Server::Shutdown] waits for, and
    [main] stays there as long as one of them has not given up. *)
Theorem shutdown_does_not_drain p p' :
  g_stop p = true → rtc process_step p p' →
  pr_ticks p' = pr_ticks p ∧
  (∀ n, pr_main p' = PServer → pr_calls p' = S n → main_step p' = None).
Proof.
  intros Hg Hr. split.
  - cut (g_stop p' = true ∧ pr_ticks p' = pr_ticks p); [tauto|].
    refine (rtc_ind_r (λ q, g_stop q = true ∧ pr_ticks q = pr_ticks p) _ _ _ p' Hr); [done|].
    intros q q' _ Hs [H1 H2]. destruct (no_tick_step _ _ Hs H1). split; congruence.
  - intros n H1 H2. unfold main_step. by rewrite H1, H2.
Qed.
End shutdown.
Arguments Process F T : clear implicits.

(** ** Instances *)

(** A run to the end, without pool or bus workers busy: the reactor and the bus stop. *)
Definition final_reactor : Reactor string * Reactor.Log string :=
  (demo_stopping <| r_stopper := SIdle |>, log_new).

Definition demo_exit : Process string string :=
  mkProcess true PExit HEnd false 0 false final_reactor
    (mkInbox [] true [] false 0 TIdle, BusWorkers.mkLog [] [] []) 1.

(** Some of the steps, executable. *)
Inductive Move : Type :=
| XMain | XHeartbeat (jobs : nat) | XSignal | XWaiter
| XReactorStop | XReactorLoop (now : TimePoint) | XCpuTest (i : nat) | XIoTest (i : nat)
| XBusStop | XBusTest (i : nat).

Definition pool_test (i : nat) (p : ThreadPool (Task string)) : option (ThreadPool (Task string)) :=
  match ThreadPool.workers_ p !! i with
  | Some AtLoop => Some (ThreadPool.goto i (if stop_ p then Exited else AtWait) p)
  | _ => None
  end.

Definition bus_test (i : nat) (b : Inbox string) : option (Inbox string) :=
  match ib_workers b !! i with
  | Some (mkWorker WTest stop) => Some (BusWorkers.goto i (if stop then WExit else WTry) b)
  | _ => None
  end.

Definition process_move (m : Move) (p : Process string string) : option (Process string string) :=
  let (r, rl) := pr_reactor p in
  let (b, bl) := pr_bus p in
  match m with
  | XMain => main_step p
  | XHeartbeat jobs => heartbeat_step jobs p
  | XSignal => Some (on_signal p)
  | XWaiter => if negb (pr_serving p) && (pr_calls p =? 0)
               then Some (p <| pr_waiter := false |>) else None
  | XReactorStop => r' ← Reactor.stop_step r; Some (p <| pr_reactor := (r', rl) |>)
  | XReactorLoop now =>
      if (l_now rl <=? now)%Z
      then r' ← main_loop now r;
           Some (p <| pr_reactor :=
             (r', rl <| l_now := now |> <| l_fired := l_fired rl ++ firing r |>) |>)
      else None
  | XCpuTest i => q ← pool_test i (r_cpu r);
                  Some (p <| pr_reactor := (r <| r_cpu := q |>, rl <| l_cpu := l_cpu rl |>) |>)
  | XIoTest i => q ← pool_test i (r_io r);
                 Some (p <| pr_reactor := (r <| r_io := q |>, rl <| l_io := l_io rl |>) |>)
  | XBusStop => b' ← BusWorkers.stop_step b; Some (p <| pr_bus := (b', bl) |>)
  | XBusTest i => b' ← bus_test i b; Some (p <| pr_bus := (b', bl) |>)
  end.

Definition process_moves (ms : list Move) (p : Process string string)
    : option (Process string string) :=
  foldl (λ p m, p ≫= process_move m) (Some p) ms.

Lemma pool_test_step i p q (l : ThreadPool.Log (Task string)) :
  pool_test i p = Some q → pool_any (p, l) (q, l).
Proof.
  unfold pool_test. intros H. left. destruct (ThreadPool.workers_ p !! i) as [[]|] eqn:E;
    simplify_eq. by apply ps_loop.
Qed.

Lemma bus_test_step i b b' l : bus_test i b = Some b' → bus_step (b, l) (b', l).
Proof.
  unfold bus_test. intros H. destruct (ib_workers b !! i) as [[[] stop]|] eqn:E; simplify_eq.
  by apply (bs_test i (mkWorker WTest stop)).
Qed.

Lemma stop_step_running (r r' : Reactor string) :
  Reactor.stop_step r = Some r' → r_running r' = r_running r.
Proof. unfold Reactor.stop_step. intros H. repeat case_match; by simplify_eq/=. Qed.

Lemma bus_stop_step_running (b b' : Inbox string) :
  BusWorkers.stop_step b = Some b' → ib_running b' = ib_running b.
Proof. unfold BusWorkers.stop_step. intros H. repeat case_match; by simplify_eq/=. Qed.

Lemma process_move_step m p p' : process_move m p = Some p' → process_step p p'.
Proof.
  unfold process_move. destruct (pr_reactor p) as [r rl] eqn:Er, (pr_bus p) as [b bl] eqn:Eb.
  destruct m.
  - by apply prs_main.
  - by apply prs_heartbeat.
  - intros [= <-]. apply prs_signal.
  - destruct (negb (pr_serving p)) eqn:Es, (Nat.eqb_spec (pr_calls p) 0); try done.
    intros [= <-]. apply prs_waiter; [by apply negb_true_iff|done].
  - intros (r' & H & [= <-])%bind_Some. apply prs_reactor; rewrite Er; [by apply rs_stop_step|].
    by apply stop_step_running.
  - destruct (Z.leb_spec (l_now rl) now); [|done]. intros (r' & H1 & [= <-])%bind_Some.
    apply prs_reactor; rewrite Er; [by apply rs_loop|]. by destruct (main_loop_flags _ _ _ H1).
  - intros (q & H & [= <-])%bind_Some. apply prs_reactor; rewrite Er; [|done].
    by eapply rs_cpu, pool_test_step.
  - intros (q & H & [= <-])%bind_Some. apply prs_reactor; rewrite Er; [|done].
    by eapply rs_io, pool_test_step.
  - intros (b' & H & [= <-])%bind_Some. apply prs_bus; rewrite Eb; [by apply bs_stop_step|].
    by apply bus_stop_step_running.
  - intros (b' & H & [= <-])%bind_Some. apply prs_bus; rewrite Eb; [by eapply bus_test_step|].
    unfold bus_test in H. repeat case_match; by simplify_eq/=.
Qed.

Lemma process_moves_rtc ms p p' : process_moves ms p = Some p' → rtc process_step p p'.
Proof.
  unfold process_moves. revert p'. induction ms as [|m ms IH] using rev_ind; intros p';
    [by intros [= ->]|].
  rewrite foldl_app. cbn. intros (p1 & H1 & H2)%bind_Some.
  eapply rtc_r; [by apply IH|by eapply process_move_step].
Qed.

Lemma demo_exit_reached : rtc process_step (process_new 1 1 1) demo_exit.
Proof.
  apply (process_moves_rtc
    [XMain; XHeartbeat 0; XHeartbeat 0; XHeartbeat 0; XSignal; XHeartbeat 0; XMain; XWaiter; XMain;
     XMain; XReactorStop; XReactorLoop 0; XReactorStop; XReactorStop; XCpuTest 0; XReactorStop;
     XReactorStop; XIoTest 0; XReactorStop; XMain; XMain; XMain; XMain; XBusStop; XBusStop;
     XBusStop; XBusTest 0; XBusStop; XBusStop; XMain]).
  by vm_compute.
Qed.

Example main_exits_clean_witness :
  pr_main demo_exit = PExit ∧ ib_workers (pr_bus demo_exit).1 = [].
Proof.
  split; [done|].
  by destruct (main_exits_clean 1 1 1 demo_exit demo_exit_reached eq_refl)
    as (_ & _ & _ & _ & _ & _ & _ & _ & H).
Defined.

Example shutdown_does_not_drain_witness :
  let p := on_signal ((process_new (F:=string) (T:=string) 1 1 1) <| pr_calls := 1 |>
             <| pr_main := PServer |> <| pr_serving := false |>) in
  main_step p = None.
Proof.
  intros p. destruct (shutdown_does_not_drain p p eq_refl (rtc_refl process_step p)) as [_ H].
  by apply (H 0).
Defined.
